(* ===== verification/_CoqProject ===== *)
-Q . S2P
Prelude.v
Vfs.v
Kthread.v
KthreadCreate.v
KthreadCreateInv.v
KthreadCreateThms.v
KthreadClaims.v
XorCrypt.v
XorCryptInv.v
XorCryptThms.v
XorCryptSched.v
XorCryptGood.v
XorDecrypt.v
CryptClaims.v
App.v
AppThms.v
AppTurn.v
AppClaims.v
Session.v
SessionClaims.v
Range.v
RangeThms.v
RangeClaims.v
Bits.v
Tnum.v
TnumThms.v
BpfReg.v
BpfRegThms.v
BpfCoerce.v
BpfAlu.v
BpfAluThms.v
BpfShift.v
BpfAluSound.v
BpfJmp.v
BpfJmpThms.v
BpfProg.v
BpfCheck.v
BpfRewrite.v
BpfMeta.v
BpfStands.v
BpfCheckAlu.v
BpfCheckJmp.v
BpfCheckWalk.v
BpfRewriteThms.v
BpfClaims.v
BpfProgClaims.v
LpmTrie.v
LpmMatch.v
LpmTree.v
LpmOps.v
LpmUpdate.v
LpmIter.v
BpfMap.v
BpfMapThms.v
LpmMap.v
LpmClaims.v
QueueStack.v
QueueStackThms.v
QueueClaims.v
TimeConv.v
TimeConvThms.v
Timespec.v
Ntp.v
NtpThms.v
Timekeeping.v
TkEntry.v
TkInv.v
TkRead.v
TkSet.v
TkTick.v
TkAdvance.v
TkAdjust.v
TkWorld.v
TkLatch.v
TkLatchThms.v
TkSuspend.v
TkSuspendThms.v
TimeClaims.v
