(* ===== verification/Prelude.v ===== *)
(** * A verification of the USAC Linux exercises

    The repository holds two practical exercises on the Linux 6.6.45 kernel and
    a web dashboard.  Practica 1 adds two system calls, [get_current_time] and
    [get_system_uptime], a boot message and a system name to a tree that holds
    [kernel/], [include/], [init/] and [arch/].  Practica 2 adds two system
    calls, [my_encrypt] and [my_decrypt], that XOR a file with a key in several
    kernel threads, and two command-line programs that call them.  The
    development models the exercises' own C code, and the parts of the kernel
    tree that carry the logic the exercises stand on or that decide by
    themselves whether the kernel is safe.

    ** Parts of the program and their files

    - This file: integers of a fixed width ([u32], [s64], ... and the tactic
      [cint]), error numbers, updating of records field by field.
    - Kernel threads, [kernel/kthread.c].  [Kthread] is the part behind
      [kthread_should_stop] and [kthread_stop].  [KthreadCreate] is the creation
      of threads: any number of callers of [kthread_run] beside [kthreadd] and
      the threads it forks, one [step] per access to the structure they share;
      [KthreadCreateInv] is its invariant, [KthreadCreateThms] and
      [KthreadClaims] what follows.
    - Crypt system calls, [Practica2/linux-6.6.45/kernel/my_encrypt.c] and
      [my_decrypt.c].  [Vfs] is the class of kernel services whose code is not
      in the repository (files, [kmalloc], [copy_from_user]) with its laws, and
      instances that run.  A write may be short, a transfer has at most
      [MAX_RW_COUNT] bytes, and several paths may lead to one file
      ([same_file]).  [XorCrypt] is [my_encrypt.c]: the entry ([syscall_entry]:
      loading key and data, allocation), the machine [step] whose labels say
      which thread moves and what the environment answers, the worker
      ([worker_step], [xor_encrypt_worker] in the source), the caller
      ([main_step]), writing and freeing; the static mutex is shared with the
      workers of other calls, whose locking and unlocking are labels too.
      [XorDecrypt] translates [my_decrypt.c] on its own and proves that the two
      sources do the same to the files.  [XorCryptInv] is the invariant,
      [XorCryptThms] the consequences, [XorCryptGood] the schedules under which
      it does its work, [XorCryptSched] those under which it misbehaves,
      [CryptClaims] the properties.
    - Command-line programs, [Practica2/apps/encrypt_app.c] and [decrypt_app.c]:
      [App] (the line buffer, [strtok] on offsets, option parsing, the main
      loop), [AppThms], [AppTurn] (a turn on a complete line), [AppClaims].
    - Sessions: [Session] runs the programs on top of the system calls, with the
      256 bytes that the kernel copies from the buffer and the stack behind it;
      [SessionClaims].
    - Address ranges, [kernel/range.c]: [Range], [RangeThms], [RangeClaims].
    - BPF verifier and interpreter, [Practica1/linux-6.6.45/kernel/bpf/]: [Bits]
      (words and [fls]), [Tnum] and [TnumThms] (tracked numbers of [tnum.c]),
      [BpfReg], [BpfRegThms] and [BpfCoerce] (bounds of a register), [BpfAlu],
      [BpfAluThms], [BpfShift] and [BpfAluSound] (ALU instructions, with the
      interpreter of [core.c]), [BpfJmp] and [BpfJmpThms] (conditional jumps),
      [BpfClaims].  [BpfProg] is the interpreter on whole programs with the
      checks that [do_misc_fixups] adds, [BpfCheck] the verifier's walk
      ([do_check]) over programs of scalar instructions, and [BpfRewrite] what
      [bpf_check] does before and after it: the first pass, and the hard-wiring,
      removal or trapping of dead code.  [BpfMeta], [BpfStands], [BpfCheckAlu],
      [BpfCheckJmp] and [BpfCheckWalk] relate the walk to the interpreter,
      [BpfRewriteThms] the program before the rewriting to the one after it;
      [BpfProgClaims].
    - BPF maps.  [LpmTrie] is the longest-prefix-match map of [lpm_trie.c], all
      of its operations; [LpmMatch] the comparison of prefixes, [LpmTree] the
      invariant of the tree, [LpmOps] the abstract map and lookup, [LpmUpdate]
      update, deletion and the simulation, [LpmIter] iteration, sizes and
      freeing.  [BpfMap] holds the batch operations of [syscall.c], with their
      32-bit offsets into the arrays of the user, over any map, which is an
      instance of the class [map_ops]; [BpfMapThms] proves them
      against the class [map_laws] and [LpmMap] shows that the trie keeps those
      laws; [LpmClaims].  [QueueStack], [QueueStackThms] and [QueueClaims] are the
      queue and stack maps of [queue_stack_maps.c].
    - Time, [Practica1/linux-6.6.45/kernel/time/]: [TimeConv] and
      [TimeConvThms] (calendar conversions of [timeconv.c] and [time.c]),
      [Timespec] (arithmetic of [timespec64] and [ktime_t]), [Ntp] and [NtpThms]
      ([ntp.c]), [Timekeeping] (the timekeeper and the static helpers of
      [timekeeping.c]), [TkEntry] (its entry points and the two system calls of
      Practica 1), [TkInv], [TkRead], [TkSet], [TkTick], [TkAdvance], [TkAdjust]
      and [TkWorld] (its theorems), [TkLatch] and [TkLatchThms] (the clocks that
      interrupts read, and the latch between their readers and the tick as a
      machine), [TkSuspend] and [TkSuspendThms] (suspend and resume, with the
      suspend timing of [clocksource.c]), [TimeClaims].

    A session composes the command-line programs with the crypt system calls:
    the pointers a program passes lead into its line buffer, and the result of
    the call decides what it prints.  The workers of a crypt call use the stop
    protocol of [Kthread].  The verifier and the interpreter meet in the relation
    between a register state and the values it stands for.  The batch operations
    know a map only through [map_ops] and [map_laws].  The timekeeper owns the
    NTP state and calls [second_overflow] for every second that passes, and the
    two system calls of Practica 1 read the timekeeper.

    ** What the theorems show

    - Sessions: a line typed into [encrypt_app] and one typed into [decrypt_app]
      give back the file, under schedules that exist for all data and keys (not
      empty, transferred at once) and numbers of threads, when the writes are
      complete and the outputs were not longer before; and what a reported
      success means, complete writes or not.
    - Crypt system calls: a call whose threads ran writes the Vernam cipher of
      the data as far as the write went, decryption undoes a complete one, the
      buffer is XORed at most once per byte under every schedule and workers
      exclude each other, a call ends within a bound and blocks at most for a
      worker of another call that holds the mutex; and where it goes wrong: a
      short write and workers that were stopped before they ran are reported as
      success, a failed creation and a released task are used after they are
      freed, the number of threads is not checked.
    - Thread creation: under every interleaving, with callers killed while they
      wait, the shared structure is freed exactly once and nobody uses it later;
      every call ends.
    - Command-line programs: the split into words is the intended one, a
      complete line makes the intended call, and the behaviour on incomplete
      lines and at end of input.
    - Address ranges: merging and subtracting change the set of addresses
      exactly; cleaning and sorting keeps it.
    - Verifier: every operation on tracked numbers and bounds keeps the value
      of the register inside the state, for all arithmetic on scalars and for
      both branches of all comparisons, against the interpreter's result.
      [bpf_check] ends on every program, and what it leaves of an accepted program
      of which no state was pruned runs to a return without an undefined step,
      unless it has one of three instructions that the verifier misjudges, each
      exhibited by a program.
    - Maps: the trie implements a map from prefixes to values under every
      sequence of operations; its iteration visits each prefix once as long as
      no path is longer than the array it uses; its size is bounded and freeing
      gives all of it back; batches stop at the first failure, end whatever
      happens to the map meanwhile, and read back what they wrote up to arrays
      of [2^32] bytes; and where the
      trie departs from its documentation.  Queue and stack maps never leave their
      memory and are bounded lists, up to the size where the offset of a slot
      no longer fits 32 bits.
    - Time: conversion from seconds to dates is the Gregorian calendar and
      [mktime64] is its inverse; NTP variables stay in range and a leap second
      happens once; setting the clock, offsets and sleep time move exactly the
      clocks they should and the monotonic clock never jumps, at a tick least
      of all; the system calls return what they should after that; a read of
      the NMI-safe clocks is atomic under every interleaving with an update; and
      a suspension adds the sleep where it belongs and only there.

    ** Bounds and fuel

    Integers are [Z] with the wrap-around of their C type written out; the
    theorems state the ranges they need.  The product of tracked numbers takes
    64 turns, one per bit of the word.  A schedule of the crypt machine or of
    thread creation is a finite list of labels of any length; that such lists
    are bounded (for thread creation by 20 steps per call) is a theorem.  So is
    a schedule of the latch; there the 32-bit sequence count bounds the updates
    during one read by [2 ^ 31].  The main loop of the command-line programs
    takes one unit of fuel per line of input.  The loops over an array of ranges
    take one unit per slot.  The verifier's walk has one unit per instruction
    that the verifier itself allows (a million) and one more, and the
    interpreter as many; that this is enough is part of the theorem.  The loops
    that remove code take one turn per instruction, and lemmas show that more
    change nothing.  The
    comparison of two prefixes has one turn per byte of a key, the batch lookup
    four per element (one and three retries), freeing a trie one per node;
    lemmas show that none of them runs out.  Every loop of the time code gets the
    fuel its argument asks for (the quotient by which it counts down, plus one),
    and the lemmas give its value, so that no theorem holds by running out.  The
    timekeeper's theorems bound the seconds of a clock by 9,000,000,000, which is
    below the 292 years that fit 64 bits of nanoseconds, and the cycles between
    two ticks by what keeps the product with the multiplier below 64 bits
    ([readable], [tick_ready]).

    ** Not modelled

    - Most of the kernel tree is the unmodified Linux source: scheduling,
      tracing, memory and device headers, KVM, other architectures.
    - Of the modelled files: the verifier's comparison of states (what
      [is_state_visited] answers is a parameter of the walk) with its liveness
      and precision marks, pointers, helper calls and subprograms, and the interpreter's
      memory access, calls and atomic operations; parking, per-CPU binding and
      workers of kernel threads; other kinds of maps, and readers of a trie that
      run beside a writer under RCU; cross timestamps of the timekeeper, PPS and
      the update of the CMOS clock.
    - The lock and the sequence counter of the timekeeper: each entry point holds
      [timekeeper_lock] throughout and readers retry, so an entry point is one
      step; the lock of a map likewise.  The latch of the NMI-safe clocks, whose
      readers do not wait, is modelled action by action, on a memory that keeps
      the order that the barriers of [seqlock.h] ask for.
    - The boot message in [init/main.c], the system name and the system call
      tables are data without behaviour.  The dashboard is not C.
    - Files, memory and user memory are parameters with their documented laws,
      because their code is not in the repository.

    ** Order of the work

    Crypt system calls, programs and sessions, thread creation, verifier and
    interpreter on scalar programs, address ranges, time, and the maps with the
    batch operations are done.  What could follow, in this order: pointers to
    the stack and to map values in the verifier, state pruning, lookups of a trie
    concurrent with an update, cross timestamps. *)
From stdpp Require Export base list gmap relations.
From Stdlib Require Export ZArith Lia Btauto.
From Stdlib Require Import Zbitwise.

#[export] Set Default Goal Selector "!".
#[global] Open Scope Z_scope.

(** ** Fixed-width integers

    A C integer of width [w] is a [Z] in the range of its type; an operation
    that may leave the range is followed by the conversion to that type. *)

Definition u8 (x : Z) : Z := x mod 2 ^ 8.
Definition u16 (x : Z) : Z := x mod 2 ^ 16.
Definition u32 (x : Z) : Z := x mod 2 ^ 32.
Definition u64 (x : Z) : Z := x mod 2 ^ 64.
Definition s8 (x : Z) : Z := (x + 2 ^ 7) mod 2 ^ 8 - 2 ^ 7.
Definition s16 (x : Z) : Z := (x + 2 ^ 15) mod 2 ^ 16 - 2 ^ 15.
Definition s32 (x : Z) : Z := (x + 2 ^ 31) mod 2 ^ 32 - 2 ^ 31.
Definition s64 (x : Z) : Z := (x + 2 ^ 63) mod 2 ^ 64 - 2 ^ 63.

Definition is_u32 (x : Z) : Prop := 0 <= x < 2 ^ 32.
Definition is_u64 (x : Z) : Prop := 0 <= x < 2 ^ 64.
Definition is_s32 (x : Z) : Prop := - 2 ^ 31 <= x < 2 ^ 31.
Definition is_s64 (x : Z) : Prop := - 2 ^ 63 <= x < 2 ^ 63.

Definition U32_MAX : Z := 2 ^ 32 - 1.
Definition U64_MAX : Z := 2 ^ 64 - 1.
Definition S32_MIN : Z := - 2 ^ 31.
Definition S32_MAX : Z := 2 ^ 31 - 1.
Definition S64_MIN : Z := - 2 ^ 63.
Definition S64_MAX : Z := 2 ^ 63 - 1.

#[global] Arguments u8 _ : simpl never.
#[global] Arguments u16 _ : simpl never.
#[global] Arguments u32 _ : simpl never.
#[global] Arguments u64 _ : simpl never.
#[global] Arguments s8 _ : simpl never.
#[global] Arguments s16 _ : simpl never.
#[global] Arguments s32 _ : simpl never.
#[global] Arguments s64 _ : simpl never.

(** [cint] decides linear goals that mention the conversions. *)
Ltac cint_unfold :=
  unfold u8, u16, u32, u64, s8, s16, s32, s64, is_u32, is_u64, is_s32, is_s64,
    U32_MAX, U64_MAX, S32_MIN, S32_MAX, S64_MIN, S64_MAX in *.
Ltac cint := cint_unfold; Z.to_euclidean_division_equations; lia.

Create HintDb cint.
#[global] Create Rewrite HintDb cint.

Section conversions.
Implicit Types x y : Z.

Lemma u32_range x : is_u32 (u32 x). Proof. cint. Qed.
Lemma u64_range x : is_u64 (u64 x). Proof. cint. Qed.
Lemma s32_range x : is_s32 (s32 x). Proof. cint. Qed.
Lemma s64_range x : is_s64 (s64 x). Proof. cint. Qed.

Lemma u32_id x : is_u32 x -> u32 x = x. Proof. cint. Qed.
Lemma u64_id x : is_u64 x -> u64 x = x. Proof. cint. Qed.
Lemma s32_id x : is_s32 x -> s32 x = x. Proof. cint. Qed.
Lemma s64_id x : is_s64 x -> s64 x = x. Proof. cint. Qed.

Lemma u64_s64 x : u64 (s64 x) = u64 x. Proof. cint. Qed.
Lemma s64_u64 x : s64 (u64 x) = s64 x. Proof. cint. Qed.
Lemma u32_s32 x : u32 (s32 x) = u32 x. Proof. cint. Qed.
Lemma s32_u32 x : s32 (u32 x) = s32 x. Proof. cint. Qed.
Lemma u32_u64 x : u32 (u64 x) = u32 x. Proof. cint. Qed.
Lemma u64_add_l x y : u64 (u64 x + y) = u64 (x + y). Proof. cint. Qed.
Lemma u64_add_r x y : u64 (x + u64 y) = u64 (x + y). Proof. cint. Qed.
Lemma u64_u64 x : u64 (u64 x) = u64 x. Proof. cint. Qed.
Lemma u64_eq_s64 x y : s64 x = s64 y -> u64 x = u64 y. Proof. cint. Qed.
End conversions.

#[export] Hint Resolve u32_range u64_range s32_range s64_range : cint.
#[export] Hint Rewrite u64_s64 s64_u64 u32_s32 s32_u32 u32_u64 u64_u64 : cint.

(** ** Error numbers ([include/uapi/asm-generic/errno-base.h]) *)

Definition EPERM : Z := 1.
Definition ENOENT : Z := 2.
Definition EINTR : Z := 4.
Definition EIO : Z := 5.
Definition E2BIG : Z := 7.
Definition EAGAIN : Z := 11.
Definition ENOMEM : Z := 12.
Definition EFAULT : Z := 14.
Definition EBUSY : Z := 16.
Definition EINVAL : Z := 22.
Definition ERANGE : Z := 34.

(** ** Sums over lists *)

Lemma sum_list_with_le {A} (f g : A -> nat) (l : list A) :
  (forall x, x ∈ l -> (g x <= f x)%nat) -> (sum_list_with g l <= sum_list_with f l)%nat.
Proof.
  induction l as [|x l IH]; intros Hle; cbn; [done|].
  pose proof (Hle x ltac:(left)). specialize (IH ltac:(intros; apply Hle; by right)). lia.
Qed.

Lemma sum_list_with_lt {A} (f g : A -> nat) (l : list A) i :
  i ∈ l -> (g i < f i)%nat -> (forall x, x ∈ l -> (g x <= f x)%nat) ->
  (sum_list_with g l < sum_list_with f l)%nat.
Proof.
  induction l as [|x l IH]; intros Hi Hlt Hle; cbn; [by apply not_elem_of_nil in Hi|].
  apply elem_of_cons in Hi as [->|Hi].
  - pose proof (sum_list_with_le f g l ltac:(intros; apply Hle; by right)). lia.
  - pose proof (Hle x ltac:(left)).
    specialize (IH Hi Hlt ltac:(intros; apply Hle; by right)). lia.
Qed.

Lemma sum_list_with_ext {A} (f g : A -> nat) (l : list A) :
  (forall x, x ∈ l -> f x = g x) -> sum_list_with f l = sum_list_with g l.
Proof.
  induction l as [|x l IH]; intros He; cbn; [done|].
  rewrite (He x) by left. f_equal. apply IH. intros. apply He. by right.
Qed.

Lemma sum_list_with_add {A} (f g : A -> nat) (l : list A) :
  sum_list_with (fun x => f x + g x)%nat l = (sum_list_with f l + sum_list_with g l)%nat.
Proof. induction l; cbn; lia. Qed.

(** ** Records updated field by field

    A struct is a record with an [Eta] instance (the record rebuilt from its
    projections); [r <| f := v |>] is [r] with [v] in the field [f].  The update
    is a constructor applied to projections, so that reading any field of an
    updated record reduces. *)
Class Eta (R : Type) := eta : R -> R.
Class Setter {R T : Type} (f : R -> T) := upd : T -> R -> R.

Ltac mk_setter := match goal with
  | |- @Setter ?R ?T ?f =>
      let v := fresh "v" in let x := fresh "x" in
      intros v x;
      let e := constr:((_ : Eta R)) in
      let e := eval hnf in e in
      let t := eval cbv beta in (e x) in
      match eval pattern (f x) in t with
      | ?k _ => let b := eval cbv beta in (k v) in exact b
      end
  end.

Declare Scope record_scope.
Delimit Scope record_scope with record.
Notation "r <| f := v |>" := (@upd _ _ f _ v r)
  (at level 1, left associativity, f at level 1, v at level 200,
   format "r <| f := v |>") : record_scope.
#[global] Open Scope record_scope.

(** A condition of C on an integer. *)
Definition nonzero (x : Z) : bool := negb (x =? 0).

(** Memory of one allocation: live with its value, or freed. *)
Inductive obj (A : Type) := Live (a : A) | Freed.
Arguments Live {A} a.
Arguments Freed {A}.
