(* ===== verification/Vfs.v ===== *)
(** * Kernel services the crypt system calls rely on

    [filp_open], [i_size_read], [kernel_read], [kernel_write], [filp_close]
    live in [fs/], [kmalloc] in [mm/] and [copy_from_user] in [lib/]: none of
    them is part of the repository.  They are operations of a class, and what
    the system calls rely on is the class of laws [VfsLaws], which states the
    documented behaviour of a regular file.  [SimpleFs] instantiates both. *)
From S2P Require Import Prelude.

(** A path handed to [filp_open]: the bytes of a C string before its NUL. *)
Abbreviation path := (list Z).
Abbreviation bytes := (list Z).

Definition O_RDONLY : Z := 0.
Definition O_WRONLY : Z := 1.
Definition O_CREAT : Z := 64.

(** One read or write transfers at most this many bytes, as read(2) and
    write(2) document. *)
Definition MAX_RW_COUNT : Z := 2147479552.

Class Vfs (fs file : Type) := {
  (** [inl e]: [ERR_PTR(e)], with [e] negative. *)
  filp_open : fs -> path -> Z -> Z -> fs * (Z + file);
  i_size_read : fs -> file -> Z;
  (** [kernel_read f count pos]: the bytes read, or a negative error. *)
  kernel_read : fs -> file -> Z -> Z -> Z + bytes;
  (** [kernel_write f data pos]: the number of bytes written, or an error. *)
  kernel_write : fs -> file -> bytes -> Z -> fs * Z;
  filp_close : fs -> file -> fs
}.

(** Allocation sites of the system calls; the outcome of an allocation may
    differ from one site to the next. *)
Inductive alloc_site := SiteData | SiteKey | SiteWorkers | SiteArgs.

(** What the rest of the kernel decides: whether an allocation succeeds, with
    what the returned memory holds, and what user memory holds. *)
Record kenv := {
  kmalloc : alloc_site -> Z -> option bytes;
  copy_from_user : Z -> Z -> option bytes
}.

(** [kmalloc] documents: a block of the requested size, and the non-NULL
    [ZERO_SIZE_PTR] for a request of zero bytes. *)
Class KenvLaws (env : kenv) := {
  kmalloc_size : forall st n b, kmalloc env st n = Some b -> Z.of_nat (length b) = n;
  kmalloc_zero : forall st, kmalloc env st 0 = Some []
}.

Class VfsLaws (fs file : Type) `{Vfs fs file} := {
  (** what a path holds, [None] when it names no regular file *)
  contents : fs -> path -> option bytes;
  (** two paths may lead to one file: links, or another spelling *)
  same_file : fs -> path -> path -> bool;
  same_file_refl : forall σ p, same_file σ p p = true;
  (** a file opened for reading: open leaves the tree alone, the size is the
      length of the contents and a read of that size returns them, up to the
      limit on one transfer *)
  open_read : forall σ p c, contents σ p = Some c -> Z.of_nat (length c) < 2 ^ 63 ->
    exists f, filp_open σ p O_RDONLY 0 = (σ, inr f)
      /\ i_size_read σ f = Z.of_nat (length c)
      /\ kernel_read σ f (Z.of_nat (length c)) 0 = inr (take (Z.to_nat MAX_RW_COUNT) c)
      /\ filp_close σ f = σ;
  (** a size is a non-negative [loff_t]; a read returns at most what it asks *)
  i_size_range : forall σ f, 0 <= i_size_read σ f < 2 ^ 63;
  kernel_read_bound : forall σ f n pos r, kernel_read σ f n pos = inr r ->
    (length r <= Z.to_nat n)%nat;
  (** errors are numbers in [-MAX_ERRNO .. -1] *)
  open_error : forall σ p fl m σ' e, filp_open σ p fl m = (σ', inl e) -> -4095 <= e < 0;
  write_error : forall σ f d pos, -4095 <= (kernel_write σ f d pos).2;
  (** writing without O_TRUNC at offset 0: a write may be short, so [w] is
      anything up to the length of the data; the bytes past the write stay, and
      only the paths that lead to this file see it *)
  open_write : forall σ p d σ1 f, filp_open σ p (Z.lor O_WRONLY O_CREAT) 420 = (σ1, inr f) ->
    forall σ2 w, kernel_write σ1 f d 0 = (σ2, w) -> 0 <= w ->
    w <= Z.of_nat (length d) /\
    forall q, contents (filp_close σ2 f) q =
      if same_file σ p q
      then Some (take (Z.to_nat w) d ++ drop (Z.to_nat w) (default [] (contents σ p)))
      else contents σ q
}.

(** ** A concrete file system: a finite map from paths to contents *)
Module SimpleFs.
Abbreviation fs := (gmap path bytes).

Definition op_open (σ : fs) (p : path) (flags mode : Z) : fs * (Z + path) :=
  match σ !! p with
  | Some _ => (σ, inr p)
  | None => if Z.testbit flags 6 then (<[p := []]> σ, inr p) else (σ, inl (- ENOENT))
  end.
Definition op_size (σ : fs) (f : path) : Z :=
  Z.min (2 ^ 63 - 1) (Z.of_nat (length (default [] (σ !! f)))).
Definition op_read (σ : fs) (f : path) (n pos : Z) : Z + bytes :=
  inr (take (Z.to_nat (Z.min n MAX_RW_COUNT)) (drop (Z.to_nat pos) (default [] (σ !! f)))).
(** At most [most] bytes are written at a time. *)
Definition op_write (most : option nat) (σ : fs) (f : path) (d : bytes) (pos : Z) : fs * Z :=
  let old := default [] (σ !! f) in
  let d := match most with Some k => take k d | None => d end in
  (<[f := take (Z.to_nat pos) old ++ d ++ drop (Z.to_nat pos + length d) old]> σ,
   Z.of_nat (length d)).

Definition vfs_most (most : option nat) : Vfs fs path := {|
  filp_open := op_open; i_size_read := op_size; kernel_read := op_read;
  kernel_write := op_write most; filp_close := fun σ _ => σ
|}.
#[export] Instance vfs : Vfs fs path := vfs_most None.

Section laws.
Context (most : option nat).
#[local] Instance the_vfs : Vfs fs path := vfs_most most.

Lemma open_read_law (σ : fs) p c : σ !! p = Some c -> Z.of_nat (length c) < 2 ^ 63 ->
  exists f, filp_open σ p O_RDONLY 0 = (σ, inr f)
    /\ i_size_read σ f = Z.of_nat (length c)
    /\ kernel_read σ f (Z.of_nat (length c)) 0 = inr (take (Z.to_nat MAX_RW_COUNT) c)
    /\ filp_close σ f = σ.
Proof.
  intros Hp Hl. exists p. cbn. unfold op_open, op_size, op_read. rewrite Hp. cbn [default].
  change (Z.to_nat 0) with 0%nat. rewrite drop_0. repeat split; unfold id; [lia|]. f_equal.
  destruct (Z.min_spec (Z.of_nat (length c)) MAX_RW_COUNT) as [[? ->]|[? ->]]; [|done].
  by rewrite !take_ge by lia.
Qed.

Lemma open_write_law (σ : fs) p d σ1 f :
  filp_open σ p (Z.lor O_WRONLY O_CREAT) 420 = (σ1, inr f) ->
  forall σ2 w, kernel_write σ1 f d 0 = (σ2, w) -> 0 <= w ->
  w <= Z.of_nat (length d) /\
  forall q, (filp_close σ2 f : fs) !! q =
    if bool_decide (p = q)
    then Some (take (Z.to_nat w) d ++ drop (Z.to_nat w) (default [] (σ !! p)))
    else σ !! q.
Proof.
  cbn. unfold op_open, op_write. intros Ho σ2 w Hw _. change (Z.testbit _ 6) with true in Ho.
  set (e := match most with Some k => take k d | None => d end) in Hw.
  assert (length e <= length d)%nat by (unfold e; destruct most; rewrite ?length_take; lia).
  assert (take (length e) d = e) as He.
  { unfold e. destruct most as [k|]; [|by rewrite take_ge]. rewrite length_take.
    destruct (Nat.min_spec k (length d)) as [[? ->]|[? ->]]; [done|]. by rewrite !take_ge. }
  injection Hw as <- <-. split; [lia|]. intros q. rewrite Nat2Z.id, He. change (Z.to_nat 0) with 0%nat.
  destruct (σ !! p) eqn:Hp; cbn in Ho; injection Ho as <- <-; case_bool_decide; subst.
  all: rewrite ?lookup_insert_eq, ?lookup_insert_ne by done; rewrite ?lookup_insert_eq, ?Hp; cbn;
    by rewrite ?take_0, ?lookup_insert_eq, ?drop_nil.
Qed.

Definition laws_most : VfsLaws fs path := {|
  contents := fun σ p => (σ : gmap path bytes) !! p;
  same_file := fun _ p q => bool_decide (p = q);
  same_file_refl := fun σ p => bool_decide_eq_true_2 (p = p) eq_refl;
  open_read := open_read_law;
  i_size_range := ltac:(intros; cbn; unfold op_size; lia);
  open_error := ltac:(cbn; unfold op_open; intros σ p fl m σ' e H;
    destruct (σ !! p); [discriminate|]; destruct (Z.testbit fl 6); [discriminate|];
    injection H as <- <-; unfold ENOENT; lia);
  write_error := ltac:(cbn; intros; lia);
  kernel_read_bound := ltac:(cbn; unfold op_read; intros σ f n pos r [= <-]; rewrite length_take; lia);
  open_write := open_write_law
|}.
End laws.

#[export] Instance laws : VfsLaws fs path := laws_most None.

(** An allocator that never fails and hands out memory filled with 165. *)
Definition env (user : gmap Z bytes) : kenv := {|
  kmalloc _ n := if decide (0 <= n) then Some (replicate (Z.to_nat n) 165) else None;
  copy_from_user p n := take (Z.to_nat n) <$> (user !! p)
|}.

#[export] Instance env_laws user : KenvLaws (env user).
Proof.
  split; [|done]. intros st n b. cbn. case_decide; [|done]. intros [= <-].
  rewrite length_replicate. lia.
Qed.
End SimpleFs.
