(* ===== verification/Kthread.v ===== *)
(** * Kernel threads: [kernel/kthread.c]

    The per-thread state [struct kthread] and the operations the crypt system
    calls use on it: creation, the test a thread makes before it enters its
    function, [kthread_should_stop], parking, [kthread_exit] and
    [kthread_stop].  A blocking operation is an [option]: [None] while the
    caller has to wait. *)
From S2P Require Import Prelude.

(** [enum KTHREAD_BITS] *)
Definition KTHREAD_IS_PER_CPU : Z := 0.
Definition KTHREAD_SHOULD_STOP : Z := 1.
Definition KTHREAD_SHOULD_PARK : Z := 2.

Definition test_bit (nr flags : Z) : bool := Z.testbit flags nr.
Definition set_bit (nr flags : Z) : Z := Z.setbit flags nr.
Definition clear_bit (nr flags : Z) : Z := Z.clearbit flags nr.

(** [struct kthread], with the TIF_NOTIFY_SIGNAL flag of its task and the
    state of its [exited] completion. *)
Record kthread := mk_kthread {
  flags : Z;
  result : Z;
  exited : bool;
  notify_signal : bool
}.

(** The [struct kthread] of a new task: [set_kthread_struct] zeroes it. *)
Definition kthread_new : kthread :=
  {| flags := 0; result := 0; exited := false; notify_signal := false |}.

Definition kthread_should_stop (k : kthread) : bool := test_bit KTHREAD_SHOULD_STOP (flags k).
Definition kthread_should_park (k : kthread) : bool := test_bit KTHREAD_SHOULD_PARK (flags k).

Definition with_flags (f : Z) (k : kthread) : kthread :=
  {| flags := f; result := result k; exited := exited k; notify_signal := notify_signal k |}.

(** [kthread_exit]: publish the result and complete [exited] (from [do_exit]). *)
Definition kthread_exit (r : Z) (k : kthread) : kthread :=
  {| flags := flags k; result := r; exited := true; notify_signal := notify_signal k |}.

(** What [kthread] does once it is woken up: leave with [-EINTR] when a stop
    was already requested, wait in [__kthread_parkme] while parking is
    requested, else enter [threadfn]. *)
Inductive kthread_entry := EntryExit (k : kthread) | EntryParked | EntryRun.

Definition kthread_start (k : kthread) : kthread_entry :=
  if test_bit KTHREAD_SHOULD_STOP (flags k) then EntryExit (kthread_exit (- EINTR) k)
  else if kthread_should_park k then EntryParked
  else EntryRun.

(** [kthread_unpark], for a thread that is not bound to a CPU. *)
Definition kthread_unpark (k : kthread) : kthread :=
  with_flags (clear_bit KTHREAD_SHOULD_PARK (flags k)) k.

(** [kthread_stop] up to [wait_for_completion]: request the stop, unpark,
    raise TIF_NOTIFY_SIGNAL and wake the thread. *)
Definition kthread_stop_request (k : kthread) : kthread :=
  let k1 := kthread_unpark (with_flags (set_bit KTHREAD_SHOULD_STOP (flags k)) k) in
  {| flags := flags k1; result := result k1; exited := exited k1; notify_signal := true |}.

(** ... and from [wait_for_completion] on: the thread's result once it exited. *)
Definition kthread_stop_wait (k : kthread) : option Z :=
  if exited k then Some (result k) else None.

Arguments kthread_should_stop _ : simpl never.
Arguments kthread_should_park _ : simpl never.
Arguments kthread_start _ : simpl never.
Arguments kthread_stop_request _ : simpl never.

(** ** Laws *)
Section laws.
Implicit Types k : kthread.

Lemma stop_request_should_stop k : kthread_should_stop (kthread_stop_request k) = true.
Proof.
  unfold kthread_should_stop, kthread_stop_request, kthread_unpark, test_bit, set_bit, clear_bit.
  cbn [flags with_flags]. by rewrite Z.clearbit_neq, Z.setbit_eq.
Qed.

Lemma stop_request_should_park k : kthread_should_park (kthread_stop_request k) = false.
Proof.
  unfold kthread_should_park, kthread_stop_request, kthread_unpark, test_bit, set_bit, clear_bit.
  cbn [flags with_flags]. apply Z.clearbit_eq.
Qed.

Lemma kthread_exit_should_stop r k :
  kthread_should_stop (kthread_exit r k) = kthread_should_stop k.
Proof. done. Qed.

Lemma kthread_start_not_stopped k :
  kthread_should_stop k = false -> kthread_should_park k = false -> kthread_start k = EntryRun.
Proof. unfold kthread_start, kthread_should_stop. by intros -> ->. Qed.

Lemma kthread_start_stopped k :
  kthread_should_stop k = true -> kthread_start k = EntryExit (kthread_exit (- EINTR) k).
Proof. unfold kthread_start, kthread_should_stop. by intros ->. Qed.
End laws.

#[export] Hint Rewrite stop_request_should_stop stop_request_should_park : cint.
