(* ===== verification/KthreadCreate.v ===== *)
(** * Creation of kernel threads: [kernel/kthread.c] with [kthreadd]

    Any number of callers of [kthread_run] (that is [__kthread_create_on_node]
    and a wake-up) run beside [kthreadd] and the threads it forks.  A
    [struct kthread_create_info] is shared by the caller, [kthreadd] and the new
    thread; who frees it is settled by [xchg] on its field [done], because the
    caller may be killed while it waits.  One [step] per access to the shared
    structure, chosen by a [label]; an access to freed memory, a second [kfree],
    a read of a field nobody wrote or a [complete] on a stack frame that is gone
    is a fault. *)
From S2P Require Import Prelude Vfs Kthread.

(** What a caller gets: [ERR_PTR(e)] or the task, named by its request. *)
Inductive task_or_err := Task (i : nat) | Err (e : Z).

(** [struct kthread_create_info]; [done] tells whether the pointer is not NULL.
    The name it points to is an allocation of its own. *)
Record kthread_create_info := mk_ci {
  threadfn : Z;
  data : Z;
  done : bool;
  ci_result : option task_or_err
}.
#[export] Instance eta_ci : Eta kthread_create_info := fun r =>
  mk_ci (threadfn r) (data r) (done r) (ci_result r).
#[export] Hint Extern 1 (@Setter kthread_create_info _ _) => mk_setter : typeclass_instances.

(** Where a caller is in [__kthread_create_on_node] and [kthread_run]. *)
Inductive caller_pc :=
| CAlloc                    (* at [kmalloc] of the structure *)
| CName                     (* at [kvasprintf] *)
| CAdd                      (* at [list_add_tail] *)
| CWait                     (* in [wait_for_completion_killable] *)
| CXchg                     (* killed, at [xchg] *)
| CWait2                    (* in the second [wait_for_completion] *)
| CResult                   (* at [task = create->result] *)
| CFree (t : task_or_err)   (* at [kfree(create)] *)
| CRun (t : task_or_err)    (* back in [kthread_run] *)
| CReturned (t : task_or_err).

(** Where a new thread is in [kthread]. *)
Inductive thread_pc :=
| TEntry
| TXchg
| TFreeName
| TFreeCreate
| TAdopt                    (* copies name, function and data to [self] *)
| TResult
| TComplete
| TSched                    (* in [schedule_preempt_disabled] *)
| TRun                      (* in [threadfn(data)] *)
| TExited.                  (* left through [kthread_exit] *)

(** A new thread: its [struct kthread], the locals of [kthread], and whether it
    was woken up since it announced itself. *)
Record new_thread := mk_thread {
  tpc : thread_pc;
  local_fn : Z;
  local_data : Z;
  self : kthread;
  self_full_name : option bytes;
  self_threadfn : option Z;
  self_data : option Z;
  woken : bool
}.
#[export] Instance eta_thread : Eta new_thread := fun r =>
  mk_thread (tpc r) (local_fn r) (local_data r) (self r) (self_full_name r) (self_threadfn r)
    (self_data r) (woken r).
#[export] Hint Extern 1 (@Setter new_thread _ _) => mk_setter : typeclass_instances.

(** A task forked to run [kthread(create)]. *)
Definition forked : new_thread := mk_thread TEntry 0 0 kthread_new None None None false.

(** One call: its arguments, the caller, the structure and the name it
    allocates, the completion on its stack, and the thread forked for it. *)
Record request := mk_request {
  arg_fn : Z;
  arg_data : Z;
  arg_name : bytes;
  caller : caller_pc;
  create : option (obj kthread_create_info);
  full_name : option (obj bytes);
  completion : bool;
  thread : option new_thread
}.
#[export] Instance eta_request : Eta request := fun r =>
  mk_request (arg_fn r) (arg_data r) (arg_name r) (caller r) (create r) (full_name r) (completion r) (thread r).
#[export] Hint Extern 1 (@Setter request _ _) => mk_setter : typeclass_instances.

(** Where [kthreadd] is: in its loop, or in [create_kthread] for a request. *)
Inductive daemon_pc :=
| DIdle
| DFork (i : nat)
| DXchg (i : nat) (pid : Z)
| DFreeName (i : nat) (pid : Z) (done : bool)
| DFreeCreate (i : nat)
| DResult (i : nat) (pid : Z)
| DComplete (i : nat).

Inductive create_oops := BadCreate | BadName | Uninitialised | DeadFrame | ListCorrupt.

Record creation := mk_creation {
  requests : list request;
  kthread_create_list : list nat;
  kthreadd_pc : daemon_pc;
  oopsed : option create_oops
}.
#[export] Instance eta_creation : Eta creation := fun r =>
  mk_creation (requests r) (kthread_create_list r) (kthreadd_pc r) (oopsed r).
#[export] Hint Extern 1 (@Setter creation _ _) => mk_setter : typeclass_instances.

(** ** Accesses *)
Section Accesses.
Implicit Types s : creation.

Definition put (i : nat) (r : request) (s : creation) : creation :=
  s <| requests := <[i := r]> (requests s) |>.
Definition oops_at (f : create_oops) (s : creation) : creation := s <| oopsed := Some f |>.

(** Through [create]: the structure must be there. *)
Definition with_create (i : nat) (s : creation) (k : request -> kthread_create_info -> creation) : option creation :=
  r ← requests s !! i;
  match create r with
  | Some (Live ci) => Some (k r ci)
  | _ => Some (oops_at BadCreate s)
  end.

Definition set_create (ci : kthread_create_info) (r : request) : request := r <| create := Some (Live ci) |>.

(** [kfree(create)] *)
Definition free_create (i : nat) (s : creation) (k : request -> creation) : option creation :=
  with_create i s (fun r _ => k (r <| create := Some Freed |>)).

(** [kfree(create->full_name)] *)
Definition free_name (i : nat) (s : creation) (k : request -> creation) : option creation :=
  with_create i s (fun r _ =>
    match full_name r with
    | Some (Live _) => k (r <| full_name := Some Freed |>)
    | _ => oops_at BadName s
    end).

(** [xchg(&create->done, NULL)]: whether the pointer was still there. *)
Definition xchg_done (i : nat) (s : creation) (k : bool -> request -> creation) : option creation :=
  with_create i s (fun r ci => k (done ci) (set_create (ci <| done := false |>) r)).

(** The frame of [__kthread_create_on_node], with the completion in it. *)
Definition in_frame (c : caller_pc) : bool :=
  match c with CRun _ | CReturned _ => false | _ => true end.

(** [complete(done)] *)
Definition complete (i : nat) (s : creation) (k : request -> creation) : option creation :=
  r ← requests s !! i;
  Some (if in_frame (caller r) then k (r <| completion := true |>) else oops_at DeadFrame s).

(** The members of the list are linked through their structures. *)
Definition linked (s : creation) : bool :=
  forallb (fun i => match requests s !! i with
                    | Some r => match create r with Some (Live _) => true | _ => false end
                    | None => false
                    end) (kthread_create_list s).
End Accesses.

(** ** [__kthread_create_on_node], [kthread_run] *)

(** What the rest of the kernel decides for a step of the caller: an allocation
    succeeds or not; a fatal signal arrives during the wait. *)
Inductive outcome := Ok | AllocFails | Killed.

Definition caller_step (o : outcome) (i : nat) (s : creation) : option creation :=
  r ← requests s !! i;
  match caller r, o with
  | CAlloc, Ok =>
      Some (put i (r <| create := Some (Live (mk_ci (arg_fn r) (arg_data r) true None)) |>
                     <| caller := CName |>) s)
  | CAlloc, AllocFails => Some (put i (r <| caller := CRun (Err (- ENOMEM)) |>) s)
  | CName, Ok =>
      Some (put i (r <| full_name := Some (Live (arg_name r)) |> <| caller := CAdd |>) s)
  | CName, AllocFails => Some (put i (r <| caller := CFree (Err (- ENOMEM)) |>) s)
  | CAdd, Ok =>
      with_create i s (fun r _ =>
        if linked s
        then (put i (r <| caller := CWait |>) s)
               <| kthread_create_list := kthread_create_list s ++ [i] |>
        else oops_at ListCorrupt s)
  | CWait, Ok =>
      if completion r then Some (put i (r <| completion := false |> <| caller := CResult |>) s) else None
  | CWait, Killed => if completion r then None else Some (put i (r <| caller := CXchg |>) s)
  | CXchg, Ok =>
      xchg_done i s (fun was r =>
        put i (r <| caller := if was then CRun (Err (- EINTR)) else CWait2 |>) s)
  | CWait2, Ok =>
      if completion r then Some (put i (r <| completion := false |> <| caller := CResult |>) s) else None
  | CResult, Ok =>
      with_create i s (fun r ci =>
        match ci_result ci with
        | Some t => put i (r <| caller := CFree t |>) s
        | None => oops_at Uninitialised s
        end)
  | CFree t, Ok => free_create i s (fun r => put i (r <| caller := CRun t |>) s)
  | CRun (Err e), Ok => Some (put i (r <| caller := CReturned (Err e) |>) s)
  | CRun (Task j), Ok =>
      q ← requests s !! j;
      th ← thread q;
      let s' := put j (q <| thread := Some (th <| woken := true |>) |>) s in
      r' ← requests s' !! i;
      Some (put i (r' <| caller := CReturned (Task j) |>) s')
  | _, _ => None
  end.

(** ** [kthread]: the new thread *)
Definition set_thread (th : new_thread) (r : request) : request := r <| thread := Some th |>.

Definition thread_step (i : nat) (s : creation) : option creation :=
  r ← requests s !! i;
  th ← thread r;
  let goto p r := put i (set_thread (th <| tpc := p |>) r) s in
  match tpc th with
  | TEntry =>
      with_create i s (fun r ci =>
        put i (set_thread (th <| local_fn := threadfn ci |> <| local_data := data ci |> <| tpc := TXchg |>) r) s)
  | TXchg => xchg_done i s (fun was => goto (if was then TAdopt else TFreeName))
  | TFreeName => free_name i s (goto TFreeCreate)
  | TFreeCreate =>
      free_create i s (fun r =>
        put i (set_thread (th <| self := kthread_exit (- EINTR) (self th) |> <| tpc := TExited |>) r) s)
  | TAdopt =>
      with_create i s (fun r _ =>
        match full_name r with
        | Some (Live nm) =>
            put i (set_thread (th <| self_full_name := Some nm |> <| self_threadfn := Some (local_fn th) |>
                                  <| self_data := Some (local_data th) |> <| tpc := TResult |>) r) s
        | _ => oops_at BadName s
        end)
  | TResult =>
      with_create i s (fun r ci => goto TComplete (set_create (ci <| ci_result := Some (Task i) |>) r))
  | TComplete => complete i s (goto TSched)
  | TSched =>
      if woken th then
        match kthread_start (self th) with
        | EntryExit k => Some (put i (set_thread (th <| self := k |> <| tpc := TExited |>) r) s)
        | EntryParked => None
        | EntryRun => Some (goto TRun r)
        end
      else None
  | TRun | TExited => None
  end.

(** ** [kthreadd], [create_kthread] *)

(** [pid]: the error of a failed [kernel_thread]. *)
Definition daemon_step (pid : option Z) (s : creation) : option creation :=
  let goto d s := s <| kthreadd_pc := d |> in
  match kthreadd_pc s with
  | DIdle =>
      match kthread_create_list s with
      | [] => None
      | i :: l =>
          Some (if linked s then goto (DFork i) (s <| kthread_create_list := l |>) else oops_at ListCorrupt s)
      end
  | DFork i =>
      with_create i s (fun r _ =>
        match full_name r, pid with
        | Some (Live _), None => goto DIdle (put i (set_thread forked r) s)
        | Some (Live _), Some pid => goto (DXchg i pid) s
        | _, _ => oops_at BadName s
        end)
  | DXchg i pid => xchg_done i s (fun was r => goto (DFreeName i pid was) (put i r s))
  | DFreeName i pid was =>
      free_name i s (fun r => goto (if was then DResult i pid else DFreeCreate i) (put i r s))
  | DFreeCreate i => free_create i s (fun r => goto DIdle (put i r s))
  | DResult i pid =>
      with_create i s (fun r ci =>
        goto (DComplete i) (put i (set_create (ci <| ci_result := Some (Err pid) |>) r) s))
  | DComplete i => complete i s (fun r => goto DIdle (put i r s))
  end.

(** ** Schedules *)
Inductive create_label :=
| Caller (o : outcome) (i : nat)
| Daemon                     (* [kthreadd] advances; [kernel_thread] succeeds *)
| ForkFails (pid : Z)        (* [kernel_thread] returns a negative number *)
| Thread (i : nat).

Definition create_step (l : create_label) (s : creation) : option creation :=
  match oopsed s with
  | Some _ => None
  | None =>
      match l with
      | Caller o i => caller_step o i s
      | Daemon => daemon_step None s
      | ForkFails pid =>
          match kthreadd_pc s with
          | DFork _ => if pid <? 0 then daemon_step (Some pid) s else None
          | _ => None
          end
      | Thread i => thread_step i s
      end
  end.

Fixpoint create_run (ls : list create_label) (s : creation) : option creation :=
  match ls with
  | [] => Some s
  | l :: ls => s' ← create_step l s; create_run ls s'
  end.

(** The calls before they start. *)
Definition new_request (a : Z * Z * bytes) : request :=
  mk_request a.1.1 a.1.2 a.2 CAlloc None None false None.
Definition no_threads (args : list (Z * Z * bytes)) : creation :=
  mk_creation (new_request <$> args) [] DIdle None.
