(* ===== verification/KthreadCreateInv.v ===== *)
(** * The invariant of thread creation

    For each request, who may still use its structure: nobody yet, the list of
    [kthreadd], [kthreadd] itself, the new thread; and for each of these, what
    the structure, the name and the caller look like. *)
From S2P Require Import Prelude Vfs Kthread KthreadCreate.

(** The request [create_kthread] is working on. *)
Definition daemon_on (d : daemon_pc) : option nat :=
  match d with
  | DIdle => None
  | DFork i | DXchg i _ | DFreeName i _ _ | DFreeCreate i | DResult i _ | DComplete i => Some i
  end.

(** Who holds the structure of a request besides its caller. *)
Inductive helper := HNone | HQueue | HDaemon (d : daemon_pc) | HThread (th : new_thread).

Definition helper_of (l : list nat) (d : daemon_pc) (i : nat) (r : request) : helper :=
  if decide (i ∈ l) then HQueue
  else if decide (daemon_on d = Some i) then HDaemon d
  else match thread r with Some th => HThread th | None => HNone end.

Section Shapes.
Implicit Types (r : request) (t : task_or_err).

Definition live r (d : bool) (res : option task_or_err) : Prop :=
  create r = Some (Live (mk_ci (arg_fn r) (arg_data r) d res)).
Definition named r : Prop := full_name r = Some (Live (arg_name r)).
Definition gone r : Prop := caller r = CRun (Err (- EINTR)) \/ caller r = CReturned (Err (- EINTR)).
Definition waiting r : Prop := caller r = CWait \/ caller r = CXchg \/ caller r = CWait2.

(** Nobody but the caller has touched [done] yet. *)
Definition untouched r : Prop := completion r = false /\ named r /\
  (live r true None /\ (caller r = CWait \/ caller r = CXchg) \/ live r false None /\ gone r).
(** The helper took [done]: it will complete. *)
Definition taken r (res : option task_or_err) : Prop :=
  completion r = false /\ live r false res /\ waiting r.
(** The caller took [done] and left: the helper will free. *)
Definition orphan r : Prop := completion r = false /\ live r false None /\ gone r.
(** The helper completed with [t]. *)
Definition finished r t : Prop :=
  completion r = true /\ live r false (Some t) /\ waiting r \/
  completion r = false /\ (live r false (Some t) /\ (caller r = CResult \/ caller r = CFree t) \/
    create r = Some Freed /\ (caller r = CRun t \/ caller r = CReturned t)).
(** The helper freed everything. *)
Definition dropped r : Prop := completion r = false /\ gone r /\ create r = Some Freed /\ full_name r = Some Freed.

(** No helper: not handed over yet, or done with. *)
Definition alone r : Prop :=
  caller r = CAlloc /\ create r = None /\ full_name r = None /\ completion r = false \/
  caller r = CName /\ live r true None /\ full_name r = None /\ completion r = false \/
  caller r = CAdd /\ live r true None /\ named r /\ completion r = false \/
  caller r = CFree (Err (- ENOMEM)) /\ live r true None /\ full_name r = None /\ completion r = false \/
  (caller r = CRun (Err (- ENOMEM)) \/ caller r = CReturned (Err (- ENOMEM))) /\
    (create r = None \/ create r = Some Freed) /\ full_name r = None \/
  (exists pid, pid < 0 /\ finished r (Err pid) /\ full_name r = Some Freed) \/
  dropped r.

Definition locals r (th : new_thread) : Prop := local_fn th = arg_fn r /\ local_data th = arg_data r.
Definition adopted r (th : new_thread) : Prop :=
  self_full_name th = Some (arg_name r) /\ self_threadfn th = Some (arg_fn r) /\ self_data th = Some (arg_data r).

Definition thread_ok (i : nat) r (th : new_thread) : Prop :=
  match tpc th with
  | TEntry => untouched r /\ self th = kthread_new
  | TXchg => untouched r /\ self th = kthread_new /\ locals r th
  | TFreeName => orphan r /\ named r
  | TFreeCreate => orphan r /\ full_name r = Some Freed
  | TExited => dropped r
  | TAdopt => taken r None /\ named r /\ self th = kthread_new /\ locals r th
  | TResult => taken r None /\ named r /\ self th = kthread_new /\ adopted r th
  | TComplete => taken r (Some (Task i)) /\ named r /\ self th = kthread_new /\ adopted r th
  | TSched => finished r (Task i) /\ named r /\ self th = kthread_new /\ adopted r th /\
      (woken th = true <-> caller r = CReturned (Task i))
  | TRun => caller r = CReturned (Task i) /\ create r = Some Freed /\ named r /\ adopted r th
  end.

Definition daemon_ok r (d : daemon_pc) : Prop :=
  match d with
  | DIdle => False
  | DFork _ => untouched r
  | DXchg _ pid => pid < 0 /\ untouched r
  | DFreeName _ pid true => pid < 0 /\ taken r None /\ named r
  | DFreeName _ _ false => orphan r /\ named r
  | DFreeCreate _ => orphan r /\ full_name r = Some Freed
  | DResult _ pid => pid < 0 /\ taken r None /\ full_name r = Some Freed
  | DComplete _ => exists pid, pid < 0 /\ taken r (Some (Err pid)) /\ full_name r = Some Freed
  end.

Definition request_ok (i : nat) r (h : helper) : Prop :=
  match h with
  | HNone => alone r
  | HQueue => untouched r
  | HDaemon d => daemon_ok r d
  | HThread th => (woken th = true -> tpc th = TSched \/ tpc th = TRun) /\ thread_ok i r th
  end.
End Shapes.

Record create_inv (s : creation) : Prop := {
  ci_nodup : NoDup (kthread_create_list s);
  ci_apart : forall i, i ∈ kthread_create_list s -> daemon_on (kthreadd_pc s) <> Some i;
  ci_held : forall i, i ∈ kthread_create_list s \/ daemon_on (kthreadd_pc s) = Some i ->
    exists r, requests s !! i = Some r /\ thread r = None;
  ci_request : forall i r, requests s !! i = Some r ->
    request_ok i r (helper_of (kthread_create_list s) (kthreadd_pc s) i r);
  ci_oops : oopsed s = None
}.

Lemma no_threads_inv args : create_inv (no_threads args).
Proof.
  split; cbn; try done.
  - constructor.
  - by intros i [?%not_elem_of_nil|?].
  - intros i r Hi. apply list_lookup_fmap_Some in Hi as (a & -> & _). cbn.
    unfold helper_of. rewrite decide_False by apply not_elem_of_nil. cbn. left. done.
Qed.

(** ** How much work a request has left *)
Definition caller_rank (c : caller_pc) : nat :=
  match c with
  | CAlloc => 20 | CName => 19 | CAdd => 18 | CWait => 6 | CXchg => 5 | CWait2 => 4
  | CResult => 3 | CFree _ => 2 | CRun _ => 1 | CReturned _ => 0
  end.
Definition thread_rank (p : thread_pc) : nat :=
  match p with
  | TEntry => 8 | TXchg => 7 | TFreeName => 6 | TFreeCreate => 5 | TAdopt => 6 | TResult => 5
  | TComplete => 4 | TSched => 3 | TRun | TExited => 0
  end.
Definition daemon_rank (d : daemon_pc) : nat :=
  match d with
  | DIdle => 0 | DFork _ => 9 | DXchg _ _ => 8 | DFreeName _ _ _ => 7 | DFreeCreate _ => 6
  | DResult _ _ => 6 | DComplete _ => 5
  end.
Definition helper_rank (h : helper) : nat :=
  match h with HNone => 0 | HQueue => 10 | HDaemon d => daemon_rank d | HThread th => thread_rank (tpc th) end.
Definition rank (l : list nat) (d : daemon_pc) (i : nat) (r : request) : nat :=
  (caller_rank (caller r) + helper_rank (helper_of l d i r))%nat.

Definition create_measure (s : creation) : nat :=
  sum_list_with (fun i => match requests s !! i with
    | Some r => rank (kthread_create_list s) (kthreadd_pc s) i r | None => 0%nat end)
  (seq 0 (length (requests s))).

(** A step that keeps the invariant and leaves less to do. *)
Definition advances (s s' : creation) : Prop := create_inv s' /\ (create_measure s' < create_measure s)%nat.

(** ** One request changes *)
Section Change.
Context (s : creation) (Hinv : create_inv s).
Context (i : nat) (r : request) (Hi : requests s !! i = Some r).
Local Abbreviation l := (kthread_create_list s).
Local Abbreviation d := (kthreadd_pc s).

Section one.
Context (l' : list nat) (d' : daemon_pc) (r' : request).
(** The list and [kthreadd] change for [i] only. *)
Context (Hl : forall j, j <> i -> j ∈ l' <-> j ∈ l).
Context (Hd : d' = d \/ (forall j, daemon_on d = Some j -> j = i) /\ (forall j, daemon_on d' = Some j -> j = i)).

Lemma daemon_other j : j <> i -> (daemon_on d' = Some j <-> daemon_on d = Some j) /\
  (daemon_on d = Some j -> d' = d).
Proof using Hd.
  intros Hne. destruct Hd as [->|[Ha Hb]]; [done|].
  split; [split|]; intros Hj; solve [by apply Hb in Hj|by apply Ha in Hj].
Qed.

Lemma helper_other j q : j <> i -> helper_of l' d' j q = helper_of l d j q.
Proof using Hl Hd.
  intros Hne. destruct (daemon_other j Hne) as [Hdj Heq]. unfold helper_of.
  rewrite (decide_ext (j ∈ l') (j ∈ l)) by (by apply Hl).
  rewrite (decide_ext (daemon_on d' = Some j) (daemon_on d = Some j)) by done.
  repeat case_decide; try done. by rewrite Heq.
Qed.

Lemma request_change : NoDup l' -> ~ (i ∈ l' /\ daemon_on d' = Some i) ->
  (i ∈ l' \/ daemon_on d' = Some i -> thread r' = None) ->
  request_ok i r' (helper_of l' d' i r') -> (rank l' d' i r' < rank l d i r)%nat ->
  advances s (mk_creation (<[i := r']> (requests s)) l' d' None).
Proof using Hinv Hi Hl Hd.
  intros Hnd Hap Hth Hok Hrank. pose proof (lookup_lt_Some _ _ _ Hi) as Hlt.
  destruct Hinv as [H1 H2 H3 H4 H5]. split; [split; cbn; try done|].
  - intros j Hj Hdj'. destruct (decide (j = i)) as [->|Hne]; [by apply Hap|].
    apply (Hl j Hne) in Hj. apply (daemon_other j Hne) in Hdj'. by eapply H2.
  - intros j Hj. destruct (decide (j = i)) as [->|Hne].
    + exists r'. split; [|by apply Hth]. by apply list_lookup_insert_eq.
    + rewrite list_lookup_insert_ne by done. apply H3.
      destruct Hj as [Hj|Hj]; [left; by apply Hl|right; by apply (daemon_other j Hne)].
  - intros j q Hj. destruct (decide (j = i)) as [->|Hne].
    + rewrite list_lookup_insert_eq in Hj by done. by simplify_eq.
    + rewrite list_lookup_insert_ne in Hj by done. rewrite helper_other by done. by apply H4.
  - unfold create_measure. cbn. rewrite length_insert. eapply (sum_list_with_lt _ _ _ i).
    + apply elem_of_seq. lia.
    + by rewrite Hi, list_lookup_insert_eq.
    + intros j _. destruct (decide (j = i)) as [->|Hne]; [rewrite Hi, list_lookup_insert_eq by done; lia|].
      rewrite list_lookup_insert_ne by done. destruct (requests s !! j) as [q|]; [|done].
      unfold rank. by rewrite helper_other.
Qed.
End one.

(** A change of the request alone, by its caller or its thread. *)
Lemma request_put r' :
  (i ∈ l \/ daemon_on d = Some i -> thread r' = None) -> request_ok i r' (helper_of l d i r') ->
  (rank l d i r' < rank l d i r)%nat -> advances s (put i r' s).
Proof using Hinv Hi.
  intros Hth Hok Hrank. assert (oopsed s = None) as Ho by apply Hinv.
  change (put i r' s) with (mk_creation (<[i := r']> (requests s)) l d (oopsed s)). rewrite Ho.
  apply request_change; try done; [by left|apply Hinv|].
  intros [Hil Hid]. by apply (ci_apart _ Hinv i Hil).
Qed.
End Change.
