(* ===== verification/KthreadCreateThms.v ===== *)
(** * Correctness of thread creation *)
From S2P Require Import Prelude Vfs Kthread KthreadCreate KthreadCreateInv.

#[local] Set Warnings "-clear-no-such-hyp".

Ltac shapes := unfold request_ok, daemon_ok, thread_ok, alone, untouched, taken, orphan, finished, dropped,
  gone, waiting, live, named, locals, adopted in *.

Lemma helper_of_thread l d i (r r' : request) : thread r' = thread r -> helper_of l d i r' = helper_of l d i r.
Proof. unfold helper_of. by intros ->. Qed.

(** The structure is there whenever the caller uses it. *)
Lemma caller_live i r h : request_ok i r h ->
  caller r = CAdd \/ caller r = CXchg \/ caller r = CResult \/ (exists t, caller r = CFree t) ->
  exists d res, live r d res.
Proof.
  intros Hok Hc. destruct h as [| |d|th].
  - shapes. naive_solver congruence.
  - shapes. naive_solver congruence.
  - destruct d as [| | |? ? []| | |]; shapes; naive_solver congruence.
  - cbn in Hok. destruct Hok as [_ Hok]. unfold thread_ok in Hok. destruct (tpc th); shapes; naive_solver congruence.
Qed.

(** Goes through the helpers a request can have. *)
Ltac by_helper h :=
  destruct h as [| |[| | |? ? []| | |]|th];
  [..|unfold request_ok, thread_ok in *; cbn in *; destruct (tpc th)]; shapes; cbn in *; naive_solver congruence.

Section caller.
Context (i : nat) (r : request) (h : helper) (Hok : request_ok i r h).

Lemma caller_completed : caller r = CWait \/ caller r = CWait2 -> completion r = true ->
  request_ok i (r <| completion := false |> <| caller := CResult |>) h.
Proof using Hok. intros Hc Hd. by_helper h. Qed.

Lemma caller_killed : caller r = CWait -> completion r = false -> request_ok i (r <| caller := CXchg |>) h.
Proof using Hok. intros Hc Hd. by_helper h. Qed.

Lemma caller_xchg d res : caller r = CXchg -> live r d res ->
  request_ok i ((set_create (mk_ci (arg_fn r) (arg_data r) false res) r)
    <| caller := if d then CRun (Err (- EINTR)) else CWait2 |>) h.
Proof using Hok. intros Hc Hl. destruct d; by_helper h. Qed.

Lemma caller_result d res : caller r = CResult -> live r d res ->
  exists t, res = Some t /\ request_ok i (r <| caller := CFree t |>) h.
Proof using Hok. intros Hc Hl. by_helper h. Qed.

Lemma caller_free t : caller r = CFree t -> request_ok i (r <| create := Some Freed |> <| caller := CRun t |>) h.
Proof using Hok. intros Hc. by_helper h. Qed.

Lemma caller_return e : caller r = CRun (Err e) -> request_ok i (r <| caller := CReturned (Err e) |>) h.
Proof using Hok. intros Hc. by_helper h. Qed.

(** Before the structure is handed over there is no helper. *)
Lemma caller_private : caller r = CAlloc \/ caller r = CName \/ caller r = CAdd -> h = HNone.
Proof using Hok. intros Hc. by_helper h. Qed.
End caller.

(** The list stays linked: its members are untouched. *)
Lemma inv_linked s : create_inv s -> linked s = true.
Proof.
  intros Hinv. apply forallb_forall. intros i Hi. apply list_elem_of_In in Hi.
  destruct (ci_held _ Hinv i (or_introl Hi)) as (r & Hr & _). rewrite Hr.
  pose proof (ci_request _ Hinv i r Hr) as Hok. unfold helper_of in Hok. rewrite decide_True in Hok by done.
  destruct Hok as (_ & _ & [[-> _]|[-> _]]); done.
Qed.

Lemma put_put i r r' s : put i r' (put i r s) = put i r' s.
Proof. unfold put. cbn. by rewrite list_insert_insert_eq. Qed.

(** A request in the hands of its thread alone. *)
Lemma thread_alone s i r th : create_inv s -> requests s !! i = Some r -> thread r = Some th ->
  (i ∉ kthread_create_list s) /\ daemon_on (kthreadd_pc s) <> Some i /\
  forall r' th', thread r' = Some th' ->
    helper_of (kthread_create_list s) (kthreadd_pc s) i r' = HThread th'.
Proof.
  intros Hinv Hi Hth.
  assert ((i ∉ kthread_create_list s) /\ daemon_on (kthreadd_pc s) <> Some i) as [H1 H2].
  { split; intros H; destruct (ci_held _ Hinv i ltac:(by eauto)) as (q & Hq & Ht); congruence. }
  split; [done|]. split; [done|]. intros r' th' Ht'. unfold helper_of. by rewrite !decide_False, Ht' by done.
Qed.

(** ** The caller *)
Section caller_step.
Context (s : creation) (Hinv : create_inv s) (i : nat) (r : request) (Hi : requests s !! i = Some r).

(** The caller changes its request and not the thread. *)
Lemma caller_put r' : thread r' = thread r -> (caller_rank (caller r') < caller_rank (caller r))%nat ->
  request_ok i r' (helper_of (kthread_create_list s) (kthreadd_pc s) i r) -> advances s (put i r' s).
Proof using Hinv Hi.
  intros Ht Hrk Hok. eapply request_put; [done..| |by rewrite (helper_of_thread _ _ _ r)|].
  2: unfold rank; rewrite (helper_of_thread _ _ _ r) by done; lia.
  intros H. destruct (ci_held _ Hinv i H) as (q & Hq & Hth). congruence.
Qed.

Lemma caller_add : caller r = CAdd -> advances s
  ((put i (r <| caller := CWait |>) s) <| kthread_create_list := kthread_create_list s ++ [i] |>).
Proof using Hinv Hi.
  intros Hc. pose proof (ci_request _ Hinv i r Hi) as Hok. pose proof (caller_private i r _ Hok) as Hh.
  rewrite Hh in Hok by eauto. specialize (Hh ltac:(eauto)). unfold helper_of in Hh.
  destruct (decide (i ∈ _)) as [|Hni]; [done|]. destruct (decide (daemon_on _ = _)) as [|Hnd]; [done|].
  destruct (thread r) eqn:Hth; [done|].
  match goal with |- advances _ ?s' => change s' with (mk_creation (<[i := r <| caller := CWait |>]> (requests s))
    (kthread_create_list s ++ [i]) (kthreadd_pc s) (oopsed s)) end.
  rewrite (ci_oops _ Hinv). apply (request_change s Hinv i r Hi).
  - intros j Hne. rewrite elem_of_app, list_elem_of_singleton. naive_solver.
  - by left.
  - apply NoDup_app. split; [apply Hinv|]. split; [|apply NoDup_singleton]. intros j Hj ->%list_elem_of_singleton. done.
  - by intros [_ ?].
  - done.
  - unfold helper_of. rewrite decide_True by (rewrite elem_of_app, list_elem_of_singleton; by right).
    shapes. cbn. naive_solver congruence.
  - unfold rank, helper_of. rewrite decide_True by (rewrite elem_of_app, list_elem_of_singleton; by right).
    rewrite decide_False, decide_False, Hth, Hc by done. cbn. lia.
Qed.

Lemma caller_wake j : caller r = CRun (Task j) -> j = i /\ exists th, thread r = Some th /\
  advances s (put i (r <| thread := Some (th <| woken := true |>) |> <| caller := CReturned (Task j) |>) s).
Proof using Hinv Hi.
  intros Hc. pose proof (ci_request _ Hinv i r Hi) as Hok.
  assert (exists th, helper_of (kthread_create_list s) (kthreadd_pc s) i r = HThread th /\ tpc th = TSched /\ j = i)
    as (th & Hh & Hp & ->).
  { revert Hok. generalize (helper_of (kthread_create_list s) (kthreadd_pc s) i r). intros h Hok. destruct h as [| |d|th].
    1-3: exfalso; destruct d as [| | |? ? []| | |] || idtac; shapes; naive_solver congruence.
    exists th. destruct Hok as [_ Hok]. unfold thread_ok in Hok.
    destruct (tpc th) eqn:E; shapes; naive_solver congruence. }
  split; [done|]. exists th. rewrite Hh in Hok.
  assert (thread r = Some th) as Hth .
  { revert Hh. unfold helper_of. repeat case_decide; [done|done|]. destruct (thread r); congruence. }
  split; [done|]. destruct (thread_alone s i r th Hinv Hi Hth) as (Hn1 & Hn2 & Hal).
  eapply request_put; [done..|by intros [?|?]| |].
  - rewrite (Hal _ (th <| woken := true |>)) by done. unfold request_ok, thread_ok in *. cbn. rewrite Hp in *.
    shapes. cbn. naive_solver congruence.
  - unfold rank. rewrite (Hal _ (th <| woken := true |>)), Hh, Hc by done. cbn. lia.
Qed.
End caller_step.

(** Evaluates an access to a structure that is live. *)
Lemma with_create_live i s k r d res : requests s !! i = Some r -> live r d res ->
  with_create i s k = Some (k r (mk_ci (arg_fn r) (arg_data r) d res)).
Proof. intros Hi Hl. unfold with_create. rewrite Hi. cbn. by rewrite Hl. Qed.

Lemma caller_step_inv o i s s' : create_inv s -> caller_step o i s = Some s' -> advances s s'.
Proof.
  intros Hinv Hs. unfold caller_step in Hs. destruct (requests s !! i) as [r|] eqn:Hi; [|done]. cbn in Hs.
  pose proof (ci_request _ Hinv i r Hi) as Hok. set (h := helper_of _ _ i r) in Hok.
  assert (forall r', thread r' = thread r -> (caller_rank (caller r') < caller_rank (caller r))%nat ->
    request_ok i r' h -> advances s (put i r' s)) as Hput by (intros; by eapply caller_put).
  pose proof (caller_live i r h Hok) as Hlive. pose proof (caller_private i r h Hok) as Hpriv.
  destruct (caller r) as [| | | | | | |t|[j|e]|] eqn:Hc, o; try done.
  1-4: rewrite Hpriv in * by eauto; simplify_eq; apply Hput; [done|cbn; lia|]; shapes; cbn; naive_solver congruence.
  - destruct Hlive as (d & res & Hl); [by eauto|]. rewrite (with_create_live i s _ r d res Hi Hl) in Hs.
    rewrite inv_linked in Hs by done. simplify_eq. by eapply caller_add.
  - destruct (completion r) eqn:Hd; simplify_eq. apply Hput; [done|cbn; lia|]. eapply caller_completed; eauto.
  - destruct (completion r) eqn:Hd; simplify_eq. apply Hput; [done|cbn; lia|]. by eapply caller_killed.
  - destruct Hlive as (d & res & Hl); [by eauto|]. unfold xchg_done in Hs.
    rewrite (with_create_live i s _ r d res Hi Hl) in Hs. simplify_eq. apply Hput; [done|destruct d; cbn; lia|]. by apply caller_xchg.
  - destruct (completion r) eqn:Hd; simplify_eq. apply Hput; [done|cbn; lia|]. eapply caller_completed; eauto.
  - destruct Hlive as (d & res & Hl); [by eauto|]. rewrite (with_create_live i s _ r d res Hi Hl) in Hs.
    destruct (caller_result i r h Hok d res Hc Hl) as (t & -> & Hok'). cbn in Hs. simplify_eq. apply Hput; [done|cbn; lia|done].
  - destruct Hlive as (d & res & Hl); [by eauto|]. unfold free_create in Hs.
    rewrite (with_create_live i s _ r d res Hi Hl) in Hs. simplify_eq. apply Hput; [done|cbn; lia|]. by apply caller_free.
  - destruct (caller_wake s Hinv i r Hi j Hc) as (-> & th & Hth & Hw). rewrite Hi in Hs. cbn in Hs.
    rewrite Hth in Hs. cbn in Hs. rewrite list_lookup_insert_eq in Hs by (by eapply lookup_lt_Some).
    cbn in Hs. rewrite put_put in Hs. by simplify_eq.
  - simplify_eq. apply Hput; [done|cbn; lia|]. by apply caller_return.
Qed.

(** ** The new thread *)
Lemma untouched_live r : untouched r -> exists d, live r d None.
Proof. intros (_ & _ & [[? _]|[? _]]); eauto. Qed.

Lemma thread_step_inv i s s' : create_inv s -> thread_step i s = Some s' -> advances s s'.
Proof.
  intros Hinv Hs. unfold thread_step in Hs. destruct (requests s !! i) as [r|] eqn:Hi; [|done]. cbn in Hs.
  destruct (thread r) as [th|] eqn:Hth; [|done]. cbn in Hs.
  destruct (thread_alone s i r th Hinv Hi Hth) as (Hn1 & Hn2 & Hal).
  pose proof (ci_request _ Hinv i r Hi) as Hok. rewrite (Hal r th Hth) in Hok. destruct Hok as [Hw Hok].
  assert (forall r' th', thread r' = Some th' ->
    (woken th' = true -> tpc th' = TSched \/ tpc th' = TRun) -> thread_ok i r' th' -> caller r' = caller r ->
    (thread_rank (tpc th') < thread_rank (tpc th))%nat -> advances s (put i r' s)) as Hput.
  { intros r' th' Ht' Hw' Hok' Hcr Hrk. eapply request_put; [done..|by intros [?|?]| |].
    - by rewrite (Hal r' th' Ht').
    - unfold rank. rewrite (Hal r' th' Ht'), (Hal r th Hth), Hcr. cbn. lia. }
  unfold thread_ok in Hok. destruct (tpc th) eqn:Hp; try done.
  - destruct Hok as [Hu Hself]. destruct (untouched_live r Hu) as (d & Hl).
    rewrite (with_create_live i s _ r d None Hi Hl) in Hs. simplify_eq.
    eapply Hput; [done|cbn; naive_solver| |done|cbn; lia]. unfold thread_ok. cbn. shapes. naive_solver.
  - destruct Hok as (Hu & Hself & Hloc). destruct (untouched_live r Hu) as (d & Hl). unfold xchg_done in Hs.
    rewrite (with_create_live i s _ r d None Hi Hl) in Hs. simplify_eq.
    eapply Hput; [done|cbn; naive_solver| |done|destruct d; cbn; lia]. unfold thread_ok. cbn. destruct d; shapes; cbn; naive_solver congruence.
  - destruct Hok as (Ho & Hnm). pose proof Ho as (_ & Hl & _). unfold free_name in Hs.
    rewrite (with_create_live i s _ r _ _ Hi Hl), Hnm in Hs. simplify_eq.
    eapply Hput; [done|cbn; naive_solver| |done|cbn; lia]. unfold thread_ok. cbn. shapes. naive_solver.
  - destruct Hok as (Ho & Hnm). pose proof Ho as (_ & Hl & _). unfold free_create in Hs.
    rewrite (with_create_live i s _ r _ _ Hi Hl) in Hs. simplify_eq.
    eapply Hput; [done|cbn; naive_solver| |done|cbn; lia]. unfold thread_ok. cbn. shapes. naive_solver.
  - destruct Hok as (Ht & Hnm & Hself & Hloc). pose proof Ht as (_ & Hl & _).
    rewrite (with_create_live i s _ r _ _ Hi Hl), Hnm in Hs. simplify_eq.
    eapply Hput; [done|cbn; naive_solver| |done|cbn; lia]. unfold thread_ok. cbn. shapes. cbn. naive_solver congruence.
  - destruct Hok as (Ht & Hnm & Hself & Had). pose proof Ht as (_ & Hl & _).
    rewrite (with_create_live i s _ r _ _ Hi Hl) in Hs. simplify_eq.
    eapply Hput; [done|cbn; naive_solver| |done|cbn; lia]. unfold thread_ok. cbn. shapes. naive_solver.
  - destruct Hok as (Ht & Hnm & Hself & Had). unfold complete in Hs. rewrite Hi in Hs. cbn in Hs.
    assert (in_frame (caller r) = true) as Hfr by (destruct Ht as (_ & _ & [E|[E|E]]); by rewrite E).
    rewrite Hfr in Hs. simplify_eq. eapply Hput; [done|cbn; naive_solver| |done|cbn; lia]. unfold thread_ok. cbn.
    assert (woken th = false) by (destruct (woken th); naive_solver). shapes. cbn. naive_solver congruence.
  - destruct Hok as (Hf & Hnm & Hself & Had & Hwk). destruct (woken th) eqn:Ew; [|done].
    rewrite Hself, kthread_start_not_stopped in Hs by done. simplify_eq.
    eapply Hput; [done|cbn; naive_solver| |done|cbn; lia]. unfold thread_ok. cbn. shapes. naive_solver congruence.
Qed.

(** ** [kthreadd] *)
Section daemon.
Context (s : creation) (Hinv : create_inv s) (i : nat) (Hd : daemon_on (kthreadd_pc s) = Some i).

Lemma daemon_request : exists r, requests s !! i = Some r /\ thread r = None /\ daemon_ok r (kthreadd_pc s).
Proof using Hinv Hd.
  destruct (ci_held _ Hinv i (or_intror Hd)) as (r & Hi & Hth). exists r. split; [done|]. split; [done|].
  pose proof (ci_request _ Hinv i r Hi) as Hok. unfold helper_of in Hok.
  rewrite decide_False in Hok by (intros Hin; by apply (ci_apart _ Hinv i Hin)).
  by rewrite decide_True in Hok.
Qed.

(** [create_kthread] goes on with the request, or leaves it. *)
Lemma daemon_move r r' d' : requests s !! i = Some r ->
  daemon_on d' = Some i /\ thread r' = None /\ daemon_ok r' d' \/
  d' = DIdle /\ request_ok i r' (match thread r' with Some th => HThread th | None => HNone end) ->
  caller r' = caller r ->
  (daemon_rank d' + match d', thread r' with DIdle, Some th => thread_rank (tpc th) | _, _ => 0 end
     < daemon_rank (kthreadd_pc s))%nat ->
  advances s ((put i r' s) <| kthreadd_pc := d' |>).
Proof using Hinv Hd.
  intros Hi Hd' Hcr Hrk. assert (i ∉ kthread_create_list s) as Hni by (intros Hin; by apply (ci_apart _ Hinv i Hin)).
  match goal with |- advances _ ?s' => change s' with
    (mk_creation (<[i := r']> (requests s)) (kthread_create_list s) d' (oopsed s)) end.
  rewrite (ci_oops _ Hinv). apply (request_change s Hinv i r Hi).
  - done.
  - right. split; [congruence|]. intros j Hj. destruct Hd' as [[? _]|[-> _]]; [congruence|done].
  - apply Hinv.
  - tauto.
  - intros [?|?]; [done|]. destruct Hd' as [(_ & ? & _)|[-> _]]; done.
  - unfold helper_of. rewrite decide_False by done. destruct Hd' as [(Ho & _ & Hok)|[-> Hok]].
    + by rewrite decide_True.
    + by rewrite decide_False.
  - unfold rank, helper_of. rewrite !(decide_False (P := i ∈ _)), (decide_True (P := daemon_on (kthreadd_pc s) = _)), Hcr by done.
    destruct Hd' as [(Ho & Ht & Hok)|[-> Hok]].
    + rewrite decide_True by done. rewrite Ht in Hrk. cbn. destruct d'; cbn in *; lia.
    + rewrite decide_False by done. destruct (thread r'); cbn in *; lia.
Qed.
End daemon.

Lemma daemon_takes s i l : create_inv s -> kthreadd_pc s = DIdle -> kthread_create_list s = i :: l ->
  advances s (s <| kthread_create_list := l |> <| kthreadd_pc := DFork i |>).
Proof.
  intros Hinv Hd Hl. pose proof (ci_nodup _ Hinv) as Hnd. rewrite Hl in Hnd. apply NoDup_cons in Hnd as [Hni Hnd].
  destruct (ci_held _ Hinv i) as (r & Hi & Hth); [left; rewrite Hl; left|].
  match goal with |- advances _ ?s' => change s' with (mk_creation (requests s) l (DFork i) (oopsed s)) end.
  rewrite (ci_oops _ Hinv), <- (list_insert_id (requests s) i r Hi).
  apply (request_change s Hinv i r Hi); try done.
  - intros j Hne. rewrite Hl, elem_of_cons. naive_solver.
  - right. rewrite Hd. split; [done|]. cbn. congruence.
  - tauto.
  - unfold helper_of. rewrite decide_False, decide_True by done.
    pose proof (ci_request _ Hinv i r Hi) as Hok. unfold helper_of in Hok.
    by rewrite decide_True in Hok by (rewrite Hl; left).
  - unfold rank, helper_of. rewrite (decide_False (P := i ∈ l)), decide_True by done.
    rewrite decide_True by (rewrite Hl; left).
    cbn. lia.
Qed.

Lemma daemon_step_inv pid s s' : create_inv s -> (forall p, pid = Some p -> p < 0) ->
  daemon_step pid s = Some s' -> advances s s'.
Proof.
  intros Hinv Hpid Hs. unfold daemon_step in Hs.
  destruct (daemon_on (kthreadd_pc s)) as [i|] eqn:Hd.
  - destruct (daemon_request s Hinv i Hd) as (r & Hi & Hth & Hok).
    pose proof (daemon_move s Hinv i Hd r) as Hmv.
    destruct (kthreadd_pc s) as [|j|j p|j p was|j|j p|j]; cbn in Hd, Hok; simplify_eq.
    + destruct (untouched_live r Hok) as (d & Hl). pose proof Hok as (_ & Hnm & _).
      rewrite (with_create_live i s _ r d None Hi Hl), Hnm in Hs. destruct pid as [p|]; simplify_eq.
      * assert (put i r s = s) as Hid by (unfold put; rewrite list_insert_id by done; by destruct s).
        specialize (Hmv r (DXchg i p) Hi). rewrite Hid in Hmv. apply Hmv; [left; cbn; auto|done|cbn; lia].
      * apply Hmv; [done| |done|cbn; lia]. right. split; [done|]. cbn. done.
    + destruct Hok as [Hp Hok]. destruct (untouched_live r Hok) as (d & Hl). unfold xchg_done in Hs.
      rewrite (with_create_live i s _ r d None Hi Hl) in Hs. simplify_eq. apply Hmv; [done| |done|cbn; rewrite ?Hth; try destruct was; cbn; lia]. left.
      split; [done|]. split; [done|]. destruct d; shapes; cbn; naive_solver congruence.
    + assert (live r false None /\ named r) as [Hl Hnm] by (destruct was; shapes; naive_solver).
      unfold free_name in Hs. rewrite (with_create_live i s _ r _ _ Hi Hl), Hnm in Hs. simplify_eq.
      apply Hmv; [done| |done|cbn; rewrite ?Hth; try destruct was; cbn; lia]. left. destruct was; (split; [done|]; split; [done|]); shapes; cbn; naive_solver.
    + destruct Hok as [Ho Hnm]. pose proof Ho as (_ & Hl & _). unfold free_create in Hs.
      rewrite (with_create_live i s _ r _ _ Hi Hl) in Hs. simplify_eq. apply Hmv; [done| |done|cbn; rewrite ?Hth; try destruct was; cbn; lia]. right. split; [done|].
      cbn. rewrite Hth. shapes. cbn. naive_solver.
    + destruct Hok as (Hp & Ht & Hnm). pose proof Ht as (_ & Hl & _).
      rewrite (with_create_live i s _ r _ _ Hi Hl) in Hs. simplify_eq. apply Hmv; [done| |done|cbn; rewrite ?Hth; try destruct was; cbn; lia]. left.
      split; [done|]. split; [done|]. shapes. cbn. naive_solver.
    + destruct Hok as (p & Hp & Ht & Hnm). unfold complete in Hs. rewrite Hi in Hs. cbn in Hs.
      assert (in_frame (caller r) = true) as Hfr by (destruct Ht as (_ & _ & [E|[E|E]]); by rewrite E).
      rewrite Hfr in Hs. simplify_eq. apply Hmv; [done| |done|cbn; rewrite ?Hth; try destruct was; cbn; lia]. right. split; [done|]. cbn. rewrite Hth.
      shapes. cbn. naive_solver.
  - destruct (kthreadd_pc s) eqn:E; try done. destruct (kthread_create_list s) as [|i l] eqn:Hl; [done|].
    rewrite inv_linked in Hs by done. simplify_eq. by eapply daemon_takes.
Qed.

Lemma create_step_inv l s s' : create_inv s -> create_step l s = Some s' -> advances s s'.
Proof.
  intros Hinv Hs. unfold create_step in Hs. rewrite (ci_oops _ Hinv) in Hs. destruct l.
  - by eapply caller_step_inv.
  - eapply daemon_step_inv; eauto. done.
  - destruct (kthreadd_pc s); try done. destruct (Z.ltb_spec pid 0); [|done].
    eapply daemon_step_inv; [done| |done]. by intros p [= <-].
  - by eapply thread_step_inv.
Qed.

Lemma create_run_inv ls : forall s s', create_inv s -> create_run ls s = Some s' -> create_inv s'.
Proof.
  induction ls as [|l ls IH]; intros s s' Hinv Hr; cbn in Hr; [by simplify_eq|].
  destruct (create_step l s) as [s1|] eqn:Hs; [|done]. destruct (create_step_inv l s s1 Hinv Hs). eauto.
Qed.

Lemma reach_create_inv args ls s : create_run ls (no_threads args) = Some s -> create_inv s.
Proof. apply create_run_inv, no_threads_inv. Qed.

(** ** Schedules are finite *)
Lemma create_run_length ls : forall s s', create_inv s -> create_run ls s = Some s' ->
  (length ls + create_measure s' <= create_measure s)%nat.
Proof.
  induction ls as [|l ls IH]; intros s s' Hinv Hr; cbn in Hr; [by simplify_eq|].
  destruct (create_step l s) as [s1|] eqn:Hs; [|done]. destruct (create_step_inv l s s1 Hinv Hs) as [Hi Hm].
  specialize (IH s1 s' Hi Hr). cbn. lia.
Qed.

Lemma create_measure_init args : create_measure (no_threads args) = (20 * length args)%nat.
Proof.
  unfold create_measure. cbn. rewrite length_fmap.
  rewrite (sum_list_with_ext _ (fun _ => 20%nat)).
  - assert (forall l : list nat, sum_list_with (fun _ => 20%nat) l = (20 * length l)%nat) as ->
      by (induction l; cbn; lia). by rewrite length_seq.
  - intros i [_ Hi]%elem_of_seq. rewrite list_lookup_fmap.
    destruct (lookup_lt_is_Some_2 args i ltac:(lia)) as [a ->]. cbn. unfold rank, helper_of.
    rewrite decide_False by apply not_elem_of_nil. done.
Qed.

(** ** Somebody can always move until every request is settled *)
Lemma daemon_moves s : create_inv s -> kthreadd_pc s <> DIdle \/ kthread_create_list s <> [] ->
  is_Some (create_step Daemon s).
Proof.
  intros Hinv H. unfold create_step, daemon_step. rewrite (ci_oops _ Hinv).
  destruct (daemon_on (kthreadd_pc s)) as [i|] eqn:Hd.
  - destruct (daemon_request s Hinv i Hd) as (r & Hi & _).
    unfold xchg_done, free_name, free_create, complete, with_create.
    destruct (kthreadd_pc s); cbn in Hd; simplify_eq; rewrite Hi; cbn; repeat case_match; eauto.
  - destruct (kthreadd_pc s); try done. destruct (kthread_create_list s); naive_solver.
Qed.

(** A thread that has neither announced itself nor given up. *)
Definition thread_busy (th : new_thread) : bool :=
  match tpc th with TSched => woken th | TRun | TExited => false | _ => true end.

Lemma thread_moves s i r th : create_inv s -> requests s !! i = Some r -> thread r = Some th ->
  thread_busy th = true -> is_Some (create_step (Thread i) s).
Proof.
  intros Hinv Hi Hth Hb. unfold create_step, thread_step. rewrite (ci_oops _ Hinv), Hi. cbn. rewrite Hth. cbn.
  pose proof (ci_request _ Hinv i r Hi) as Hok.
  destruct (thread_alone s i r th Hinv Hi Hth) as (_ & _ & Hal). rewrite (Hal r th Hth) in Hok.
  destruct Hok as [_ Hok]. unfold thread_ok in Hok. unfold thread_busy in Hb.
  unfold xchg_done, free_name, free_create, complete, with_create.
  destruct (tpc th); try done; rewrite ?Hi; cbn; repeat (case_match; cbn); eauto; try done.
  destruct Hok as (_ & _ & Hself & _). rewrite Hself, kthread_start_not_stopped in * by done. done.
Qed.

(** Nothing is left to do for a request. *)
Record settled (s : creation) (i : nat) (r : request) : Prop := {
  st_caller : exists t, caller r = CReturned t;
  st_list : i ∉ kthread_create_list s;
  st_daemon : daemon_on (kthreadd_pc s) <> Some i;
  st_thread : forall th, thread r = Some th -> thread_busy th = false
}.

Lemma waiting_has_helper i r h : request_ok i r h -> caller r = CWait \/ caller r = CWait2 -> completion r = false ->
  match h with HNone => False | HThread th => thread_busy th = true | _ => True end.
Proof.
  intros Hok Hc Hd. destruct h as [| |d|th]; try done.
  - shapes. naive_solver congruence.
  - destruct Hok as [_ Hok]. unfold thread_ok in Hok. unfold thread_busy. destruct (tpc th); try done;
      shapes; naive_solver congruence.
Qed.

Lemma create_caller_moves s i r : create_inv s -> requests s !! i = Some r -> (forall t, caller r <> CReturned t) ->
  (caller r = CWait \/ caller r = CWait2 -> completion r = true) -> is_Some (create_step (Caller Ok i) s).
Proof.
  intros Hinv Hi Hc Hw. unfold create_step, caller_step. rewrite (ci_oops _ Hinv), Hi. cbn.
  unfold xchg_done, free_create, with_create. rewrite ?Hi. cbn.
  destruct (caller r) as [| | | | | | |t|[j|e]|t] eqn:E; eauto; try (by case_match; eauto);
    try (by rewrite Hw by eauto; eauto); try (by edestruct Hc);
    try (by destruct (create r) as [[|]|]; eauto).
  destruct (caller_wake s Hinv i r Hi j E) as (-> & th & Hth & _). rewrite Hi. cbn. rewrite Hth. cbn.
  rewrite list_lookup_insert_eq by (by eapply lookup_lt_Some). cbn. eauto.
Qed.

Lemma unsettled_moves s i r : create_inv s -> requests s !! i = Some r ->
  (forall l, create_step l s = None) -> settled s i r.
Proof.
  intros Hinv Hi Hstuck.
  assert (kthreadd_pc s = DIdle /\ kthread_create_list s = []) as [Hd Hl].
  { destruct (decide (kthread_create_list s = [])) as [->|Hne]; [|destruct (daemon_moves s Hinv ltac:(by right)); by rewrite Hstuck in *].
    split; [|done]. destruct (kthreadd_pc s) eqn:E; [done|..];
      destruct (daemon_moves s Hinv ltac:(left; by rewrite E)); by rewrite Hstuck in *. }
  assert (forall th, thread r = Some th -> thread_busy th = false) as Hth.
  { intros th Hth. destruct (thread_busy th) eqn:Hb; [|done].
    destruct (thread_moves s i r th Hinv Hi Hth Hb). by rewrite Hstuck in *. }
  split; [|rewrite Hl; apply not_elem_of_nil|by rewrite Hd|done].
  destruct (caller r) eqn:Hc; try (by eauto);
    (destruct (create_caller_moves s i r Hinv Hi) as [s' Hs]; [by rewrite Hc| |by rewrite Hstuck in Hs]); try (by rewrite Hc; intros [?|?]).
  all: intros Hw; destruct (completion r) eqn:Hcm; [done|].
  all: pose proof (waiting_has_helper i r _ (ci_request _ Hinv i r Hi) Hw Hcm) as Hh.
  all: unfold helper_of in Hh; rewrite Hl, Hd, !decide_False in Hh by (done || apply not_elem_of_nil).
  all: destruct (thread r) as [th|]; [|done]; by rewrite Hth in Hh.
Qed.

(** ** Steps change one request and keep its arguments *)
Definition args_of (r : request) : Z * Z * bytes := (arg_fn r, arg_data r, arg_name r).

Lemma put_args i r r' s : requests s !! i = Some r -> args_of r' = args_of r ->
  args_of <$> requests (put i r' s) = args_of <$> requests s.
Proof.
  intros Hi Ha. unfold put. cbn. rewrite list_fmap_insert, Ha. apply list_insert_id.
  by rewrite list_lookup_fmap, Hi.
Qed.

Lemma create_step_args l s s' : create_step l s = Some s' -> args_of <$> requests s' = args_of <$> requests s.
Proof.
  unfold create_step. destruct (oopsed s); [done|].
  assert (forall i r r', requests s !! i = Some r -> args_of r' = args_of r ->
    args_of <$> <[i := r']> (requests s) = args_of <$> requests s) as Hp by (intros; by eapply (put_args i r r' s)).
  destruct l; unfold xchg_done, free_name, free_create, complete, with_create, caller_step, daemon_step, thread_step.
  - destruct (requests s !! i) as [r|] eqn:Hi; [|done]. cbn. destruct (caller r) as [| | | | | | | |[j|]|] eqn:Hc, o; try done.
    all: unfold xchg_done, free_create, with_create; rewrite ?Hi; cbn;
      intros Hs; repeat (case_match; cbn in Hs); simplify_eq; cbn; try done; try (by eapply Hp).
    destruct (requests s !! j) as [q|] eqn:Hj; [|done]. cbn in Hs. destruct (thread q) as [th|]; [|done]. cbn in Hs.
    destruct (<[j := _]> (requests s) !! i) as [r'|] eqn:Hr; [|done]. cbn in Hs. simplify_eq.
    rewrite (put_args i r' _ (put j _ s)) by done. by eapply Hp.
  - unfold xchg_done, free_name, free_create, complete, with_create.
    destruct (daemon_on (kthreadd_pc s)) as [i|] eqn:Hd.
    + destruct (requests s !! i) as [r|] eqn:Hi; destruct (kthreadd_pc s); cbn in Hd; simplify_eq; rewrite Hi; cbn; try done;
        intros Hs; repeat (case_match; cbn in Hs); simplify_eq; cbn; try done; by eapply Hp.
    + intros Hs. repeat (case_match; cbn in Hs); by simplify_eq.
  - destruct (kthreadd_pc s) eqn:Hd; try done. case_match; [|done]. unfold with_create.
    destruct (requests s !! i) as [r|] eqn:Hi; [|done]. cbn. intros Hs. repeat case_match; by simplify_eq.
  - destruct (requests s !! i) as [r|] eqn:Hi; [|done]. cbn. destruct (thread r) as [th|]; [|done]. cbn.
    unfold xchg_done, free_name, free_create, complete, with_create. rewrite ?Hi. cbn.
    intros Hs. repeat (case_match; cbn in Hs); simplify_eq; cbn; try done; by eapply Hp.
Qed.

Lemma create_run_args ls : forall s s', create_run ls s = Some s' -> args_of <$> requests s' = args_of <$> requests s.
Proof.
  induction ls as [|l ls IH]; intros s s' Hr; cbn in Hr; [by simplify_eq|].
  destruct (create_step l s) as [s1|] eqn:Hs; [|done]. rewrite (IH s1 s' Hr). by eapply create_step_args.
Qed.

(** ** Undisturbed calls: no allocation or fork fails and nobody is killed *)
Definition undisturbed (l : create_label) : bool :=
  match l with Caller Ok _ | Daemon | Thread _ => true | _ => false end.

Definition calm_request (r : request) : Prop := full_name r <> Some Freed /\
  match caller r with CXchg | CWait2 | CFree (Err _) | CRun (Err _) | CReturned (Err _) => False | _ => True end.

Record calm (s : creation) : Prop := {
  cm_daemon : kthreadd_pc s = DIdle \/ exists i, kthreadd_pc s = DFork i;
  cm_requests : forall i r, requests s !! i = Some r -> calm_request r
}.

Lemma calm_change s i r' l d : calm s -> calm_request r' -> d = DIdle \/ (exists j, d = DFork j) ->
  calm (mk_creation (<[i := r']> (requests s)) l d (oopsed s)).
Proof.
  intros [Hd Hr] Hr' Hd'. split; cbn; [done|]. intros j q Hq.
  apply list_lookup_insert_Some in Hq as [(_ & <- & _)|[_ Hq]]; eauto.
Qed.

Lemma result_of_calm i r h d e : request_ok i r h -> caller r = CResult -> live r d (Some (Err e)) ->
  full_name r = Some Freed.
Proof. intros Hok Hc Hl. by_helper h. Qed.

Lemma calm_caller i s s' : create_inv s -> calm s -> caller_step Ok i s = Some s' -> calm s'.
Proof.
  intros Hinv Hcalm Hs. unfold caller_step in Hs. destruct (requests s !! i) as [r|] eqn:Hi; [|done]. cbn in Hs.
  pose proof (ci_request _ Hinv i r Hi) as Hok. pose proof (cm_requests _ Hcalm i r Hi) as [Hn Hc].
  pose proof (caller_live i r _ Hok) as Hlive.
  assert (forall r', calm_request r' -> calm (put i r' s)) as Hput by (intros; by eapply calm_change; [|..|apply Hcalm]).
  destruct (caller r) as [| | | | | | |[j|e]|[j|e]|] eqn:E; try done.
  - simplify_eq. by apply Hput.
  - simplify_eq. apply Hput. by split.
  - destruct Hlive as (d & res & Hl); [by eauto|]. rewrite (with_create_live i s _ r d res Hi Hl) in Hs.
    rewrite inv_linked in Hs by done. simplify_eq.
    apply (calm_change s i (r <| caller := CWait |>)); [done|done|apply Hcalm].
  - destruct (completion r); simplify_eq. by apply Hput.
  - destruct Hlive as (d & res & Hl); [by eauto|]. rewrite (with_create_live i s _ r d res Hi Hl) in Hs.
    destruct (caller_result i r _ Hok d res E Hl) as ([j|e] & -> & _); cbn in Hs; simplify_eq; [by apply Hput|].
    by rewrite (result_of_calm i r _ d e Hok E Hl) in Hn.
  - destruct Hlive as (d & res & Hl); [by eauto|]. unfold free_create in Hs.
    rewrite (with_create_live i s _ r d res Hi Hl) in Hs. simplify_eq. by apply Hput.
  - destruct (caller_wake s Hinv i r Hi j E) as (-> & th & Hth & _). rewrite Hi in Hs. cbn in Hs.
    rewrite Hth in Hs. cbn in Hs. rewrite list_lookup_insert_eq in Hs by (by eapply lookup_lt_Some).
    cbn in Hs. rewrite put_put in Hs. simplify_eq. by apply Hput.
Qed.

Lemma calm_daemon s s' : create_inv s -> calm s -> daemon_step None s = Some s' -> calm s'.
Proof.
  intros Hinv Hcalm Hs. unfold daemon_step in Hs. destruct (cm_daemon _ Hcalm) as [Hd|[i Hd]]; rewrite Hd in Hs.
  - destruct (kthread_create_list s) as [|i l]; [done|]. rewrite inv_linked in Hs by done. simplify_eq.
    destruct Hcalm as [? Hr]. split; [by right; eauto|done].
  - destruct (daemon_request s Hinv i) as (r & Hi & Hth & Hok); [by rewrite Hd|]. rewrite Hd in Hok.
    destruct (untouched_live r Hok) as (d & Hl). pose proof Hok as (_ & Hnm & _).
    rewrite (with_create_live i s _ r d None Hi Hl), Hnm in Hs. simplify_eq.
    apply (calm_change s i); [done| |by left]. exact (cm_requests _ Hcalm i r Hi).
Qed.

Lemma calm_thread i s s' : create_inv s -> calm s -> thread_step i s = Some s' -> calm s'.
Proof.
  intros Hinv Hcalm Hs. unfold thread_step in Hs. destruct (requests s !! i) as [r|] eqn:Hi; [|done]. cbn in Hs.
  destruct (thread r) as [th|] eqn:Hth; [|done]. cbn in Hs.
  destruct (thread_alone s i r th Hinv Hi Hth) as (_ & _ & Hal).
  pose proof (ci_request _ Hinv i r Hi) as Hok. rewrite (Hal r th Hth) in Hok. destruct Hok as [_ Hok].
  pose proof (cm_requests _ Hcalm i r Hi) as Hr.
  assert (~ gone r) as Hng by (intros [E|E]; destruct Hr as [_ Hr]; by rewrite E in Hr).
  assert (forall r', full_name r' = full_name r -> caller r' = caller r -> calm (put i r' s)) as Hput.
  { intros r' Hn Hc. eapply calm_change; [done| |apply Hcalm]. unfold calm_request. by rewrite Hn, Hc. }
  unfold xchg_done, free_name, free_create, complete, with_create in Hs. rewrite Hi in Hs. cbn in Hs.
  assert (forall f, calm (oops_at f s)) as Hoops by (intros f; destruct Hcalm; by split).
  unfold thread_ok in Hok.
  destruct (tpc th); try (by destruct Hng; apply Hok); repeat (case_match; cbn in Hs); simplify_eq; auto.
Qed.

Lemma calm_run ls : forall s s', create_inv s -> calm s -> Forall (fun l => undisturbed l = true) ls ->
  create_run ls s = Some s' -> calm s'.
Proof.
  induction ls as [|l ls IH]; intros s s' Hinv Hcalm Hls Hr; cbn in Hr; [by simplify_eq|].
  inversion_clear Hls as [|?? Hl Hls'].
  destruct (create_step l s) as [s1|] eqn:Hs; [|done]. destruct (create_step_inv l s s1 Hinv Hs) as [Hi1 _].
  eapply (IH s1); eauto. unfold create_step in Hs. rewrite (ci_oops _ Hinv) in Hs.
  destruct l as [[] i| | |i]; try done; eauto using calm_caller, calm_daemon, calm_thread.
Qed.

Lemma calm_init args : calm (no_threads args).
Proof.
  split; [by left|]. cbn. intros i r Hi. apply list_lookup_fmap_Some in Hi as (a & -> & _). done.
Qed.
