(* ===== verification/KthreadClaims.v ===== *)
(** * Properties of thread creation *)
From S2P Require Import Prelude Vfs Kthread KthreadCreate KthreadCreateInv KthreadCreateThms.

#[local] Set Warnings "-clear-no-such-hyp".

(** What the shapes say of a call that has returned. *)
Lemma returned_task i r h j : request_ok i r h -> caller r = CReturned (Task j) ->
  j = i /\ create r = Some Freed /\ named r /\
  exists th, h = HThread th /\ (tpc th = TSched \/ tpc th = TRun) /\ adopted r th.
Proof.
  intros Hok Hc. destruct h as [| |d|th].
  1-3: exfalso; destruct d as [| | |? ? []| | |] || idtac; shapes; naive_solver congruence.
  destruct Hok as [_ Hok]. unfold thread_ok in Hok.
  destruct (tpc th) eqn:E; shapes; naive_solver congruence.
Qed.

Lemma returned_error i r h e : request_ok i r h -> caller r = CReturned (Err e) ->
  e < 0 /\ (forall th, h = HThread th -> tpc th <> TSched /\ tpc th <> TRun) /\
  (h = HNone \/ (exists th, h = HThread th /\ tpc th = TExited) ->
   (create r = None \/ create r = Some Freed) /\ (full_name r = None \/ full_name r = Some Freed)).
Proof.
  intros Hok Hc. assert (- ENOMEM < 0 /\ - EINTR < 0) as [Hn Hi] by done.
  destruct h as [| |d|th].
  - shapes. naive_solver congruence.
  - shapes. naive_solver congruence.
  - destruct d as [| | |? ? []| | |]; shapes; naive_solver congruence.
  - destruct Hok as [_ Hok]. unfold thread_ok in Hok.
    destruct (tpc th) eqn:E; shapes; naive_solver congruence.
Qed.

Lemma helper_of_settled s i r : settled s i r ->
  helper_of (kthread_create_list s) (kthreadd_pc s) i r = match thread r with Some th => HThread th | None => HNone end.
Proof. intros [_ Hl Hd _]. unfold helper_of. by rewrite !decide_False. Qed.

Lemma helper_of_HThread s i r th : helper_of (kthread_create_list s) (kthreadd_pc s) i r = HThread th -> thread r = Some th.
Proof. unfold helper_of. repeat case_decide; [done|done|]. destruct (thread r); congruence. Qed.

(** C11. Creation of kernel threads under every interleaving of any number of
    callers of [kthread_run], of [kthreadd] and of the threads it forks, with
    allocations and forks that fail and callers that are killed: no structure is
    used after it was freed or freed twice, no completion is signalled on a stack
    frame that is gone, no result is read before it is written.  A call that
    returns a task returns the thread made for it, which has the function, the
    data and the name it asked for; a call that returns an error never has its
    function run, and once its helpers are done nothing it allocated is left. *)
Theorem thread_creation_correct args ls s : create_run ls (no_threads args) = Some s ->
  oopsed s = None /\
  forall i r t, requests s !! i = Some r -> caller r = CReturned t ->
    args !! i = Some (arg_fn r, arg_data r, arg_name r) /\
    match t with
    | Task j => j = i /\ create r = Some Freed /\ full_name r = Some (Live (arg_name r)) /\
        exists th, thread r = Some th /\ (tpc th = TSched \/ tpc th = TRun) /\
          self_threadfn th = Some (arg_fn r) /\ self_data th = Some (arg_data r) /\
          self_full_name th = Some (arg_name r)
    | Err e => e < 0 /\ (forall th, thread r = Some th -> tpc th <> TSched /\ tpc th <> TRun) /\
        (settled s i r -> (create r = None \/ create r = Some Freed) /\
                          (full_name r = None \/ full_name r = Some Freed))
    end.
Proof.
  intros Hr. pose proof (reach_create_inv args ls s Hr) as Hinv. split; [apply Hinv|].
  intros i r t Hi Hc. pose proof (ci_request _ Hinv i r Hi) as Hok. split.
  { pose proof (create_run_args ls _ _ Hr) as Ha. apply (f_equal (lookup i)) in Ha. cbn in Ha.
    rewrite <- list_fmap_compose, !list_lookup_fmap, Hi in Ha. cbn in Ha.
    destruct (args !! i) as [[[f d] nm]|]; [|done]. cbn in Ha. by injection Ha as -> -> ->. }
  destruct t as [j|e].
  - destruct (returned_task i r _ j Hok Hc) as (-> & Hcr & Hnm & th & Hh & Hp & Hn & Hf & Hd).
    split; [done|]. split; [done|]. split; [done|]. exists th. apply helper_of_HThread in Hh. done.
  - destruct (returned_error i r _ e Hok Hc) as (He & Hth & Hs). split; [done|]. split.
    + intros th Ht. apply Hth. by apply (thread_alone s i r th Hinv Hi Ht).
    + intros Hset. apply Hs. rewrite helper_of_settled by done. destruct (thread r) as [th|] eqn:Ht; [|by left].
      right. exists th. split; [done|]. pose proof (st_thread _ _ _ Hset th Ht) as Hb. unfold thread_busy in Hb.
      destruct (Hth th) as [H1 H2]; [by apply (thread_alone s i r th Hinv Hi Ht)|]. by destruct (tpc th).
Qed.

(** C12. Thread creation ends: a schedule has at most 20 steps per call, and
    one that cannot be continued has brought every caller to its return, the
    list and [kthreadd] to rest and every thread to its function or its exit (a
    caller that was killed and found [done] taken is not left waiting).  When
    moreover no allocation and no fork failed and nobody was killed, every call
    has returned its own thread. *)
Theorem thread_creation_ends args ls s : create_run ls (no_threads args) = Some s ->
  (length ls <= 20 * length args)%nat /\
  ((forall l, create_step l s = None) ->
   kthread_create_list s = [] /\ kthreadd_pc s = DIdle /\
   forall i r, requests s !! i = Some r -> settled s i r /\
     (Forall (fun l => undisturbed l = true) ls -> caller r = CReturned (Task i))).
Proof.
  intros Hr. pose proof (reach_create_inv args ls s Hr) as Hinv. split.
  { pose proof (create_run_length ls _ _ (no_threads_inv args) Hr) as Hl. rewrite create_measure_init in Hl. lia. }
  intros Hstuck.
  assert (forall i r, requests s !! i = Some r -> settled s i r) as Hset by eauto using unsettled_moves.
  assert (~ is_Some (create_step Daemon s)) as Hnd by (rewrite Hstuck; by intros [? ?]).
  split; [|split].
  - destruct (decide (kthread_create_list s = [])); [done|]. destruct Hnd. apply daemon_moves; auto.
  - destruct (kthreadd_pc s) eqn:E; [done|..]; destruct Hnd; (apply daemon_moves; [done|]; left; by rewrite E).
  - intros i r Hi. split; [by apply Hset|]. intros Hls.
    destruct (st_caller _ _ _ (Hset i r Hi)) as [[j|e] Hc].
    + by destruct (returned_task i r _ j (ci_request _ Hinv i r Hi) Hc) as [-> _].
    + pose proof (calm_run ls _ _ (no_threads_inv args) (calm_init args) Hls Hr) as Hcalm.
      destruct (cm_requests _ Hcalm i r Hi) as [_ Hb]. by rewrite Hc in Hb.
Qed.

(** ** A concrete run: two callers, the first one killed while it waits *)
Module CreateDemo.
Definition args : list (Z * Z * bytes) := [(1, 2, [97]); (3, 4, [98])].
Definition sched : list create_label :=
  replicate 3 (Caller Ok 0) ++ replicate 3 (Caller Ok 1) ++ [Daemon; Caller Killed 0; Daemon; Caller Ok 0; Caller Ok 0] ++
  replicate 4 (Thread 0) ++ [Daemon; Daemon] ++ replicate 5 (Thread 1) ++ replicate 4 (Caller Ok 1) ++ [Thread 1].
Definition final : creation := default (no_threads args) (create_run sched (no_threads args)).
Lemma demo_run_final : create_run sched (no_threads args) = Some final.
Proof. vm_compute. reflexivity. Qed.
End CreateDemo.

Lemma thread_creation_correct_witness :
  exists r th, requests CreateDemo.final !! 1%nat = Some r /\ caller r = CReturned (Task 1) /\
    thread r = Some th /\ tpc th = TRun /\ self_threadfn th = Some 3.
Proof.
  destruct (thread_creation_correct CreateDemo.args CreateDemo.sched CreateDemo.final CreateDemo.demo_run_final) as [_ H].
  pose (r := default (new_request (0, 0, [])) (requests CreateDemo.final !! 1%nat)).
  assert (requests CreateDemo.final !! 1%nat = Some r) as Hr by (vm_compute; reflexivity).
  assert (caller r = CReturned (Task 1)) as Hc by (vm_compute; reflexivity).
  destruct (H 1%nat r (Task 1) Hr Hc) as (Ha & _ & _ & _ & th & Hth & _ & Hf & _).
  exists r, th. split; [exact Hr|]. split; [exact Hc|]. split; [exact Hth|].
  vm_compute in Hth. injection Hth as <-. split; reflexivity.
Defined.

Lemma thread_creation_ends_witness :
  (length CreateDemo.sched <= 20 * length CreateDemo.args)%nat /\
  forall i r, requests CreateDemo.final !! i = Some r -> settled CreateDemo.final i r.
Proof.
  destruct (thread_creation_ends CreateDemo.args CreateDemo.sched CreateDemo.final CreateDemo.demo_run_final) as [H1 H2].
  split; [exact H1|]. intros i r Hi. refine (proj1 (proj2 (proj2 (H2 _)) i r Hi)).
  intros [o [|[|j]]| | |[|[|j]]]; [destruct o; vm_compute; reflexivity..| | | | |]; vm_compute; reflexivity.
Defined.
