(* ===== verification/XorCrypt.v ===== *)
(** * The encrypting system call: [kernel/my_encrypt.c]

    Read a file and a key, split the data among kernel threads that XOR their
    part under one mutex, stop the threads and write the result.
    [my_decrypt.c] has a model of its own, in [XorDecrypt.v].

    The concurrent part is a machine: one [step] per atomic action of the main
    thread, of a worker or of another call, chosen by a [label].  The mutex is
    static, so it is shared with the workers of every other call: the labels
    [OtherLocks] and [OtherUnlocks] let them take and release it at any time. *)
From S2P Require Import Prelude Vfs Kthread.

(** What stops the kernel: an access to freed memory, a division by zero, an
    access outside an object or to a cell that was never written, a path
    buffer without a NUL. *)
Inductive oops := UseAfterFree | DivideError | BadAccess | UnterminatedPath.

(** Kernel log lines. *)
Inductive kmsg :=
| MsgOpenFailed (p : path)
| MsgWriteFailed
| MsgSpawnFailed (i : nat)
| MsgThreadError (i : nat) (r : Z)
| MsgThreadOk (i : nat).

(** A C string held in a buffer: its bytes before the first NUL. *)
Fixpoint c_string (b : bytes) : option path :=
  match b with
  | [] => None
  | c :: b => if c =? 0 then Some [] else (c ::.) <$> c_string b
  end.

(** [worker_args_t]; the two pointers always name the buffers [file_data] and
    [key_data] of the same call. *)
Record worker_args_t := mk_args {
  range_start : Z;
  range_end : Z;
  key_length : Z
}.

(** Program counter of a worker. *)
Inductive worker_pc :=
| PcEntry          (* woken up, in [kthread] before [threadfn] *)
| PcLock           (* at [mutex_lock_interruptible] *)
| PcStart          (* lock held, at the loop's initialisation *)
| PcLoop           (* at the loop condition *)
| PcCheck          (* at [kthread_should_stop] *)
| PcBody           (* at the XOR *)
| PcUnlock (r : Z) (* at [mutex_unlock], about to return [r] *)
| PcExited.        (* returned through [kthread_exit] *)

(** A worker: its kthread, where it is, its local [idx] (set by the loop), and
    whether its [task_struct] was released after it exited. *)
Record worker := mk_worker {
  task : kthread;
  pc : worker_pc;
  idx : option Z;
  reaped : bool
}.

(** Program counter of the calling thread. *)
Inductive main_pc :=
| MSpawn (i : nat)
| MStop (i : nat)
| MWait (i t : nat)  (* waiting for task [t], stored in [workers[i]] *)
| MSave
| MCleanup
| MReturned.

(** Who holds the mutex: worker [i] of this call, or one of another call. *)
Inductive holder := Ours (i : nat) | Theirs.

#[export] Instance worker_pc_eq_dec : EqDecision worker_pc.
Proof. solve_decision. Defined.
#[export] Instance main_pc_eq_dec : EqDecision main_pc.
Proof. solve_decision. Defined.
#[export] Instance holder_eq_dec : EqDecision holder.
Proof. solve_decision. Defined.

Section Machine.
Context {fs file : Type} `{!Vfs fs file}.

(** The state of a call; a cell of an array that was never written is [None]. *)
Record sys := mk_sys {
  file_data : obj bytes;
  key_data : obj bytes;
  workers : obj (list (option nat));
  worker_args : obj (list (option worker_args_t));
  data_len : Z;
  key_len : Z;
  num_threads : Z;
  segment_size : Z;
  offset : Z;
  ret : Z;
  dest : bytes;  (* the buffer [kernel_dest_file] *)
  threads : list worker;
  sync_lock : option holder;
  main : main_pc;
  tree : fs;
  klog : list kmsg;
  fault : option oops
}.

Definition fail (f : oops) (s : sys) : sys :=
  mk_sys (file_data s) (key_data s) (workers s) (worker_args s) (data_len s) (key_len s)
    (num_threads s) (segment_size s) (offset s) (ret s) (dest s) (threads s) (sync_lock s)
    (main s) (tree s) (klog s) (Some f).
Definition set_main (m : main_pc) (s : sys) : sys :=
  mk_sys (file_data s) (key_data s) (workers s) (worker_args s) (data_len s) (key_len s)
    (num_threads s) (segment_size s) (offset s) (ret s) (dest s) (threads s) (sync_lock s)
    m (tree s) (klog s) (fault s).
Definition set_ret (r : Z) (s : sys) : sys :=
  mk_sys (file_data s) (key_data s) (workers s) (worker_args s) (data_len s) (key_len s)
    (num_threads s) (segment_size s) (offset s) r (dest s) (threads s) (sync_lock s)
    (main s) (tree s) (klog s) (fault s).
Definition set_threads (ts : list worker) (s : sys) : sys :=
  mk_sys (file_data s) (key_data s) (workers s) (worker_args s) (data_len s) (key_len s)
    (num_threads s) (segment_size s) (offset s) (ret s) (dest s) ts (sync_lock s)
    (main s) (tree s) (klog s) (fault s).
Definition set_lock (o : option holder) (s : sys) : sys :=
  mk_sys (file_data s) (key_data s) (workers s) (worker_args s) (data_len s) (key_len s)
    (num_threads s) (segment_size s) (offset s) (ret s) (dest s) (threads s) o
    (main s) (tree s) (klog s) (fault s).
Definition set_file_data (o : obj bytes) (s : sys) : sys :=
  mk_sys o (key_data s) (workers s) (worker_args s) (data_len s) (key_len s)
    (num_threads s) (segment_size s) (offset s) (ret s) (dest s) (threads s) (sync_lock s)
    (main s) (tree s) (klog s) (fault s).
Definition set_arrays (ws : obj (list (option nat))) 
    (wa : obj (list (option worker_args_t))) (off : Z)
    (s : sys) : sys :=
  mk_sys (file_data s) (key_data s) ws wa (data_len s) (key_len s)
    (num_threads s) (segment_size s) off (ret s) (dest s) (threads s) (sync_lock s)
    (main s) (tree s) (klog s) (fault s).
Definition set_tree (σ : fs) (l : list kmsg) (s : sys) : sys :=
  mk_sys (file_data s) (key_data s) (workers s) (worker_args s) (data_len s) (key_len s)
    (num_threads s) (segment_size s) (offset s) (ret s) (dest s) (threads s) (sync_lock s)
    (main s) σ l (fault s).
Definition printk (m : kmsg) (s : sys) : sys := set_tree (tree s) (klog s ++ [m]) s.

Definition upd_worker (i : nat) (w : worker) (s : sys) : sys :=
  set_threads (<[i := w]> (threads s)) s.

Definition set_pc (p : worker_pc) (w : worker) : worker :=
  mk_worker (task w) p (idx w) (reaped w).
Definition set_idx (z : Z) (w : worker) : worker :=
  mk_worker (task w) (pc w) (Some z) (reaped w).
Definition set_task (k : kthread) (w : worker) : worker :=
  mk_worker k (pc w) (idx w) (reaped w).

(** Return [r] from [threadfn]: [kthread] passes it to [kthread_exit]. *)
Definition worker_exit (r : Z) (w : worker) : worker :=
  set_pc PcExited (set_task (kthread_exit r (task w)) w).

(** One XOR of the loop: [input_data[idx] ^= cipher_key[idx % key_length]]. *)
Definition xor_at (data key : bytes) (i klen : Z) : option bytes :=
  d ← data !! Z.to_nat i;
  k ← key !! Z.to_nat (i mod klen);
  Some (<[Z.to_nat i := Z.lxor d k]> data).

(** ** [xor_encrypt_worker] *)
Definition worker_step (i : nat) (s : sys) : option sys :=
  w ← threads s !! i;
  let upd w' := upd_worker i w' s in
  match pc w with
  | PcEntry =>
      match kthread_start (task w) with
      | EntryExit k => Some (upd (set_pc PcExited (set_task k w)))
      | EntryParked => None
      | EntryRun => Some (upd (set_pc PcLock w))
      end
  | PcLock =>
      match sync_lock s with
      | None => Some (set_lock (Some (Ours i)) (upd (set_pc PcStart w)))
      | Some _ => None
      end
  | PcStart =>
      match worker_args s with
      | Freed => Some (fail UseAfterFree s)
      | Live args =>
          match args !! i ≫= id with
          | None => Some (fail BadAccess s)
          | Some a => Some (upd (set_idx (range_start a) (set_pc PcLoop w)))
          end
      end
  | PcLoop =>
      match worker_args s with
      | Freed => Some (fail UseAfterFree s)
      | Live args =>
          match args !! i ≫= id with
          | None => Some (fail BadAccess s)
          | Some a => Some (upd (set_pc (if default 0 (idx w) <? range_end a
                                         then PcCheck else PcUnlock 0) w))
          end
      end
  | PcCheck =>
      Some (upd (set_pc (if kthread_should_stop (task w)
                         then PcUnlock (- EINTR) else PcBody) w))
  | PcBody =>
      match worker_args s with
      | Freed => Some (fail UseAfterFree s)
      | Live args =>
          match args !! i ≫= id, file_data s, key_data s with
          | None, _, _ => Some (fail BadAccess s)
          | Some a, Live data, Live key =>
              if key_length a =? 0 then Some (fail DivideError s)
              else match xor_at data key (default 0 (idx w)) (key_length a) with
                   | None => Some (fail BadAccess s)
                   | Some data' =>
                       Some (set_file_data (Live data')
                               (upd (set_idx (u64 (default 0 (idx w) + 1)) (set_pc PcLoop w))))
                   end
          | _, _, _ => Some (fail UseAfterFree s)
          end
      end
  | PcUnlock r => Some (set_lock None (upd (worker_exit r w)))
  | PcExited => None
  end.

(** [mutex_lock_interruptible] gives up when the lock is held and a signal
    is pending; [kthread_stop] raises one. *)
Definition lock_interrupted (i : nat) (s : sys) : option sys :=
  w ← threads s !! i;
  match pc w, sync_lock s with
  | PcLock, Some _ =>
      if notify_signal (task w) then Some (upd_worker i (worker_exit (- EINTR) w) s) else None
  | _, _ => None
  end.

(** The [task_struct] of an exited worker goes away unless [kthread_stop]
    took a reference before. *)
Definition reap (i : nat) (s : sys) : option sys :=
  w ← threads s !! i;
  match pc w with
  | PcExited =>
      if notify_signal (task w) || reaped w then None
      else Some (upd_worker i (mk_worker (task w) (pc w) (idx w) true) s)
  | _ => None
  end.

(** ** [save_data_to_file]: the new tree, the result and the log *)
Definition save_data (σ : fs) (filename : path) (output_data : bytes) (data_length : Z)
    : fs * Z * list kmsg :=
  match filp_open σ filename (Z.lor O_WRONLY O_CREAT) 420 with
  | (σ1, inl e) => (σ1, s32 e, [MsgOpenFailed filename])
  | (σ1, inr output_file) =>
      let '(σ2, written) := kernel_write σ1 output_file (take (Z.to_nat data_length) output_data) 0 in
      if written <? 0
      then (filp_close σ2 output_file, s32 written, [MsgWriteFailed])
      else (filp_close σ2 output_file, 0, [])
  end.

(** A worker of another call takes the mutex, or releases it. *)
Definition other_locks (s : sys) : option sys :=
  match sync_lock s with None => Some (set_lock (Some Theirs) s) | Some _ => None end.
Definition other_unlocks (s : sys) : option sys :=
  match sync_lock s with Some Theirs => Some (set_lock None s) | _ => None end.

(** The [i]-th entry of [worker_args], as the spawning loop fills it. *)
Definition make_args (i : nat) (s : sys) : worker_args_t := {|
  range_start := offset s;
  range_end := if Z.of_nat i =? num_threads s - 1 then data_len s
               else u64 (offset s + segment_size s);
  key_length := key_len s
|}.

(** The caller, from the first loop to the return.  [spawn] is the outcome
    of [kthread_run]: [None], or the error of a failed creation. *)
Definition main_step (spawn : option Z) (s : sys) : option sys :=
  match main s with
  | MSpawn i =>
      if Z.of_nat i <? num_threads s then
        match workers s, worker_args s with
        | Live ws, Live wa =>
            let wa' := Live (<[i := Some (make_args i s)]> wa) in
            let off' := u64 (offset s + segment_size s) in
            match spawn with
            | Some e =>
                Some (set_main MCleanup (set_ret (s32 e) (printk (MsgSpawnFailed i)
                  (set_arrays (Live ws) wa' off' s))))
            | None =>
                Some (set_main (MSpawn (S i))
                  (set_threads (threads s ++ [mk_worker kthread_new PcEntry None false])
                    (set_arrays (Live (<[i := Some (length (threads s))]> ws)) wa' off' s)))
            end
        | _, _ => Some (fail UseAfterFree s)
        end
      else Some (set_main (MStop 0) s)
  | MStop i =>
      if Z.of_nat i <? num_threads s then
        match workers s with
        | Freed => Some (fail UseAfterFree s)
        | Live ws =>
            match ws !! i ≫= id with
            | None => Some (fail BadAccess s)
            | Some t =>
                w ← threads s !! t;
                if reaped w then Some (fail UseAfterFree s)
                else Some (set_main (MWait i t)
                       (upd_worker t (set_task (kthread_stop_request (task w)) w) s))
            end
        end
      else Some (set_main MSave s)
  | MWait i t =>
      w ← threads s !! t;
      r ← kthread_stop_wait (task w);
      Some (set_main (MStop (S i))
        (printk (if (r =? 0) || (r =? - EINTR) then MsgThreadOk i else MsgThreadError i r) s))
  | MSave =>
      match file_data s, c_string (dest s) with
      | Freed, _ => Some (fail UseAfterFree s)
      | _, None => Some (fail UnterminatedPath s)
      | Live data, Some p =>
          let '(σ', r, msgs) := save_data (tree s) p data (data_len s) in
          Some (set_main MCleanup (set_ret r (set_tree σ' (klog s ++ msgs) s)))
      end
  | MCleanup =>
      Some (set_main MReturned (set_file_data Freed (set_arrays Freed Freed (offset s)
        (mk_sys (file_data s) Freed (workers s) (worker_args s) (data_len s) (key_len s)
          (num_threads s) (segment_size s) (offset s) (ret s) (dest s) (threads s) (sync_lock s)
          (main s) (tree s) (klog s) (fault s)))))
  | MReturned => None
  end.

(** ** One step of the whole call *)
Inductive label :=
| Main                   (* the caller advances; [kthread_run] succeeds *)
| SpawnFails (e : Z)     (* [kthread_run] fails with [ERR_PTR(e)] *)
| Worker (i : nat)       (* worker [i] advances *)
| LockIntr (i : nat)     (* its [mutex_lock_interruptible] is interrupted *)
| Reap (i : nat)         (* its [task_struct] is released *)
| OtherLocks             (* a worker of another call takes the mutex *)
| OtherUnlocks.          (* ... and releases it *)

(** A fault stops the machine. *)
Definition step (l : label) (s : sys) : option sys :=
  match fault s with
  | Some _ => None
  | None =>
      match l with
      | Main => main_step None s
      | SpawnFails e =>
          match main s with
          | MSpawn i => if Z.of_nat i <? num_threads s then main_step (Some e) s else None
          | _ => None
          end
      | Worker i => worker_step i s
      | LockIntr i => lock_interrupted i s
      | Reap i => reap i s
      | OtherLocks => other_locks s
      | OtherUnlocks => other_unlocks s
      end
  end.

(** A schedule: the labels of successive steps. *)
Fixpoint run (ls : list label) (s : sys) : option sys :=
  match ls with
  | [] => Some s
  | l :: ls => s' ← step l s; run ls s'
  end.

(** ** The sequential entry of the call *)

(** [kernel_read] into a buffer; on an error the buffer keeps its contents. *)
Definition read_into (σ : fs) (f : file) (buf : bytes) (count : Z) : bytes :=
  match kernel_read σ f count 0 with
  | inl _ => buf
  | inr r => r ++ drop (length r) buf
  end.

(** [load_key_from_file]: [None] is the NULL it returns. *)
Definition load_key (env : kenv) (σ : fs) (key_filepath : path) : fs * option (bytes * Z) :=
  match filp_open σ key_filepath O_RDONLY 0 with
  | (σ1, inl _) => (σ1, None)
  | (σ1, inr key_file) =>
      let len := u64 (i_size_read σ1 key_file) in
      if len <=? 0 then (filp_close σ1 key_file, None)
      else match kmalloc env SiteKey (u64 (len + 1)) with
           | None => (filp_close σ1 key_file, None)
           | Some key_buffer =>
               (filp_close σ1 key_file,
                Some (<[Z.to_nat len := 0]> (read_into σ1 key_file key_buffer len), len))
           end
  end.

(** [read_data_from_file] *)
Definition load_data (env : kenv) (σ : fs) (filename : path) : fs * option (bytes * Z) :=
  match filp_open σ filename O_RDONLY 0 with
  | (σ1, inl _) => (σ1, None)
  | (σ1, inr input_file) =>
      let len := u64 (i_size_read σ1 input_file) in
      if len <=? 0 then (filp_close σ1 input_file, None)
      else match kmalloc env SiteData len with
           | None => (filp_close σ1 input_file, None)
           | Some buffer =>
               (filp_close σ1 input_file, Some (read_into σ1 input_file buffer len, len))
           end
  end.

(** [kmalloc_array] of [include/linux/slab.h]. *)
Definition kmalloc_array (env : kenv) (st : alloc_site) (n size : Z) : option bytes :=
  if 2 ^ 64 <=? n * size then None else kmalloc env st (n * size).

(** How the entry ends: the call returns at once, the kernel stops, or the
    concurrent part starts. *)
Inductive entry :=
| EntryReturn (σ : fs) (r : Z)
| EntryOops (f : oops)
| EntryGo (s : sys).

Definition sizeof_ptr : Z := 8.
Definition sizeof_worker_args : Z := 40.

(** The state the first loop starts from. *)
Definition init_sys (data key : bytes) (len klen num : Z) (dst : bytes) (σ : fs) : sys :=
  mk_sys (Live data) (Live key)
    (Live (replicate (Z.to_nat num) None)) (Live (replicate (Z.to_nat num) None))
    len klen num (len / u64 num) 0 0 dst [] None (MSpawn 0) σ [] None.

(** The system call up to the first loop. *)
Definition syscall_entry (env : kenv) (σ : fs) (src_file dest_file num key_filepath : Z) : entry :=
  match copy_from_user env src_file 256 with
  | None => EntryReturn σ (- EFAULT)
  | Some src =>
  match copy_from_user env dest_file 256 with
  | None => EntryReturn σ (- EFAULT)
  | Some dst =>
  match copy_from_user env key_filepath 256 with
  | None => EntryReturn σ (- EFAULT)
  | Some kfile =>
  match c_string src with
  | None => EntryOops UnterminatedPath
  | Some srcp =>
  match load_data env σ srcp with
  | (σ1, None) => EntryReturn σ1 (- EIO)
  | (σ1, Some (data, len)) =>
  match c_string kfile with
  | None => EntryOops UnterminatedPath
  | Some keyp =>
  match load_key env σ1 keyp with
  | (σ2, None) => EntryReturn σ2 (- EIO)
  | (σ2, Some (key, klen)) =>
  match kmalloc_array env SiteWorkers (u64 num) sizeof_ptr,
        kmalloc_array env SiteArgs (u64 num) sizeof_worker_args with
  | Some _, Some _ =>
      if u64 num =? 0 then EntryOops DivideError
      else EntryGo (init_sys data key len klen num dst σ2)
  | _, _ => EntryReturn σ2 (- ENOMEM)
  end end end end end end end end.

(** ** The whole call, under a schedule *)

(** [Returned σ r rs]: the call returned [r], left the tree [σ], and its
    workers ended with the results [rs]. *)
Inductive call_result :=
| Returned (σ : fs) (r : Z) (rs : list Z)
| Stopped (f : oops).

(** [None]: the schedule does not bring the call to its end. *)
Definition syscall (env : kenv) (σ : fs) (src_file dest_file num key_filepath : Z)
    (ls : list label) : option call_result :=
  match syscall_entry env σ src_file dest_file num key_filepath with
  | EntryReturn σ' r => Some (Returned σ' r [])
  | EntryOops f => Some (Stopped f)
  | EntryGo s =>
      s' ← run ls s;
      match fault s', main s' with
      | Some f, _ => Some (Stopped f)
      | None, MReturned => Some (Returned (tree s') (ret s') (result ∘ task <$> threads s'))
      | None, _ => None
      end
  end.
End Machine.

(** ** The names of the source *)
Module MyEncrypt.
Section ops.
Context {fs file : Type} `{!Vfs fs file}.
Definition xor_encrypt_worker : nat -> sys -> option sys := worker_step (fs := fs).
Definition load_key_from_file : kenv -> fs -> path -> fs * option (bytes * Z) := load_key.
Definition read_data_from_file : kenv -> fs -> path -> fs * option (bytes * Z) := load_data.
Definition save_data_to_file : fs -> path -> bytes -> Z -> fs * Z * list kmsg := save_data.
Definition xor_encrypt_syscall : kenv -> fs -> Z -> Z -> Z -> Z -> list label -> option call_result :=
  syscall.
End ops.
End MyEncrypt.
