(* ===== verification/XorCryptInv.v ===== *)
(** * The invariant of the crypt system calls

    Segments assigned to the workers, what each worker has done to its segment,
    and the invariant of every state of [XorCrypt.step]. *)
From S2P Require Import Prelude Vfs Kthread XorCrypt.

Section Segments.
(** [n] threads share [len] bytes. *)
Context (n len : Z).

Definition seg_start (i : nat) : Z := Z.of_nat i * (len / n).
Definition seg_end (i : nat) : Z :=
  if Z.of_nat i =? n - 1 then len else seg_start i + len / n.

Context (Hn : 0 < n) (Hlen : 0 <= len).

Lemma seg_size_bound : 0 <= len / n /\ n * (len / n) <= len.
Proof using Hn Hlen.
  split; [apply Z.div_pos; lia|]. pose proof (Z.mul_div_le len n). lia.
Qed.

Lemma seg_start_bound i : Z.of_nat i <= n -> 0 <= seg_start i <= len.
Proof using Hn Hlen.
  intros Hi. pose proof seg_size_bound as [? ?]. unfold seg_start.
  assert (Z.of_nat i * (len / n) <= n * (len / n)) by (apply Z.mul_le_mono_nonneg_r; lia). lia.
Qed.

Lemma seg_bounds i : Z.of_nat i < n -> 0 <= seg_start i <= seg_end i /\ seg_end i <= len.
Proof using Hn Hlen.
  intros Hi. pose proof seg_size_bound as [? ?]. pose proof (seg_start_bound i).
  pose proof (seg_start_bound (S i)). unfold seg_end, seg_start in *. rewrite Nat2Z.inj_succ in *.
  destruct (Z.eqb_spec (Z.of_nat i) (n - 1)); lia.
Qed.

(** A later segment starts where an earlier one ended or after. *)
Lemma seg_ordered i j : Z.of_nat i < n -> Z.of_nat j < n -> (i < j)%nat -> seg_end i <= seg_start j.
Proof using Hn Hlen.
  intros Hi Hj Hij. pose proof seg_size_bound as [? ?]. unfold seg_end, seg_start.
  rewrite (proj2 (Z.eqb_neq _ _)) by lia.
  assert ((Z.of_nat i + 1) * (len / n) <= Z.of_nat j * (len / n))
    by (apply Z.mul_le_mono_nonneg_r; lia). lia.
Qed.

Lemma seg_disjoint i j x : Z.of_nat i < n -> Z.of_nat j < n ->
  seg_start i <= x < seg_end i -> seg_start j <= x < seg_end j -> i = j.
Proof using Hn Hlen.
  intros Hi Hj Hx Hy. destruct (lt_eq_lt_dec i j) as [[?|?]|?]; [|done|].
  - pose proof (seg_ordered i j). lia.
  - pose proof (seg_ordered j i). lia.
Qed.

Lemma seg_cover x : 0 <= x < len -> exists i, Z.of_nat i < n /\ seg_start i <= x < seg_end i.
Proof using Hn Hlen.
  intros Hx. pose proof seg_size_bound as [? ?].
  destruct (Z.le_gt_cases ((n - 1) * (len / n)) x) as [Hl|Hl].
  - exists (Z.to_nat (n - 1)). unfold seg_end, seg_start. rewrite Z2Nat.id by lia.
    rewrite Z.eqb_refl. lia.
  - assert (0 < len / n) by nia. exists (Z.to_nat (x / (len / n))).
    assert (0 <= x / (len / n)) by (apply Z.div_pos; lia).
    assert (x / (len / n) < n - 1) by (apply Z.div_lt_upper_bound; lia).
    unfold seg_end, seg_start. rewrite Z2Nat.id by lia. rewrite (proj2 (Z.eqb_neq _ _)) by lia.
    pose proof (Z.mul_div_le x (len / n)). pose proof (Z.mul_succ_div_gt x (len / n)). lia.
Qed.
End Segments.

(** What the whole data becomes: byte [j] XORed with byte [j mod klen] of the key. *)
Definition key_at (K : bytes) (klen : Z) (j : nat) : Z :=
  default 0 (K !! Z.to_nat (Z.of_nat j mod klen)).
Definition xor_all (D K : bytes) (klen : Z) : bytes :=
  imap (fun j b => Z.lxor b (key_at K klen j)) D.

Lemma xor_all_lookup D K klen j :
  xor_all D K klen !! j = (fun b => Z.lxor b (key_at K klen j)) <$> D !! j.
Proof. apply list_lookup_imap. Qed.

Lemma xor_all_length D K klen : length (xor_all D K klen) = length D.
Proof. apply length_imap. Qed.

Lemma xor_all_involutive D K klen : xor_all (xor_all D K klen) K klen = D.
Proof.
  apply list_eq. intros j. rewrite !xor_all_lookup. destruct (D !! j); [|done]. cbn.
  by rewrite Z.lxor_assoc, Z.lxor_nilpotent, Z.lxor_0_r.
Qed.

Section Invariant.
Context {fs file : Type} `{!Vfs fs file}.
(** The call's data and key as read, the number of threads, the key size. *)
Context (D K : bytes) (n klen : Z).
Local Abbreviation len := (Z.of_nat (length D)).
Local Abbreviation st := (seg_start n len).
Local Abbreviation en := (seg_end n len).
Local Abbreviation sys := (@sys fs).

(** What the entry of the call guarantees. *)
Record params_ok : Prop := {
  n_range : 0 < n < 2 ^ 31;
  klen_pos : 0 < klen;
  key_room : klen < Z.of_nat (length K);
  len_range : len < 2 ^ 64
}.

(** How far a worker got in its segment. *)
Definition progress (i : nat) (w : worker) : Z := default (st i) (idx w).

Definition in_cs (p : worker_pc) : bool :=
  match p with PcStart | PcLoop | PcCheck | PcBody | PcUnlock _ => true | _ => false end.

(** What is known of a worker at each program point. *)
Definition pc_ok (i : nat) (w : worker) : Prop :=
  match pc w with
  | PcEntry | PcLock | PcStart => idx w = None /\ exited (task w) = false
  | PcLoop => is_Some (idx w) /\ exited (task w) = false
  | PcCheck | PcBody => is_Some (idx w) /\ progress i w < en i /\ exited (task w) = false
  | PcUnlock r => (r = 0 /\ progress i w = en i \/ r = - EINTR /\ kthread_should_stop (task w) = true)
                  /\ exited (task w) = false
  | PcExited => exited (task w) = true /\
      (result (task w) = 0 /\ progress i w = en i \/
       result (task w) = - EINTR /\ kthread_should_stop (task w) = true)
  end.

Record worker_ok (lock : option holder) (i : nat) (w : worker) : Prop := {
  wk_progress : st i <= progress i w <= en i;
  wk_pc : pc_ok i w;
  wk_cs : in_cs (pc w) = true <-> lock = Some (Ours i);
  wk_park : kthread_should_park (task w) = false;
  wk_stop : kthread_should_stop (task w) = notify_signal (task w)
}.

(** Byte [j] has been XORed by the worker that owns it. *)
Definition touched (ts : list worker) (j : nat) : Prop :=
  exists i w, ts !! i = Some w /\ st i <= Z.of_nat j < progress i w.

Definition data_ok (ts : list worker) (d : bytes) : Prop :=
  length d = length D /\ forall j b, D !! j = Some b ->
    (touched ts j -> d !! j = Some (Z.lxor b (key_at K klen j))) /\
    (~ touched ts j -> d !! j = Some b).

Definition main_ok (m : main_pc) (nts : nat) (off : Z) : Prop :=
  match m with
  | MSpawn i => nts = i /\ off = st i
  | MStop _ | MSave => Z.of_nat nts = n
  | MWait i t => Z.of_nat nts = n /\ t = i /\ (i < nts)%nat
  | MCleanup | MReturned => True
  end.

Record live_ok (s : sys) (d : bytes) (ws : list (option nat)) (wa : list (option worker_args_t)) : Prop := {
  lv_file : file_data s = Live d;
  lv_key : key_data s = Live K;
  lv_workers : workers s = Live ws;
  lv_args : worker_args s = Live wa;
  lv_data : data_ok (threads s) d;
  lv_cells : forall i, (i < length (threads s))%nat ->
    ws !! i = Some (Some i) /\ wa !! i = Some (Some (mk_args (st i) (en i) klen));
  lv_ws_len : Z.of_nat (length ws) = n;
  lv_wa_len : Z.of_nat (length wa) = n
}.

Record inv (s : sys) : Prop := {
  in_len : data_len s = len;
  in_klen : key_len s = klen;
  in_num : num_threads s = n;
  in_seg : segment_size s = len / n;
  in_nts : Z.of_nat (length (threads s)) <= n;
  in_main : main_ok (main s) (length (threads s)) (offset s);
  in_workers : forall i w, threads s !! i = Some w -> worker_ok (sync_lock s) i w;
  in_lock : forall i, sync_lock s = Some (Ours i) -> is_Some (threads s !! i);
  in_live : main s <> MReturned -> exists d ws wa, live_ok s d ws wa;
  in_freed : main s = MReturned ->
    file_data s = Freed /\ key_data s = Freed /\ workers s = Freed /\ worker_args s = Freed
}.

(** ** How updates of one worker affect [touched] *)
Section touched.
Implicit Types ts : list worker.

Lemma touched_upd ts i w w' j : ts !! i = Some w -> progress i w' = progress i w ->
  touched (<[i := w']> ts) j <-> touched ts j.
Proof.
  intros Hi Hp. split; intros (i' & v & Hv & Hr); destruct (decide (i' = i)) as [->|Hne].
  - rewrite list_lookup_insert_eq in Hv by eauto using lookup_lt_Some. simplify_eq.
    exists i, w. split; [done|]. by rewrite <- Hp.
  - rewrite list_lookup_insert_ne in Hv by done. exists i', v. done.
  - simplify_eq. exists i, w'. rewrite list_lookup_insert_eq by eauto using lookup_lt_Some.
    split; [done|]. by rewrite Hp.
  - exists i', v. by rewrite list_lookup_insert_ne.
Qed.

Lemma touched_app ts w j : progress (length ts) w = st (length ts) ->
  touched (ts ++ [w]) j <-> touched ts j.
Proof.
  intros Hp. split; intros (i & v & Hv & Hr).
  - apply lookup_app_Some in Hv as [Hv|[Hl Hv]]; [by exists i, v|].
    apply list_lookup_singleton_Some in Hv as [Hi <-].
    assert (i = length ts) as -> by lia. lia.
  - exists i, v. split; [|done]. by apply lookup_app_l_Some.
Qed.

Lemma data_ok_ext ts ts' d : (forall j, touched ts' j <-> touched ts j) ->
  data_ok ts d -> data_ok ts' d.
Proof.
  intros Ht [Hl Hd]. split; [done|]. intros j b Hb. rewrite Ht. by apply Hd.
Qed.

(** The worker at [i] XORs the byte at its progress and moves on. *)
Lemma data_ok_body ts i w w' d x k : params_ok ->
  (forall i w, ts !! i = Some w -> st i <= progress i w <= en i) ->
  Z.of_nat (length ts) <= n ->
  ts !! i = Some w -> progress i w < en i -> progress i w' = progress i w + 1 ->
  d !! Z.to_nat (progress i w) = Some x ->
  K !! Z.to_nat (progress i w mod klen) = Some k ->
  data_ok ts d -> data_ok (<[i := w']> ts) (<[Z.to_nat (progress i w) := Z.lxor x k]> d).
Proof.
  intros [Hn Hk HK HD] Hwk Hts Hi Hlt Hp Hx Hkx [Hl Hd].
  assert (Z.of_nat i < n) as Hin by (apply lookup_lt_Some in Hi; lia).
  pose proof (seg_bounds n len ltac:(lia) ltac:(lia) i Hin).
  pose proof (Hwk i w Hi) as Hwi. set (z := progress i w) in *.
  split; [by rewrite length_insert|]. intros j b Hb. destruct (decide (j = Z.to_nat z)) as [->|Hj].
  - assert (~ touched ts (Z.to_nat z)) as Hnt.
    { intros (i' & v & Hv & Hr). assert (i' = i) as ->; [|simplify_eq; lia].
      assert (Z.of_nat i' < n) by (apply lookup_lt_Some in Hv; lia).
      specialize (Hwk i' v Hv). apply (seg_disjoint n len ltac:(lia) ltac:(lia) i' i z); lia. }
    destruct (Hd _ _ Hb) as [_ Hb']. specialize (Hb' Hnt). simplify_eq.
    rewrite list_lookup_insert_eq by eauto using lookup_lt_Some. split; intros Ht.
    + unfold key_at. rewrite Z2Nat.id by lia. by rewrite Hkx.
    + destruct Ht. exists i, w'. rewrite list_lookup_insert_eq by eauto using lookup_lt_Some.
      split; [done|]. lia.
  - rewrite list_lookup_insert_ne by done.
    assert (touched (<[i:=w']> ts) j <-> touched ts j) as ->; [|by apply Hd].
    split; intros (i' & v & Hv & Hr); destruct (decide (i' = i)) as [->|Hne].
    + rewrite list_lookup_insert_eq in Hv by eauto using lookup_lt_Some. simplify_eq.
      exists i, w. split; [done|]. fold z. lia.
    + rewrite list_lookup_insert_ne in Hv by done. by exists i', v.
    + simplify_eq. exists i, w'. rewrite list_lookup_insert_eq by eauto using lookup_lt_Some.
      split; [done|]. lia.
    + exists i', v. by rewrite list_lookup_insert_ne.
Qed.
End touched.

(** ** Preservation *)
Context (Hok : params_ok).

Lemma worker_ok_lock lock lock' i w :
  (lock = Some (Ours i) <-> lock' = Some (Ours i)) -> worker_ok lock i w -> worker_ok lock' i w.
Proof. intros Hl [? ? ? ? ?]. split; try done. by rewrite <- Hl. Qed.

(** Update one worker without moving its progress, maybe with the lock. *)
Lemma inv_upd_worker (s : sys) i w w' lock' : inv s ->
  threads s !! i = Some w -> progress i w' = progress i w ->
  worker_ok lock' i w' ->
  (forall j, j <> i -> sync_lock s = Some (Ours j) <-> lock' = Some (Ours j)) ->
  inv (set_lock lock' (upd_worker i w' s)).
Proof.
  intros Hinv Hi Hp Hw Hl. destruct Hinv. split; cbn; rewrite ?length_insert; try done.
  - intros j v Hv. destruct (decide (j = i)) as [->|Hne].
    + rewrite list_lookup_insert_eq in Hv by eauto using lookup_lt_Some. by simplify_eq.
    + rewrite list_lookup_insert_ne in Hv by done. eapply worker_ok_lock; [by apply Hl|by apply in_workers0].
  - intros j Hj. apply lookup_lt_is_Some. rewrite length_insert. apply lookup_lt_is_Some.
    destruct (decide (j = i)) as [->|Hne]; [by eexists|]. apply in_lock0. by apply Hl.
  - intros Hm. destruct (in_live0 Hm) as (d & ws & wa & []). exists d, ws, wa.
    split; cbn; rewrite ?length_insert; try done.
    eapply data_ok_ext; [|done]. intros j. by eapply touched_upd.
Qed.

Lemma inv_upd_worker_same (s : sys) i w w' : inv s ->
  threads s !! i = Some w -> progress i w' = progress i w ->
  worker_ok (sync_lock s) i w' -> inv (upd_worker i w' s).
Proof.
  intros Hinv Hi Hp Hw. by pose proof (inv_upd_worker s i w w' (sync_lock s) Hinv Hi Hp Hw ltac:(done)).
Qed.

(** Another call takes or releases the mutex. *)
Lemma inv_others (s : sys) lock' : inv s ->
  (forall j, sync_lock s = Some (Ours j) <-> lock' = Some (Ours j)) -> inv (set_lock lock' s).
Proof.
  intros [] Hl. split; cbn; try done.
  - intros i w Hi. destruct (in_workers0 i w Hi). split; try done. by rewrite <- Hl.
  - intros i Hi. by apply in_lock0, Hl.
  - intros Hm. destruct (in_live0 Hm) as (d & ws & wa & []). exists d, ws, wa. by split.
Qed.

Lemma inv_args (s : sys) i w wa : inv s -> threads s !! i = Some w -> worker_args s = Live wa ->
  wa !! i = Some (Some (mk_args (st i) (en i) klen)) /\ main s <> MReturned.
Proof.
  intros [] Hi Hwa. assert (main s <> MReturned) as Hm.
  { intros Hm. destruct (in_freed0 Hm) as (_ & _ & _ & ?). congruence. }
  destruct (in_live0 Hm) as (d & ws & wa' & []). rewrite Hwa in lv_args0. simplify_eq.
  split; [|done]. by eapply lv_cells0, lookup_lt_Some.
Qed.

(** The XOR of the loop body. *)
Lemma inv_body (s : sys) i w z d ws wa x k : inv s -> threads s !! i = Some w ->
  idx w = Some z -> progress i w < en i -> pc w = PcBody -> exited (task w) = false ->
  live_ok s d ws wa -> d !! Z.to_nat z = Some x -> K !! Z.to_nat (z mod klen) = Some k ->
  inv (set_file_data (Live (<[Z.to_nat z := Z.lxor x k]> d))
        (upd_worker i (set_idx (u64 (z + 1)) (set_pc PcLoop w)) s)).
Proof using Hok.
  intros Hinv Hi Hz Hlt Epc He Hlv Hx Hk. pose proof Hok as [? ? ? ?].
  assert (progress i w = z) as Hp by (unfold progress; by rewrite Hz).
  assert (Z.of_nat i < n) as Hin.
  { apply lookup_lt_Some in Hi. pose proof (in_nts _ Hinv). lia. }
  pose proof (seg_bounds n len ltac:(lia) ltac:(lia) i Hin) as Hseg.
  pose proof (in_workers _ Hinv i w Hi) as [Hpr Hpc Hcs Hpk Hst].
  rewrite u64_id by cint. destruct Hinv. split; cbn; rewrite ?length_insert; try done.
  - intros j v Hv. destruct (decide (j = i)) as [->|Hne].
    + rewrite list_lookup_insert_eq in Hv by eauto using lookup_lt_Some. simplify_eq.
      split; try done; unfold pc_ok, progress; cbn; [fold (progress i w); lia|by rewrite <- Hcs, Epc].
    + rewrite list_lookup_insert_ne in Hv by done. by apply in_workers0.
  - intros j Hj. apply lookup_lt_is_Some. rewrite length_insert. by apply lookup_lt_is_Some, in_lock0.
  - intros Hm. destruct Hlv. eexists _, ws, wa. split; cbn; rewrite ?length_insert; try done.
    rewrite <- Hp. eapply data_ok_body; rewrite ?Hp; eauto; [|lia].
    intros i' w' Hi'. by apply (in_workers0 i' w' Hi').
  - intros Hm. destruct Hlv. destruct (in_freed0 Hm). congruence.
Qed.

(** The step of a worker in the loop body, whose reads succeed. *)
Lemma worker_body_inv i (s s' : sys) w : inv s -> threads s !! i = Some w -> pc w = PcBody ->
  worker_step i s = Some s' -> fault s' = None -> inv s'.
Proof using Hok.
  intros Hinv Hi Epc Hstep Hf. unfold worker_step in Hstep. rewrite Hi in Hstep. cbn in Hstep.
  pose proof (in_workers _ Hinv i w Hi) as [Hpr Hpc Hcs Hpk Hst].
  unfold pc_ok in Hpc. rewrite Epc in Hstep, Hpc.
  destruct (worker_args s) as [wa|] eqn:Ea; [|by simplify_eq].
  destruct (inv_args _ _ _ _ Hinv Hi Ea) as [Hwa Hm].
  destruct (in_live _ Hinv Hm) as (d & ws & wa' & Hlv).
  rewrite (lv_file _ _ _ _ Hlv), (lv_key _ _ _ _ Hlv), Hwa in Hstep. cbn in Hstep.
  rewrite (proj2 (Z.eqb_neq klen 0)) in Hstep by (destruct Hok; lia).
  destruct Hpc as ([z Hz] & Hlt & ?). unfold xor_at in Hstep. rewrite Hz in Hstep. cbn in Hstep.
  destruct (d !! Z.to_nat z) as [x|] eqn:Hx; cbn in Hstep; [|by simplify_eq].
  destruct (K !! Z.to_nat (z mod klen)) as [k|] eqn:Hkx; cbn in Hstep; [|by simplify_eq].
  simplify_eq. by eapply inv_body.
Qed.

Lemma worker_step_inv i (s s' : sys) : inv s -> worker_step i s = Some s' ->
  fault s' = None -> inv s'.
Proof.
  intros Hinv Hstep Hf. pose proof Hstep as Hstep'. unfold worker_step in Hstep.
  destruct (threads s !! i) as [w|] eqn:Hi; [|done]. cbn in Hstep.
  pose proof (in_workers _ Hinv i w Hi) as [Hpr Hpc Hcs Hpk Hst].
  unfold pc_ok in Hpc. destruct (pc w) eqn:Epc.
  - destruct (kthread_start (task w)) eqn:Ek; simplify_eq.
    + unfold kthread_start in Ek. repeat case_match; simplify_eq.
      eapply inv_upd_worker_same; eauto. split; cbn; try done.
      unfold pc_ok; cbn. split; [done|]. by right.
    + eapply inv_upd_worker_same; eauto. by split.
  - destruct (sync_lock s) eqn:El; simplify_eq. eapply inv_upd_worker; eauto.
    + by split.
    + intros j Hj. rewrite El. naive_solver.
  - destruct (worker_args s) as [wa|] eqn:Ea; [|by simplify_eq].
    destruct (inv_args _ _ _ _ Hinv Hi Ea) as [Hwa Hm]. rewrite Hwa in Hstep. cbn in Hstep. simplify_eq.
    destruct Hpc as [Hidx ?]. assert (progress i w = st i) as Hp by (unfold progress; by rewrite Hidx).
    eapply inv_upd_worker_same; eauto. split; cbn; try done; unfold pc_ok, progress in *; cbn.
    by rewrite Hidx in Hpr.
  - destruct (worker_args s) as [wa|] eqn:Ea; [|by simplify_eq].
    destruct (inv_args _ _ _ _ Hinv Hi Ea) as [Hwa Hm]. rewrite Hwa in Hstep. cbn in Hstep. simplify_eq.
    destruct Hpc as [[z Hz] ?]. assert (progress i w = z) as Hp by (unfold progress; by rewrite Hz).
    rewrite Hz. cbn. eapply inv_upd_worker_same; eauto.
    destruct (Z.ltb_spec z (en i)); split; cbn; try done; unfold pc_ok; cbn; unfold progress in *; cbn.
    + split; [by eauto|]. split; [lia|done].
    + split; [|done]. left. split; [done|]. lia.
  - simplify_eq. destruct Hpc as ([z Hz] & Hlt & ?). eapply inv_upd_worker_same; eauto.
    destruct (kthread_should_stop (task w)) eqn:Es; split; cbn; try done; try congruence;
      unfold pc_ok; cbn; eauto.
  - by eapply worker_body_inv.
  - simplify_eq. eapply inv_upd_worker; eauto.
    + split; cbn; try done; unfold pc_ok; cbn; naive_solver.
    + intros j Hj. rewrite (proj1 Hcs) by done. naive_solver.
  - done.
Qed.

Lemma lock_interrupted_inv i (s s' : sys) : inv s -> lock_interrupted i s = Some s' -> inv s'.
Proof.
  intros Hinv Hstep. unfold lock_interrupted in Hstep.
  destruct (threads s !! i) as [w|] eqn:Hi; [|done]. cbn in Hstep.
  pose proof (in_workers _ Hinv i w Hi) as [Hpr Hpc Hcs Hpk Hst].
  destruct (pc w) eqn:Epc; try done. destruct (sync_lock s) eqn:El; [|done].
  destruct (notify_signal (task w)) eqn:En; [|done]. simplify_eq.
  eapply inv_upd_worker_same; eauto. split; cbn; rewrite ?El; try done.
  - unfold pc_ok; cbn. split; [done|]. by right.
  - by rewrite En.
Qed.

Lemma reap_inv i (s s' : sys) : inv s -> reap i s = Some s' -> inv s'.
Proof.
  intros Hinv Hstep. unfold reap in Hstep.
  destruct (threads s !! i) as [w|] eqn:Hi; [|done]. cbn in Hstep.
  pose proof (in_workers _ Hinv i w Hi) as [Hpr Hpc Hcs Hpk Hst].
  destruct (pc w) eqn:Epc; try done. destruct (_ || _); [done|]. simplify_eq.
  eapply inv_upd_worker_same; eauto. split; cbn; rewrite ?Epc; try done.
  all: unfold pc_ok in *; cbn in *; by rewrite ?Epc in *.
Qed.

(** Steps of the caller that move its program counter, the result, the
    file system or the log. *)
Lemma inv_set_main m (s : sys) : inv s -> main s <> MReturned -> m <> MReturned ->
  main_ok m (length (threads s)) (offset s) -> inv (set_main m s).
Proof.
  intros [] Hm Hm' Hok'. split; cbn; try done.
  intros _. destruct (in_live0 Hm) as (d & ws & wa & []). exists d, ws, wa. by split.
Qed.

Lemma inv_set_ret r (s : sys) : inv s -> inv (set_ret r s).
Proof.
  intros []. split; cbn; try done.
  intros Hm. destruct (in_live0 Hm) as (d & ws & wa & []). exists d, ws, wa. by split.
Qed.

Lemma inv_set_tree σ l (s : sys) : inv s -> inv (set_tree σ l s).
Proof.
  intros []. split; cbn; try done.
  intros Hm. destruct (in_live0 Hm) as (d & ws & wa & []). exists d, ws, wa. by split.
Qed.

Lemma seg_end_next i : Z.of_nat i < n -> Z.of_nat i <> n - 1 ->
  u64 (st i + len / n) = seg_end n len i.
Proof using Hok.
  intros Hi Hne. destruct Hok. pose proof (seg_bounds n len ltac:(lia) ltac:(lia) i Hi) as Hs.
  unfold seg_end in *. rewrite (proj2 (Z.eqb_neq _ _)) in * by done. apply u64_id. cint.
Qed.

Lemma seg_start_next i : Z.of_nat i < n -> u64 (st i + len / n) = st (S i).
Proof using Hok.
  intros Hi. destruct Hok. pose proof (seg_start_bound n len ltac:(lia) ltac:(lia) (S i)) as Hs.
  unfold seg_start in *. rewrite Nat2Z.inj_succ in *. rewrite u64_id; cint.
Qed.

Lemma make_args_eq (s : sys) : inv s -> forall i, main s = MSpawn i -> Z.of_nat i < n ->
  make_args i s = mk_args (st i) (en i) klen.
Proof using Hok.
  intros [] i Hm Hi. rewrite Hm in in_main0. destruct in_main0 as [<- Hoff].
  unfold make_args. rewrite in_len0, in_klen0, in_num0, in_seg0, Hoff. f_equal.
  destruct (Z.eqb_spec (Z.of_nat (length (threads s))) (n - 1)).
  - unfold seg_end. by rewrite (proj2 (Z.eqb_eq _ _)).
  - by apply seg_end_next.
Qed.

(** The new thread of the spawning loop. *)
Lemma inv_spawn (s : sys) i ws wa : inv s -> main s = MSpawn i -> Z.of_nat i < n ->
  workers s = Live ws -> worker_args s = Live wa ->
  inv (set_main (MSpawn (S i)) (set_threads (threads s ++ [mk_worker kthread_new PcEntry None false])
    (set_arrays (Live (<[i := Some (length (threads s))]> ws))
       (Live (<[i := Some (make_args i s)]> wa)) (u64 (offset s + segment_size s)) s))).
Proof using Hok.
  intros Hinv Hm Hi Hws Hwa. pose proof (make_args_eq s Hinv i Hm Hi) as Hargs. destruct Hok.
  destruct Hinv. rewrite Hm in in_main0. destruct in_main0 as [<- Hoff].
  destruct (in_live0 ltac:(by rewrite Hm)) as (d & ws' & wa' & []).
  assert (ws' = ws) as -> by congruence. assert (wa' = wa) as -> by congruence.
  split; cbn; rewrite ?length_app; cbn; try done.
  - lia.
  - split; [lia|]. rewrite Hoff, in_seg0. by apply seg_start_next.
  - intros j w Hj. apply lookup_app_Some in Hj as [Hj|[? Hj]]; [by apply in_workers0|].
    apply list_lookup_singleton_Some in Hj as [? <-].
    pose proof (seg_bounds n len ltac:(lia) ltac:(lia) j ltac:(lia)).
    split; cbn; unfold pc_ok, progress; cbn; try done; [lia|]. split; [done|].
    intros Hl. apply in_lock0, lookup_lt_is_Some in Hl. lia.
  - intros j Hj. apply in_lock0, lookup_lt_is_Some in Hj. apply lookup_lt_is_Some.
    rewrite length_app. lia.
  - intros _. exists d, (<[length (threads s) := Some (length (threads s))]> ws),
      (<[length (threads s) := Some (make_args (length (threads s)) s)]> wa).
    split; cbn; rewrite ?length_insert, ?length_app; try done.
    + eapply data_ok_ext; [|done]. intros j. by apply touched_app.
    + cbn. intros j Hj. rewrite Hargs. destruct (decide (j = length (threads s))) as [->|].
      * rewrite !list_lookup_insert_eq by lia. done.
      * rewrite !list_lookup_insert_ne by done. apply lv_cells0. lia.
Qed.

(** The failed spawn leaves a written entry of [worker_args] behind. *)
Lemma inv_spawn_failed (s : sys) i ws wa off a r m : inv s -> main s = MSpawn i ->
  workers s = Live ws -> worker_args s = Live wa ->
  inv (set_main MCleanup (set_ret r (printk m
    (set_arrays (Live ws) (Live (<[i := Some a]> wa)) off s)))).
Proof.
  intros [] Hm Hws Hwa. rewrite Hm in in_main0. destruct in_main0 as [<- Hoff].
  destruct (in_live0 ltac:(by rewrite Hm)) as (d & ws' & wa' & []).
  assert (ws' = ws) as -> by congruence. assert (wa' = wa) as -> by congruence.
  split; cbn; try done. intros _. exists d, ws, (<[length (threads s) := Some a]> wa). split; cbn; rewrite ?length_insert; try done.
  intros j Hj. rewrite list_lookup_insert_ne by lia. by apply lv_cells0.
Qed.

Lemma inv_stop (s : sys) i w : inv s -> main s = MStop i -> Z.of_nat i < n -> threads s !! i = Some w ->
  inv (set_main (MWait i i) (upd_worker i (set_task (kthread_stop_request (task w)) w) s)).
Proof.
  intros Hinv Hm Hlt Hi. apply inv_set_main; cbn; rewrite ?Hm, ?length_insert; try done.
  - pose proof (in_workers _ Hinv i w Hi) as [Hpr Hpc Hcs Hpk Hst].
    eapply inv_upd_worker_same; eauto. split; cbn; try done.
    + unfold pc_ok in *; cbn in *. destruct (pc w); try done.
      all: rewrite stop_request_should_stop; naive_solver.
    + apply stop_request_should_park.
    + apply stop_request_should_stop.
  - pose proof (in_main _ Hinv) as Hmo. rewrite Hm in Hmo. cbn in Hmo.
    apply lookup_lt_Some in Hi. lia.
Qed.

Lemma main_step_inv sp (s s' : sys) : inv s -> main_step sp s = Some s' ->
  fault s' = None -> inv s'.
Proof using Hok.
  intros Hinv Hstep Hf. unfold main_step in Hstep. pose proof (in_main _ Hinv) as Hmo.
  destruct (main s) eqn:Hm; rewrite ?(in_num _ Hinv) in Hstep; cbn in Hmo.
  - destruct (Z.ltb_spec (Z.of_nat i) n).
    + destruct (workers s) as [ws|] eqn:Hws; [|by simplify_eq].
      destruct (worker_args s) as [wa|] eqn:Hwa; [|by simplify_eq].
      destruct sp as [e|]; simplify_eq; [|by apply inv_spawn].
      by apply inv_spawn_failed.
    + simplify_eq. apply inv_set_main; rewrite ?Hm; try done.
      pose proof (in_nts _ Hinv). cbn. lia.
  - destruct (Z.ltb_spec (Z.of_nat i) n).
    + destruct (in_live _ Hinv ltac:(by rewrite Hm)) as (d & ws & wa & Hlv).
      rewrite (lv_workers _ _ _ _ Hlv) in Hstep.
      destruct (lv_cells _ _ _ _ Hlv i ltac:(lia)) as [Hc _]. rewrite Hc in Hstep. cbn in Hstep.
      destruct (threads s !! i) as [w|] eqn:Hi; [|done]. cbn in Hstep.
      destruct (reaped w); simplify_eq. by apply inv_stop.
    + simplify_eq. apply inv_set_main; rewrite ?Hm; done.
  - destruct Hmo as (Hnt & -> & Hlt). destruct (threads s !! i) as [w|]; [|done]. cbn in Hstep.
    destruct (kthread_stop_wait (task w)); [|done]. cbn in Hstep. simplify_eq.
    apply inv_set_main; cbn; rewrite ?Hm; try done. by apply inv_set_tree.
  - destruct (file_data s) as [dd|]; [|by simplify_eq]. destruct (c_string (dest s)) as [p|]; [|by simplify_eq].
    destruct (save_data _ _ _ _) as [[σ r] msgs]. simplify_eq.
    apply inv_set_main; cbn; rewrite ?Hm; try done. by apply inv_set_ret, inv_set_tree.
  - simplify_eq. destruct Hinv. by split.
  - done.
Qed.

Lemma step_inv l (s s' : sys) : inv s -> step l s = Some s' -> fault s' = None -> inv s'.
Proof using Hok.
  intros Hinv Hstep Hf. unfold step in Hstep. destruct (fault s); [done|]. destruct l.
  - by eapply main_step_inv.
  - destruct (main s); try done. destruct (_ <? _); [|done]. by eapply main_step_inv.
  - by eapply worker_step_inv.
  - by eapply lock_interrupted_inv.
  - by eapply reap_inv.
  - unfold other_locks in Hstep. destruct (sync_lock s) eqn:El; simplify_eq.
    apply inv_others; [done|]. intros j. rewrite El. naive_solver.
  - unfold other_unlocks in Hstep. destruct (sync_lock s) as [[|]|] eqn:El; simplify_eq.
    apply inv_others; [done|]. intros j. rewrite El. naive_solver.
Qed.

Lemma run_cons_fault l ls (s s' s'' : sys) : step l s = Some s' ->
  run ls s' = Some s'' -> fault s'' = None -> fault s' = None.
Proof.
  intros _. destruct ls as [|l' ls]; cbn; [by intros [= ->]|].
  unfold step. by destruct (fault s').
Qed.

(** Every state a schedule reaches without a fault satisfies the invariant. *)
Lemma run_inv ls : forall (s s' : sys), inv s -> run ls s = Some s' ->
  fault s' = None -> inv s'.
Proof using Hok.
  induction ls as [|l ls IH]; intros s s' Hinv Hrun Hf; cbn in Hrun; [by simplify_eq|].
  destruct (step l s) as [s1|] eqn:Hs; [|done]. cbn in Hrun.
  eapply IH; [|done|done]. eapply step_inv; eauto using run_cons_fault.
Qed.
End Invariant.
