(* ===== verification/XorCryptThms.v ===== *)
(** * Correctness of the crypt system calls

    What a call does to the data under every schedule, that it ends, what it
    writes, and the schedules under which it misbehaves. *)
From S2P Require Import Prelude Vfs Kthread XorCrypt XorCryptInv.

(** ** The entry establishes the invariant *)
Section Entry.
Context {fs file : Type} `{!Vfs fs file} `{!VfsLaws fs file}.

Lemma init_inv (D K : bytes) n klen dst (σ : fs) : params_ok D K n klen ->
  inv D K n klen (init_sys D K (Z.of_nat (length D)) klen n dst σ).
Proof.
  intros [Hn Hk HK HD]. split; cbn; try done.
  - rewrite u64_id; [done|]. cint.
  - lia.
  - intros _. eexists D, _, _. split; cbn; try done.
    + split; [done|]. intros j b Hb. split; [|done]. intros (i & w & Hw & _). done.
    + intros i Hi. lia.
    + rewrite length_replicate. lia.
    + rewrite length_replicate. lia.
Qed.

Lemma read_into_length σ (f : file) buf n : Z.of_nat (length buf) = n -> 
  length (read_into σ f buf n) = length buf.
Proof.
  intros Hl. unfold read_into. destruct (kernel_read σ f n 0) eqn:Hr; [done|].
  apply kernel_read_bound in Hr. rewrite length_app, length_drop. lia.
Qed.

Lemma load_data_ok (env : kenv) `{!KenvLaws env} σ p σ' d len :
  load_data env σ p = (σ', Some (d, len)) -> Z.of_nat (length d) = len /\ 0 < len < 2 ^ 63.
Proof.
  unfold load_data. destruct (filp_open _ _ _ _) as [σ1 [e|f]]; [done|]. pose proof (i_size_range σ1 f).
  rewrite u64_id by cint. destruct (Z.leb_spec (i_size_read σ1 f) 0); [done|].
  destruct (kmalloc _ _ _) as [b|] eqn:Hb; [|done]. apply kmalloc_size in Hb. intros [= <- <- <-].
  rewrite read_into_length by done. lia.
Qed.

Lemma load_key_ok (env : kenv) `{!KenvLaws env} σ p σ' k klen :
  load_key env σ p = (σ', Some (k, klen)) -> Z.of_nat (length k) = klen + 1 /\ 0 < klen < 2 ^ 63.
Proof.
  unfold load_key. destruct (filp_open _ _ _ _) as [σ1 [e|f]]; [done|]. pose proof (i_size_range σ1 f).
  rewrite !(u64_id (i_size_read σ1 f)), u64_id by cint. destruct (Z.leb_spec (i_size_read σ1 f) 0); [done|].
  destruct (kmalloc _ _ _) as [b|] eqn:Hb; [|done]. apply kmalloc_size in Hb. intros [= <- <- <-].
  rewrite length_insert. unfold read_into. destruct (kernel_read σ1 f _ 0) eqn:Hr; [lia|].
  apply kernel_read_bound in Hr. rewrite length_app, length_drop. lia.
Qed.

(** The arrays are only allocated for a number of threads that fits. *)
Lemma kmalloc_array_int (env : kenv) st n size b : is_s32 n -> 8 <= size ->
  kmalloc_array env st (u64 n) size = Some b -> 0 <= n < 2 ^ 31.
Proof.
  intros Hn Hs. unfold kmalloc_array. destruct (Z.leb_spec (2 ^ 64) (u64 n * size)); [done|].
  intros _. destruct (Z.le_gt_cases 0 n); [cint|]. 
  assert (u64 n = n + 2 ^ 64) as Hu by cint. rewrite Hu in *. cint_unfold. nia.
Qed.

Lemma entry_go (env : kenv) `{!KenvLaws env} σ a b n c s : is_s32 n ->
  syscall_entry env σ a b n c = EntryGo s ->
  exists D K klen dst σ', s = init_sys D K (Z.of_nat (length D)) klen n dst σ' /\ params_ok D K n klen /\
    copy_from_user env b 256 = Some dst.
Proof.
  intros Hn. unfold syscall_entry.
  destruct (copy_from_user env a 256) as [src|]; [|done].
  destruct (copy_from_user env b 256) as [dst|]; [|done].
  destruct (copy_from_user env c 256) as [kf|]; [|done].
  destruct (c_string src) as [srcp|]; [|done].
  destruct (load_data env σ srcp) as [σ1 [[D len]|]] eqn:HD; [|done].
  destruct (c_string kf) as [keyp|]; [|done].
  destruct (load_key env σ1 keyp) as [σ2 [[K klen]|]] eqn:HK; [|done].
  destruct (kmalloc_array _ SiteWorkers _ _) as [ba|] eqn:Ha; [|done].
  destruct (kmalloc_array _ SiteArgs _ _) as [bb|] eqn:Hb; [|done].
  apply kmalloc_array_int in Ha; [|done..].
  destruct (Z.eqb_spec (u64 n) 0) as [|Hne]; [done|]. intros [= <-].
  apply load_data_ok in HD as [<- ?]; [|done]. apply load_key_ok in HK as [? ?]; [|done].
  exists D, K, klen, dst, σ2. split; [done|]. split; [|done]. split; try lia.
  rewrite u64_id in Hne by cint. lia.
Qed.
End Entry.

(** ** Every byte is XORed at most once, under every schedule *)
Section Schedules.
Context {fs file : Type} `{!Vfs fs file}.
Context (D K : bytes) (n klen : Z) (Hok : params_ok D K n klen) (dst : bytes) (σ0 : fs).
Local Abbreviation len := (Z.of_nat (length D)).
Local Abbreviation s0 := (init_sys D K len klen n dst σ0).
Local Abbreviation inv := (inv D K n klen).
Local Abbreviation sys := (@sys fs).

Lemma reach_inv ls s : run ls s0 = Some s -> fault s = None -> inv s.
Proof using Hok. intros Hr Hf. eapply run_inv; eauto. by apply init_inv. Qed.

Lemma data_ok_bytes (ts : list worker) d : data_ok D K n klen ts d ->
  length d = length D /\ forall j b, D !! j = Some b ->
    d !! j = Some b \/ d !! j = Some (Z.lxor b (key_at K klen j)).
Proof.
  intros [Hl Hd]. split; [done|]. intros j b Hb. destruct (Hd j b Hb) as [Ht Hnt].
  destruct (decide (Exists (fun '(i, w) => seg_start n len i <= Z.of_nat j < progress D n i w)
    (imap pair ts))) as [He|He].
  - right. apply Ht. apply Exists_exists in He as ([i w] & Hin & Hr').
    apply elem_of_lookup_imap_1 in Hin as (i' & w' & ? & ?). simplify_eq. by exists i', w'.
  - left. apply Hnt. intros (i & w & Hw & Hr'). apply He, Exists_exists.
    exists (i, w). split; [|done]. eapply elem_of_lookup_imap_2; eauto.
Qed.

Lemma reach_bytes ls s d : run ls s0 = Some s -> fault s = None -> file_data s = Live d ->
  length d = length D /\ forall j b, D !! j = Some b ->
    d !! j = Some b \/ d !! j = Some (Z.lxor b (key_at K klen j)).
Proof using Hok.
  intros Hr Hf Hd. pose proof (reach_inv _ _ Hr Hf) as [].
  assert (main s <> MReturned) as Hm by (intros Hm; destruct (in_freed Hm); congruence).
  destruct (in_live Hm) as (d' & ws & wa & []). assert (d' = d) as -> by congruence.
  by eapply data_ok_bytes.
Qed.

(** At most one worker is between its lock and its unlock. *)
Lemma reach_mutex ls s i j wi wj : run ls s0 = Some s -> fault s = None ->
  threads s !! i = Some wi -> threads s !! j = Some wj ->
  in_cs (pc wi) = true -> in_cs (pc wj) = true -> i = j.
Proof using Hok.
  intros Hr Hf Hi Hj Ci Cj. pose proof (reach_inv _ _ Hr Hf) as [].
  apply in_workers in Hi as [_ _ Hi _ _]. apply in_workers in Hj as [_ _ Hj _ _].
  apply Hi in Ci. apply Hj in Cj. congruence.
Qed.

(** ** What a call writes

    [joined]: once the caller is past the stop of worker [i], worker [i] has
    exited; the tree is untouched up to the save, and from then on it is what
    saving the buffer gave.  It holds as long as no [kthread_run] fails. *)
Definition stopped_upto (m : main_pc) (nts : nat) : nat :=
  match m with MSpawn _ => 0 | MStop i | MWait i _ => i | _ => nts end.

Definition past_save (m : main_pc) : bool :=
  match m with MCleanup | MReturned => true | _ => false end.

Record joined (s : sys) : Prop := {
  jn_dest : dest s = dst;
  jn_exited : forall t w, threads s !! t = Some w ->
    (t < stopped_upto (main s) (length (threads s)))%nat -> pc w = PcExited;
  jn_count : past_save (main s) = true -> Z.of_nat (length (threads s)) = n;
  jn_pre : past_save (main s) = false -> tree s = σ0 /\ ret s = 0;
  jn_post : past_save (main s) = true -> exists d p msgs,
    c_string dst = Some p /\ data_ok D K n klen (threads s) d /\
    save_data σ0 p d len = (tree s, ret s, msgs)
}.

Lemma joined_upd_worker (s : sys) i w w' lock : joined s -> threads s !! i = Some w ->
  pc w <> PcExited \/ pc w' = PcExited ->
  (past_save (main s) = true -> progress D n i w' = progress D n i w) ->
  joined (set_lock lock (upd_worker i w' s)).
Proof.
  intros [] Hi Hpc Hpr. split; cbn; rewrite ?length_insert; try done.
  - intros t v Hv Ht. destruct (decide (t = i)) as [->|].
    + rewrite list_lookup_insert_eq in Hv by eauto using lookup_lt_Some. simplify_eq.
      destruct Hpc as [Hpc|]; [|done]. by specialize (jn_exited0 _ _ Hi Ht).
    + rewrite list_lookup_insert_ne in Hv by done. by eapply jn_exited0.
  - intros Hp. destruct (jn_post0 Hp) as (d & p & msgs & ? & ? & ?). exists d, p, msgs.
    split_and!; try done. eapply data_ok_ext; [|done]. intros j. eapply touched_upd; eauto.
Qed.

(** Past the save every worker has exited. *)
Lemma joined_all_exited (s : sys) t w : joined s -> threads s !! t = Some w ->
  past_save (main s) = true \/ main s = MSave -> pc w = PcExited.
Proof.
  intros [] Ht Hm. eapply jn_exited0; [done|]. apply lookup_lt_Some in Ht.
  destruct (main s); naive_solver.
Qed.

Lemma joined_worker i (s s' : sys) : joined s -> worker_step i s = Some s' -> joined s'.
Proof.
  intros Hj Hs. unfold worker_step in Hs. destruct (threads s !! i) as [w|] eqn:Hi; [|done]. cbn in Hs.
  assert (pc w <> PcExited) as Hpc by (intros Hpc; by rewrite Hpc in Hs).
  assert (past_save (main s) = false) as Hps.
  { destruct (past_save (main s)) eqn:E; [|done]. destruct Hpc. eapply joined_all_exited; eauto. }
  assert (forall w' lock, joined (set_lock lock (upd_worker i w' s))) as Hupd.
  { intros w' lock. eapply joined_upd_worker; eauto. congruence. }
  assert (forall w', joined (upd_worker i w' s)) as Hupd'.
  { intros w'. apply (Hupd w' (sync_lock s)). }
  assert (forall w' o, joined (set_file_data o (upd_worker i w' s))) as Hupd''.
  { intros w' o. destruct (Hupd' w'). by split. }
  assert (forall f, joined (fail f s)) as Hfail by (intros f; destruct Hj; by split).
  repeat case_match; simplify_eq; eauto.
Qed.

Lemma joined_intr i (s s' : sys) : joined s -> lock_interrupted i s = Some s' -> joined s'.
Proof.
  intros Hj Hs. unfold lock_interrupted in Hs. destruct (threads s !! i) as [w|] eqn:Hi; [|done].
  cbn in Hs. repeat case_match; simplify_eq.
  apply (joined_upd_worker s i w _ (sync_lock s)); auto.
Qed.

Lemma joined_reap i (s s' : sys) : joined s -> reap i s = Some s' -> joined s'.
Proof.
  intros Hj Hs. unfold reap in Hs. destruct (threads s !! i) as [w|] eqn:Hi; [|done].
  cbn in Hs. repeat case_match; simplify_eq.
  apply (joined_upd_worker s i w _ (sync_lock s)); cbn; auto.
Qed.

(** What another call does to the mutex changes nothing else. *)
Lemma other_locks_only (s s' : sys) : other_locks s = Some s' -> exists o, s' = set_lock o s.
Proof. unfold other_locks. intros H. repeat case_match; simplify_eq. by eexists. Qed.
Lemma other_unlocks_only (s s' : sys) : other_unlocks s = Some s' -> exists o, s' = set_lock o s.
Proof. unfold other_unlocks. intros H. repeat case_match; simplify_eq. by eexists. Qed.

Lemma joined_others (s s' : sys) : joined s -> (exists o, s' = set_lock o s) -> joined s'.
Proof. intros [] [o ->]. by split. Qed.

Lemma joined_set_main m (s : sys) : joined s ->
  past_save m = past_save (main s) ->
  (forall t w, threads s !! t = Some w -> (t < stopped_upto m (length (threads s)))%nat -> pc w = PcExited) ->
  joined (set_main m s).
Proof. intros [] Hp He. split; cbn; rewrite ?Hp; done. Qed.

Lemma worker_exited_pc lock i w : worker_ok D n lock i w -> exited (task w) = true -> pc w = PcExited.
Proof. intros [_ Hpc _ _ _] He. unfold pc_ok in Hpc. destruct (pc w); naive_solver congruence. Qed.

Lemma joined_main (s s' : sys) : inv s -> joined s -> main_step None s = Some s' -> joined s'.
Proof using Hok.
  intros Hinv Hj Hs. assert (forall f, joined (fail f s)) as Hfail by (intros f; destruct Hj; by split).
  pose proof (in_main _ _ _ _ _ Hinv) as Hmo. unfold main_step in Hs.
  destruct (main s) eqn:Hm; cbn in Hmo.
  - destruct (_ <? _) eqn:Hlt.
    + destruct (workers s); [|by simplify_eq]. destruct (worker_args s); simplify_eq; [|done].
      destruct Hj. rewrite Hm in *. split; cbn; try done. lia.
    + simplify_eq. apply joined_set_main; rewrite ?Hm; cbn; auto; lia.
  - destruct (Z.ltb_spec (Z.of_nat i) (num_threads s)).
    + repeat case_match; simplify_eq; try done. destruct (threads s !! _) as [w|] eqn:Ht; [|done].
      cbn in Hs. destruct (reaped w); simplify_eq; [done|].
      assert (joined (upd_worker n0 (set_task (kthread_stop_request (task w)) w) s)) as Hj'.
      { apply (joined_upd_worker s _ w _ (sync_lock s)); try done.
        destruct (pc w) eqn:E; cbn; rewrite ?E; auto. }
      apply joined_set_main; cbn; rewrite ?Hm; try done.
      intros t v Hv Hl. eapply (jn_exited _ Hj'); [done|]. cbn. by rewrite Hm.
    + simplify_eq. apply joined_set_main; rewrite ?Hm; cbn; auto.
      intros t w Ht Hl. eapply jn_exited; eauto. rewrite Hm. cbn. rewrite (in_num _ _ _ _ _ Hinv) in *. lia.
  - destruct Hmo as (Hnt & -> & Hlt). destruct (threads s !! i) as [w|] eqn:Hi; [|done]. cbn in Hs.
    unfold kthread_stop_wait in Hs. destruct (exited (task w)) eqn:He; [|done]. cbn in Hs. simplify_eq.
    apply joined_set_main; cbn; rewrite ?Hm; try done.
    + destruct Hj. by split.
    + intros t v Hv Hl. destruct (decide (t = i)) as [->|].
      * simplify_eq. eapply worker_exited_pc; eauto using in_workers.
      * eapply jn_exited; eauto. rewrite Hm. cbn. lia.
  - destruct (in_live _ _ _ _ _ Hinv ltac:(by rewrite Hm)) as (d & ws & wa & Hlv).
    rewrite (lv_file _ _ _ _ _ _ _ _ Hlv) in Hs. destruct (c_string (dest s)) as [p|] eqn:Hp; [|by simplify_eq].
    destruct (save_data _ _ _ _) as [[σ r] msgs] eqn:Hsv. simplify_eq. destruct Hj. rewrite Hm in *.
    split; cbn; try done. intros _. exists d, p, msgs. destruct (jn_pre0 eq_refl) as [Htr _].
    rewrite (in_len _ _ _ _ _ Hinv), Htr in Hsv. split_and!; [congruence|by destruct Hlv|done].
  - simplify_eq. destruct Hj. rewrite Hm in *. by split.
  - done.
Qed.

(** Labels of a call whose [kthread_run]s all succeed, and of one where no
    worker's [task_struct] is released early either. *)
Definition spawns_ok (l : label) : bool := match l with SpawnFails _ => false | _ => true end.
Definition no_reap (l : label) : bool := match l with Reap _ => false | _ => true end.

Lemma joined_step l (s s' : sys) : spawns_ok l = true -> inv s -> joined s ->
  step l s = Some s' -> joined s'.
Proof using Hok.
  intros Hl Hinv Hj Hs. unfold step in Hs. destruct (fault s); [done|]. destruct l; try done.
  - by eapply joined_main.
  - by eapply joined_worker.
  - by eapply joined_intr.
  - by eapply joined_reap.
  - by eapply joined_others, other_locks_only.
  - by eapply joined_others, other_unlocks_only.
Qed.

Lemma joined_init : joined s0.
Proof. by split. Qed.

Lemma run_joined ls : forall (s s' : sys), Forall (fun l => spawns_ok l = true) ls ->
  inv s -> joined s -> run ls s = Some s' -> fault s' = None -> inv s' /\ joined s'.
Proof using Hok.
  induction ls as [|l ls IH]; intros s s' Hls Hinv Hj Hr Hf; cbn in Hr; [by simplify_eq|].
  destruct (step l s) as [s1|] eqn:Hs; [|done]. cbn in Hr. inversion_clear Hls.
  eapply (IH s1); eauto using joined_step. eapply step_inv; eauto using run_cons_fault.
Qed.

Lemma reach_joined ls s : Forall (fun l => spawns_ok l = true) ls ->
  run ls s0 = Some s -> fault s = None -> inv s /\ joined s.
Proof using Hok.
  intros Hls Hr Hf. eapply run_joined; eauto using joined_init. by apply init_inv.
Qed.

(** ** No fault without a failed spawn or an early release *)
Definition clean (s : sys) : Prop := Forall (fun w => reaped w = false) (threads s).

Lemma clean_upd_worker (s : sys) i w w' : clean s -> threads s !! i = Some w ->
  reaped w' = reaped w -> clean (upd_worker i w' s).
Proof.
  intros Hc Hi Hr. apply Forall_insert; [done|]. rewrite Hr. by apply (Forall_lookup_1 _ _ _ _ Hc Hi).
Qed.

Lemma clean_step l (s s' : sys) : no_reap l = true -> clean s ->
  step l s = Some s' -> clean s'.
Proof.
  intros Hl Hc Hs. unfold step in Hs. destruct (fault s); [done|].
  assert (forall i w w', threads s !! i = Some w -> reaped w' = reaped w -> clean (upd_worker i w' s))
    as Hupd by eauto using clean_upd_worker.
  assert (forall sp, main_step sp s = Some s' -> clean s') as Hmain.
  { clear Hs. intros sp Hs. unfold main_step in Hs. repeat case_match; simplify_option_eq; try done.
    - apply Forall_app_2; [done|by repeat constructor].
    - case_match; simplify_eq; [done|]. by eapply Hupd. }
  destruct l; try done; [by eapply Hmain| | | | |].
  - repeat case_match; try done. by eapply Hmain.
  - unfold worker_step in Hs. destruct (threads s !! i) as [w|] eqn:Hi; [|done]. cbn in Hs.
    repeat case_match; simplify_eq; try done; eapply Hupd; eauto.
  - unfold lock_interrupted in Hs. destruct (threads s !! i) as [w|] eqn:Hi; [|done]. cbn in Hs.
    repeat case_match; simplify_eq. by eapply Hupd.
  - by apply other_locks_only in Hs as [o ->].
  - by apply other_unlocks_only in Hs as [o ->].
Qed.

Context (Hdst : is_Some (c_string dst)).

Lemma main_no_fault (s s' : sys) : inv s -> joined s -> clean s -> fault s = None ->
  main_step None s = Some s' -> fault s' = None.
Proof using Hdst.
  intros Hinv Hj Hc Hf Hs. unfold main_step in Hs. pose proof (in_main _ _ _ _ _ Hinv) as Hmo.
  destruct (main s) eqn:Hm; cbn in Hmo; [| | | | |done];
    try destruct (in_live _ _ _ _ _ Hinv ltac:(by rewrite Hm)) as (d & ws & wa & []);
    rewrite ?lv_workers, ?lv_args, ?lv_file, ?(jn_dest _ Hj), ?(in_num _ _ _ _ _ Hinv) in Hs.
  - destruct (_ <? _); by simplify_eq.
  - destruct (Z.ltb_spec (Z.of_nat i) n); [|by simplify_eq].
    destruct (lv_cells i ltac:(lia)) as [Hcell _]. rewrite Hcell in Hs. cbn in Hs.
    destruct (threads s !! i) as [w|] eqn:Hi; [|done]. cbn in Hs.
    rewrite (Forall_lookup_1 _ _ _ _ Hc Hi) in Hs. by simplify_eq.
  - destruct (threads s !! t) as [w|]; [|done]. cbn in Hs.
    destruct (kthread_stop_wait (task w)); [|done]. cbn in Hs. by simplify_eq.
  - destruct Hdst as [p Hp]. rewrite Hp in Hs.
    destruct (save_data _ _ _ _) as [[? ?] ?]. by simplify_eq.
  - by simplify_eq.
Qed.

Lemma worker_no_fault i (s s' : sys) : inv s -> joined s -> fault s = None ->
  worker_step i s = Some s' -> fault s' = None.
Proof using Hok.
  intros Hinv Hj Hf Hs. unfold worker_step in Hs. destruct (threads s !! i) as [w|] eqn:Hi; [|done].
  cbn in Hs. assert (main s <> MReturned) as Hm.
  { intros Hm. rewrite (joined_all_exited s i w Hj Hi) in Hs; [done|]. left. by rewrite Hm. }
  destruct (in_live _ _ _ _ _ Hinv Hm) as (d & ws & wa & []).
  destruct (lv_cells i) as [_ Hcell]; [by eapply lookup_lt_Some|].
  rewrite ?lv_args, ?lv_file, ?lv_key, ?Hcell in Hs. cbn in Hs.
  pose proof (in_workers _ _ _ _ _ Hinv i w Hi) as [Hpr Hpc _ _ _]. unfold pc_ok in Hpc.
  destruct (pc w); try by (repeat case_match; simplify_eq).
  rewrite (proj2 (Z.eqb_neq klen 0)) in Hs by (destruct Hok; lia).
  destruct Hpc as ([z Hz] & Hlt & _). unfold progress in Hpr, Hlt. rewrite Hz in Hs, Hpr, Hlt. cbn in *.
  destruct (xor_at d K z klen) eqn:Hx; [by simplify_eq|]. exfalso. revert Hx. unfold xor_at.
  destruct Hok. assert (Z.of_nat i < n) as Hin.
  { apply lookup_lt_Some in Hi. pose proof (in_nts _ _ _ _ _ Hinv). lia. }
  pose proof (seg_bounds n len ltac:(lia) ltac:(lia) i Hin) as Hseg. destruct lv_data as [Hl _].
  pose proof (Z.mod_pos_bound z klen klen_pos).
  destruct (lookup_lt_is_Some_2 d (Z.to_nat z)) as [x ->]; [lia|].
  destruct (lookup_lt_is_Some_2 K (Z.to_nat (z mod klen))) as [y ->]; [lia|]. done.
Qed.

Lemma run_no_fault ls : forall (s s' : sys),
  Forall (fun l => spawns_ok l && no_reap l = true) ls ->
  inv s -> joined s -> clean s -> fault s = None ->
  run ls s = Some s' -> fault s' = None.
Proof using Hok Hdst.
  induction ls as [|l ls IH]; intros s s' Hls Hinv Hj Hc Hf Hr; cbn in Hr; [by simplify_eq|].
  destruct (step l s) as [s1|] eqn:Hs; [|done]. cbn in Hr. inversion_clear Hls as [|? ? Hl Hls'].
  apply andb_true_iff in Hl as [Hl1 Hl2].
  assert (fault s1 = None) as Hf1.
  { unfold step in Hs. rewrite Hf in Hs. destruct l; try done.
    - by eapply main_no_fault.
    - by eapply worker_no_fault.
    - unfold lock_interrupted in Hs. destruct (threads s !! i); [|done]. cbn in Hs.
      repeat case_match; by simplify_eq.
    - by apply other_locks_only in Hs as [o ->].
    - by apply other_unlocks_only in Hs as [o ->]. }
  eapply (IH s1); eauto using joined_step, clean_step, step_inv.
Qed.

(** ** The data once every worker is done, or none started *)
Lemma data_complete (ts : list worker) d : Z.of_nat (length ts) = n ->
  (forall i w, ts !! i = Some w -> progress D n i w = seg_end n len i) ->
  data_ok D K n klen ts d -> d = xor_all D K klen.
Proof using Hok.
  intros Hts Hp [Hl Hd]. destruct Hok. apply list_eq. intros j. rewrite xor_all_lookup.
  destruct (D !! j) as [b|] eqn:Hb; cbn.
  - apply Hd in Hb as Hb'. destruct Hb' as [Hb' _]. apply Hb'.
    apply lookup_lt_Some in Hb.
    destruct (seg_cover n len ltac:(lia) ltac:(lia) (Z.of_nat j) ltac:(lia)) as (i & Hi & Hr).
    destruct (lookup_lt_is_Some_2 ts i ltac:(lia)) as [w Hw]. exists i, w. split; [done|].
    by rewrite (Hp i w Hw).
  - apply lookup_ge_None. apply lookup_ge_None in Hb. lia.
Qed.

Lemma data_untouched (ts : list worker) d :
  (forall i w, ts !! i = Some w -> progress D n i w = seg_start n len i) ->
  data_ok D K n klen ts d -> d = D.
Proof.
  intros Hp [Hl Hd]. apply list_eq_same_length with (length D); [done|done|].
  intros j x y Hj Hx Hy. destruct (Hd j y Hy) as [_ H]. rewrite H in Hx; [by simplify_eq|].
  intros (i & w & Hw & Hr). rewrite (Hp i w Hw) in Hr. lia.
Qed.

(** What a call without a failed spawn leaves behind when it returns. *)
Lemma reach_saved ls s : Forall (fun l => spawns_ok l = true) ls ->
  run ls s0 = Some s -> fault s = None -> main s = MReturned ->
  Z.of_nat (length (threads s)) = n /\ exists d p msgs,
    c_string dst = Some p /\ data_ok D K n klen (threads s) d /\
    save_data σ0 p d len = (tree s, ret s, msgs).
Proof using Hok.
  intros Hls Hr Hf Hm. destruct (reach_joined ls s Hls Hr Hf) as [_ []]. rewrite Hm in *. auto.
Qed.

Lemma reach_saved_complete ls s : Forall (fun l => spawns_ok l = true) ls ->
  run ls s0 = Some s -> fault s = None -> main s = MReturned ->
  Forall (fun w => result (task w) = 0) (threads s) ->
  exists p msgs, c_string dst = Some p /\
    save_data σ0 p (xor_all D K klen) len = (tree s, ret s, msgs).
Proof using Hok.
  intros Hls Hr Hf Hm Hz. destruct (reach_saved ls s) as (Hn & d & p & msgs & Hp & Hd & Hsv); try done.
  exists p, msgs. split; [done|]. rewrite <- Hsv. f_equal. symmetry.
  apply (data_complete (threads s)); [done| |done]. intros i w Hw.
  destruct (reach_joined ls s Hls Hr Hf) as [Hinv Hj].
  pose proof (joined_all_exited s i w Hj Hw ltac:(left; by rewrite Hm)) as Hpc.
  destruct (in_workers _ _ _ _ _ Hinv i w Hw) as [_ Hok' _ _ _]. unfold pc_ok in Hok'. rewrite Hpc in Hok'.
  pose proof (Forall_lookup_1 _ _ _ _ Hz Hw) as Hr0. cbn in Hr0. unfold EINTR in *. naive_solver lia.
Qed.

(** ** Every schedule is finite *)
Definition wmeasure (i : nat) (ow : option worker) : nat :=
  Z.to_nat match ow with
  | None => 8 + 3 * (seg_end n len i - seg_start n len i)
  | Some w =>
      let left := 3 * (seg_end n len i - progress D n i w) in
      match pc w with
      | PcEntry => 7 + left | PcLock => 6 + left | PcStart => 5 + left
      | PcLoop => 4 + left | PcCheck => 3 + left | PcBody => 2 + left
      | PcUnlock _ => 2
      | PcExited => if reaped w then 0 else 1
      end
  end.

Definition mmeasure (m : main_pc) : nat :=
  match m with
  | MSpawn i => 2 * Z.to_nat n + 4 + (Z.to_nat n - i)
  | MStop i => 2 * (Z.to_nat n - i) + 3
  | MWait i _ => 2 * (Z.to_nat n - i) + 2
  | MSave => 2 | MCleanup => 1 | MReturned => 0
  end%nat.

Definition wsum (ts : list worker) : nat :=
  sum_list_with (fun i => wmeasure i (ts !! i)) (seq 0 (Z.to_nat n)).

Definition measure (s : sys) : nat :=
  ((if fault s is Some _ then 0 else 1) + mmeasure (main s) + wsum (threads s))%nat.

Lemma wsum_upd ts i w w' : ts !! i = Some w -> Z.of_nat (length ts) <= n ->
  (wmeasure i (Some w') < wmeasure i (Some w))%nat -> (wsum (<[i := w']> ts) < wsum ts)%nat.
Proof.
  intros Hi Hn Hlt. pose proof (lookup_lt_Some _ _ _ Hi). apply (sum_list_with_lt _ _ _ i).
  - apply elem_of_seq. lia.
  - by rewrite list_lookup_insert_eq, Hi by lia.
  - intros j _. destruct (decide (j = i)) as [->|].
    + rewrite list_lookup_insert_eq, Hi by lia. lia.
    + by rewrite list_lookup_insert_ne by done.
Qed.

Lemma wsum_upd_eq ts i w w' : ts !! i = Some w ->
  wmeasure i (Some w') = wmeasure i (Some w) -> wsum (<[i := w']> ts) = wsum ts.
Proof.
  intros Hi He. pose proof (lookup_lt_Some _ _ _ Hi). apply sum_list_with_ext.
  intros j _. destruct (decide (j = i)) as [->|].
  - by rewrite list_lookup_insert_eq, Hi by lia.
  - by rewrite list_lookup_insert_ne by done.
Qed.

Lemma wsum_app ts : Z.of_nat (length ts) < n ->
  (wsum (ts ++ [mk_worker kthread_new PcEntry None false]) < wsum ts)%nat.
Proof using Hok.
  intros Hn. destruct Hok. pose proof (seg_bounds n len ltac:(lia) ltac:(lia) (length ts) Hn).
  apply (sum_list_with_lt _ _ _ (length ts)).
  - apply elem_of_seq. lia.
  - rewrite lookup_app_r, Nat.sub_diag by lia. rewrite (lookup_ge_None_2 ts) by lia.
    unfold wmeasure, progress. cbn [list_lookup lookup pc idx default from_option]. lia.
  - intros j _. destruct (lt_eq_lt_dec j (length ts)) as [[?| ->]|?].
    + by rewrite lookup_app_l by done.
    + rewrite lookup_app_r, Nat.sub_diag by lia. rewrite (lookup_ge_None_2 ts) by lia.
      unfold wmeasure, progress. cbn [list_lookup lookup pc idx default from_option]. lia.
    + rewrite lookup_ge_None_2, (lookup_ge_None_2 ts) by (rewrite ?length_app; cbn; lia). done.
Qed.

Lemma fail_measure f (s : sys) : fault s = None -> (measure (fail f s) < measure s)%nat.
Proof. intros Hf. unfold measure. rewrite Hf. cbn. lia. Qed.

Lemma measure_upd (s s' : sys) i w w' : inv s -> threads s !! i = Some w ->
  (wmeasure i (Some w') < wmeasure i (Some w))%nat ->
  threads s' = <[i := w']> (threads s) -> main s' = main s -> fault s' = fault s ->
  (measure s' < measure s)%nat.
Proof.
  intros Hinv Hi Hw Ht Hm Hf. unfold measure. rewrite Ht, Hm, Hf.
  pose proof (wsum_upd _ _ _ w' Hi (in_nts _ _ _ _ _ Hinv) Hw). lia.
Qed.

Lemma worker_measure i (s s' : sys) : inv s -> fault s = None -> worker_step i s = Some s' ->
  (measure s' < measure s)%nat.
Proof using Hok.
  intros Hinv Hf Hs. unfold worker_step in Hs. destruct (threads s !! i) as [w|] eqn:Hi; [|done]. cbn in Hs.
  pose proof (in_workers _ _ _ _ _ Hinv i w Hi) as [Hpr Hpc _ _ _]. unfold pc_ok in Hpc.
  destruct (pc w) eqn:Epc; repeat case_match; simplify_eq; auto using fail_measure;
    (eapply measure_upd; [done|done| |done..]); unfold wmeasure; rewrite Epc;
    unfold progress in *; cbn [pc set_pc set_task set_idx idx reaped worker_exit default] in *.
  all: try lia; try (destruct (reaped w); lia).
  - match goal with H : worker_args s = Live _ |- _ =>
      destruct (inv_args D K n klen s i w _ Hinv Hi H) as [Hwa _] end. simplify_option_eq. by rewrite (proj1 Hpc); cbn; lia.
  - destruct Hok, Hpc as ([z Hz] & Hlt & _). rewrite Hz in *. cbn in *.
    pose proof (in_nts _ _ _ _ _ Hinv). pose proof (lookup_lt_Some _ _ _ Hi).
    pose proof (seg_bounds n len ltac:(lia) ltac:(lia) i ltac:(lia)).
    unfold id in *. rewrite u64_id by cint. lia.
Qed.

Lemma main_measure sp (s s' : sys) : inv s -> fault s = None -> main_step sp s = Some s' ->
  (measure s' < measure s)%nat.
Proof using Hok.
  intros Hinv Hf Hs. unfold main_step in Hs. pose proof (in_main _ _ _ _ _ Hinv) as Hmo.
  rewrite ?(in_num _ _ _ _ _ Hinv) in Hs. pose proof (in_nts _ _ _ _ _ Hinv).
  destruct (main s) eqn:Hm; cbn in Hmo.
  - destruct Hmo as [<- _]. destruct (Z.ltb_spec (Z.of_nat (length (threads s))) n).
    + repeat case_match; simplify_eq; auto using fail_measure; unfold measure; cbn; rewrite Hf, Hm; cbn; [lia|].
      pose proof (wsum_app (threads s) ltac:(lia)). lia.
    + simplify_eq. unfold measure; cbn. rewrite Hf, Hm. cbn. lia.
  - destruct (Z.ltb_spec (Z.of_nat i) n).
    + repeat case_match; simplify_eq; auto using fail_measure.
      destruct (threads s !! _) as [w|] eqn:Hw; [|done]. cbn in Hs.
      destruct (reaped w) eqn:Hr; simplify_eq; auto using fail_measure.
      unfold measure; cbn. rewrite Hf, Hm. cbn. rewrite (wsum_upd_eq _ _ w _ Hw) by done. lia.
    + simplify_eq. unfold measure; cbn. rewrite Hf, Hm. cbn. lia.
  - destruct (threads s !! t) as [w|]; [|done]. cbn in Hs.
    destruct (kthread_stop_wait (task w)); [|done]. cbn in Hs. simplify_eq.
    unfold measure; cbn. rewrite Hf, Hm. cbn. lia.
  - repeat case_match; simplify_eq; auto using fail_measure; unfold measure; cbn; rewrite Hf, Hm; cbn; lia.
  - simplify_eq. unfold measure; cbn. rewrite Hf, Hm. cbn. lia.
  - done.
Qed.

(** The steps of this call, as opposed to those of another one. *)
Definition own (l : label) : bool :=
  match l with OtherLocks | OtherUnlocks => false | _ => true end.

(** A step of a call that nothing disturbs: no failed spawn, no early release,
    no other call at the mutex. *)
Definition smooth (l : label) : bool := spawns_ok l && no_reap l && own l.

Lemma smooth_parts l : smooth l = true -> spawns_ok l = true /\ no_reap l = true /\ own l = true.
Proof. unfold smooth. rewrite !andb_true_iff. tauto. Qed.

(** Without the other calls, the mutex is never theirs. *)
Lemma own_free l (s s' : sys) : own l = true -> sync_lock s <> Some Theirs ->
  step l s = Some s' -> sync_lock s' <> Some Theirs.
Proof.
  intros Ho Hl Hs. unfold step in Hs. destruct (fault s); [done|].
  assert (forall sp, main_step sp s = Some s' -> sync_lock s' = sync_lock s) as Hmain.
  { clear. intros sp. unfold main_step. destruct (main s); intros Hs; repeat case_match; simplify_option_eq; try done.
    all: repeat case_match; by simplify_eq. }
  destruct l; try done; [by rewrite (Hmain None Hs)| | | |].
  - repeat case_match; try done. by rewrite (Hmain _ Hs).
  - unfold worker_step in Hs. destruct (threads s !! i); [|done]. cbn in Hs. repeat case_match; by simplify_eq.
  - unfold lock_interrupted in Hs. destruct (threads s !! i); [|done]. cbn in Hs. repeat case_match; simplify_eq; cbn; congruence.
  - unfold reap in Hs. destruct (threads s !! i); [|done]. cbn in Hs. repeat case_match; by simplify_eq.
Qed.

Lemma others_measure l (s s' : sys) : own l = false -> step l s = Some s' -> measure s' = measure s.
Proof.
  intros Ho Hs. unfold step in Hs. destruct (fault s) eqn:Hf; [done|].
  destruct l; try done; [apply other_locks_only in Hs as [o ->]|apply other_unlocks_only in Hs as [o ->]];
    reflexivity.
Qed.

Lemma step_measure l (s s' : sys) : inv s -> own l = true -> step l s = Some s' ->
  (measure s' < measure s)%nat.
Proof using Hok.
  intros Hinv Ho Hs. unfold step in Hs. destruct (fault s) eqn:Hf; [done|]. destruct l; try done; clear Ho.
  - by eapply main_measure.
  - repeat case_match; try done. by eapply main_measure.
  - by eapply worker_measure.
  - unfold lock_interrupted in Hs. destruct (threads s !! i) as [w|] eqn:Hi; [|done]. cbn in Hs.
    pose proof (in_workers _ _ _ _ _ Hinv i w Hi) as [Hpr _ _ _ _].
    repeat case_match; simplify_eq. eapply measure_upd; [done|done| |done..].
    unfold wmeasure. rewrite H. cbn [pc worker_exit set_pc reaped set_task]. destruct (reaped w); lia.
  - unfold reap in Hs. destruct (threads s !! i) as [w|] eqn:Hi; [|done]. cbn in Hs.
    destruct (pc w) eqn:Epc; try done. destruct (_ || _) eqn:E; [done|]. simplify_eq.
    apply orb_false_iff in E as [_ E]. eapply measure_upd; [done|done| |done..].
    unfold wmeasure. cbn [pc]. rewrite Epc. cbn [reaped]. rewrite E. lia.
Qed.

Lemma run_length ls : forall (s s' : sys), inv s -> run ls s = Some s' ->
  (length (filter (fun l => own l = true) ls) <= measure s)%nat.
Proof using Hok.
  induction ls as [|l ls IH]; intros s s' Hinv Hr; cbn in Hr; [cbn; lia|].
  destruct (step l s) as [s1|] eqn:Hs; [|done]. cbn in Hr.
  assert (length (filter (fun l => own l = true) ls) <= measure s1)%nat as Hrest.
  { destruct ls as [|l' ls]; [cbn; lia|].
    assert (fault s1 = None) as Hf1 by (cbn in Hr; unfold step in Hr; by destruct (fault s1)).
    assert (inv s1) as Hi1 by (eapply step_inv; eauto). exact (IH s1 s' Hi1 Hr). }
  rewrite filter_cons. case_decide as Ho.
  - pose proof (step_measure _ _ _ Hinv Ho Hs). cbn. lia.
  - apply not_true_is_false in Ho. by rewrite <- (others_measure _ _ _ Ho Hs).
Qed.

Lemma wsum_prefix k : Z.of_nat k < n ->
  sum_list_with (fun i => wmeasure i None) (seq 0 k) = (8 * k + 3 * (k * Z.to_nat (len / n)))%nat.
Proof using Hok.
  destruct Hok. pose proof (seg_size_bound n len ltac:(lia) ltac:(lia)).
  induction k as [|k IH]; intros Hk; [done|].
  rewrite seq_S, sum_list_with_app, IH by lia. cbn [sum_list_with]. unfold wmeasure, seg_end.
  cbn [Nat.add]. rewrite (proj2 (Z.eqb_neq _ _)) by lia.
  replace (seg_start n len k + len / n - seg_start n len k) with (len / n) by lia. lia.
Qed.

(** The work there is at the start: [3] steps per byte, [11] per thread. *)
Lemma measure_init : Z.of_nat (measure s0) = 5 + 11 * n + 3 * len.
Proof using Hok.
  destruct Hok. unfold measure, wsum. cbn [fault main threads init_sys mmeasure].
  pose proof (seg_size_bound n len ltac:(lia) ltac:(lia)).
  rewrite (sum_list_with_ext _ (fun i => wmeasure i None)) by done.
  replace (Z.to_nat n) with (S (Z.to_nat (n - 1))) by lia.
  rewrite seq_S, sum_list_with_app, wsum_prefix by lia. cbn [sum_list_with Nat.add].
  unfold wmeasure, seg_end. rewrite Z2Nat.id, Z.eqb_refl by lia.
  unfold seg_start. rewrite Z2Nat.id by lia. nia.
Qed.

(** ** No deadlock: until the caller has returned, some thread can move *)
Lemma holder_moves (s : sys) i w : inv s -> threads s !! i = Some w -> in_cs (pc w) = true ->
  is_Some (worker_step i s).
Proof.
  intros Hinv Hi Hcs. unfold worker_step. rewrite Hi. cbn.
  destruct (pc w); try done; repeat case_match; eauto.
Qed.

Lemma worker_moves (s : sys) i w : inv s -> sync_lock s <> Some Theirs ->
  threads s !! i = Some w -> pc w <> PcExited -> exists j, is_Some (worker_step j s).
Proof.
  intros Hinv Hno Hi Hpc. pose proof (in_workers _ _ _ _ _ Hinv i w Hi) as [_ _ _ Hpk _].
  destruct (in_cs (pc w)) eqn:Hcs; [exists i; by eapply holder_moves|].
  destruct (pc w) eqn:Epc; try done.
  - exists i. unfold worker_step. rewrite Hi. cbn. rewrite Epc. unfold kthread_start. rewrite Hpk.
    destruct (test_bit _ _); eauto.
  - destruct (sync_lock s) as [[j|]|] eqn:El; [|done|].
    + destruct (in_lock _ _ _ _ _ Hinv j El) as [v Hv]. exists j. eapply holder_moves; eauto.
      by apply (in_workers _ _ _ _ _ Hinv j v Hv).
    + exists i. unfold worker_step. rewrite Hi. cbn. rewrite Epc, El. eauto.
Qed.

(** The caller itself moves unless it waits for a worker that has not exited. *)
Lemma caller_moves (s : sys) : inv s -> fault s = None -> main s <> MReturned ->
  (forall i t w, main s = MWait i t -> threads s !! t = Some w -> exited (task w) = true) ->
  is_Some (step Main s).
Proof.
  intros Hinv Hf Hm Hw. pose proof (in_main _ _ _ _ _ Hinv) as Hmo.
  destruct (in_live _ _ _ _ _ Hinv Hm) as (d & ws & wa & []).
  unfold step. rewrite Hf. unfold main_step. destruct (main s) eqn:Em; cbn in Hmo; try done.
  - repeat case_match; eauto.
  - rewrite (in_num _ _ _ _ _ Hinv). destruct (Z.ltb_spec (Z.of_nat i) n); [|by eauto].
    rewrite lv_workers. destruct (lv_cells i ltac:(lia)) as [-> _]. cbn.
    destruct (lookup_lt_is_Some_2 (threads s) i ltac:(lia)) as [w ->]. cbn. case_match; eauto.
  - destruct Hmo as (_ & -> & Hi). destruct (lookup_lt_is_Some_2 (threads s) i Hi) as [w Ht].
    rewrite Ht. cbn. unfold kthread_stop_wait. rewrite (Hw i i w eq_refl Ht). cbn. eauto.
  - repeat case_match; eauto.
Qed.

Lemma main_moves (s : sys) : inv s -> fault s = None -> main s <> MReturned ->
  sync_lock s <> Some Theirs -> exists l, own l = true /\ is_Some (step l s).
Proof.
  intros Hinv Hf Hm Hno. destruct (decide (Forall (fun w => pc w = PcExited) (threads s))) as [H|H].
  - exists Main. split; [done|]. apply caller_moves; try done. intros i t w _ Ht.
    destruct (in_workers _ _ _ _ _ Hinv t w Ht) as [_ Hp _ _ _]. unfold pc_ok in Hp.
    rewrite (Forall_lookup_1 _ _ _ _ H Ht) in Hp. apply Hp.
  - apply not_Forall_Exists, Exists_exists in H as (w & Hw & Hpc); [|apply _].
    apply list_elem_of_lookup in Hw as [i Hi].
    destruct (worker_moves s i w Hinv Hno Hi Hpc) as [j Hj]. exists (Worker j). split; [done|].
    unfold step. by rewrite Hf.
Qed.
End Schedules.

(** ** What a call does to the files *)

(** The reference: each byte XORed with the key, repeated. *)
Definition vernam (D Kc : bytes) : bytes :=
  imap (fun j b => Z.lxor b (default 0 (Kc !! (j mod length Kc)%nat))) D.

Lemma vernam_length D Kc : length (vernam D Kc) = length D.
Proof. apply length_imap. Qed.

Lemma vernam_involutive D Kc : vernam (vernam D Kc) Kc = D.
Proof.
  apply list_eq. intros j. unfold vernam. rewrite !list_lookup_imap. destruct (D !! j); [|done]. cbn.
  by rewrite Z.lxor_assoc, Z.lxor_nilpotent, Z.lxor_0_r.
Qed.

(** The buffer [load_key] fills: the key, then the NUL it appends. *)
Lemma xor_all_vernam D Kc : Kc <> [] -> xor_all D (Kc ++ [0]) (Z.of_nat (length Kc)) = vernam D Kc.
Proof.
  intros Hk. apply imap_ext. intros j b _. f_equal. unfold key_at.
  assert (length Kc <> 0%nat) by (by destruct Kc).
  rewrite <- Nat2Z.inj_mod, Nat2Z.id. pose proof (Nat.mod_upper_bound j (length Kc)).
  by rewrite lookup_app_l by lia.
Qed.

Section Files.
Context {fs file : Type} `{!Vfs fs file} `{!VfsLaws fs file}.
Context (env : kenv) `{!KenvLaws env}.

(** A file of at most [MAX_RW_COUNT] bytes is read whole. *)
Lemma read_whole (σ : fs) p c : contents σ p = Some c -> Z.of_nat (length c) <= MAX_RW_COUNT ->
  Z.of_nat (length c) < 2 ^ 63 /\ exists f, filp_open σ p O_RDONLY 0 = (σ, inr f) /\
    i_size_read σ f = Z.of_nat (length c) /\ kernel_read σ f (Z.of_nat (length c)) 0 = inr c /\
    filp_close σ f = σ.
Proof.
  intros Hc Hl. split; [unfold MAX_RW_COUNT in Hl; lia|].
  destruct (open_read σ p c Hc) as (f & ? & ? & Hr & ?); [unfold MAX_RW_COUNT in Hl; lia|].
  exists f. rewrite take_ge in Hr by lia. done.
Qed.

Lemma load_data_contents (σ : fs) p c σ' d len : contents σ p = Some c ->
  Z.of_nat (length c) <= MAX_RW_COUNT -> load_data env σ p = (σ', Some (d, len)) ->
  σ' = σ /\ d = c /\ len = Z.of_nat (length c).
Proof.
  intros Hc Hl. destruct (read_whole σ p c Hc Hl) as (Hl' & f & Ho & Hs & Hr & Hcl).
  unfold load_data. rewrite Ho, Hs, Hcl, u64_id by cint.
  destruct (Z.leb_spec (Z.of_nat (length c)) 0); [done|].
  destruct (kmalloc _ _ _) as [b|] eqn:Hb; [|done]. apply kmalloc_size in Hb.
  unfold read_into. rewrite Hr. intros [= <- <- <-].
  rewrite drop_ge by lia. by rewrite app_nil_r.
Qed.

Lemma load_key_contents (σ : fs) p c σ' k klen : contents σ p = Some c ->
  Z.of_nat (length c) <= MAX_RW_COUNT -> load_key env σ p = (σ', Some (k, klen)) ->
  σ' = σ /\ c <> [] /\ k = c ++ [0] /\ klen = Z.of_nat (length c).
Proof.
  intros Hc Hl. destruct (read_whole σ p c Hc Hl) as (Hl' & f & Ho & Hs & Hr & Hcl).
  unfold load_key. rewrite Ho, Hs, Hcl, !(u64_id (Z.of_nat (length c))), u64_id by cint.
  destruct (Z.leb_spec (Z.of_nat (length c)) 0); [done|].
  destruct (kmalloc _ _ _) as [b|] eqn:Hb; [|done]. apply kmalloc_size in Hb.
  unfold read_into. rewrite Hr. intros [= <- <- <-]. rewrite Nat2Z.id.
  split_and!; [done|by destruct c| |done].
  destruct (drop (length c) b) as [|x [|y l]] eqn:Hd.
  - apply (f_equal length) in Hd. rewrite length_drop in Hd. cbn in Hd. lia.
  - by rewrite insert_app_r_alt, Nat.sub_diag by lia.
  - apply (f_equal length) in Hd. rewrite length_drop in Hd. cbn in Hd. lia.
Qed.

(** What [kernel_write] answers when [save_data] writes [d] to [p]: the number
    of bytes it took, any number up to the length of [d], or an error. *)
Definition written (σ : fs) (p : path) (d : bytes) : Z :=
  match filp_open σ p (Z.lor O_WRONLY O_CREAT) 420 with
  | (_, inl e) => e
  | (σ1, inr f) => (kernel_write σ1 f d 0).2
  end.

(** The first [w] bytes of [d] over [old]. *)
Definition overlay (w : Z) (d old : bytes) : bytes := take (Z.to_nat w) d ++ drop (Z.to_nat w) old.

Lemma overlay_whole d old : overlay (Z.of_nat (length d)) d old = d ++ drop (length d) old.
Proof. unfold overlay. by rewrite Nat2Z.id, take_ge. Qed.

Lemma overlay_shorter d old : (length old <= length d)%nat -> overlay (Z.of_nat (length d)) d old = d.
Proof. intros Hl. by rewrite overlay_whole, drop_ge, app_nil_r. Qed.

(** A save that returns 0, even one whose write was short. *)
Lemma save_data_contents (σ : fs) p d σ' msgs :
  save_data σ p d (Z.of_nat (length d)) = (σ', 0, msgs) ->
  0 <= written σ p d <= Z.of_nat (length d) /\ forall q, contents σ' q =
    if same_file σ p q then Some (overlay (written σ p d) d (default [] (contents σ p))) else contents σ q.
Proof.
  unfold save_data, written. intros Hs. rewrite Nat2Z.id, take_ge in Hs by done.
  destruct (filp_open _ _ _ _) as [σ1 [e|f]] eqn:Hf.
  { apply open_error in Hf. rewrite s32_id in Hs by cint. simplify_eq. lia. }
  pose proof (write_error σ1 f d 0) as Hw. destruct (kernel_write σ1 f d 0) as [σ2 w] eqn:Hk. cbn in Hw |- *.
  destruct (Z.ltb_spec w 0).
  - rewrite s32_id in Hs by cint. simplify_eq. lia.
  - simplify_eq. destruct (open_write _ _ _ _ _ Hf _ _ Hk) as [? Hq]; [done|]. split; [lia|exact Hq].
Qed.

(** A save that returns 0 and whose write was complete, over a file that was
    not longer. *)
Lemma saved_whole (σ : fs) p d σ' msgs : (length (default [] (contents σ p)) <= length d)%nat ->
  save_data σ p d (Z.of_nat (length d)) = (σ', 0, msgs) -> written σ p d = Z.of_nat (length d) ->
  contents σ' p = Some d /\ forall q, same_file σ p q = false -> contents σ' q = contents σ q.
Proof.
  intros Hold Hs Hw. destruct (save_data_contents _ _ _ _ _ Hs) as [_ Hq]. split.
  - by rewrite Hq, same_file_refl, Hw, overlay_shorter.
  - intros q Hne. by rewrite Hq, Hne.
Qed.

(** The path a user pointer leads to. *)
Definition user_path (a : Z) : option path := copy_from_user env a 256 ≫= c_string.

(** The state a call starts from, in terms of the files it names. *)
Lemma entry_files (σ : fs) a b n c srcp keyp D Kc s : is_s32 n ->
  user_path a = Some srcp -> user_path c = Some keyp ->
  contents σ srcp = Some D -> contents σ keyp = Some Kc ->
  Z.of_nat (length D) <= MAX_RW_COUNT -> Z.of_nat (length Kc) <= MAX_RW_COUNT ->
  syscall_entry env σ a b n c = EntryGo s ->
  exists dst, copy_from_user env b 256 = Some dst /\
    s = init_sys D (Kc ++ [0]) (Z.of_nat (length D)) (Z.of_nat (length Kc)) n dst σ /\
    params_ok D (Kc ++ [0]) n (Z.of_nat (length Kc)) /\ Kc <> [].
Proof using KenvLaws0.
  intros Hn Ha Hc HD HK HlD HlK Hgo. pose proof (entry_go env σ a b n c s Hn Hgo) as Hok.
  revert Hgo. unfold syscall_entry, user_path in *.
  destruct (copy_from_user env a 256) as [src|]; [|done]. cbn in Ha.
  destruct (copy_from_user env b 256) as [dst|]; [|done].
  destruct (copy_from_user env c 256) as [kf|]; [|done]. cbn in Hc. rewrite Ha, Hc.
  destruct (load_data env σ srcp) as [σ1 [[D' len]|]] eqn:Hld; [|done].
  apply (load_data_contents _ _ D) in Hld as (-> & -> & ->); [|done..].
  destruct (load_key env σ keyp) as [σ2 [[K klen]|]] eqn:Hlk; [|done].
  apply (load_key_contents _ _ Kc) in Hlk as (-> & HKc & -> & ->); [|done..].
  repeat case_match; try done. intros [= <-]. exists dst. split_and!; try done.
  destruct Hok as (D' & K' & klen' & dst' & σ' & Heq & Hp & _).
  assert (D = D' /\ Kc ++ [0] = K' /\ Z.of_nat (length Kc) = klen') as (-> & -> & ->) by (injection Heq; auto). done.
Qed.

(** The call, when no spawn fails and every worker ran to its end. *)
Lemma syscall_vernam (σ σ' : fs) a b n c ls rs srcp dstp keyp D Kc : is_s32 n ->
  user_path a = Some srcp -> user_path b = Some dstp -> user_path c = Some keyp ->
  contents σ srcp = Some D -> contents σ keyp = Some Kc ->
  Z.of_nat (length D) <= MAX_RW_COUNT -> Z.of_nat (length Kc) <= MAX_RW_COUNT ->
  Forall (fun l => spawns_ok l = true) ls -> Forall (fun r => r = 0) rs ->
  syscall env σ a b n c ls = Some (Returned σ' 0 rs) ->
  0 <= written σ dstp (vernam D Kc) <= Z.of_nat (length D) /\ forall q, contents σ' q =
    if same_file σ dstp q
    then Some (overlay (written σ dstp (vernam D Kc)) (vernam D Kc) (default [] (contents σ dstp)))
    else contents σ q.
Proof using KenvLaws0.
  intros Hn Ha Hb Hc HD HK HlD HlK Hls Hrs Hcall. unfold syscall in Hcall.
  destruct (syscall_entry env σ a b n c) as [σ1 r|f|s] eqn:He; [|done|].
  { exfalso. revert He. simplify_eq. unfold syscall_entry.
    repeat case_match; intros; simplify_eq; unfold EFAULT, EIO, ENOMEM in *; lia. }
  destruct (entry_files σ a b n c srcp keyp D Kc s) as (dst & Hdst & -> & Hok & HKc); [done..|].
  unfold user_path in Hb. rewrite Hdst in Hb. cbn in Hb.
  destruct (run ls _) as [s|] eqn:Hrun; [|done]. cbn in Hcall.
  destruct (fault s) eqn:Hf; [done|]. destruct (main s) eqn:Hm; simplify_eq.
  destruct (reach_saved_complete D (Kc ++ [0]) n (Z.of_nat (length Kc)) Hok dst σ ls s)
    as (p & msgs & Hp & Hsv); try done.
  { by apply Forall_fmap in Hrs. }
  rewrite xor_all_vernam in Hsv by done. rewrite <- (vernam_length D Kc) in Hsv at 1.
  match goal with H : ret s = 0 |- _ => rewrite H in Hsv end.
  assert (p = dstp) as -> by congruence.
  rewrite <- (vernam_length D Kc). by eapply save_data_contents.
Qed.
End Files.
