(* ===== verification/XorCryptSched.v ===== *)
(** * Schedules of the crypt system calls that misbehave

    The caller asks every worker to stop as soon as it has created them all; a
    worker that has not started by then never does, and the call succeeds. *)
From S2P Require Import Prelude Vfs Kthread XorCrypt XorCryptInv XorCryptThms.

Section Silent.
Context {fs file : Type} `{!Vfs fs file}.
Context (D K : bytes) (n klen : Z) (Hok : params_ok D K n klen) (dst : bytes) (σ0 : fs).
Local Abbreviation len := (Z.of_nat (length D)).
Local Abbreviation s0 := (init_sys D K len klen n dst σ0).
Local Abbreviation inv := (inv D K n klen).
Local Abbreviation joined := (joined D K n klen dst σ0).
Local Abbreviation sys := (@sys fs).

Lemma run_app ls1 ls2 (s : sys) : run (ls1 ++ ls2) s = run ls1 s ≫= run ls2.
Proof.
  revert s. induction ls1 as [|l ls1 IH]; intros s; [done|]. cbn.
  destruct (step l s); [|done]. cbn. apply IH.
Qed.

(** A worker just created, and one that was stopped before it ran. *)
Definition fresh : worker := mk_worker kthread_new PcEntry None false.
Definition never_ran : worker :=
  mk_worker (kthread_exit (- EINTR) (kthread_stop_request kthread_new)) PcExited None false.

Record idle (s : sys) (m : main_pc) (ts : list worker) : Prop := {
  id_inv : inv s;
  id_joined : joined s;
  id_fault : fault s = None;
  id_free : sync_lock s <> Some Theirs;
  id_main : main s = m;
  id_threads : threads s = ts
}.

(** One label at a time, keeping the two invariants. *)
Lemma idle_step l (s : sys) m ts s' m' ts' : idle s m ts -> smooth l = true ->
  step l s = Some s' -> fault s' = None -> main s' = m' -> threads s' = ts' -> idle s' m' ts'.
Proof using Hok.
  intros [] Hl Hs Hf Hm Ht. apply smooth_parts in Hl as (? & _ & ?).
  split; try done; [by eapply step_inv|by eapply joined_step|by eapply own_free].
Qed.

Lemma idle_spawn (s : sys) k : idle s (MSpawn k) (replicate k fresh) -> Z.of_nat k < n ->
  exists s', step Main s = Some s' /\ idle s' (MSpawn (S k)) (replicate (S k) fresh).
Proof using Hok.
  intros Hid Hk. pose proof Hid as [Hinv _ Hf _ Hm Ht].
  destruct (in_live _ _ _ _ _ Hinv ltac:(by rewrite Hm)) as (d & ws & wa & []).
  assert (exists s', step Main s = Some s' /\ fault s' = None /\ main s' = MSpawn (S k) /\
    threads s' = threads s ++ [fresh]) as (s' & Hs & ? & ? & Ht').
  { unfold step, main_step. rewrite Hf, Hm, lv_workers, lv_args, (in_num _ _ _ _ _ Hinv).
    rewrite (proj2 (Z.ltb_lt _ _)) by done. eexists. done. }
  exists s'. split; [done|]. eapply idle_step; eauto; [done|].
  rewrite Ht', Ht. by rewrite (replicate_S_end k).
Qed.

Lemma idle_stop (s : sys) i : 
  idle s (MStop i) (replicate i never_ran ++ replicate (Z.to_nat n - i) fresh) -> Z.of_nat i < n ->
  exists s', run [Main; Worker i; Main] s = Some s' /\
    idle s' (MStop (S i)) (replicate (S i) never_ran ++ replicate (Z.to_nat n - S i) fresh).
Proof using Hok.
  intros Hid Hi. pose proof Hid as [Hinv _ Hf _ Hm Ht].
  destruct (in_live _ _ _ _ _ Hinv ltac:(by rewrite Hm)) as (d & ws & wa & []).
  replace (Z.to_nat n - i)%nat with (S (Z.to_nat n - S i)) in Ht by lia.
  rewrite replicate_S in Ht.
  set (ts1 := replicate i never_ran) in *. set (ts2 := replicate (Z.to_nat n - S i) fresh) in *.
  assert (length ts1 = i) as Hl by apply length_replicate.
  assert (forall w w', <[i := w']> (ts1 ++ w :: ts2) = ts1 ++ w' :: ts2) as Hins.
  { intros w w'. by rewrite insert_app_r_alt, Hl, Nat.sub_diag by lia. }
  assert (forall w, (ts1 ++ w :: ts2) !! i = Some w) as Hlk.
  { intros w. by rewrite lookup_app_r, Hl, Nat.sub_diag by lia. }
  destruct (lv_cells i) as [Hcell _].
  { rewrite Ht, length_app, Hl. cbn. lia. }
  assert (exists s1, step Main s = Some s1 /\ fault s1 = None /\ main s1 = MWait i i /\
    threads s1 = ts1 ++ set_task (kthread_stop_request kthread_new) fresh :: ts2) as (s1 & Hs1 & Hf1 & Hm1 & Ht1).
  { unfold step, main_step. rewrite Hf, Hm, lv_workers, (in_num _ _ _ _ _ Hinv).
    rewrite (proj2 (Z.ltb_lt _ _)) by done. rewrite Hcell. cbn. rewrite Ht, Hlk. cbn.
    eexists. split; [done|]. cbn. rewrite Ht, Hins. done. }
  assert (exists s2, step (Worker i) s1 = Some s2 /\ fault s2 = None /\ main s2 = MWait i i /\
    threads s2 = ts1 ++ never_ran :: ts2) as (s2 & Hs2 & Hf2 & Hm2 & Ht2).
  { unfold step, worker_step. rewrite Hf1, Ht1, Hlk. cbn.
    rewrite kthread_start_stopped by apply stop_request_should_stop. eexists. split; [done|]. cbn.
    by rewrite Ht1, Hins. }
  assert (exists s3, step Main s2 = Some s3 /\ fault s3 = None /\ main s3 = MStop (S i) /\
    threads s3 = ts1 ++ never_ran :: ts2) as (s3 & Hs3 & Hf3 & Hm3 & Ht3).
  { unfold step, main_step. rewrite Hf2, Hm2, Ht2, Hlk. cbn. by eexists. }
  exists s3. split; [cbn [run]; rewrite Hs1; cbn; rewrite Hs2; cbn; by rewrite Hs3|].
  assert (idle s1 (MWait i i) (threads s1)) as Hid1
    by (by apply (idle_step Main s _ _ s1 _ _ Hid)).
  assert (idle s2 (MWait i i) (threads s2)) as Hid2
    by (by apply (idle_step (Worker i) s1 _ _ s2 _ _ Hid1)).
  eapply idle_step; eauto; [done|]. rewrite Ht3, (replicate_S_end i). fold ts1. by rewrite <- app_assoc.
Qed.

Lemma idle_spawn_all k : Z.of_nat k <= n -> exists ls s, Forall (fun l => smooth l = true) ls /\
  run ls s0 = Some s /\ idle s (MSpawn k) (replicate k fresh).
Proof using Hok.
  induction k as [|k IH]; intros Hk.
  - exists [], s0. split_and!; [done..|]. split; try done; by apply init_inv.
  - destruct IH as (ls & s & Hls & Hr & Hid); [lia|].
    destruct (idle_spawn s k Hid) as (s' & Hs & Hid'); [lia|].
    exists (ls ++ [Main]), s'. split_and!; [by apply Forall_app_2; [|repeat constructor]| |done].
    rewrite run_app, Hr. cbn. by rewrite Hs.
Qed.

Lemma idle_stop_all i : Z.of_nat i <= n -> exists ls s, Forall (fun l => smooth l = true) ls /\
  run ls s0 = Some s /\
  idle s (MStop i) (replicate i never_ran ++ replicate (Z.to_nat n - i) fresh).
Proof using Hok.
  induction i as [|i IH]; intros Hi.
  - destruct (idle_spawn_all (Z.to_nat n)) as (ls & s & Hls & Hr & Hid); [lia|].
    pose proof Hid as [Hinv _ Hf _ Hm Ht].
    assert (step Main s = Some (set_main (MStop 0) s)) as Hs.
    { unfold step, main_step. rewrite Hf, Hm, (in_num _ _ _ _ _ Hinv).
      by rewrite (proj2 (Z.ltb_ge _ _)) by lia. }
    exists (ls ++ [Main]), (set_main (MStop 0) s).
    split_and!; [by apply Forall_app_2; [|repeat constructor]|by rewrite run_app, Hr; cbn; rewrite Hs|].
    eapply idle_step; eauto; [done|]. cbn. by rewrite Nat.sub_0_r.
  - destruct IH as (ls & s & Hls & Hr & Hid); [lia|].
    destruct (idle_stop s i Hid) as (s' & Hs & Hid'); [lia|].
    exists (ls ++ [Main; Worker i; Main]), s'. split_and!; [by apply Forall_app_2; [|repeat constructor]| |done].
    by rewrite run_app, Hr.
Qed.

(** The call returns with the plaintext handed to [save_data]. *)
Lemma silent_run p : c_string dst = Some p -> exists ls s msgs,
  Forall (fun l => smooth l = true) ls /\
  run ls s0 = Some s /\ fault s = None /\ main s = MReturned /\
  threads s = replicate (Z.to_nat n) never_ran /\
  save_data σ0 p D len = (tree s, ret s, msgs).
Proof using Hok.
  intros Hp. destruct (idle_stop_all (Z.to_nat n)) as (ls & s & Hls & Hr & [Hinv Hj Hf _ Hm Ht]);
    [destruct Hok; lia|].
  rewrite Nat.sub_diag in Ht. cbn in Ht. rewrite app_nil_r in Ht.
  destruct (in_live _ _ _ _ _ Hinv ltac:(by rewrite Hm)) as (d & ws & wa & []).
  assert (d = D) as ->.
  { eapply data_untouched; [|done]. intros i w Hw. rewrite Ht in Hw.
    apply lookup_replicate in Hw as [-> _]. done. }
  destruct (jn_pre _ _ _ _ _ _ _ Hj ltac:(by rewrite Hm)) as [Htr _].
  destruct (save_data σ0 p D len) as [[σ' r] msgs] eqn:Hsv.
  exists (ls ++ [Main; Main; Main]).
  assert (exists s', run [Main; Main; Main] s = Some s' /\ fault s' = None /\ main s' = MReturned /\
    threads s' = threads s /\ tree s' = σ' /\ ret s' = r) as (s' & Hr' & ? & ? & ? & <- & <-).
  { unfold run, step, main_step. rewrite Hf, Hm, (in_num _ _ _ _ _ Hinv).
    rewrite (proj2 (Z.ltb_ge _ _)) by (destruct Hok; lia). cbn.
    rewrite lv_file, (jn_dest _ _ _ _ _ _ _ Hj), Hp, (in_len _ _ _ _ _ Hinv), Htr, Hsv, Hf. cbn.
    rewrite Hf. by eexists. }
  exists s', msgs. split_and!; try done; [by apply Forall_app_2; [|repeat constructor]|by rewrite run_app, Hr|congruence].
Qed.
End Silent.

(** ** Use after free

    When a later [kthread_run] fails, the caller frees the buffers at once and
    the workers created before it keep using them. *)
Section UseAfterFree.
Context {fs file : Type} `{!Vfs fs file}.

Lemma uaf_run (D K : bytes) len n klen dst (σ0 : fs) e : 2 <= n ->
  exists s, run [Main; SpawnFails e; Main; Worker 0; Worker 0; Worker 0]
    (init_sys D K len klen n dst σ0) = Some s /\ fault s = Some UseAfterFree.
Proof.
  intros Hn. unfold run, step, main_step. cbn [fault main init_sys num_threads].
  rewrite (proj2 (Z.ltb_lt (Z.of_nat 0) n)) by lia. cbn.
  rewrite (proj2 (Z.ltb_lt (Z.of_nat 1) n)) by lia. cbn. by eexists.
Qed.
End UseAfterFree.
