(* ===== verification/XorCryptGood.v ===== *)
(** * The schedules under which a crypt system call does its work

    A call whose threads are all created and all scheduled before the caller
    asks them to stop: such a schedule exists whatever the data, the key and
    the number of threads, and it ends with the data XORed and saved. *)
From S2P Require Import Prelude Vfs Kthread XorCrypt XorCryptInv XorCryptThms XorCryptSched.

Section Good.
Context {fs file : Type} `{!Vfs fs file}.
Context (D K : bytes) (n klen : Z) (Hok : params_ok D K n klen) (dst : bytes) (σ0 : fs).
Context (Hdst : is_Some (c_string dst)).
Local Abbreviation len := (Z.of_nat (length D)).
Local Abbreviation s0 := (init_sys D K len klen n dst σ0).
Local Abbreviation inv := (inv D K n klen).
Local Abbreviation joined := (joined D K n klen dst σ0).
Local Abbreviation measure := (measure D n).
Local Abbreviation sys := (@sys fs).
Local Abbreviation allowed := (fun l : label => smooth l = true).

(** What every state of a call without failed spawns or early releases is. *)
Record sound (s : sys) : Prop := {
  sd_inv : inv s;
  sd_joined : joined s;
  sd_clean : clean s;
  sd_fault : fault s = None;
  sd_free : sync_lock s <> Some Theirs
}.

Lemma sound_step l (s s' : sys) : sound s -> allowed l -> step l s = Some s' -> sound s'.
Proof using Hok Hdst.
  intros [Hi Hj Hc Hf Hfr] Hl Hs. pose proof (smooth_parts l Hl) as (Hl1 & Hl2 & Hl3).
  assert (fault s' = None).
  { eapply (run_no_fault D K n klen Hok dst σ0 Hdst [l] s); eauto; [by rewrite Forall_singleton, Hl1|].
    cbn. by rewrite Hs. }
  split; [by eapply step_inv|by eapply joined_step|by eapply clean_step|done|by eapply own_free].
Qed.

(** Steps that keep [P] can be taken until [Q]: every step makes [measure]
    smaller, so it is enough that one is possible where [Q] fails. *)
Lemma run_until (P Q : sys -> Prop) (s : sys) : (forall s, Decision (Q s)) ->
  (forall s, sound s -> P s -> ~ Q s -> exists l s', allowed l /\ step l s = Some s' /\ P s') ->
  sound s -> P s -> exists ls s', Forall allowed ls /\ run ls s = Some s' /\ sound s' /\ P s' /\ Q s'.
Proof using Hok Hdst.
  intros HQ Hgo. induction s as [s IH] using (induction_ltof1 _ measure). unfold ltof in IH.
  intros Hs HP. destruct (decide (Q s)) as [Hq|Hq]; [by exists [], s|].
  destruct (Hgo s Hs HP Hq) as (l & s1 & Hl & Hst & HP1).
  assert (measure s1 < measure s)%nat as Hm by (eapply step_measure; eauto; [by destruct Hs|by apply smooth_parts]).
  destruct (IH s1 Hm) as (ls & s2 & Hls & Hr & Hrest); [by eapply sound_step|done|].
  exists (l :: ls), s2. split_and!; [by constructor|cbn; by rewrite Hst|apply Hrest..].
Qed.

(** ** First phase: the workers run, the caller waits to stop them *)
Definition unstopped (s : sys) : Prop := Forall (fun w => notify_signal (task w) = false) (threads s).
Definition all_exited (s : sys) : Prop := Forall (fun w => pc w = PcExited) (threads s).

Lemma unstopped_upd (s : sys) i w w' : unstopped s -> threads s !! i = Some w ->
  notify_signal (task w') = notify_signal (task w) -> unstopped (upd_worker i w' s).
Proof.
  intros Hu Hi Hn. apply Forall_insert; [done|]. rewrite Hn. by apply (Forall_lookup_1 _ _ _ _ Hu Hi).
Qed.

Lemma worker_step_quiet i (s s' : sys) : sound s -> worker_step i s = Some s' ->
  unstopped s -> unstopped s' /\ main s' = main s.
Proof.
  intros [_ _ _ Hf _] Hs Hu. unfold worker_step in Hs. destruct (threads s !! i) as [w|] eqn:Hi; [|done].
  cbn in Hs. assert (notify_signal (task w) = false) as Hn by exact (Forall_lookup_1 _ _ _ _ Hu Hi).
  assert (forall w', notify_signal (task w') = false -> unstopped (upd_worker i w' s)) as Hupd
    by (intros; eapply unstopped_upd; eauto; congruence).
  destruct (pc w); repeat case_match; simplify_eq; (split; [|done]); try exact Hu; apply Hupd; try done.
  unfold kthread_start in *. repeat case_match; by simplify_eq.
Qed.

Lemma workers_run (s : sys) : sound s -> unstopped s -> exists ls s', Forall allowed ls /\
  run ls s = Some s' /\ sound s' /\ (unstopped s' /\ main s' = main s) /\ all_exited s'.
Proof using Hok Hdst.
  intros Hs Hu. apply (run_until (fun t => unstopped t /\ main t = main s) all_exited); try done.
  - intros t. apply _.
  - clear Hs Hu. intros t Ht [Hu Hm] Hq. apply not_Forall_Exists in Hq; [|apply _].
    apply Exists_exists in Hq as (w & Hw & Hpc). apply list_elem_of_lookup in Hw as [i Hi].
    destruct (worker_moves D K n klen t i w) as (j & t' & Hj); [apply Ht|apply Ht|done..|].
    destruct (worker_step_quiet j t t') as [? ?]; [done..|].
    exists (Worker j), t'. split_and!; [done| |done|congruence]. unfold step. by rewrite (sd_fault _ Ht).
Qed.

(** A worker nobody stopped exits with 0. *)
Lemma unstopped_result (s : sys) : sound s -> unstopped s -> all_exited s ->
  Forall (fun w => pc w = PcExited /\ result (task w) = 0) (threads s).
Proof.
  intros Hs Hu He. apply Forall_lookup. intros i w Hi.
  pose proof (Forall_lookup_1 _ _ _ _ Hu Hi) as Hn. pose proof (Forall_lookup_1 _ _ _ _ He Hi) as Hp.
  cbn in Hn, Hp. split; [done|].
  destruct (in_workers _ _ _ _ _ (sd_inv _ Hs) i w Hi) as [_ Hpc _ _ Hst]. unfold pc_ok in Hpc.
  rewrite Hp in Hpc. destruct Hpc as [_ [[? _]|[_ ?]]]; congruence.
Qed.

(** ** Second phase: the caller collects the finished workers and saves *)
Definition finished (s : sys) : Prop := Forall (fun w => pc w = PcExited /\ result (task w) = 0) (threads s).

Lemma main_step_finished (s s' : sys) : finished s -> Z.of_nat (length (threads s)) = n ->
  inv s -> main_step None s = Some s' -> finished s' /\ length (threads s') = length (threads s).
Proof.
  intros Hfin Hn Hinv Hs. unfold main_step in Hs. pose proof (in_main _ _ _ _ _ Hinv) as Hmo.
  rewrite ?(in_num _ _ _ _ _ Hinv) in Hs.
  destruct (main s) eqn:Hm; cbn in Hmo.
  - destruct Hmo as [<- _]. destruct (Z.ltb_spec (Z.of_nat (length (threads s))) n); [lia|]. by simplify_eq.
  - repeat case_match; simplify_eq; try done. destruct (threads s !! _) as [w|] eqn:Hw; [|done]. cbn in Hs.
    destruct (reaped w); simplify_eq; [done|]. unfold finished. cbn. rewrite length_insert. split; [|done].
    apply Forall_insert; [done|]. exact (Forall_lookup_1 _ _ _ _ Hfin Hw).
  - destruct (threads s !! t) as [w|]; [|done]. cbn in Hs.
    destruct (kthread_stop_wait (task w)); [|done]. cbn in Hs. by simplify_eq.
  - repeat case_match; by simplify_eq.
  - by simplify_eq.
  - done.
Qed.

Lemma caller_finishes (s : sys) : sound s -> finished s -> Z.of_nat (length (threads s)) = n ->
  exists ls s', Forall allowed ls /\ run ls s = Some s' /\ sound s' /\
    (finished s' /\ Z.of_nat (length (threads s')) = n) /\ main s' = MReturned.
Proof using Hok Hdst.
  intros Hs Hfin Hn. apply (run_until (fun t => finished t /\ Z.of_nat (length (threads t)) = n)); try done.
  { intros t. apply _. }
  clear Hs Hfin Hn. intros t Ht [Hfin Hn] Hm.
  destruct (caller_moves D K n klen t) as [t' Hst]; [apply Ht|apply Ht|done| |].
  - intros i j w _ Hw. destruct (in_workers _ _ _ _ _ (sd_inv _ Ht) j w Hw) as [_ Hp _ _ _].
    unfold pc_ok in Hp. rewrite (proj1 (Forall_lookup_1 _ _ _ _ Hfin Hw)) in Hp. apply Hp.
  - exists Main, t'. split; [done|]. split; [done|]. unfold step in Hst. rewrite (sd_fault _ Ht) in Hst.
    destruct (main_step_finished t t' Hfin Hn (sd_inv _ Ht) Hst) as [? Hlen]. by rewrite Hlen.
Qed.

(** Create the workers, let them run, collect them: the call returns having
    saved the XORed data. *)
Lemma good_run p : c_string dst = Some p -> exists ls s msgs, Forall allowed ls /\
  run ls s0 = Some s /\ fault s = None /\ main s = MReturned /\
  Forall (fun w => result (task w) = 0) (threads s) /\
  save_data σ0 p (xor_all D K klen) len = (tree s, ret s, msgs).
Proof using Hok Hdst.
  intros Hp. destruct (idle_spawn_all D K n klen Hok dst σ0 (Z.to_nat n)) as
    (l1 & s1 & Hl1 & Hr1 & [Hi Hj Hf Hfr Hm Ht]); [destruct Hok; lia|].
  assert (sound s1) as Hs1.
  { split; try done. unfold clean. rewrite Ht. by apply Forall_replicate. }
  destruct (workers_run s1 Hs1) as (l2 & s2 & Hl2 & Hr2 & Hs2 & [Hu2 Hm2] & He2).
  { unfold unstopped. rewrite Ht. by apply Forall_replicate. }
  assert (Z.of_nat (length (threads s2)) = n) as Hn2.
  { pose proof (in_main _ _ _ _ _ (sd_inv _ Hs2)) as Hmo. rewrite Hm2, Hm in Hmo. cbn in Hmo.
    destruct Hok. lia. }
  destruct (caller_finishes s2 Hs2 (unstopped_result s2 Hs2 Hu2 He2) Hn2)
    as (l3 & s3 & Hl3 & Hr3 & Hs3 & [Hfin _] & Hm3).
  assert (run (l1 ++ l2 ++ l3) s0 = Some s3) as Hrun
    by (rewrite run_app, Hr1; cbn; by rewrite run_app, Hr2).
  assert (Forall allowed (l1 ++ l2 ++ l3)) as Hall by (repeat apply Forall_app_2; done).
  assert (Forall (fun w => result (task w) = 0) (threads s3)) as Hres
    by (eapply Forall_impl; [exact Hfin|by intros w [_ ?]]).
  assert (Forall (fun l => spawns_ok l = true) (l1 ++ l2 ++ l3)) as Hsp
    by (eapply Forall_impl; [exact Hall|by intros l [? _]%smooth_parts]).
  destruct (reach_saved_complete D K n klen Hok dst σ0 _ s3 Hsp Hrun (sd_fault _ Hs3) Hm3 Hres)
    as (q & msgs & Hq & Hsv).
  exists (l1 ++ l2 ++ l3), s3, msgs. split_and!; try done; [apply Hs3|]. by replace p with q by congruence.
Qed.

(** ... but if a finished worker's [task_struct] is released before the caller
    stops it, the caller uses it after it was freed. *)
Lemma released_run : exists ls s, Forall (fun l => spawns_ok l = true) ls /\
  run ls s0 = Some s /\ fault s = Some UseAfterFree.
Proof using Hok Hdst.
  destruct (idle_spawn_all D K n klen Hok dst σ0 (Z.to_nat n)) as
    (l1 & s1 & Hl1 & Hr1 & [Hi Hj Hf Hfr Hm Ht]); [destruct Hok; lia|].
  assert (sound s1) as Hs1.
  { split; try done. unfold clean. rewrite Ht. by apply Forall_replicate. }
  destruct (workers_run s1 Hs1) as (l2 & s2 & Hl2 & Hr2 & [Hi2 _ Hc2 Hf2 _] & [Hu2 Hm2] & He2).
  { unfold unstopped. rewrite Ht. by apply Forall_replicate. }
  rewrite Hm in Hm2. pose proof (in_main _ _ _ _ _ Hi2) as Hmo. rewrite Hm2 in Hmo. destruct Hmo as [Hn2 _].
  assert (0 < n) as Hpos by (destruct Hok; lia).
  destruct (lookup_lt_is_Some_2 (threads s2) 0) as [w Hw]; [lia|].
  destruct (in_live _ _ _ _ _ Hi2 ltac:(by rewrite Hm2)) as (d & ws & wa & []).
  destruct (lv_cells 0%nat) as [Hcell _]; [lia|].
  assert (exists s3, run [Reap 0; Main; Main] s2 = Some s3 /\ fault s3 = Some UseAfterFree) as (s3 & Hr3 & Hf3).
  { unfold run, step, reap, main_step. rewrite Hf2, Hw. cbn [mbind option_bind].
    assert (pc w = PcExited) as -> by exact (Forall_lookup_1 _ _ _ _ He2 Hw).
    assert (notify_signal (task w) = false) as -> by exact (Forall_lookup_1 _ _ _ _ Hu2 Hw).
    assert (reaped w = false) as -> by exact (Forall_lookup_1 _ _ _ _ Hc2 Hw).
    cbn. rewrite Hf2, Hm2, (in_num _ _ _ _ _ Hi2), (proj2 (Z.ltb_ge _ _)) by lia. cbn. rewrite Hf2.
    rewrite (in_num _ _ _ _ _ Hi2), (proj2 (Z.ltb_lt (Z.of_nat 0) n)), lv_workers, Hcell by lia. cbn.
    rewrite list_lookup_insert_eq by lia. cbn. by eexists. }
  exists (l1 ++ l2 ++ [Reap 0; Main; Main]), s3. split; [|split; [|done]].
  - assert (forall ls, Forall allowed ls -> Forall (fun l => spawns_ok l = true) ls) as Hal.
    { intros ls Hls. eapply Forall_impl; [exact Hls|]. by intros l [? _]%smooth_parts. }
    by repeat apply Forall_app_2; auto.
  - rewrite run_app, Hr1. cbn [mbind option_bind]. by rewrite run_app, Hr2.
Qed.
End Good.

(** ** A call that returns 0 had all its threads created *)
Section Errors.
Context {fs file : Type} `{!Vfs fs file}.
Local Abbreviation sys := (@sys fs).

(** The errors [kthread_run] can report are error numbers. *)
Definition errno_label (l : label) : bool :=
  match l with SpawnFails e => (-4095 <=? e) && (e <? 0) | _ => true end.

(** The caller gave up: it is past the loops, with an error to return. *)
Definition gave_up (s : sys) : Prop := past_save (main s) = true /\ ret s < 0.

Lemma gave_up_step l (s s' : sys) : gave_up s -> step l s = Some s' -> gave_up s'.
Proof.
  intros [Hm Hr] Hs. unfold step in Hs. destruct (fault s); [done|]. destruct l.
  - unfold main_step in Hs. destruct (main s); by simplify_eq.
  - by destruct (main s).
  - unfold worker_step in Hs. destruct (threads s !! i); [|done]. cbn in Hs. repeat case_match; by simplify_eq.
  - unfold lock_interrupted in Hs. destruct (threads s !! i); [|done]. cbn in Hs. repeat case_match; by simplify_eq.
  - unfold reap in Hs. destruct (threads s !! i); [|done]. cbn in Hs. repeat case_match; by simplify_eq.
  - by apply other_locks_only in Hs as [o ->].
  - by apply other_unlocks_only in Hs as [o ->].
Qed.

Lemma gave_up_run ls : forall s s' : sys, gave_up s -> run ls s = Some s' -> gave_up s'.
Proof.
  induction ls as [|l ls IH]; intros s s' Hg Hr; cbn in Hr; [by simplify_eq|].
  destruct (step l s) as [s1|] eqn:Hs; [|done]. eauto using gave_up_step.
Qed.

Lemma failed_spawn_gives_up e (s s' : sys) : -4095 <= e < 0 -> step (SpawnFails e) s = Some s' ->
  fault s' = None -> gave_up s'.
Proof.
  intros He Hs Hf. unfold step in Hs. destruct (fault s); [done|]. destruct (main s) eqn:Hm; try done.
  unfold main_step in Hs. rewrite Hm in Hs. repeat case_match; simplify_eq; try done.
  split; [done|]. cbn. rewrite s32_id by cint. lia.
Qed.

Lemma returned_zero_spawned ls : forall s s' : sys, run ls s = Some s' ->
  Forall (fun l => errno_label l = true) ls -> fault s' = None -> ret s' = 0 ->
  Forall (fun l => spawns_ok l = true) ls.
Proof.
  induction ls as [|l ls IH]; intros s s' Hr Hls Hf H0; [constructor|]. cbn in Hr.
  destruct (step l s) as [s1|] eqn:Hs; [|done]. cbn in Hr. inversion_clear Hls as [|?? Hl Hls'].
  constructor; [|by eapply IH]. destruct l; try done. cbn in Hl.
  assert (fault s1 = None) as Hf1.
  { destruct ls as [|l' ls]; cbn in Hr; [by simplify_eq|]. unfold step in Hr. by destruct (fault s1). }
  destruct (gave_up_run ls s1 s') as [_ ?]; [eapply failed_spawn_gives_up; eauto; lia|done|lia].
Qed.
End Errors.

(** ** What the whole call does to the files *)
Section Files.
Context {fs file : Type} `{!Vfs fs file} `{!VfsLaws fs file}.
Context (env : kenv) `{!KenvLaws env}.
Context (σ : fs) (a b n c : Z) (srcp dstp keyp : path) (D Kc : bytes).
Context (Hn : is_s32 n) (Ha : user_path env a = Some srcp) (Hb : user_path env b = Some dstp).
Context (Hc : user_path env c = Some keyp) (HD : contents σ srcp = Some D) (HK : contents σ keyp = Some Kc).
Context (HlD : Z.of_nat (length D) <= MAX_RW_COUNT) (HlK : Z.of_nat (length Kc) <= MAX_RW_COUNT).

(** Memory for the data, the key and the two arrays. *)
Record memory_ok : Prop := {
  mo_data : is_Some (kmalloc env SiteData (Z.of_nat (length D)));
  mo_key : is_Some (kmalloc env SiteKey (Z.of_nat (length Kc) + 1));
  mo_workers : is_Some (kmalloc env SiteWorkers (n * sizeof_ptr));
  mo_args : is_Some (kmalloc env SiteArgs (n * sizeof_worker_args))
}.

Lemma entry_goes : 0 < n -> D <> [] -> Kc <> [] -> memory_ok -> exists s, syscall_entry env σ a b n c = EntryGo s.
Proof using Hn Ha Hb Hc HD HK HlD HlK.
  intros Hpos HneD HneK [[bd Hbd] [bk Hbk] [bw Hbw] [ba Hba]]. unfold syscall_entry. unfold user_path in *.
  destruct (copy_from_user env a 256) as [src|]; [|done]. cbn in Ha.
  destruct (copy_from_user env b 256) as [dst|]; [|done].
  destruct (copy_from_user env c 256) as [kf|]; [|done]. cbn in Hc. rewrite Ha, Hc.
  destruct (read_whole σ srcp D HD HlD) as (? & f & Ho & Hs & _ & Hcl).
  destruct (read_whole σ keyp Kc HK HlK) as (? & g & Hog & Hsg & _ & Hcg).
  assert (0 < Z.of_nat (length D)) by (destruct D; [done|cbn; lia]).
  assert (0 < Z.of_nat (length Kc)) by (destruct Kc; [done|cbn; lia]).
  unfold load_data. rewrite Ho, Hs, u64_id, (proj2 (Z.leb_gt _ _)), Hbd, Hcl by cint.
  unfold load_key. rewrite Hog, Hsg, (u64_id (Z.of_nat (length Kc))), u64_id by cint.
  rewrite (proj2 (Z.leb_gt (Z.of_nat (length Kc)) _)), Hbk, Hcg by lia.
  unfold kmalloc_array, sizeof_ptr, sizeof_worker_args in *. rewrite (u64_id n) by cint.
  rewrite !(proj2 (Z.leb_gt (2 ^ 64) _)), Hbw, Hba, (proj2 (Z.eqb_neq n 0)) by (unfold is_s32 in *; cint). eauto.
Qed.

(** Some schedule encrypts: the result 0, every thread with result 0, and the
    tree that saving the XORed data gives. *)
Lemma syscall_good σ' msgs : 0 < n -> D <> [] -> Kc <> [] -> memory_ok ->
  save_data σ dstp (vernam D Kc) (Z.of_nat (length D)) = (σ', 0, msgs) ->
  exists ls rs, Forall (fun l => smooth l = true) ls /\ Forall (fun r => r = 0) rs /\
    syscall env σ a b n c ls = Some (Returned σ' 0 rs).
Proof using Hn Ha Hb Hc HD HK HlD HlK KenvLaws0.
  intros Hpos HneD HneK Hmem Hsv. destruct (entry_goes Hpos HneD HneK Hmem) as [s0 He].
  destruct (entry_files env σ a b n c srcp keyp D Kc s0) as (dst & Hdst & -> & Hok & HKc); [done..|].
  unfold user_path in Hb. rewrite Hdst in Hb. cbn in Hb.
  destruct (good_run D (Kc ++ [0]) n (Z.of_nat (length Kc)) Hok dst σ ltac:(by eauto) dstp Hb)
    as (ls & s & msgs' & Hls & Hr & Hf & Hm & Hres & Hsv').
  rewrite xor_all_vernam in Hsv' by done. rewrite Hsv' in Hsv. injection Hsv as <- Hret <-.
  exists ls, (result ∘ task <$> threads s). split; [done|]. split; [by apply Forall_fmap|].
  unfold syscall. rewrite He, Hr. cbn. by rewrite Hf, Hm, Hret.
Qed.

(** Each byte of [X] is the byte of [D] or that byte XORed with its key byte. *)
Definition mixture (X : bytes) : Prop := length X = length D /\
  forall j x, X !! j = Some x -> D !! j = Some x \/ vernam D Kc !! j = Some x.

(** Under every schedule, a call that returns 0 has written such bytes, as many
    of them as [kernel_write] took, and nothing to other files. *)
Lemma syscall_mixture σ' ls rs : Forall (fun l => errno_label l = true) ls ->
  syscall env σ a b n c ls = Some (Returned σ' 0 rs) ->
  exists X, mixture X /\ 0 <= written σ dstp X <= Z.of_nat (length D) /\ forall q, contents σ' q =
    if same_file σ dstp q
    then Some (overlay (written σ dstp X) X (default [] (contents σ dstp))) else contents σ q.
Proof using Hn Ha Hb Hc HD HK HlD HlK KenvLaws0.
  intros Hls Hcall. unfold syscall in Hcall.
  destruct (syscall_entry env σ a b n c) as [σ1 r|f|s] eqn:He; [|done|].
  { exfalso. revert He. simplify_eq. unfold syscall_entry.
    repeat case_match; intros; simplify_eq; unfold EFAULT, EIO, ENOMEM in *; lia. }
  destruct (entry_files env σ a b n c srcp keyp D Kc s) as (dst & Hdst & -> & Hok & HKc); [done..|].
  unfold user_path in Hb. rewrite Hdst in Hb. cbn in Hb.
  destruct (run ls _) as [s|] eqn:Hrun; [|done]. cbn in Hcall.
  destruct (fault s) eqn:Hf; [done|]. destruct (main s) eqn:Hm; simplify_eq.
  match goal with H : ret s = 0 |- _ => rename H into Hret end.
  pose proof (returned_zero_spawned ls _ s Hrun Hls Hf Hret) as Hsp.
  destruct (reach_saved D (Kc ++ [0]) n (Z.of_nat (length Kc)) Hok dst σ ls s Hsp Hrun Hf Hm)
    as (_ & X & p & msgs & Hp & Hd & Hsv).
  rewrite Hret in Hsv. assert (p = dstp) as -> by congruence.
  destruct (data_ok_bytes D (Kc ++ [0]) n (Z.of_nat (length Kc)) _ X Hd) as [HlX HX].
  exists X. split.
  - split; [done|]. intros j x Hx. destruct (lookup_lt_is_Some_2 D j) as [y Hy].
    { apply lookup_lt_Some in Hx. lia. }
    rewrite <- xor_all_vernam, xor_all_lookup, Hy by done. cbn. destruct (HX j y Hy); [left|right]; congruence.
  - rewrite <- HlX in Hsv |- *. by eapply save_data_contents.
Qed.
End Files.
