(* ===== verification/XorDecrypt.v ===== *)
(** * The decrypting system call: [kernel/my_decrypt.c]

    A translation of its own, function by function, of the second source: its
    record of a call, its worker, loaders, save, loops and clean-up are those
    of [my_decrypt.c] under its names.  Shared with [XorCrypt.v] are the types
    that speak of kernel threads and schedules ([worker], [main_pc], [label],
    [oops], [kmsg]).  The last part proves that a call of either source does
    the same to the files and returns the same, which is how the properties of
    one carry over to the other. *)
From S2P Require Import Prelude Vfs Kthread XorCrypt.

Module MyDecrypt.

(** [decrypt_thread_args_t]; [buffer] and [key] are always those of the call. *)
Record decrypt_thread_args_t := mk_thread_args {
  start_offset : Z;
  end_offset : Z;
  args_key_length : Z
}.

Section Machine.
Context {fs file : Type} `{!Vfs fs file}.

(** A call of [xor_decrypt]; [path_buf] is [output_file_path], [mutex] is the
    static [decrypt_mutex]. *)
Record call := mk_call {
  data_buffer : obj bytes;
  key_buffer : obj bytes;
  thread_handles : obj (list (option nat));
  thread_args : obj (list (option decrypt_thread_args_t));
  data_size : Z;
  key_size : Z;
  thread_count : Z;
  chunk_size : Z;
  next_offset : Z;
  status : Z;
  path_buf : bytes;
  tasks : list worker;
  mutex : option holder;
  at_pc : main_pc;
  disk : fs;
  dmesg : list kmsg;
  crash : option oops
}.

Definition stop_with (f : oops) (s : call) : call :=
  mk_call (data_buffer s) (key_buffer s) (thread_handles s) (thread_args s) (data_size s) (key_size s)
    (thread_count s) (chunk_size s) (next_offset s) (status s) (path_buf s) (tasks s) (mutex s)
    (at_pc s) (disk s) (dmesg s) (Some f).
Definition put_task (i : nat) (w : worker) (m : option holder) (d : obj bytes) (s : call) : call :=
  mk_call d (key_buffer s) (thread_handles s) (thread_args s) (data_size s) (key_size s)
    (thread_count s) (chunk_size s) (next_offset s) (status s) (path_buf s) (<[i := w]> (tasks s)) m
    (at_pc s) (disk s) (dmesg s) (crash s).
Definition goto (m : main_pc) (s : call) : call :=
  mk_call (data_buffer s) (key_buffer s) (thread_handles s) (thread_args s) (data_size s) (key_size s)
    (thread_count s) (chunk_size s) (next_offset s) (status s) (path_buf s) (tasks s) (mutex s)
    m (disk s) (dmesg s) (crash s).
Definition put_mutex (m : option holder) (s : call) : call :=
  mk_call (data_buffer s) (key_buffer s) (thread_handles s) (thread_args s) (data_size s) (key_size s)
    (thread_count s) (chunk_size s) (next_offset s) (status s) (path_buf s) (tasks s) m
    (at_pc s) (disk s) (dmesg s) (crash s).
Definition finish (r : Z) (σ : fs) (l : list kmsg) (s : call) : call :=
  mk_call (data_buffer s) (key_buffer s) (thread_handles s) (thread_args s) (data_size s) (key_size s)
    (thread_count s) (chunk_size s) (next_offset s) r (path_buf s) (tasks s) (mutex s)
    (at_pc s) σ l (crash s).

(** ** [xor_decrypt_worker] *)
Definition xor_decrypt_worker (t : nat) (s : call) : option call :=
  w ← tasks s !! t;
  let stay w' := Some (put_task t w' (mutex s) (data_buffer s) s) in
  (* [args], the [t]-th cell of [thread_args], handed to its continuation *)
  let with_args k :=
    match thread_args s with
    | Freed => Some (stop_with UseAfterFree s)
    | Live cells => match cells !! t ≫= id with
                    | None => Some (stop_with BadAccess s)
                    | Some args => k args
                    end
    end in
  match pc w with
  | PcEntry =>
      match kthread_start (task w) with
      | EntryRun => stay (set_pc PcLock w)
      | EntryParked => None
      | EntryExit k => stay (set_pc PcExited (set_task k w))
      end
  | PcLock =>
      match mutex s with
      | Some _ => None
      | None => Some (put_task t (set_pc PcStart w) (Some (Ours t)) (data_buffer s) s)
      end
  | PcStart => with_args (fun args => stay (set_idx (start_offset args) (set_pc PcLoop w)))
  | PcLoop => with_args (fun args =>
      if default 0 (idx w) <? end_offset args then stay (set_pc PcCheck w)
      else stay (set_pc (PcUnlock 0) w))
  | PcCheck =>
      if kthread_should_stop (task w) then stay (set_pc (PcUnlock (- EINTR)) w)
      else stay (set_pc PcBody w)
  | PcBody => with_args (fun args =>
      match data_buffer s, key_buffer s with
      | Live data, Live key =>
          let i := default 0 (idx w) in
          if args_key_length args =? 0 then Some (stop_with DivideError s) else
          match data !! Z.to_nat i, key !! Z.to_nat (i mod args_key_length args) with
          | Some x, Some y =>
              Some (put_task t (set_idx (u64 (i + 1)) (set_pc PcLoop w)) (mutex s)
                      (Live (<[Z.to_nat i := Z.lxor x y]> data)) s)
          | _, _ => Some (stop_with BadAccess s)
          end
      | _, _ => Some (stop_with UseAfterFree s)
      end)
  | PcUnlock r => Some (put_task t (worker_exit r w) None (data_buffer s) s)
  | PcExited => None
  end.

(** [mutex_lock_interruptible] gives up on a signal while the mutex is held. *)
Definition decrypt_lock_interrupted (t : nat) (s : call) : option call :=
  w ← tasks s !! t;
  match pc w, mutex s with
  | PcLock, Some _ =>
      if notify_signal (task w)
      then Some (put_task t (worker_exit (- EINTR) w) (mutex s) (data_buffer s) s) else None
  | _, _ => None
  end.

(** The [task_struct] of an exited worker that nobody holds goes away. *)
Definition release_task (t : nat) (s : call) : option call :=
  w ← tasks s !! t;
  match pc w with
  | PcExited =>
      if notify_signal (task w) || reaped w then None
      else Some (put_task t (mk_worker (task w) PcExited (idx w) true) (mutex s) (data_buffer s) s)
  | _ => None
  end.

(** ** [load_key] *)
Definition load_key (env : kenv) (σ : fs) (key_path : path) : fs * option (bytes * Z) :=
  match filp_open σ key_path O_RDONLY 0 with
  | (σ1, inl _) => (σ1, None)
  | (σ1, inr key_file) =>
      let key_size := u64 (i_size_read σ1 key_file) in
      if key_size <=? 0 then (filp_close σ1 key_file, None) else
      match kmalloc env SiteKey (u64 (key_size + 1)) with
      | None => (filp_close σ1 key_file, None)
      | Some key_buffer =>
          let key_buffer := read_into σ1 key_file key_buffer key_size in
          let key_buffer := <[Z.to_nat key_size := 0]> key_buffer in
          (filp_close σ1 key_file, Some (key_buffer, key_size))
      end
  end.

(** ** [load_data] *)
Definition load_data (env : kenv) (σ : fs) (input_path : path) : fs * option (bytes * Z) :=
  match filp_open σ input_path O_RDONLY 0 with
  | (σ1, inl _) => (σ1, None)
  | (σ1, inr input_file) =>
      let data_size := u64 (i_size_read σ1 input_file) in
      if data_size <=? 0 then (filp_close σ1 input_file, None) else
      match kmalloc env SiteData data_size with
      | None => (filp_close σ1 input_file, None)
      | Some data_buffer =>
          let data_buffer := read_into σ1 input_file data_buffer data_size in
          (filp_close σ1 input_file, Some (data_buffer, data_size))
      end
  end.

(** ** [save_data]: the new tree and the result; it logs nothing *)
Definition save_data (σ : fs) (output_path : path) (data : bytes) (data_size : Z) : fs * Z :=
  match filp_open σ output_path (Z.lor O_WRONLY O_CREAT) 420 with
  | (σ1, inl e) => (σ1, s32 e)
  | (σ1, inr output_file) =>
      let '(σ2, bytes_written) := kernel_write σ1 output_file (take (Z.to_nat data_size) data) 0 in
      (filp_close σ2 output_file, if bytes_written <? 0 then s32 bytes_written else 0)
  end.

(** ** [xor_decrypt], from the first loop to the return *)

(** One turn of the first loop; [err] is the error of [kthread_run], if any. *)
Definition start_thread (err : option Z) (i : nat) (s : call) : call :=
  match thread_handles s, thread_args s with
  | Live handles, Live cells =>
      let args := {|
        args_key_length := key_size s;
        start_offset := next_offset s;
        end_offset := if Z.of_nat i =? thread_count s - 1 then data_size s
                      else u64 (next_offset s + chunk_size s) |} in
      let cells := Live (<[i := Some args]> cells) in
      let offset := u64 (next_offset s + chunk_size s) in
      match err with
      | None =>
          mk_call (data_buffer s) (key_buffer s) (Live (<[i := Some (length (tasks s))]> handles)) cells
            (data_size s) (key_size s) (thread_count s) (chunk_size s) offset (status s) (path_buf s)
            (tasks s ++ [mk_worker kthread_new PcEntry None false]) (mutex s)
            (MSpawn (S i)) (disk s) (dmesg s) (crash s)
      | Some e =>
          mk_call (data_buffer s) (key_buffer s) (Live handles) cells
            (data_size s) (key_size s) (thread_count s) (chunk_size s) offset (s32 e) (path_buf s)
            (tasks s) (mutex s) MCleanup (disk s) (dmesg s ++ [MsgSpawnFailed i]) (crash s)
      end
  | _, _ => stop_with UseAfterFree s
  end.

(** The call of [kthread_stop] of the second loop: the request, then the wait. *)
Definition stop_thread (i : nat) (s : call) : option call :=
  match thread_handles s with
  | Freed => Some (stop_with UseAfterFree s)
  | Live handles =>
      match handles !! i ≫= id with
      | None => Some (stop_with BadAccess s)
      | Some t =>
          w ← tasks s !! t;
          if reaped w then Some (stop_with UseAfterFree s)
          else Some (goto (MWait i t)
                 (put_task t (set_task (kthread_stop_request (task w)) w) (mutex s) (data_buffer s) s))
      end
  end.
Definition join_thread (i t : nat) (s : call) : option call :=
  w ← tasks s !! t;
  thread_status ← kthread_stop_wait (task w);
  let msg := if negb (thread_status =? 0) && negb (thread_status =? - EINTR)
             then MsgThreadError i thread_status else MsgThreadOk i in
  Some (goto (MStop (S i)) (finish (status s) (disk s) (dmesg s ++ [msg]) s)).

(** [kfree] of the four blocks at [cleanup]. *)
Definition cleanup (s : call) : call :=
  mk_call Freed Freed Freed Freed (data_size s) (key_size s)
    (thread_count s) (chunk_size s) (next_offset s) (status s) (path_buf s) (tasks s) (mutex s)
    MReturned (disk s) (dmesg s) (crash s).

Definition caller_step (err : option Z) (s : call) : option call :=
  match at_pc s with
  | MSpawn i =>
      if Z.of_nat i <? thread_count s then Some (start_thread err i s) else Some (goto (MStop 0) s)
  | MStop i => if Z.of_nat i <? thread_count s then stop_thread i s else Some (goto MSave s)
  | MWait i t => join_thread i t s
  | MSave =>
      match data_buffer s with
      | Freed => Some (stop_with UseAfterFree s)
      | Live data =>
          match c_string (path_buf s) with
          | None => Some (stop_with UnterminatedPath s)
          | Some p => let '(σ', r) := save_data (disk s) p data (data_size s) in
                      Some (goto MCleanup (finish r σ' (dmesg s) s))
          end
      end
  | MCleanup => Some (cleanup s)
  | MReturned => None
  end.

Definition step (l : label) (s : call) : option call :=
  match crash s, l with
  | Some _, _ => None
  | None, Main => caller_step None s
  | None, SpawnFails e =>
      match at_pc s with
      | MSpawn i => if Z.of_nat i <? thread_count s then Some (start_thread (Some e) i s) else None
      | _ => None
      end
  | None, Worker t => xor_decrypt_worker t s
  | None, LockIntr t => decrypt_lock_interrupted t s
  | None, Reap t => release_task t s
  | None, OtherLocks => match mutex s with None => Some (put_mutex (Some Theirs) s) | _ => None end
  | None, OtherUnlocks => match mutex s with Some Theirs => Some (put_mutex None s) | _ => None end
  end.

Fixpoint run (ls : list label) (s : call) : option call :=
  match ls with
  | [] => Some s
  | l :: ls => s' ← step l s; run ls s'
  end.

(** How the part before the loops ends. *)
Inductive start :=
| StartReturn (σ : fs) (r : Z)
| StartOops (f : oops)
| StartGo (s : call).

Definition xor_decrypt_entry (env : kenv) (σ : fs) (input_file output_file num_threads key_file : Z) : start :=
  match copy_from_user env input_file 256, copy_from_user env output_file 256,
        copy_from_user env key_file 256 with
  | Some input_file_path, Some output_file_path, Some key_file_path =>
      match c_string input_file_path with
      | None => StartOops UnterminatedPath
      | Some input_path =>
      match load_data env σ input_path with
      | (σ1, None) => StartReturn σ1 (- EIO)
      | (σ1, Some (data, data_size)) =>
      match c_string key_file_path with
      | None => StartOops UnterminatedPath
      | Some key_path =>
      match load_key env σ1 key_path with
      | (σ2, None) => StartReturn σ2 (- EIO)
      | (σ2, Some (key, key_size)) =>
          let handles := kmalloc_array env SiteWorkers (u64 num_threads) 8 in
          let args := kmalloc_array env SiteArgs (u64 num_threads) 40 in
          if bool_decide (handles = None) || bool_decide (args = None) then StartReturn σ2 (- ENOMEM)
          else if u64 num_threads =? 0 then StartOops DivideError
          else StartGo (mk_call (Live data) (Live key)
            (Live (replicate (Z.to_nat num_threads) None)) (Live (replicate (Z.to_nat num_threads) None))
            data_size key_size num_threads (data_size / u64 num_threads) 0 0 output_file_path [] None
            (MSpawn 0) σ2 [] None)
      end end end end
  | _, _, _ => StartReturn σ (- EFAULT)
  end.

Definition xor_decrypt (env : kenv) (σ : fs) (input_file output_file num_threads key_file : Z)
    (ls : list label) : option call_result :=
  match xor_decrypt_entry env σ input_file output_file num_threads key_file with
  | StartReturn σ' r => Some (Returned σ' r [])
  | StartOops f => Some (Stopped f)
  | StartGo s =>
      s' ← run ls s;
      match crash s', at_pc s' with
      | Some f, _ => Some (Stopped f)
      | None, MReturned => Some (Returned (disk s') (status s') (result ∘ task <$> tasks s'))
      | None, _ => None
      end
  end.
End Machine.
End MyDecrypt.

(** ** The two sources agree up to the kernel log

    [as_encrypt] reads a call of [my_decrypt.c] as one of [my_encrypt.c] with
    an empty log; [strip] empties the log of the latter. *)
Section Agreement.
Context {fs file : Type} `{!Vfs fs file}.
Local Abbreviation sys := (@sys fs).
Local Abbreviation call := (@MyDecrypt.call fs).

Definition as_args (a : MyDecrypt.decrypt_thread_args_t) : worker_args_t :=
  mk_args (MyDecrypt.start_offset a) (MyDecrypt.end_offset a) (MyDecrypt.args_key_length a).
Definition as_cells (o : obj (list (option MyDecrypt.decrypt_thread_args_t)))
    : obj (list (option worker_args_t)) :=
  match o with Live cells => Live (option_map as_args <$> cells) | Freed => Freed end.

Definition as_encrypt (s : call) : sys :=
  mk_sys (MyDecrypt.data_buffer s) (MyDecrypt.key_buffer s) (MyDecrypt.thread_handles s)
    (as_cells (MyDecrypt.thread_args s)) (MyDecrypt.data_size s) (MyDecrypt.key_size s)
    (MyDecrypt.thread_count s) (MyDecrypt.chunk_size s) (MyDecrypt.next_offset s) (MyDecrypt.status s)
    (MyDecrypt.path_buf s) (MyDecrypt.tasks s) (MyDecrypt.mutex s) (MyDecrypt.at_pc s)
    (MyDecrypt.disk s) [] (MyDecrypt.crash s).

Definition strip (s : sys) : sys := set_tree (tree s) [] s.
Definition agree (s : call) (t : sys) : Prop := as_encrypt s = strip t.

(** The cell of a worker, in the two readings. *)
Lemma cell_as (cells : list (option MyDecrypt.decrypt_thread_args_t)) i :
  (option_map as_args <$> cells) !! i ≫= id = as_args <$> (cells !! i ≫= id).
Proof. rewrite list_lookup_fmap. by destruct (cells !! i). Qed.

(** A step of the machine of [XorCrypt] does not look at the log. *)
Lemma agree_inv s t : agree s t -> exists l, t = set_tree (MyDecrypt.disk s) l (as_encrypt s).
Proof.
  intros H. exists (klog t). change (MyDecrypt.disk s) with (tree (as_encrypt s)).
  unfold agree in H. rewrite H. by destruct t.
Qed.

Ltac agree_cases :=
  repeat first [ progress cbn in * | done | progress simplify_eq | case_match | constructor
    | progress unfold id in * | match goal with
    | |- context [?ts !! ?k ≫= _] => destruct (ts !! k) as [?|] eqn:?
    | |- context [kthread_stop_wait ?k ≫= _] => destruct (kthread_stop_wait k) eqn:? end ].

Lemma worker_agree i s t : agree s t ->
  option_Forall2 agree (MyDecrypt.xor_decrypt_worker i s) (worker_step i t).
Proof.
  intros [l ->]%agree_inv. unfold MyDecrypt.xor_decrypt_worker, worker_step, xor_at. destruct s as [? ? ? args]. cbn.
  destruct (_ !! i) as [w|] eqn:Hw; [|constructor]. cbn.
  destruct args as [cells|]; cbn; rewrite ?cell_as.
  - destruct (cells !! i ≫= id) as [a|]; cbn; agree_cases.
  - agree_cases.
Qed.

Lemma spawn_agree e i s t : agree s t -> MyDecrypt.at_pc s = MSpawn i ->
  Z.of_nat i < MyDecrypt.thread_count s ->
  option_Forall2 agree (Some (MyDecrypt.start_thread e i s)) (main_step e t).
Proof.
  intros [l ->]%agree_inv Hpc Hi. unfold MyDecrypt.start_thread, main_step.
  destruct s as [? ? handles args]. cbn in *. subst. rewrite (proj2 (Z.ltb_lt _ _)) by done.
  destruct handles as [hs|]; cbn; [|by repeat constructor].
  destruct args as [cells|]; cbn; [|by repeat constructor].
  destruct e; constructor; unfold agree, as_encrypt, strip; cbn; by rewrite list_fmap_insert.
Qed.

Lemma save_agree (σ : fs) p d n : MyDecrypt.save_data σ p d n = (save_data σ p d n).1.
Proof. unfold MyDecrypt.save_data, save_data. repeat case_match; by simplify_eq. Qed.

Lemma stop_agree i s t : agree s t -> MyDecrypt.at_pc s = MStop i ->
  Z.of_nat i < MyDecrypt.thread_count s ->
  option_Forall2 agree (MyDecrypt.stop_thread i s) (main_step None t).
Proof.
  intros [l ->]%agree_inv Hpc Hi. unfold MyDecrypt.stop_thread, main_step.
  destruct s as [? ? handles args]. cbn in *. subst. rewrite (proj2 (Z.ltb_lt _ _)) by done. agree_cases.
Qed.

Lemma caller_agree s t : agree s t -> option_Forall2 agree (MyDecrypt.caller_step None s) (main_step None t).
Proof.
  intros H. unfold MyDecrypt.caller_step. destruct (MyDecrypt.at_pc s) eqn:Hpc.
  1: destruct (Z.ltb_spec (Z.of_nat i) (MyDecrypt.thread_count s)); [by apply spawn_agree|].
  2: destruct (Z.ltb_spec (Z.of_nat i) (MyDecrypt.thread_count s)); [by apply stop_agree|].
  all: destruct (agree_inv s t H) as [l ->]; destruct s; cbn in *; subst; unfold main_step; cbn.
  1,2: rewrite (proj2 (Z.ltb_ge _ _)) by done; by repeat constructor.
  - unfold MyDecrypt.join_thread. cbn. destruct (_ !! t0) as [w|]; cbn; [|constructor].
    destruct (kthread_stop_wait (task w)); cbn; by repeat constructor.
  - destruct data_buffer; [|by repeat constructor]. destruct (c_string path_buf); [|by repeat constructor].
    rewrite save_agree. destruct (save_data _ _ _ _) as [[? ?] ?]. by repeat constructor.
  - by repeat constructor.
  - constructor.
Qed.

Lemma step_agree l s t : agree s t -> option_Forall2 agree (MyDecrypt.step l s) (step l t).
Proof.
  intros H. destruct (agree_inv s t H) as [msgs Ht]. unfold MyDecrypt.step, step.
  assert (fault t = MyDecrypt.crash s /\ main t = MyDecrypt.at_pc s /\ num_threads t = MyDecrypt.thread_count s)
    as (-> & -> & ->) by (by subst).
  destruct (MyDecrypt.crash s); [constructor|]. destruct l.
  - by apply caller_agree.
  - destruct (MyDecrypt.at_pc s) eqn:Hpc; try constructor.
    destruct (Z.ltb_spec (Z.of_nat i) (MyDecrypt.thread_count s)); [by apply spawn_agree|constructor].
  - by apply worker_agree.
  - subst. unfold MyDecrypt.decrypt_lock_interrupted, lock_interrupted. destruct s. cbn.
    destruct (_ !! i) as [w|]; cbn; [|constructor]. agree_cases.
  - subst. unfold MyDecrypt.release_task, reap. destruct s. cbn.
    destruct (_ !! i) as [w|]; cbn; [|constructor]. destruct (pc w) eqn:?; agree_cases.
  - subst. unfold other_locks. destruct s. agree_cases.
  - subst. unfold other_unlocks. destruct s. agree_cases.
Qed.

Lemma run_agree ls : forall s t, agree s t -> option_Forall2 agree (MyDecrypt.run ls s) (run ls t).
Proof.
  induction ls as [|l ls IH]; intros s t Hst; cbn; [by constructor|].
  destruct (step_agree l s t Hst); cbn; [by apply IH|constructor].
Qed.

(** The two entries, up to their result. *)
Definition entries_agree (x : @MyDecrypt.start fs) (y : @entry fs) : Prop :=
  match x, y with
  | MyDecrypt.StartReturn σ r, EntryReturn σ' r' => σ = σ' /\ r = r'
  | MyDecrypt.StartOops f, EntryOops f' => f = f'
  | MyDecrypt.StartGo s, EntryGo t => agree s t
  | _, _ => False
  end.

Lemma entry_agree env (σ : fs) a b n c :
  entries_agree (MyDecrypt.xor_decrypt_entry env σ a b n c) (syscall_entry env σ a b n c).
Proof.
  unfold MyDecrypt.xor_decrypt_entry, syscall_entry.
  change (@MyDecrypt.load_data fs file _) with (@load_data fs file _).
  change (@MyDecrypt.load_key fs file _) with (@load_key fs file _).
  change sizeof_ptr with 8. change sizeof_worker_args with 40.
  repeat case_match; simplify_eq; try done.
  unfold entries_agree, agree, as_encrypt, strip. cbn. by rewrite fmap_replicate.
Qed.

(** A call of either source, on the same arguments and schedule. *)
Lemma syscalls_agree env (σ : fs) a b n c ls :
  MyDecrypt.xor_decrypt env σ a b n c ls = syscall env σ a b n c ls.
Proof.
  unfold MyDecrypt.xor_decrypt, syscall. pose proof (entry_agree env σ a b n c) as H.
  destruct (MyDecrypt.xor_decrypt_entry env σ a b n c), (syscall_entry env σ a b n c); cbn in H; try done.
  - by destruct H as [-> ->].
  - by rewrite H.
  - destruct (run_agree ls s s0 H) as [s' t Hst|]; [|done]. cbn. unfold agree in Hst.
    pose proof (f_equal fault Hst) as Hf. pose proof (f_equal main Hst) as Hm. pose proof (f_equal tree Hst) as Ht.
    pose proof (f_equal ret Hst) as Hr. pose proof (f_equal threads Hst) as Hw. cbn in *. by rewrite Hf, Hm, Ht, Hr, Hw.
Qed.
End Agreement.
