(* ===== verification/CryptClaims.v ===== *)
(** * Properties of the crypt system calls

    The statements about [XorCrypt] as a whole, each with an instance at a
    concrete file system. *)
From S2P Require Import Prelude Vfs Kthread XorCrypt XorDecrypt XorCryptInv XorCryptThms XorCryptSched XorCryptGood.

#[local] Existing Instance SimpleFs.vfs.
#[local] Existing Instance SimpleFs.laws.
#[local] Existing Instance SimpleFs.env_laws.

(** ** A concrete scene: files [a] (data) and [k] (key), paths at user addresses *)
Module Demo.
Definition user : gmap Z bytes := {[ 1 := [97; 0]; 2 := [98; 0]; 3 := [107; 0]; 4 := [99; 0] ]}.
Definition tree0 : SimpleFs.fs := {[ [97] := [1; 2; 3]; [107] := [7; 9] ]}.
Definition tree1 : SimpleFs.fs := <[ [98] := [6; 11; 4] ]> tree0.
Definition env : kenv := SimpleFs.env user.
(** Two workers on three bytes, each run to its end before it is stopped. *)
Definition sched : list label :=
  [Main; Main] ++ replicate 8 (Worker 0) ++ replicate 11 (Worker 1) ++ replicate 8 Main.
Definition data : bytes := [1; 2; 3].
Definition key : bytes := [7; 9; 0].
Definition dst : bytes := [98; 0].
Definition start : sys := init_sys data key 3 2 2 dst tree0.

Lemma params : params_ok data key 2 2.
Proof. by split. Qed.

(** The state when both workers exist and the first one holds the lock, and
    the final state. *)
Definition mid : sys := default start (run (take 6 sched) start).
Definition final : sys := default start (run sched start).
Lemma run_mid : run (take 6 sched) start = Some mid.
Proof. vm_compute. reflexivity. Qed.
Lemma run_final : run sched start = Some final.
Proof. vm_compute. reflexivity. Qed.
End Demo.

Section Claims.
Context {fs file : Type} `{!Vfs fs file} `{!VfsLaws fs file}.
Context (env : kenv) `{!KenvLaws env}.

(** C3. A call of [my_encrypt] whose threads were all created and all ran to
    their end, and that returns 0, leaves in the output file the data XORed
    with the repeated key, as far as [kernel_write] wrote: with [w] the number
    it returned, the first [w] bytes of the ciphertext followed by what the
    file held past them.  So the file holds the whole ciphertext when the write
    was complete, which the call does not check.  Only the paths that lead to
    the output file see a change. *)
Theorem encrypt_writes_vernam (σ σ' : fs) a b n c ls rs srcp dstp keyp D Kc :
  is_s32 n ->
  user_path env a = Some srcp -> user_path env b = Some dstp -> user_path env c = Some keyp ->
  contents σ srcp = Some D -> contents σ keyp = Some Kc ->
  Z.of_nat (length D) <= MAX_RW_COUNT -> Z.of_nat (length Kc) <= MAX_RW_COUNT ->
  Forall (fun l => spawns_ok l = true) ls -> Forall (fun r => r = 0) rs ->
  MyEncrypt.xor_encrypt_syscall env σ a b n c ls = Some (Returned σ' 0 rs) ->
  let w := written σ dstp (vernam D Kc) in
  let old := default [] (contents σ dstp) in
  0 <= w <= Z.of_nat (length D) /\
  (forall q, contents σ' q =
    if same_file σ dstp q
    then Some (take (Z.to_nat w) (vernam D Kc) ++ drop (Z.to_nat w) old) else contents σ q) /\
  (w = Z.of_nat (length D) -> contents σ' dstp = Some (vernam D Kc ++ drop (length D) old)).
Proof using KenvLaws0.
  intros Hn Ha Hb Hc HD HK HlD HlK Hls Hrs Hcall w old.
  destruct (syscall_vernam env σ σ' a b n c ls rs srcp dstp keyp D Kc Hn Ha Hb Hc HD HK HlD HlK Hls Hrs Hcall)
    as [Hw Hq]. split; [done|]. split; [exact Hq|].
  intros Hfull. rewrite Hq, same_file_refl. unfold overlay. fold w. rewrite Hfull, Nat2Z.id, take_ge; [done|].
  by rewrite vernam_length.
Qed.

(** C4. Decrypting with the same key what was encrypted gives the data back,
    when both calls ran their threads to the end, both writes were complete,
    the key is not the file the ciphertext is written to, and neither output
    file was longer than the data before. *)
Theorem crypt_roundtrip (σ σ1 σ2 : fs) a b d c n m ls ms rs ts srcp encp outp keyp D Kc :
  is_s32 n -> is_s32 m ->
  user_path env a = Some srcp -> user_path env b = Some encp ->
  user_path env d = Some outp -> user_path env c = Some keyp -> same_file σ encp keyp = false ->
  contents σ srcp = Some D -> contents σ keyp = Some Kc ->
  Z.of_nat (length D) <= MAX_RW_COUNT -> Z.of_nat (length Kc) <= MAX_RW_COUNT ->
  written σ encp (vernam D Kc) = Z.of_nat (length D) -> written σ1 outp D = Z.of_nat (length D) ->
  (length (default [] (contents σ encp)) <= length D)%nat ->
  (length (default [] (contents σ1 outp)) <= length D)%nat ->
  Forall (fun l => spawns_ok l = true) ls -> Forall (fun r => r = 0) rs ->
  Forall (fun l => spawns_ok l = true) ms -> Forall (fun r => r = 0) ts ->
  MyEncrypt.xor_encrypt_syscall env σ a b n c ls = Some (Returned σ1 0 rs) ->
  MyDecrypt.xor_decrypt env σ1 b d m c ms = Some (Returned σ2 0 ts) ->
  contents σ2 outp = Some D.
Proof using KenvLaws0.
  intros Hn Hm Ha Hb Hd Hc Hne HD HK HlD HlK Hw1 Hw2 Hl1 Hl2 Hls Hrs Hms Hts He Hde.
  rewrite syscalls_agree in Hde.
  destruct (syscall_vernam env σ σ1 a b n c ls rs srcp encp keyp D Kc
    Hn Ha Hb Hc HD HK HlD HlK Hls Hrs He) as [_ H1].
  assert (contents σ1 encp = Some (vernam D Kc)) as HE.
  { rewrite H1, same_file_refl, Hw1, <- (vernam_length D Kc). rewrite overlay_shorter; [done|].
    by rewrite vernam_length. }
  assert (contents σ1 keyp = Some Kc) as HK1 by (by rewrite H1, Hne).
  assert (Z.of_nat (length (vernam D Kc)) <= MAX_RW_COUNT) as HlE by by rewrite vernam_length.
  destruct (syscall_vernam env σ1 σ2 b d m c ms ts encp outp keyp (vernam D Kc) Kc
    Hm Hb Hd Hc HE HK1 HlE HlK Hms Hts Hde) as [_ H2].
  by rewrite H2, same_file_refl, vernam_involutive, Hw2, overlay_shorter.
Qed.
End Claims.

(** On a file system that writes everything, and on one that writes one byte
    at a time: the second call is successful too. *)
Lemma encrypt_writes_vernam_witness :
  contents (file := path) Demo.tree1 [98] = Some (vernam [1; 2; 3] [7; 9]) /\
  MyEncrypt.xor_encrypt_syscall (Vfs0 := SimpleFs.vfs_most (Some 1%nat)) Demo.env Demo.tree0 1 2 2 3 Demo.sched =
    Some (Returned (<[ [98] := [6] ]> Demo.tree0) 0 [0; 0]) /\
  Some [6] = Some (take 1 (vernam [1; 2; 3] [7; 9]) ++ []).
Proof.
  split; [|split].
  - refine (proj2 (proj2 (encrypt_writes_vernam (file := path) Demo.env Demo.tree0 Demo.tree1 1 2 2 3 Demo.sched [0; 0]
      [97] [98] [107] [1; 2; 3] [7; 9] _ _ _ _ _ _ _ _ _ _ _)) _); try reflexivity;
      try (split; [discriminate|reflexivity]); try discriminate; repeat constructor.
  - vm_compute. reflexivity.
  - refine (proj1 (proj2 (@encrypt_writes_vernam _ path (SimpleFs.vfs_most (Some 1%nat)) (SimpleFs.laws_most (Some 1%nat))
      Demo.env _ Demo.tree0 (<[ [98] := [6] ]> Demo.tree0) 1 2 2 3 Demo.sched [0; 0]
      [97] [98] [107] [1; 2; 3] [7; 9] _ _ _ _ _ _ _ _ _ _ _)) [98]); try reflexivity;
      try (split; [discriminate|reflexivity]); try discriminate; repeat constructor.
Defined.

Lemma crypt_roundtrip_witness :
  contents (file := path) (<[ [99] := [1; 2; 3] ]> Demo.tree1) [99] = Some [1; 2; 3].
Proof.
  apply (crypt_roundtrip (file := path) Demo.env Demo.tree0 Demo.tree1 (<[ [99] := [1; 2; 3] ]> Demo.tree1) 1 2 4 3 2 2
    Demo.sched Demo.sched [0; 0] [0; 0] [97] [98] [99] [107] [1; 2; 3] [7; 9]);
    try reflexivity; try (split; [discriminate|reflexivity]); try discriminate; try (repeat constructor).
  all: cbn; lia.
Defined.

Section Schedules.
Context {fs file : Type} `{!Vfs fs file}.
Context (D K : bytes) (n klen : Z) (dst : bytes) (σ0 : fs).
Local Abbreviation len := (Z.of_nat (length D)).
Local Abbreviation s0 := (init_sys D K len klen n dst σ0).

(** C5. At every point of every schedule, each byte of the shared buffer is
    either still the byte that was read or that byte XORed once with its key
    byte: no interleaving of the workers XORs a byte twice or with another
    key byte.  And two workers are never both between
    [mutex_lock_interruptible] and [mutex_unlock]. *)
Theorem workers_share_the_buffer ls s : params_ok D K n klen ->
  run ls s0 = Some s -> fault s = None ->
  (forall d, file_data s = Live d -> length d = length D /\ forall j b, D !! j = Some b ->
    d !! j = Some b \/ d !! j = Some (Z.lxor b (key_at K klen j))) /\
  (forall i j wi wj, threads s !! i = Some wi -> threads s !! j = Some wj ->
    in_cs (pc wi) = true -> in_cs (pc wj) = true -> i = j).
Proof. intros. split; intros; [by eapply reach_bytes | by eapply reach_mutex]. Qed.


(** C7. A call ends: whatever the other calls do with the mutex they share, a
    schedule has at most [3] steps of this call per byte and [11] per thread,
    and [5] more; and when no thread of this call can move, the caller has
    returned (or the kernel faulted), unless a worker of another call holds the
    mutex: no deadlock between the workers, the mutex and [kthread_stop]. *)
Theorem call_terminates ls s : params_ok D K n klen ->
  run ls s0 = Some s ->
  Z.of_nat (length (filter (fun l => own l = true) ls)) <= 5 + 11 * n + 3 * len /\
  ((forall l, own l = true -> step l s = None) ->
   main s = MReturned \/ is_Some (fault s) \/ sync_lock s = Some Theirs).
Proof.
  intros Hok Hr. split.
  - rewrite <- (measure_init D K n klen Hok dst σ0). apply inj_le. eapply run_length; eauto. by apply init_inv.
  - intros Hstuck. destruct (fault s) eqn:Hf; [by right; left; eauto|].
    pose proof (reach_inv D K n klen Hok dst σ0 ls s Hr Hf) as Hinv.
    destruct (decide (main s = MReturned)) as [|Hm]; [by left|].
    destruct (decide (sync_lock s = Some Theirs)) as [|Hl]; [by right; right|].
    destruct (main_moves D K n klen s Hinv Hf Hm Hl) as (l & Ho & s' & Hs). by rewrite Hstuck in Hs.
Qed.
End Schedules.

Lemma workers_share_the_buffer_witness :
  (length [1; 2; 3] = length Demo.data /\ forall j b, Demo.data !! j = Some b ->
    [1; 2; 3] !! j = Some b \/ [1; 2; 3] !! j = Some (Z.lxor b (key_at Demo.key 2 j))) /\
  exists w, threads Demo.mid !! 0%nat = Some w /\ in_cs (pc w) = true /\ 0%nat = 0%nat.
Proof.
  destruct (workers_share_the_buffer Demo.data Demo.key 2 2 Demo.dst Demo.tree0 (take 6 Demo.sched) Demo.mid
    Demo.params Demo.run_mid) as [A B]; [vm_compute; reflexivity|]. split.
  - apply A. vm_compute. reflexivity.
  - eexists. split; [vm_compute; reflexivity|]. split; [vm_compute; reflexivity|].
    eapply (B 0%nat 0%nat); vm_compute; reflexivity.
Defined.


Lemma call_terminates_witness :
  Z.of_nat (length (filter (fun l => own l = true) Demo.sched)) <= 5 + 11 * 2 + 3 * Z.of_nat (length Demo.data) /\
  (main Demo.final = MReturned \/ is_Some (fault Demo.final) \/ sync_lock Demo.final = Some Theirs).
Proof.
  destruct (call_terminates Demo.data Demo.key 2 2 Demo.dst Demo.tree0 Demo.sched Demo.final
    Demo.params Demo.run_final) as [H1 H2]. split; [exact H1|]. apply H2.
  intros [|e|[|[|i]]|[|[|i]]|[|[|i]]| |]; try discriminate; vm_compute; reflexivity.
Defined.

Section Misbehaviour.
Context {fs file : Type} `{!Vfs fs file} `{!VfsLaws fs file}.
Context (env : kenv) `{!KenvLaws env}.

(** C8. The call can succeed without encrypting anything: whatever the data,
    there is a schedule, with every thread created, none released early and no
    other call at the mutex, under which [my_encrypt] returns 0 and what it wrote
    to the output file, all of it when the write was complete, is the plaintext,
    because a thread stopped before it starts never runs. *)
Theorem encrypt_can_save_plaintext (σ σ' : fs) a b n c srcp dstp keyp D Kc s msgs :
  is_s32 n ->
  user_path env a = Some srcp -> user_path env b = Some dstp -> user_path env c = Some keyp ->
  contents σ srcp = Some D -> contents σ keyp = Some Kc ->
  Z.of_nat (length D) <= MAX_RW_COUNT -> Z.of_nat (length Kc) <= MAX_RW_COUNT ->
  syscall_entry env σ a b n c = EntryGo s ->
  MyEncrypt.save_data_to_file σ dstp D (Z.of_nat (length D)) = (σ', 0, msgs) ->
  let w := written σ dstp D in
  let old := default [] (contents σ dstp) in
  exists ls rs, Forall (fun l => smooth l = true) ls /\
    MyEncrypt.xor_encrypt_syscall env σ a b n c ls = Some (Returned σ' 0 rs) /\
    contents σ' dstp = Some (take (Z.to_nat w) D ++ drop (Z.to_nat w) old) /\
    (w = Z.of_nat (length D) -> contents σ' dstp = Some (D ++ drop (length D) old)).
Proof using KenvLaws0.
  intros Hn Ha Hb Hc HD HK HlD HlK He Hsv w old.
  destruct (entry_files env σ a b n c srcp keyp D Kc s) as (dst & Hdst & -> & Hok & HKc); [done..|].
  unfold user_path in Hb. rewrite Hdst in Hb. cbn in Hb.
  destruct (silent_run D (Kc ++ [0]) n (Z.of_nat (length Kc)) Hok dst σ dstp Hb)
    as (ls & s & msgs' & Hls & Hr & Hf & Hm & Hts & Hsv').
  unfold MyEncrypt.save_data_to_file in Hsv. rewrite Hsv' in Hsv. injection Hsv as <- Hret <-.
  rewrite Hret in Hsv'. destruct (save_data_contents σ dstp D _ _ Hsv') as [_ Hq].
  exists ls, (result ∘ task <$> threads s). split; [done|]. split.
  - unfold MyEncrypt.xor_encrypt_syscall, syscall. rewrite He, Hr. cbn. by rewrite Hf, Hm, Hret.
  - rewrite Hq, same_file_refl. split; [done|]. intros Hw. fold w. by rewrite Hw, overlay_whole.
Qed.

(** Two ways to freed memory. *)
Lemma freed_memory_is_used (σ : fs) a b n c s e dstp : is_s32 n -> user_path env b = Some dstp ->
  syscall_entry env σ a b n c = EntryGo s ->
  (2 <= n -> MyEncrypt.xor_encrypt_syscall env σ a b n c
    [Main; SpawnFails e; Main; Worker 0; Worker 0; Worker 0] = Some (Stopped UseAfterFree)) /\
  exists ls, Forall (fun l => spawns_ok l = true) ls /\
    MyEncrypt.xor_encrypt_syscall env σ a b n c ls = Some (Stopped UseAfterFree).
Proof using KenvLaws0 VfsLaws0.
  intros Hn Hb He. unfold MyEncrypt.xor_encrypt_syscall, syscall. rewrite He.
  destruct (entry_go env σ a b n c s Hn He) as (D & K & klen & dst & σ' & -> & Hok & Hdst). split.
  - intros Hn2. destruct (uaf_run D K (Z.of_nat (length D)) n klen dst σ' e Hn2) as (s & -> & Hf). cbn. by rewrite Hf.
  - unfold user_path in Hb. rewrite Hdst in Hb. cbn in Hb.
    destruct (released_run D K n klen Hok dst σ' ltac:(by eauto)) as (ls & s & Hls & Hr & Hf).
    exists ls. split; [done|]. rewrite Hr. cbn. by rewrite Hf.
Qed.

(** Counts that are not positive. *)
Lemma thread_count_checked_late (σ : fs) a b n c ls srcp dst keyp D Kc bd bk : is_s32 n -> n <= 0 ->
  user_path env a = Some srcp -> copy_from_user env b 256 = Some dst -> user_path env c = Some keyp ->
  contents σ srcp = Some D -> contents σ keyp = Some Kc -> D <> [] -> Kc <> [] ->
  Z.of_nat (length D) < 2 ^ 63 -> Z.of_nat (length Kc) < 2 ^ 63 ->
  kmalloc env SiteData (Z.of_nat (length D)) = Some bd ->
  kmalloc env SiteKey (Z.of_nat (length Kc) + 1) = Some bk ->
  MyEncrypt.xor_encrypt_syscall env σ a b n c ls =
    Some (if n =? 0 then Stopped DivideError else Returned σ (- ENOMEM) []).
Proof using KenvLaws0.
  intros Hn Hn0 Ha Hb Hc HD HK HneD HneK HlD HlK Hmd Hmk.
  unfold MyEncrypt.xor_encrypt_syscall, syscall, syscall_entry. unfold user_path in *.
  destruct (copy_from_user env a 256) as [src|]; [|done]. cbn in Ha.
  destruct (copy_from_user env c 256) as [kf|]; [|done]. cbn in Hc. rewrite Hb, Ha, Hc.
  destruct (open_read σ srcp D HD HlD) as (f & Ho & Hs & _ & Hcl).
  destruct (open_read σ keyp Kc HK HlK) as (g & Hog & Hsg & _ & Hcg).
  assert (0 < Z.of_nat (length D)) by (destruct D; [done|cbn; lia]).
  assert (0 < Z.of_nat (length Kc)) by (destruct Kc; [done|cbn; lia]).
  unfold load_data. rewrite Ho, Hs, u64_id, (proj2 (Z.leb_gt _ _)), Hmd, Hcl by cint.
  unfold load_key. rewrite Hog, Hsg, (u64_id (Z.of_nat (length Kc))), u64_id by cint.
  rewrite (proj2 (Z.leb_gt (Z.of_nat (length Kc)) _)), Hmk, Hcg by lia.
  unfold kmalloc_array. destruct (Z.eqb_spec n 0) as [->|Hne].
  - cbn. by rewrite !kmalloc_zero.
  - assert (u64 n = n + 2 ^ 64) as Hu by cint. rewrite Hu. unfold sizeof_ptr.
    by rewrite (proj2 (Z.leb_le (2 ^ 64) ((n + 2 ^ 64) * 8))) by cint.
Qed.

(** C9. What the thread handling does to the kernel, on files and paths that
    can be read and with memory for them.  With two or more threads, a
    [kthread_run] that fails after the first one lets the threads already created
    use the buffers the caller frees.  With every thread created, since
    [kthread_stop] is called on threads that may have exited by themselves, there
    is a schedule in which the [task_struct] of a finished thread is released
    first and the caller uses it.  And the number of threads is used before it is
    checked: [0] divides by zero in the kernel, a negative number returns
    [-ENOMEM]. *)
Theorem thread_handling_faults (σ : fs) a b n c srcp dst dstp keyp D Kc bd bk : is_s32 n ->
  user_path env a = Some srcp -> copy_from_user env b 256 = Some dst -> user_path env b = Some dstp ->
  user_path env c = Some keyp ->
  contents σ srcp = Some D -> contents σ keyp = Some Kc -> D <> [] -> Kc <> [] ->
  Z.of_nat (length D) < 2 ^ 63 -> Z.of_nat (length Kc) < 2 ^ 63 ->
  kmalloc env SiteData (Z.of_nat (length D)) = Some bd ->
  kmalloc env SiteKey (Z.of_nat (length Kc) + 1) = Some bk ->
  (n <= 0 -> forall ls, MyEncrypt.xor_encrypt_syscall env σ a b n c ls =
    Some (if n =? 0 then Stopped DivideError else Returned σ (- ENOMEM) [])) /\
  (forall s, syscall_entry env σ a b n c = EntryGo s ->
   (forall e, 2 <= n -> MyEncrypt.xor_encrypt_syscall env σ a b n c
     [Main; SpawnFails e; Main; Worker 0; Worker 0; Worker 0] = Some (Stopped UseAfterFree)) /\
   exists ls, Forall (fun l => spawns_ok l = true) ls /\
     MyEncrypt.xor_encrypt_syscall env σ a b n c ls = Some (Stopped UseAfterFree)).
Proof using KenvLaws0 VfsLaws0.
  intros Hn Ha Hb Hb' Hc HD HK HneD HneK HlD HlK Hmd Hmk. split.
  - intros Hn0 ls. by eapply thread_count_checked_late.
  - intros s He. split; [intros e|]; by eapply (freed_memory_is_used σ a b n c s).
Qed.
End Misbehaviour.

(** C10. [my_decrypt.c] does what [my_encrypt.c] does: on every input and under
    every schedule the two translations have the same result and the same
    effect on the files (they differ in what they log). *)
Theorem decrypt_same_as_encrypt {fs file : Type} `{!Vfs fs file} env (σ : fs) a b n c ls :
  MyDecrypt.xor_decrypt env σ a b n c ls = MyEncrypt.xor_encrypt_syscall env σ a b n c ls.
Proof. apply syscalls_agree. Qed.

Lemma encrypt_can_save_plaintext_witness :
  exists ls rs, Forall (fun l => smooth l = true) ls /\
    MyEncrypt.xor_encrypt_syscall Demo.env Demo.tree0 1 2 2 3 ls =
      Some (Returned (<[ [98] := [1; 2; 3] ]> Demo.tree0) 0 rs) /\
    contents (file := path) (<[ [98] := [1; 2; 3] ]> Demo.tree0) [98] = Some [1; 2; 3].
Proof.
  destruct (encrypt_can_save_plaintext (file := path) Demo.env Demo.tree0 (<[ [98] := [1; 2; 3] ]> Demo.tree0)
    1 2 2 3 [97] [98] [107] [1; 2; 3] [7; 9] Demo.start []) as (ls & rs & Hls & Hc & _ & Hw);
    try reflexivity; try discriminate; try (split; [discriminate|reflexivity]).
  exists ls, rs. split; [exact Hls|]. split; [exact Hc|]. apply Hw. reflexivity.
Defined.

Lemma thread_handling_faults_witness :
  MyEncrypt.xor_encrypt_syscall Demo.env Demo.tree0 1 2 2 3
    [Main; SpawnFails (- ENOMEM); Main; Worker 0; Worker 0; Worker 0] = Some (Stopped UseAfterFree) /\
  MyEncrypt.xor_encrypt_syscall Demo.env Demo.tree0 1 2 0 3 [] =
    Some (if 0 =? 0 then Stopped DivideError else Returned Demo.tree0 (- ENOMEM) []).
Proof.
  split.
  - refine (proj1 (proj2 (thread_handling_faults (file := path) Demo.env Demo.tree0 1 2 2 3 [97] [98; 0] [98] [107]
      [1; 2; 3] [7; 9] [165; 165; 165] [165; 165; 165] _ _ _ _ _ _ _ _ _ _ _ _ _) Demo.start _) (- ENOMEM) _);
      try reflexivity; try discriminate. split; [discriminate|reflexivity].
  - refine (proj1 (thread_handling_faults (file := path) Demo.env Demo.tree0 1 2 0 3 [97] [98; 0] [98] [107]
      [1; 2; 3] [7; 9] [165; 165; 165] [165; 165; 165] _ _ _ _ _ _ _ _ _ _ _ _ _) _ []);
      try reflexivity; try discriminate. split; [discriminate|reflexivity].
Defined.
