(* ===== verification/App.v ===== *)
(** * The command-line front ends: [apps/encrypt_app.c] and [apps/decrypt_app.c]

    Both programs read a line, split it in place with [strtok], read the options
    [-p -o -t -k] and make the system call.  The buffer [comando] is a list of
    256 bytes; a token is an offset into it, as the pointers are in the source.
    Reading a C string that has no NUL before the end of the buffer is outside
    the language: such a read gives [None]. *)
From S2P Require Import Prelude Vfs XorCrypt.

(** ** What the programs use of the C library *)

(** Characters: NUL, newline, space. *)
Definition ch_nl : Z := 10.
Definition ch_sp : Z := 32.

(** The C string at offset [p] of a buffer. *)
Definition str_at (b : bytes) (p : nat) : option bytes := c_string (drop p b).

(** [fgets(comando, 256, stdin)]: at most [n] characters, up to a newline. *)
Fixpoint take_line (n : nat) (s : bytes) : bytes :=
  match n, s with
  | O, _ | _, [] => []
  | S n, c :: s => if c =? ch_nl then [c] else c :: take_line n s
  end.

(** At end of file [fgets] leaves the buffer alone. *)
Definition fgets (b stdin : bytes) : bytes * bytes :=
  match stdin with
  | [] => (b, [])
  | _ => let r := take_line 255 stdin in (r ++ [0] ++ drop (S (length r)) b, drop (length r) stdin)
  end.

(** Length of the longest prefix of [b] without a character of [stop]. *)
Fixpoint span (stop : Z -> bool) (b : bytes) : nat :=
  match b with
  | [] => 0
  | c :: b => if stop c then 0 else S (span stop b)
  end.

(** [comando[strcspn(comando, "\n")] = 0] *)
Definition chop_newline (b : bytes) : option bytes :=
  let i := span (fun c => (c =? ch_nl) || (c =? 0)) b in
  if decide (i < length b)%nat then Some (<[i := 0]> b) else None.

Definition not_sp (c : Z) : bool := negb (c =? ch_sp).
Definition sp_or_nul (c : Z) : bool := (c =? ch_sp) || (c =? 0).

(** [strtok(p, " ")]: the buffer, the token and where the next call resumes. *)
Definition strtok (b : bytes) (p : nat) : option (bytes * option nat * nat) :=
  let t := (p + span not_sp (drop p b))%nat in
  c ← b !! t;
  if c =? 0 then Some (b, None, t)
  else
    let e := (t + span sp_or_nul (drop t b))%nat in
    d ← b !! e;
    if d =? 0 then Some (b, Some t, e) else Some (<[e := 0]> b, Some t, S e).

(** [atoi]: [(int) strtol(s, NULL, 10)]. *)
Definition isspace (c : Z) : bool := (c =? 32) || ((9 <=? c) && (c <=? 13)).
Definition isdigit (c : Z) : bool := (48 <=? c) && (c <=? 57).
Fixpoint digits_value (acc : Z) (s : bytes) : Z :=
  match s with
  | c :: s => if isdigit c then digits_value (10 * acc + (c - 48)) s else acc
  | [] => acc
  end.
Definition strtol (s : bytes) : Z :=
  let s1 := drop (span (fun c => negb (isspace c)) s) s in
  let v := match s1 with
           | 45 :: s2 => - digits_value 0 s2
           | 43 :: s2 => digits_value 0 s2
           | _ => digits_value 0 s1
           end in
  Z.max S64_MIN (Z.min S64_MAX v).
Definition atoi (s : bytes) : Z := s32 (strtol s).

(** ** Options and output *)

(** What the programs print, in order. *)
Inductive out :=
| Prompt
| Uso                      (* [mostrar_uso] *)
| ErrHilos                 (* invalid number of threads *)
| ErrEntrada | ErrSalida | ErrClave
| Iniciando (entrada salida : bytes) (hilos : Z) (clave : bytes)
| Perror
| Exito
| Terminando.

(** The variables of [main] that the options set. *)
Record opts := mk_opts {
  archivo_entrada : option nat;
  archivo_salida : option nat;
  archivo_clave : option nat;
  num_hilos : Z;
  error_parametros : bool
}.

Definition no_opts : opts := mk_opts None None None 0 false.
Definition set_entrada (t : nat) (o : opts) : opts :=
  mk_opts (Some t) (archivo_salida o) (archivo_clave o) (num_hilos o) (error_parametros o).
Definition set_salida (t : nat) (o : opts) : opts :=
  mk_opts (archivo_entrada o) (Some t) (archivo_clave o) (num_hilos o) (error_parametros o).
Definition set_clave (t : nat) (o : opts) : opts :=
  mk_opts (archivo_entrada o) (archivo_salida o) (Some t) (num_hilos o) (error_parametros o).
Definition set_hilos (n : Z) (o : opts) : opts :=
  mk_opts (archivo_entrada o) (archivo_salida o) (archivo_clave o) n (error_parametros o).
Definition set_error (o : opts) : opts :=
  mk_opts (archivo_entrada o) (archivo_salida o) (archivo_clave o) (num_hilos o) true.

Definition opt_p : bytes := [45; 112].
Definition opt_o : bytes := [45; 111].
Definition opt_t : bytes := [45; 116].
Definition opt_k : bytes := [45; 107].
Definition salir : bytes := [115; 97; 108; 105; 114].

(** [strcmp(argumentos[i], s) == 0] for a token of the final buffer. *)
Definition streq (b : bytes) (t : nat) (s : bytes) : bool := bool_decide (str_at b t = Some s).

(** The string a token stands for, empty when it is not terminated. *)
Definition tok_str (b : bytes) (t : nat) : bytes := default [] (str_at b t).

(** The tokens of the line: at most 10, in place. *)
Fixpoint separar (k : nat) (b : bytes) (tok : option nat) (p : nat) : option (bytes * list nat) :=
  match k, tok with
  | S k, Some t =>
      '(b', tok', p') ← strtok b p;
      '(bf, ts) ← separar k b' tok' p';
      Some (bf, t :: ts)
  | _, _ => Some (b, [])
  end.

Definition argumentos (b : bytes) : option (bytes * list nat) :=
  '(b', tok, p) ← strtok b 0;
  separar 10 b' tok p.

(** ** [encrypt_app.c] *)
Module EncryptApp.

(** The option loop: a bad thread count is reported at once, an unknown
    option ends the loop. *)
Fixpoint procesar (b : bytes) (args : list nat) (o : opts) : opts * list out :=
  match args with
  | [] => (o, [])
  | a :: rest =>
      match rest with
      | v :: rest' =>
          if streq b a opt_p then procesar b rest' (set_entrada v o)
          else if streq b a opt_o then procesar b rest' (set_salida v o)
          else if streq b a opt_t then
            let n := atoi (tok_str b v) in
            if n <=? 0 then
              let '(o', l) := procesar b rest' (set_error (set_hilos n o)) in (o', ErrHilos :: l)
            else procesar b rest' (set_hilos n o)
          else if streq b a opt_k then procesar b rest' (set_clave v o)
          else (set_error o, [Uso])
      | [] => (set_error o, [Uso])
      end
  end.

(** The checks after the loop. *)
Definition verificar (o : opts) : bool * list out :=
  (error_parametros o || negb (bool_decide (is_Some (archivo_entrada o)))
     || negb (bool_decide (is_Some (archivo_salida o)))
     || negb (bool_decide (is_Some (archivo_clave o))),
   (if archivo_entrada o is Some _ then [] else [ErrEntrada])
     ++ (if archivo_salida o is Some _ then [] else [ErrSalida])
     ++ (if archivo_clave o is Some _ then [] else [ErrClave])).

End EncryptApp.

(** ** [decrypt_app.c] *)
Module DecryptApp.

(** Here an unknown option prints the usage and the loop goes on, and the
    thread count is checked after it. *)
Fixpoint procesar (b : bytes) (args : list nat) (o : opts) : opts * list out :=
  match args with
  | [] => (o, [])
  | a :: rest =>
      match rest with
      | v :: rest' =>
          if streq b a opt_p then procesar b rest' (set_entrada v o)
          else if streq b a opt_o then procesar b rest' (set_salida v o)
          else if streq b a opt_t then procesar b rest' (set_hilos (atoi (tok_str b v)) o)
          else if streq b a opt_k then procesar b rest' (set_clave v o)
          else let '(o', l) := procesar b rest o in (o', Uso :: l)
      | [] => (o, [Uso])
      end
  end.

Definition verificar (o : opts) : bool * list out :=
  (error_parametros o || negb (bool_decide (is_Some (archivo_entrada o)))
     || negb (bool_decide (is_Some (archivo_salida o)))
     || (num_hilos o <=? 0)
     || negb (bool_decide (is_Some (archivo_clave o))),
   (if archivo_entrada o is Some _ then [] else [ErrEntrada])
     ++ (if archivo_salida o is Some _ then [] else [ErrSalida])
     ++ (if num_hilos o <=? 0 then [ErrHilos] else [])
     ++ (if archivo_clave o is Some _ then [] else [ErrClave])).

End DecryptApp.

(** ** The loop of [main] *)
Section Main.
Context (procesar : bytes -> list nat -> opts -> opts * list out).
Context (verificar : opts -> bool * list out).
(** [syscall(MY_..._SYSCALL, entrada, salida, hilos, clave)]: the pointers are
    offsets into the buffer, which the call gets with them; the kernel's state
    is threaded through.  [None]: the call does not come back. *)
Context {kernel : Type} (llamada : kernel -> bytes -> nat -> nat -> Z -> nat -> option (kernel * Z)).

(** How one turn of the loop ends: the program leaves the loop, goes on, or
    never comes back from the system call. *)
Inductive turno :=
| Salir (l : list out)
| Sigue (st : kernel) (comando stdin : bytes) (l : list out)
| Colgado (l : list out).

Definition iteracion (st : kernel) (comando stdin : bytes) : option turno :=
  let '(b0, stdin') := fgets comando stdin in
  b1 ← chop_newline b0;
  cmd ← str_at b1 0;
  if bool_decide (cmd = salir) then Some (Salir [Prompt; Terminando])
  else
    '(b, args) ← argumentos b1;
    let '(o, l1) := procesar b args no_opts in
    let '(err, l2) := verificar o in
    if err then Some (Sigue st b stdin' ([Prompt] ++ l1 ++ l2 ++ [Uso]))
    else
      match archivo_entrada o, archivo_salida o, archivo_clave o with
      | Some e, Some s, Some k =>
          let l := [Prompt] ++ l1 ++ l2
                     ++ [Iniciando (tok_str b e) (tok_str b s) (num_hilos o) (tok_str b k)] in
          match llamada st b e s (num_hilos o) k with
          | Some (st', resultado) =>
              Some (Sigue st' b stdin' (l ++ [if resultado =? 0 then Exito else Perror]))
          | None => Some (Colgado l)
          end
      | _, _, _ => None
      end.

(** Where the program is after some turns. *)
Inductive estado :=
| EnCurso (st : kernel) (comando stdin : bytes)
| Terminado (st : kernel)
| Detenido.

(** [main] for [fuel] turns: where it is, and what it printed. *)
Fixpoint main_loop (fuel : nat) (st : kernel) (comando stdin : bytes) : option (estado * list out) :=
  match fuel with
  | O => Some (EnCurso st comando stdin, [])
  | S fuel =>
      t ← iteracion st comando stdin;
      match t with
      | Salir l => Some (Terminado st, l)
      | Colgado l => Some (Detenido, l)
      | Sigue st' comando' stdin' l =>
          '(e, l') ← main_loop fuel st' comando' stdin'; Some (e, l ++ l')
      end
  end.
End Main.

Arguments turno : clear implicits.
Arguments estado : clear implicits.
Arguments Salir {kernel} l.
Arguments Colgado {kernel} l.
Arguments Detenido {kernel}.
