(* ===== verification/AppThms.v ===== *)
(** * Correctness of the command-line front ends

    The in-place [strtok] loop yields the words of the line; a complete line
    makes the system call with its own strings and thread count; what
    [encrypt_app] does without [-t]; and what both do at end of input. *)
From S2P Require Import Prelude Vfs XorCrypt App.

(** ** Specification of the split: the maximal runs without a space *)

Definition flush (cur : bytes) : list bytes := if cur is [] then [] else [cur].

Fixpoint words_from (cur s : bytes) : list bytes :=
  match s with
  | [] => flush cur
  | c :: s => if c =? ch_sp then flush cur ++ words_from [] s else words_from (cur ++ [c]) s
  end.
Definition words (s : bytes) : list bytes := words_from [] s.

(** A word: not empty, no space, no NUL, no newline. *)
Definition word (w : bytes) : Prop := w <> [] /\ Forall (fun c => c <> ch_sp /\ c <> 0 /\ c <> ch_nl) w.

(** Words separated by one space. *)
Fixpoint unwords (ws : list bytes) : bytes :=
  match ws with
  | [] => []
  | [w] => w
  | w :: ws => w ++ ch_sp :: unwords ws
  end.

Section strings.
Implicit Types b s w j : bytes.

Lemma c_string_spec b w : c_string b = Some w <-> exists j, b = w ++ 0 :: j /\ 0 ∉ w.
Proof.
  revert w; induction b as [|c b IH]; intros w; cbn.
  { split; [done|]. intros (j & He & _). by destruct w. }
  destruct (Z.eqb_spec c 0) as [->|Hc].
  - split; [intros [= <-]; exists b; split; [done|apply not_elem_of_nil]|].
    intros (j & He & Hw). destruct w as [|x w]; [done|]. simplify_eq/=. set_solver.
  - rewrite fmap_Some. split.
    + intros (w' & (j & -> & Hj)%IH & ->). exists j. split; [done|set_solver].
    + intros (j & He & Hw). destruct w as [|x w]; simplify_eq/=.
      exists w. split; [|done]. apply IH. exists j. set_solver.
Qed.

Lemma words_from_app cur w s :
  ch_sp ∉ w -> words_from cur (w ++ s) = words_from (cur ++ w) s.
Proof.
  revert cur; induction w as [|c w IH]; intros cur Hw; cbn; [by rewrite app_nil_r|].
  destruct (Z.eqb_spec c ch_sp); [set_solver|]. rewrite IH by set_solver. by rewrite <- app_assoc.
Qed.

Lemma words_space s : words (ch_sp :: s) = words s.
Proof. done. Qed.

Lemma words_word w : w <> [] -> ch_sp ∉ w -> words w = [w].
Proof.
  intros Hw Hs. unfold words. rewrite <- (app_nil_r w) at 1. rewrite words_from_app by done. by destruct w.
Qed.

Lemma words_cons w s : w <> [] -> ch_sp ∉ w -> words (w ++ ch_sp :: s) = w :: words s.
Proof. intros Hw Hs. unfold words. rewrite words_from_app by done. by destruct w. Qed.

Lemma word_no_sp w : word w -> ch_sp ∉ w.
Proof. intros [_ Hw] Hin. eapply Forall_forall in Hw; [|done]. naive_solver. Qed.

Lemma words_unwords ws : Forall word ws -> words (unwords ws) = ws.
Proof.
  induction ws as [|w ws IH]; intros Hall; [done|]. inversion_clear Hall as [|?? Hw Hws].
  pose proof (word_no_sp _ Hw). destruct Hw as [Hne _].
  destruct ws; [by apply words_word|].
  cbn. rewrite words_cons by done. f_equal. by apply IH.
Qed.

Lemma unwords_chars ws : Forall word ws -> Forall (fun c => c <> 0 /\ c <> ch_nl) (unwords ws).
Proof.
  induction 1 as [|w ws [_ Hw] Hws IH]; [constructor|].
  assert (Hw' : Forall (fun c => c <> 0 /\ c <> ch_nl) w) by (eapply Forall_impl; [done|naive_solver]).
  destruct ws; [done|]. cbn. apply Forall_app. split; [done|]. by constructor.
Qed.

(** [span] of a buffer whose first stopping character is known. *)
Lemma span_app stop w c s :
  Forall (fun x => stop x = false) w -> stop c = true -> span stop (w ++ (c :: s)) = length w.
Proof. induction 1 as [|x w Hx Hw IH]; cbn; intros Hc; [by rewrite Hc|rewrite Hx; f_equal; auto]. Qed.

(** A C string is spaces, then nothing or a word that ends at a space or at the end. *)
Lemma split_line s :
  0 ∉ s ->
  exists sp r, s = sp ++ r /\ Forall (fun x => x = ch_sp) sp /\ words s = words r /\
    (r = [] \/ exists w r', w <> [] /\ (ch_sp ∉ w) /\ (0 ∉ w) /\
       ((r = w /\ r' = []) \/ r = w ++ (ch_sp :: r')) /\ words r = w :: words r').
Proof.
  induction s as [|c s IH]; intros H0.
  { exists [], []. by repeat split; [..|left]. }
  destruct (decide (c = ch_sp)) as [->|Hc].
  - destruct IH as (sp & r & -> & Hsp & Hw & Hr); [set_solver|].
    exists (ch_sp :: sp), r. repeat split; [by constructor|exact Hw|done].
  - exists [], (c :: s). repeat split; [constructor|]. right.
    assert (Hs : exists w r', (ch_sp ∉ w) /\ ((s = w /\ r' = []) \/ s = w ++ ch_sp :: r')).
    { clear. induction s as [|x s (w & r' & Hw & Hs)].
      - exists [], []. split; [apply not_elem_of_nil|by left].
      - destruct (decide (x = ch_sp)) as [->|].
        + exists [], s. split; [apply not_elem_of_nil|by right].
        + exists (x :: w), r'. split; [set_solver|]. naive_solver. }
    destruct Hs as (w & r' & Hw & Hs). exists (c :: w), r'.
    assert (ch_sp ∉ c :: w) by set_solver.
    destruct Hs as [[-> ->]| ->].
    + repeat split; [done|set_solver|set_solver|by left|by rewrite words_word].
    + repeat split; [done|set_solver|set_solver|by right|].
      rewrite (app_comm_cons w). by apply words_cons.
Qed.
End strings.

(** ** [strtok] *)
Section strtok.
Implicit Types b r j w : bytes.

(** The rest of the line from [p]: text [r], its terminator and what follows. *)
Definition rest_of (b : bytes) (p : nat) (r : bytes) : Prop := exists j, drop p b = r ++ 0 :: j /\ 0 ∉ r.

Lemma drop_split b p x s : drop p b = x ++ s -> b = take p b ++ x ++ s.
Proof. intros <-. by rewrite take_drop. Qed.

Lemma length_take_drop b p x : drop p b = x -> x <> [] -> length (take p b) = p.
Proof.
  intros <- Hx. rewrite length_take_le; [done|].
  destruct (decide (p <= length b)%nat); [done|]. rewrite drop_ge in Hx; [done|lia].
Qed.

Lemma strtok_shape pre sp w t j :
  Forall (fun x => x = ch_sp) sp -> w <> [] -> ch_sp ∉ w -> 0 ∉ w -> t = ch_sp \/ t = 0 ->
  let b := pre ++ sp ++ w ++ t :: j in
  strtok b (length pre) =
    Some (if t =? 0 then (b, Some (length (pre ++ sp)), length (pre ++ sp ++ w))
          else (pre ++ sp ++ w ++ 0 :: j, Some (length (pre ++ sp)), S (length (pre ++ sp ++ w)))).
Proof.
  intros Hsp Hw Hs H0 Ht b. destruct w as [|c w]; [done|]. unfold strtok, b.
  rewrite drop_app_length.
  assert (Hc : c <> ch_sp /\ c <> 0) by set_solver.
  change ((c :: w) ++ t :: j) with (c :: w ++ t :: j).
  rewrite (span_app not_sp sp c) by
    (first [eapply Forall_impl; [done|]; intros ? ->; done | unfold not_sp; apply negb_true_iff, Z.eqb_neq; tauto]).
  rewrite <- length_app, (app_assoc pre).
  rewrite (list_lookup_middle (pre ++ sp) _ c (length (pre ++ sp))) by done. cbn [mbind option_bind]. destruct (Z.eqb_spec c 0); [tauto|].
  rewrite drop_app_length. change (c :: w ++ t :: j) with ((c :: w) ++ t :: j).
  assert (Hsn : forall x, x ∈ c :: w -> sp_or_nul x = false).
  { intros x Hx. unfold sp_or_nul. apply orb_false_iff; split; apply Z.eqb_neq; set_solver. }
  rewrite span_app; [|by apply Forall_forall|destruct Ht; subst; done].
  rewrite <- length_app, (app_assoc (pre ++ sp)), (list_lookup_middle ((pre ++ sp) ++ c :: w) _ t) by done.
  cbn [mbind option_bind].
  replace (pre ++ sp ++ c :: w) with ((pre ++ sp) ++ c :: w) by (by rewrite <- app_assoc).
  replace (pre ++ sp ++ (c :: w) ++ 0 :: j) with (((pre ++ sp) ++ c :: w) ++ 0 :: j) by (by rewrite <- !app_assoc).
  destruct (Z.eqb_spec t 0); [done|].
  by rewrite insert_app_r_alt, Nat.sub_diag by done.
Qed.

(** One call of [strtok]: the first word, left in place and closed by a NUL,
    and the other words still ahead. *)
Definition strtok_post (b : bytes) (p : nat) (ws : list bytes) (b' : bytes) (tok : option nat) (p' : nat) : Prop :=
  take p b' = take p b /\ (p <= p')%nat /\
  match ws with
  | [] => tok = None /\ b' = b
  | w :: ws' => exists t r, tok = Some t /\ rest_of b' t w /\ rest_of b' p' r /\ words r = ws' /\
      (t + length w <= p')%nat /\ (ws' = [] \/ (t + length w < p')%nat)
  end.

Lemma strtok_spec b p r :
  rest_of b p r ->
  exists b' tok p', strtok b p = Some (b', tok, p') /\ strtok_post b p (words r) b' tok p'.
Proof.
  intros (j & Hd & H0). destruct (split_line r H0) as (sp & r1 & -> & Hsp & Hws & Hr1).
  assert (Hp : length (take p b) = p) by (by eapply length_take_drop; [done|destruct sp, r1]).
  rewrite <- app_assoc in Hd. pose proof (drop_split _ _ _ _ Hd) as Hb. rewrite Hws.
  set (pre := take p b) in *. clearbody pre. clear Hd Hws. subst p b.
  assert (Hdrop : forall x y : bytes, drop (length x) (x ++ y) = y) by (intros; apply drop_app_length).
  destruct Hr1 as [->|(w & r' & Hw & Hs & Hw0 & Hshape & ->)].
  - eexists _, None, (length pre + length sp)%nat. split; [|by repeat split; lia].
    unfold strtok. rewrite Hdrop. cbn. rewrite (span_app not_sp sp 0) by
      (first [eapply Forall_impl; [done|]; intros ? ->; done | done]).
    rewrite <- length_app, app_assoc. by rewrite (list_lookup_middle (pre ++ sp) j 0 (length (pre ++ sp)) eq_refl).
  - destruct Hshape as [[-> ->]| ->]; do 3 eexists; split.
    + by apply (strtok_shape pre sp w 0 j); auto.
    + cbn -[strtok length app]. split; [done|]. split; [rewrite !length_app; lia|].
      exists (length (pre ++ sp)), []. repeat split; [..|rewrite !length_app; lia|by left];
        exists j; (split; [|set_solver]).
      * rewrite app_assoc. apply Hdrop.
      * rewrite !app_assoc, <- app_assoc. apply Hdrop.
    + rewrite <- app_assoc. by apply (strtok_shape pre sp w ch_sp (r' ++ 0 :: j)); auto.
    + cbn -[strtok length app]. split; [by rewrite !take_app_length|]. split; [rewrite !length_app; lia|].
      exists (length (pre ++ sp)), r'. repeat split; [..|rewrite !length_app; lia|right; rewrite !length_app; lia].
      * exists (r' ++ 0 :: j). split; [|done]. rewrite app_assoc. apply Hdrop.
      * exists j. split; [|set_solver].
        transitivity (drop (length ((pre ++ sp ++ w) ++ [0])) (((pre ++ sp ++ w) ++ [0]) ++ r' ++ 0 :: j)); [|apply Hdrop].
        rewrite (length_app _ [0]), Nat.add_1_r. f_equal. by rewrite <- !app_assoc.
Qed.

(** A finished token survives the changes beyond it. *)
Lemma rest_of_stable b b' t w p :
  take p b' = take p b -> (t + length w < p)%nat -> rest_of b t w -> rest_of b' t w.
Proof.
  intros Ht Hl (j & Hd & H0). exists (drop (S (length w)) (drop t b')). split; [|done].
  assert (He : take (S (length w)) (drop t b') = take (S (length w)) (drop t b)).
  { rewrite !take_drop_commute. f_equal.
    replace (t + S (length w))%nat with ((t + S (length w)) `min` p)%nat by lia.
    by rewrite <- !take_take, Ht. }
  rewrite <- (take_drop (S (length w)) (drop t b')) at 1. rewrite He, Hd.
  replace (w ++ 0 :: j) with ((w ++ [0]) ++ j) by (by rewrite <- app_assoc).
  replace (S (length w)) with (length (w ++ [0])) by (rewrite length_app; cbn; lia).
  rewrite take_app_length. by rewrite <- app_assoc.
Qed.

Lemma rest_of_str b t w : rest_of b t w -> str_at b t = Some w.
Proof. intros (j & Hd & H0). apply c_string_spec. rewrite Hd. by exists j. Qed.

Lemma separar_spec k b0 p0 ws b tok p :
  strtok_post b0 p0 ws b tok p ->
  exists bf ts, separar k b tok p = Some (bf, ts) /\ str_at bf <$> ts = Some <$> take k ws /\
    take p bf = take p b /\ (tail ws = [] -> bf = b).
Proof.
  revert b0 p0 ws b tok p; induction k as [|k IH]; intros b0 p0 ws b tok p (Ht & Hp & Hws).
  { exists b, []. by destruct tok. }
  destruct ws as [|w ws']; cbn [tail].
  { destruct Hws as [-> _]. by exists b, []. }
  destruct Hws as (t & r & -> & Hw & Hr & <- & Hle & Hlt).
  destruct (strtok_spec b p r Hr) as (b1 & tok1 & p1 & Hst & Hpost).
  destruct (IH _ _ _ _ _ _ Hpost) as (bf & ts & Hsep & Hts & Htk & Hnil).
  exists bf, (t :: ts). cbn. rewrite Hst. cbn. rewrite Hsep. cbn. split; [done|].
  destruct Hpost as (Htk1 & Hpp & Hpost).
  assert (Hstable : take p bf = take p b).
  { rewrite <- Htk1. apply (f_equal (take p)) in Htk. rewrite !take_take, (Nat.min_l p p1) in Htk by lia. done. }
  assert (Hlast : words r = [] -> bf = b).
  { intros He. rewrite He in Hpost, Hnil. destruct Hpost as [_ <-]. by apply Hnil. }
  split; [|done]. rewrite Hts. f_equal. apply rest_of_str.
  destruct Hlt as [He|Hlt]; [by rewrite Hlast|by eapply rest_of_stable].
Qed.

Lemma argumentos_spec b line :
  c_string b = Some line ->
  exists bf ts, argumentos b = Some (bf, ts) /\ str_at bf <$> ts = Some <$> take 10 (words line).
Proof.
  intros (j & -> & H0)%c_string_spec.
  destruct (strtok_spec (line ++ 0 :: j) 0 line) as (b1 & tok & p1 & Hst & Hpost); [by exists j|].
  destruct (separar_spec 10 _ _ _ _ _ _ Hpost) as (bf & ts & Hsep & Hts & _).
  exists bf, ts. unfold argumentos. rewrite Hst. cbn [mbind option_bind]. by rewrite Hsep.
Qed.
End strtok.

(** ** One turn of [main] *)
Section turn.
Implicit Types b w line j : bytes.

Lemma take_line_app n line rest :
  (length line < n)%nat -> ch_nl ∉ line -> take_line n (line ++ ch_nl :: rest) = line ++ [ch_nl].
Proof.
  revert n; induction line as [|c line IH]; intros [|n] Hn Hl; cbn in *; try lia; [done|].
  destruct (Z.eqb_spec c ch_nl); [set_solver|]. f_equal. apply IH; [lia|set_solver].
Qed.

Lemma chop_newline_app line c j :
  c = ch_nl \/ c = 0 -> ch_nl ∉ line -> 0 ∉ line -> chop_newline (line ++ c :: j) = Some (line ++ 0 :: j).
Proof.
  intros Hc Hn H0. unfold chop_newline. rewrite span_app.
  - case_decide as Hlt; [|rewrite length_app in Hlt; cbn in Hlt; lia].
    by rewrite insert_app_r_alt, Nat.sub_diag.
  - apply Forall_forall. intros x Hx. apply orb_false_iff. split; apply Z.eqb_neq; set_solver.
  - by destruct Hc as [-> | ->].
Qed.

(** Reading a line that fits leaves it as the C string of the buffer. *)
Lemma line_read comando line rest :
  (length line < 255)%nat -> Forall (fun c => c <> 0 /\ c <> ch_nl) line ->
  exists b0 j, fgets comando (line ++ ch_nl :: rest) = (b0, rest) /\ chop_newline b0 = Some (line ++ 0 :: j) /\ 0 ∉ line.
Proof.
  intros Hlen Hc. assert (Hn : (ch_nl ∉ line) /\ (0 ∉ line)).
  { split; intros Hin; rewrite Forall_forall in Hc; apply Hc in Hin; tauto. }
  unfold fgets. destruct (line ++ ch_nl :: rest) as [|x l] eqn:He; [by destruct line|]. rewrite <- He.
  rewrite take_line_app by naive_solver. do 2 eexists. split; [|split; [|naive_solver]].
  - f_equal. replace (line ++ ch_nl :: rest) with ((line ++ [ch_nl]) ++ rest) by (by rewrite <- app_assoc).
    apply drop_app_length.
  - rewrite <- app_assoc. cbn [app]. apply chop_newline_app; naive_solver.
Qed.

(** The buffer keeps its size through a turn. *)
Lemma take_line_length n s : (length (take_line n s) <= n)%nat.
Proof. revert s; induction n as [|n IH]; intros [|c s]; cbn; try lia. case_match; cbn; [lia|]. specialize (IH s). lia. Qed.

Lemma fgets_length comando stdin : length comando = 256%nat -> length (fgets comando stdin).1 = 256%nat.
Proof.
  intros Hc. unfold fgets. destruct stdin as [|x l]; [done|].
  pose proof (take_line_length 255 (x :: l)) as Hr. revert Hr. generalize (take_line 255 (x :: l)). intros r Hr.
  cbn [fst]. rewrite length_app. cbn [app length]. rewrite length_drop. lia.
Qed.

Lemma chop_newline_length b b' : chop_newline b = Some b' -> length b' = length b.
Proof. unfold chop_newline. case_decide; [|done]. intros [= <-]. apply length_insert. Qed.

Lemma strtok_length b p b' t p' : strtok b p = Some (b', t, p') -> length b' = length b.
Proof.
  unfold strtok. intros H. repeat (case_match || simplify_option_eq); rewrite ?length_insert; done.
Qed.

Lemma separar_length k b tok p bf ts : separar k b tok p = Some (bf, ts) -> length bf = length b.
Proof.
  revert b tok p ts; induction k as [|k IH]; intros b [t|] p ts; cbn; try (by intros [= <- _]).
  destruct (strtok b p) as [[[b' tok'] p']|] eqn:Hs; [|done]. cbn.
  destruct (separar k b' tok' p') as [[bf' ts']|] eqn:Hr; [|done]. intros [= <- _].
  rewrite (IH _ _ _ _ Hr). by eapply strtok_length.
Qed.

Lemma argumentos_length b bf ts : argumentos b = Some (bf, ts) -> length bf = length b.
Proof.
  unfold argumentos. destruct (strtok b 0) as [[[b' tok] p]|] eqn:Hs; [|done]. cbn. intros Hr.
  rewrite (separar_length 10 _ _ _ _ _ Hr). by eapply strtok_length.
Qed.

(** What a turn does with a line of at most ten words. *)
Definition turn_result {kernel : Type} pr ve
    (ll : kernel -> bytes -> nat -> nat -> Z -> nat -> option (kernel * Z))
    (st : kernel) (b : bytes) (ts : list nat) (rest : bytes) : option (turno kernel) :=
  let '(o, l1) := pr b ts no_opts in
  let '(err, l2) := (ve o : bool * list out) in
  if err then Some (Sigue st b rest ([Prompt] ++ l1 ++ l2 ++ [Uso]))
  else
    match archivo_entrada o, archivo_salida o, archivo_clave o with
    | Some e, Some s, Some k =>
        let l := [Prompt] ++ l1 ++ l2
                   ++ [Iniciando (tok_str b e) (tok_str b s) (num_hilos o) (tok_str b k)] in
        match ll st b e s (num_hilos o) k with
        | Some (st', resultado) =>
            Some (Sigue st' b rest (l ++ [if resultado =? 0 then Exito else Perror]))
        | None => Some (Colgado l)
        end
    | _, _, _ => None
    end.

Lemma turn_on_line {kernel : Type} pr ve ll comando ws rest :
  length comando = 256%nat ->
  Forall word ws -> (length (unwords ws) < 255)%nat -> (length ws <= 10)%nat -> ws <> [salir] ->
  exists b ts, str_at b <$> ts = Some <$> ws /\ length b = 256%nat /\
    forall st : kernel, iteracion pr ve ll st comando (unwords ws ++ ch_nl :: rest) = turn_result pr ve ll st b ts rest.
Proof.
  intros Hcom Hws Hlen Hten Hns.
  destruct (line_read comando (unwords ws) rest Hlen (unwords_chars _ Hws)) as (b0 & j & Hf & Hchop & H0).
  assert (Hc : c_string (unwords ws ++ 0 :: j) = Some (unwords ws)) by (apply c_string_spec; eauto).
  destruct (argumentos_spec _ _ Hc) as (bf & ts & Ha & Hts).
  rewrite words_unwords, take_ge in Hts by done. exists bf, ts. split; [done|]. split.
  { rewrite (argumentos_length _ _ _ Ha), (chop_newline_length _ _ Hchop).
    pose proof (fgets_length comando (unwords ws ++ ch_nl :: rest) Hcom) as Hb. by rewrite Hf in Hb. }
  intros st. unfold iteracion. rewrite Hf, Hchop. cbn [mbind option_bind]. unfold str_at. rewrite drop_0, Hc.
  cbn [mbind option_bind]. rewrite bool_decide_eq_false_2.
  - rewrite Ha. cbn [mbind option_bind]. done.
  - intros He. apply (f_equal words) in He. rewrite words_unwords in He by done. by vm_compute in He.
Qed.

Lemma streq_true b t s s' : str_at b t = Some s -> streq b t s' = bool_decide (s = s').
Proof. intros H. unfold streq. rewrite H. apply bool_decide_ext. naive_solver. Qed.

Lemma tok_str_eq b t s : str_at b t = Some s -> tok_str b t = s.
Proof. unfold tok_str. by intros ->. Qed.
End turn.

(** Evaluates the option loop on tokens whose strings are in the context. *)
Ltac run_options :=
  repeat (match goal with
    | H : str_at ?b ?t = Some _ |- context [streq ?b ?t ?s] =>
        rewrite (streq_true b t _ s H); first [rewrite bool_decide_eq_true_2 by done | rewrite bool_decide_eq_false_2 by done]
    | H : str_at ?b ?t = Some _ |- context [tok_str ?b ?t] => rewrite (tok_str_eq _ _ _ H)
    end; cbn).

(** ** [atoi] *)

(** The value a string of decimal digits denotes. *)
Definition decimal (ds : bytes) : Z := foldl (fun a c => 10 * a + (c - 48)) 0 ds.

Section atoi.
Implicit Types ds : bytes.

Lemma digits_value_fold acc ds :
  Forall (fun c => isdigit c = true) ds ->
  digits_value acc ds = foldl (fun a c => 10 * a + (c - 48)) acc ds.
Proof. intros H. revert acc. induction H as [|c ds Hc _ IH]; intros acc; cbn [digits_value foldl]; [done|]. by rewrite Hc. Qed.

(** [atoi] reads a number of decimal digits that fits an [int]. *)
Lemma atoi_digits ds :
  ds <> [] -> Forall (fun c => isdigit c = true) ds ->
  0 <= decimal ds <= S32_MAX -> atoi ds = decimal ds.
Proof.
  unfold decimal.   intros Hne Hds Hv. destruct ds as [|c ds]; [done|]. rewrite <- digits_value_fold in * by done.
  inversion Hds as [|?? Hc _]; subst.
  assert (48 <= c <= 57) by (unfold isdigit in Hc; lia).
  assert (Hs : strtol (c :: ds) = digits_value 0 (c :: ds)).
  { assert (Hten : c ∈ seqZ 48 10) by (apply elem_of_seqZ; lia).
    change (seqZ 48 10) with [48; 49; 50; 51; 52; 53; 54; 55; 56; 57] in Hten.
    unfold strtol, S64_MIN, S64_MAX. unfold S32_MAX in Hv.
    repeat (apply elem_of_cons in Hten as [->|Hten]; [cbn -[digits_value Z.pow] in *; lia|]).
    by apply not_elem_of_nil in Hten. }
  unfold atoi. rewrite Hs. apply s32_id. cint_unfold. lia.
Qed.
End atoi.
