(* ===== verification/AppTurn.v ===== *)
(** * One turn of the front ends on a complete line

    A line with the four options, read in either program: the call it makes,
    with the tokens as offsets into the buffer. *)
From S2P Require Import Prelude Vfs XorCrypt App AppThms.

Section complete_line.
Context (e s k ds : bytes).
Context (He : word e) (Hs : word s) (Hk : word k).

Lemma word_opt c : c <> ch_sp -> c <> 0 -> c <> ch_nl -> word [45; c].
Proof. intros. split; [done|]. repeat constructor; try done; lia. Qed.

Lemma word_digits : ds <> [] -> Forall (fun c => isdigit c = true) ds -> word ds.
Proof.
  intros Hne Hd. split; [done|]. eapply Forall_impl; [done|]. intros c Hc. unfold isdigit in Hc.
  unfold ch_sp, ch_nl. lia.
Qed.

Ltac words_of_line :=
  repeat (apply Forall_cons_2; [first [assumption|by apply word_opt]|]); apply Forall_nil_2.

Lemma line_words :
  ds <> [] -> Forall (fun c => isdigit c = true) ds -> Forall word [opt_p; e; opt_o; s; opt_t; ds; opt_k; k].
Proof. intros Hne Hd. pose proof (word_digits Hne Hd). words_of_line. Qed.

Lemma short_line_words : Forall word [opt_p; e; opt_o; s; opt_k; k].
Proof. words_of_line. Qed.
End complete_line.

(** Names the strings of the tokens of a line of known words. *)
Ltac name_tokens H :=
  repeat match type of H with
    | _ <$> ?l = _ :: _ => destruct l as [|? l]; [discriminate H|]; cbn in H; injection H as ? H
    | _ <$> ?l = [] => destruct l; [|discriminate H]; clear H
    end.

(** The calls a line makes, in both programs: the options end with the four
    tokens in place. *)
Section complete_turn.
Context {kernel : Type} (llamada : kernel -> bytes -> nat -> nat -> Z -> nat -> option (kernel * Z)).
Context (e s k ds : bytes) (He : word e) (Hs : word s) (Hk : word k).
Context (Hne : ds <> []) (Hd : Forall (fun c => isdigit c = true) ds) (Hv : 0 < decimal ds <= S32_MAX).

(** A turn that makes the call and goes on, or hangs in it. *)
Definition call_turn (st : kernel) (b : bytes) (te ts : nat) (n : Z) (tk : nat) (rest : bytes) : turno kernel :=
  let l := [Prompt; Iniciando (tok_str b te) (tok_str b ts) n (tok_str b tk)] in
  match llamada st b te ts n tk with
  | Some (st', r) => Sigue st' b rest (l ++ [if r =? 0 then Exito else Perror])
  | None => Colgado l
  end.

(** The four options read, then the checks. *)
Ltac complete_turn Hts Ha :=
  cbn in Hts; name_tokens Hts; do 3 eexists; split; [eassumption|]; split; [eassumption|]; split; [eassumption|];
  intros st; unfold turn_result, call_turn; cbn; run_options; rewrite Ha by lia;
  destruct (Z.leb_spec (decimal ds) 0); [lia|]; cbn; run_options; by destruct (llamada _ _ _ _ _ _) as [[? ?]|].

Lemma complete_turn_encrypt b tokens rest :
  str_at b <$> tokens = Some <$> [opt_p; e; opt_o; s; opt_t; ds; opt_k; k] ->
  exists te ts tk, str_at b te = Some e /\ str_at b ts = Some s /\ str_at b tk = Some k /\
    forall st, turn_result EncryptApp.procesar EncryptApp.verificar llamada st b tokens rest =
      Some (call_turn st b te ts (decimal ds) tk rest).
Proof using Hne Hd Hv. intros Hts. pose proof (atoi_digits ds Hne Hd) as Ha. complete_turn Hts Ha. Qed.

Lemma complete_turn_decrypt b tokens rest :
  str_at b <$> tokens = Some <$> [opt_p; e; opt_o; s; opt_t; ds; opt_k; k] ->
  exists te ts tk, str_at b te = Some e /\ str_at b ts = Some s /\ str_at b tk = Some k /\
    forall st, turn_result DecryptApp.procesar DecryptApp.verificar llamada st b tokens rest =
      Some (call_turn st b te ts (decimal ds) tk rest).
Proof using Hne Hd Hv. intros Hts. pose proof (atoi_digits ds Hne Hd) as Ha. complete_turn Hts Ha. Qed.

(** Both programs, from the line on standard input. *)
Definition complete_line (rest : bytes) : bytes :=
  unwords [opt_p; e; opt_o; s; opt_t; ds; opt_k; k] ++ ch_nl :: rest.

Definition calls_on pr ve (comando rest : bytes) : Prop :=
  exists b te ts tk, length b = 256%nat /\
    str_at b te = Some e /\ str_at b ts = Some s /\ str_at b tk = Some k /\
    forall st, iteracion pr ve llamada st comando (complete_line rest) = Some (call_turn st b te ts (decimal ds) tk rest).

Lemma complete_line_turn comando rest : length comando = 256%nat ->
  (length (unwords [opt_p; e; opt_o; s; opt_t; ds; opt_k; k]) < 255)%nat ->
  calls_on EncryptApp.procesar EncryptApp.verificar comando rest /\
  calls_on DecryptApp.procesar DecryptApp.verificar comando rest.
Proof using He Hs Hk Hne Hd Hv.
  intros Hcom Hlen. pose proof (line_words e s k ds He Hs Hk Hne Hd) as Hws. split.
  - destruct (turn_on_line EncryptApp.procesar EncryptApp.verificar llamada comando _ rest Hcom Hws Hlen)
      as (b & tokens & Hts & Hb & Ht); [cbn; lia|done|].
    destruct (complete_turn_encrypt b tokens rest Hts) as (te & ts & tk & ? & ? & ? & Hr).
    exists b, te, ts, tk. split_and!; try done. intros st. unfold complete_line. by rewrite Ht.
  - destruct (turn_on_line DecryptApp.procesar DecryptApp.verificar llamada comando _ rest Hcom Hws Hlen)
      as (b & tokens & Hts & Hb & Ht); [cbn; lia|done|].
    destruct (complete_turn_decrypt b tokens rest Hts) as (te & ts & tk & ? & ? & ? & Hr).
    exists b, te, ts, tk. split_and!; try done. intros st. unfold complete_line. by rewrite Ht.
Qed.
End complete_turn.

(** The line that ends the program. *)
Lemma salir_turn {kernel : Type} pr ve ll (st : kernel) comando rest :
  iteracion pr ve ll st comando (salir ++ ch_nl :: rest) = Some (Salir [Prompt; Terminando]).
Proof.
  destruct (line_read comando salir rest) as (b0 & j & Hf & Hchop & H0); [cbn; lia|by repeat constructor|].
  assert (Hc : c_string (salir ++ 0 :: j) = Some salir) by (apply c_string_spec; eauto).
  unfold iteracion. rewrite Hf, Hchop. cbn [mbind option_bind]. unfold str_at. rewrite drop_0, Hc.
  cbn [mbind option_bind]. by rewrite bool_decide_eq_true_2.
Qed.
