(* ===== verification/AppClaims.v ===== *)
(** * Properties of the command-line front ends *)
From S2P Require Import Prelude Vfs XorCrypt App AppThms AppTurn.

(** Bytes of a few words used by the examples. *)
Definition w_in : bytes := [97].
Definition w_out : bytes := [98].
Definition w_key : bytes := [99].
Definition w_12 : bytes := [49; 50].

(** C13: the tokens that the [strtok] loop leaves in the buffer are the first ten
    words of the line, in order, whatever the spaces around them: splitting
    later tokens does not damage the earlier ones. *)
Theorem argumentos_are_words b line :
  c_string b = Some line ->
  exists bf ts, argumentos b = Some (bf, ts) /\ str_at bf <$> ts = Some <$> take 10 (words line).
Proof. apply argumentos_spec. Qed.

Lemma argumentos_are_words_witness :
  exists bf ts, argumentos [32; 97; 98; 32; 32; 99; 0; 7] = Some (bf, ts) /\ str_at bf <$> ts = [Some [97; 98]; Some [99]].
Proof. exact (argumentos_are_words [32; 97; 98; 32; 32; 99; 0; 7] [32; 97; 98; 32; 32; 99] eq_refl). Defined.

(** A kernel whose calls all return 0. *)
Definition null_call (st : unit) (_ : bytes) (_ _ : nat) (_ : Z) (_ : nat) : option (unit * Z) := Some (st, 0).

Section claims.
Context {kernel : Type} (llamada : kernel -> bytes -> nat -> nat -> Z -> nat -> option (kernel * Z)).

(** C14: a line that gives the four options, with names of any shape and a
    thread count of decimal digits between 1 and [INT_MAX], makes both programs
    call the kernel with pointers to exactly those three names in the 256-byte
    buffer and that number; they report success when the call returns 0. *)
Theorem complete_line_makes_the_call comando e s k ds rest :
  length comando = 256%nat ->
  word e -> word s -> word k -> ds <> [] -> Forall (fun c => isdigit c = true) ds ->
  0 < decimal ds <= S32_MAX ->
  (length (unwords [opt_p; e; opt_o; s; opt_t; ds; opt_k; k]) < 255)%nat ->
  let line := unwords [opt_p; e; opt_o; s; opt_t; ds; opt_k; k] ++ ch_nl :: rest in
  let makes_call pr ve := exists b te ts tk, length b = 256%nat /\
    str_at b te = Some e /\ str_at b ts = Some s /\ str_at b tk = Some k /\
    forall st, iteracion pr ve llamada st comando line =
      Some (match llamada st b te ts (decimal ds) tk with
            | Some (st', r) => Sigue st' b rest [Prompt; Iniciando e s (decimal ds) k; if r =? 0 then Exito else Perror]
            | None => Colgado [Prompt; Iniciando e s (decimal ds) k]
            end) in
  makes_call EncryptApp.procesar EncryptApp.verificar /\ makes_call DecryptApp.procesar DecryptApp.verificar.
Proof.
  intros Hcom He Hs Hk Hne Hd Hv Hlen line makes_call.
  assert (forall pr ve, calls_on llamada e s k ds pr ve comando rest -> makes_call pr ve) as Hmk.
  { intros pr ve (b & te & ts & tk & Hb & Ke & Ks & Kk & Ht). exists b, te, ts, tk. split_and!; try done.
    unfold complete_line in Ht. unfold line. intros st. rewrite Ht. unfold call_turn.
    by rewrite (tok_str_eq _ _ _ Ke), (tok_str_eq _ _ _ Ks), (tok_str_eq _ _ _ Kk). }
  destruct (complete_line_turn llamada e s k ds He Hs Hk Hne Hd Hv comando rest Hcom Hlen). auto.
Qed.

(** ** The thread count of the calls *)

(** Two kernels that treat calls with a positive number of threads alike. *)
Definition same_on_positive (ll' : kernel -> bytes -> nat -> nat -> Z -> nat -> option (kernel * Z)) : Prop :=
  forall st b e s n k, 0 < n -> ll' st b e s n k = llamada st b e s n k.

Lemma turn_same ll' st comando stdin : same_on_positive ll' ->
  iteracion DecryptApp.procesar DecryptApp.verificar ll' st comando stdin =
  iteracion DecryptApp.procesar DecryptApp.verificar llamada st comando stdin.
Proof.
  intros Hll. unfold iteracion. destruct (fgets comando stdin) as [b0 stdin'].
  destruct (chop_newline b0) as [b1|]; [|done]. cbn. destruct (str_at b1 0) as [cmd|]; [|done]. cbn.
  case_bool_decide; [done|]. destruct (argumentos b1) as [[bf args]|]; [|done]. cbn.
  destruct (DecryptApp.procesar bf args no_opts) as [o l1]. cbn.
  destruct (error_parametros o), (archivo_entrada o), (archivo_salida o), (archivo_clave o),
    (Z.leb_spec (num_hilos o) 0); cbn; try done. by rewrite Hll.
Qed.

Lemma loop_same ll' fuel st comando stdin : same_on_positive ll' ->
  main_loop DecryptApp.procesar DecryptApp.verificar ll' fuel st comando stdin =
  main_loop DecryptApp.procesar DecryptApp.verificar llamada fuel st comando stdin.
Proof.
  intros Hll. revert st comando stdin; induction fuel as [|fuel IH]; intros st comando stdin; [done|]. cbn.
  rewrite (turn_same ll' st comando stdin Hll).
  destruct (iteracion _ _ _ st comando stdin) as [[| |]|]; try done. cbn. by rewrite IH.
Qed.

Lemma encrypt_short_line comando e s k rest :
  length comando = 256%nat -> word e -> word s -> word k ->
  (length (unwords [opt_p; e; opt_o; s; opt_k; k]) < 255)%nat ->
  exists b te ts tk, length b = 256%nat /\
    str_at b te = Some e /\ str_at b ts = Some s /\ str_at b tk = Some k /\
    forall st, iteracion EncryptApp.procesar EncryptApp.verificar llamada st comando
      (unwords [opt_p; e; opt_o; s; opt_k; k] ++ ch_nl :: rest) = Some (call_turn llamada st b te ts 0 tk rest).
Proof.
  intros Hcom He Hs Hk Hlen. pose proof (short_line_words e s k He Hs Hk) as Hws.
  destruct (turn_on_line EncryptApp.procesar EncryptApp.verificar llamada comando _ rest Hcom Hws Hlen)
    as (b & tokens & Hts & Hb & Ht); [cbn; lia|done|].
  cbn in Hts. name_tokens Hts. exists b. do 3 eexists. do 4 (split; [eassumption|]).
  intros st. rewrite Ht. unfold turn_result, call_turn. cbn. run_options. cbn. run_options.
  by destruct (llamada _ _ _ _ _ _) as [[? ?]|].
Qed.

Lemma decrypt_short_line comando e s k rest :
  length comando = 256%nat -> word e -> word s -> word k ->
  (length (unwords [opt_p; e; opt_o; s; opt_k; k]) < 255)%nat ->
  exists b, forall st, iteracion DecryptApp.procesar DecryptApp.verificar llamada st comando
    (unwords [opt_p; e; opt_o; s; opt_k; k] ++ ch_nl :: rest) = Some (Sigue st b rest [Prompt; ErrHilos; Uso]).
Proof.
  intros Hcom He Hs Hk Hlen. pose proof (short_line_words e s k He Hs Hk) as Hws.
  destruct (turn_on_line DecryptApp.procesar DecryptApp.verificar llamada comando _ rest Hcom Hws Hlen)
    as (b & ts & Hts & _ & Ht); [cbn; lia|done|].
  exists b. intros st. rewrite Ht. cbn in Hts. name_tokens Hts. unfold turn_result. cbn. by run_options.
Qed.

(** C15: the two programs treat a missing [-t] differently.  [encrypt_app]
    accepts the line and makes the system call with 0 threads, the call that
    divides by zero in the kernel, and goes on with what it returns;
    [decrypt_app] reports the missing count, makes no call, and over any input
    and any number of turns behaves the same whatever the kernel does with
    calls whose number of threads is not positive: it never makes one. *)
Theorem missing_thread_count comando e s k rest :
  length comando = 256%nat -> word e -> word s -> word k ->
  (length (unwords [opt_p; e; opt_o; s; opt_k; k]) < 255)%nat ->
  let line := unwords [opt_p; e; opt_o; s; opt_k; k] ++ ch_nl :: rest in
  (exists b te ts tk, length b = 256%nat /\
     str_at b te = Some e /\ str_at b ts = Some s /\ str_at b tk = Some k /\
     forall st, iteracion EncryptApp.procesar EncryptApp.verificar llamada st comando line =
       Some (match llamada st b te ts 0 tk with
             | Some (st', r) => Sigue st' b rest [Prompt; Iniciando e s 0 k; if r =? 0 then Exito else Perror]
             | None => Colgado [Prompt; Iniciando e s 0 k]
             end)) /\
  (exists b, forall st, iteracion DecryptApp.procesar DecryptApp.verificar llamada st comando line =
     Some (Sigue st b rest [Prompt; ErrHilos; Uso])) /\
  (forall ll' : kernel -> bytes -> nat -> nat -> Z -> nat -> option (kernel * Z),
     (forall st b e s n k, 0 < n -> ll' st b e s n k = llamada st b e s n k) ->
     forall fuel st comando stdin,
       main_loop DecryptApp.procesar DecryptApp.verificar ll' fuel st comando stdin =
       main_loop DecryptApp.procesar DecryptApp.verificar llamada fuel st comando stdin).
Proof.
  intros Hcom He Hs Hk Hlen line. split; [|split].
  - destruct (encrypt_short_line comando e s k rest Hcom He Hs Hk Hlen) as (b & te & ts & tk & Hb & Se & Ss & Sk & Ht).
    exists b, te, ts, tk. do 4 (split; [done|]). intros st. unfold line. rewrite Ht. unfold call_turn.
    by rewrite (tok_str_eq _ _ _ Se), (tok_str_eq _ _ _ Ss), (tok_str_eq _ _ _ Sk).
  - by apply decrypt_short_line.
  - intros ll' Hll fuel st1 comando1 stdin. by apply loop_same.
Qed.

(** ** End of input *)

(** A buffer that holds one word, or nothing, is its own list of tokens. *)
Lemma argumentos_one w j :
  word w \/ w = [] -> exists ts, argumentos (w ++ 0 :: j) = Some (w ++ 0 :: j, ts) /\ (ts = [] \/ exists t, ts = [t]).
Proof.
  intros [[Hne Hw]| ->]; [|exists []; split; [reflexivity|by left]].
  assert (Hn : (ch_sp ∉ w) /\ (0 ∉ w)).
  { rewrite Forall_forall in Hw. split; intros Hin; apply Hw in Hin; tauto. }
  exists [0%nat]. split; [|eauto].
  pose proof (strtok_shape [] [] w 0 j ltac:(constructor) Hne ltac:(tauto) ltac:(tauto) ltac:(by right)) as Hst.
  cbn [app length] in Hst. unfold argumentos. rewrite Hst. cbn [mbind option_bind Z.eqb separar].
  assert (Hend : strtok (w ++ 0 :: j) (length w) = Some (w ++ 0 :: j, None, length w)).
  { unfold strtok. rewrite drop_app_length. cbn [span not_sp]. cbn. rewrite Nat.add_0_r.
    by rewrite (list_lookup_middle w j 0 (length w) eq_refl). }
  by rewrite Hend.
Qed.

(** A turn at the end of input, on a buffer that holds one word. *)
Lemma turn_at_eof pr ve st w j :
  word w \/ w = [] -> w <> salir ->
  (forall b ts, ts = [] \/ (exists t, ts = [t]) -> (ve (pr b ts no_opts).1).1 = true) ->
  exists l, iteracion pr ve llamada st (w ++ 0 :: j) [] = Some (Sigue st (w ++ 0 :: j) [] l).
Proof.
  intros Hw Hns Herr. destruct (argumentos_one w j Hw) as (ts & Ha & Hts).
  assert (Hn : (ch_nl ∉ w) /\ (0 ∉ w)).
  { destruct Hw as [[_ Hw]| ->]; [|split; apply not_elem_of_nil].
    rewrite Forall_forall in Hw. split; intros Hin; apply Hw in Hin; tauto. }
  unfold iteracion. cbn [fgets]. rewrite chop_newline_app by tauto. cbn [mbind option_bind].
  unfold str_at. rewrite drop_0. rewrite (proj2 (c_string_spec _ w)) by (exists j; tauto).
  cbn [mbind option_bind]. rewrite bool_decide_eq_false_2 by done. rewrite Ha. cbn [mbind option_bind].
  pose proof (Herr (w ++ 0 :: j) ts Hts) as He. destruct (pr _ ts no_opts) as [o l1]. cbn in He.
  destruct (ve o) as [err l2]. cbn in He. subst err. eauto.
Qed.

Lemma loops_at_eof pr ve st w j fuel :
  word w \/ w = [] -> w <> salir ->
  (forall b ts, ts = [] \/ (exists t, ts = [t]) -> (ve (pr b ts no_opts).1).1 = true) ->
  exists l, main_loop pr ve llamada fuel st (w ++ 0 :: j) [] = Some (EnCurso st (w ++ 0 :: j) [], l).
Proof.
  intros Hw Hns Herr. destruct (turn_at_eof pr ve st w j Hw Hns Herr) as [l Ht].
  induction fuel as [|fuel [l' IH]]; [by exists []|]. cbn [main_loop]. rewrite Ht. cbn [mbind option_bind]. rewrite IH. cbn. eauto.
Qed.

(** C16: neither program looks at what [fgets] returns: once the input has ended
    and the buffer holds one word (or nothing) other than [salir], after any
    number of turns the program is still in its loop, with the kernel and the
    buffer as they were. *)
Theorem end_of_input_never_exits fuel st w j :
  word w \/ w = [] -> w <> salir ->
  (exists l, main_loop EncryptApp.procesar EncryptApp.verificar llamada fuel st (w ++ 0 :: j) [] =
     Some (EnCurso st (w ++ 0 :: j) [], l)) /\
  (exists l, main_loop DecryptApp.procesar DecryptApp.verificar llamada fuel st (w ++ 0 :: j) [] =
     Some (EnCurso st (w ++ 0 :: j) [], l)).
Proof. intros Hw Hns. split; apply loops_at_eof; try done; intros b ts [->|[t ->]]; reflexivity. Qed.
End claims.

Lemma demo_word c : 11 <= c <= 31 \/ 33 <= c -> word [c].
Proof. intros Hc. split; [done|]. repeat constructor; unfold ch_sp, ch_nl; lia. Qed.

Lemma complete_line_makes_the_call_witness :
  exists b te ts tk, length b = 256%nat /\
    str_at b te = Some w_in /\ str_at b ts = Some w_out /\ str_at b tk = Some w_key /\
    forall st, iteracion EncryptApp.procesar EncryptApp.verificar null_call st (repeat 0 256)
      (unwords [opt_p; w_in; opt_o; w_out; opt_t; w_12; opt_k; w_key] ++ [10]) =
    Some (match null_call st b te ts 12 tk with
          | Some (st', r) => Sigue st' b [] [Prompt; Iniciando w_in w_out 12 w_key; if r =? 0 then Exito else Perror]
          | None => Colgado [Prompt; Iniciando w_in w_out 12 w_key]
          end).
Proof.
  assert (Hd : Forall (fun c => isdigit c = true) w_12) by (repeat constructor; reflexivity).
  assert (Hv : 0 < decimal w_12 <= S32_MAX) by (vm_compute; split; [reflexivity|discriminate]).
  assert (Hl : (length (unwords [opt_p; w_in; opt_o; w_out; opt_t; w_12; opt_k; w_key]) < 255)%nat) by (cbn; lia).
  exact (proj1 (complete_line_makes_the_call null_call (repeat 0 256) w_in w_out w_key w_12 [] eq_refl
    (demo_word 97 ltac:(lia)) (demo_word 98 ltac:(lia)) (demo_word 99 ltac:(lia)) ltac:(discriminate) Hd Hv Hl)).
Defined.

Lemma missing_thread_count_witness :
  exists b te ts tk, length b = 256%nat /\
    str_at b te = Some w_in /\ str_at b ts = Some w_out /\ str_at b tk = Some w_key /\
    forall st, iteracion EncryptApp.procesar EncryptApp.verificar null_call st (repeat 0 256)
      (unwords [opt_p; w_in; opt_o; w_out; opt_k; w_key] ++ [10]) =
    Some (match null_call st b te ts 0 tk with
          | Some (st', r) => Sigue st' b [] [Prompt; Iniciando w_in w_out 0 w_key; if r =? 0 then Exito else Perror]
          | None => Colgado [Prompt; Iniciando w_in w_out 0 w_key]
          end).
Proof.
  assert (Hl : (length (unwords [opt_p; w_in; opt_o; w_out; opt_k; w_key]) < 255)%nat) by (cbn; lia).
  exact (proj1 (missing_thread_count null_call (repeat 0 256) w_in w_out w_key [] eq_refl
    (demo_word 97 ltac:(lia)) (demo_word 98 ltac:(lia)) (demo_word 99 ltac:(lia)) Hl)).
Defined.

Lemma end_of_input_never_exits_witness :
  exists l, main_loop EncryptApp.procesar EncryptApp.verificar null_call 1000 tt ([97] ++ 0 :: repeat 7 254) [] =
    Some (EnCurso tt ([97] ++ 0 :: repeat 7 254) [], l).
Proof.
  refine (proj1 (end_of_input_never_exits null_call 1000 tt [97] (repeat 7 254) _ _)); [|discriminate].
  left. apply demo_word. lia.
Defined.
