(* ===== verification/Session.v ===== *)
(** * Sessions: the front ends on top of the system calls

    The programs of [App] with [my_encrypt] of [XorCrypt] and [my_decrypt] of
    [XorDecrypt] as the calls they make.  The kernel copies 256 bytes from each of the three
    pointers, which lead into the buffer [comando] of [main]: the copy of a name
    runs past its NUL, and past the buffer into the rest of the stack. *)
From S2P Require Import Prelude Vfs Kthread XorCrypt XorDecrypt XorCryptThms XorCryptSched XorCryptGood App AppThms AppTurn.

Section Session.
Context {fs file : Type} `{!Vfs fs file}.
(** The allocator, the address of [comando] and the bytes mapped after it. *)
Context (alloc : alloc_site -> Z -> option bytes) (base : Z) (stack : bytes).

(** The memory of the process, from [comando] on, as [copy_from_user] sees it. *)
Definition user_mem (b : bytes) (p n : Z) : option bytes :=
  if decide (base <= p /\ p + n <= base + Z.of_nat (length (b ++ stack)))
  then Some (take (Z.to_nat n) (drop (Z.to_nat (p - base)) (b ++ stack)))
  else None.

Definition app_env (b : bytes) : kenv := {| kmalloc := alloc; copy_from_user := user_mem b |}.

(** [syscall] of the C library: an error number becomes -1. *)
Definition syscall_ret (r : Z) : Z := if (-4095 <=? r) && (r <? 0) then -1 else r.

(** What lives on between calls: the files, and how the calls to come are
    scheduled. *)
Record kernel := mk_kernel { ktree : fs; schedules : list (list label) }.

Definition kernel_call (sc : kenv -> fs -> Z -> Z -> Z -> Z -> list label -> option call_result)
    (k : kernel) (b : bytes) (entrada salida : nat) (hilos : Z) (clave : nat) : option (kernel * Z) :=
  match schedules k with
  | [] => None
  | ls :: rest =>
      match sc (app_env b) (ktree k) (base + Z.of_nat entrada) (base + Z.of_nat salida) hilos
              (base + Z.of_nat clave) ls with
      | Some (Returned σ r _) => Some (mk_kernel σ rest, syscall_ret r)
      | _ => None
      end
  end.

(** The two programs. *)
Definition encrypt_app : nat -> kernel -> bytes -> bytes -> option (estado kernel * list out) :=
  main_loop EncryptApp.procesar EncryptApp.verificar (kernel_call MyEncrypt.xor_encrypt_syscall).
Definition decrypt_app : nat -> kernel -> bytes -> bytes -> option (estado kernel * list out) :=
  main_loop DecryptApp.procesar DecryptApp.verificar (kernel_call MyDecrypt.xor_decrypt).

(** ** The names reach the kernel *)

(** Enough stack is mapped for a copy that starts in the buffer. *)
Context (Hstack : (256 <= length stack)%nat).

Lemma user_path_token b t w : length b = 256%nat -> str_at b t = Some w ->
  user_path (app_env b) (base + Z.of_nat t) = Some w.
Proof using Hstack.
  unfold str_at. intros Hb (j & Hd & H0)%c_string_spec.
  assert (t < 256)%nat as Ht.
  { destruct (decide (t < 256)%nat); [done|]. rewrite drop_ge in Hd by lia. by destruct w. }
  assert (length w + S (length j) + t = 256)%nat as Hl.
  { apply (f_equal length) in Hd. rewrite length_drop, length_app in Hd. cbn in Hd. lia. }
  unfold user_path, app_env, user_mem. cbn [copy_from_user]. rewrite decide_True by (rewrite length_app; lia).
  cbn [mbind option_bind]. apply c_string_spec.
  replace (Z.to_nat (base + Z.of_nat t - base)) with t by lia. rewrite drop_app_le, Hd by lia.
  rewrite <- app_assoc, take_app_ge by lia. cbn [app].
  destruct (Z.to_nat 256 - length w)%nat as [|m] eqn:Em; [lia|]. cbn [take firstn].
  by exists (take m (j ++ stack)).
Qed.

(** ** One turn *)
Context `{!VfsLaws fs file} `{!KenvLaws (app_env [])}.

#[local] Instance app_env_laws b : KenvLaws (app_env b).
Proof using KenvLaws0. split; [exact (kmalloc_size (env := app_env []))|exact (kmalloc_zero (env := app_env []))]. Qed.

(** Memory for a call on [D] and [Kc] with [n] threads. *)
Definition room (D Kc : bytes) (n : Z) : Prop := memory_ok (app_env []) n D Kc.

(** A turn of a program whose call [sc] agrees with [my_encrypt], as both do. *)
Section turn.
Context (sc : kenv -> fs -> Z -> Z -> Z -> Z -> list label -> option (@call_result fs)).
Context (Hsc : forall env σ a b n c ls, sc env σ a b n c ls = syscall env σ a b n c ls).
Local Abbreviation call := (kernel_call sc).
Context (e s k ds : bytes) (pr : bytes -> list nat -> opts -> opts * list out) (ve : opts -> bool * list out).
Context (comando rest : bytes) (Hcalls : calls_on call e s k ds pr ve comando rest).
Context (Hv : 0 < decimal ds <= S32_MAX).
Context (σ : fs) (D Kc : bytes) (HD : contents σ e = Some D) (HK : contents σ k = Some Kc).
Context (HlD : Z.of_nat (length D) <= MAX_RW_COUNT) (HlK : Z.of_nat (length Kc) <= MAX_RW_COUNT).
Local Abbreviation turn := (iteracion pr ve call).

Lemma decimal_int : is_s32 (decimal ds).
Proof using Hv. clear -Hv. cint. Qed.

(** Some schedule makes the turn encrypt the file and report it, when the
    result can be saved. *)
Lemma good_turn scheds σ' msgs : D <> [] -> Kc <> [] -> room D Kc (decimal ds) ->
  save_data σ s (vernam D Kc) (Z.of_nat (length D)) = (σ', 0, msgs) ->
  exists ls b, Forall (fun l => smooth l = true) ls /\ length b = 256%nat /\
    turn (mk_kernel σ (ls :: scheds)) comando (complete_line e s k ds rest) =
      Some (Sigue (mk_kernel σ' scheds) b rest [Prompt; Iniciando e s (decimal ds) k; Exito]).
Proof using All.
  intros HneD HneK [Hm1 Hm2 Hm3 Hm4] Hsv. destruct Hcalls as (b & te & ts & tk & Hb & He & Hs & Hk & Ht).
  assert (memory_ok (app_env b) (decimal ds) D Kc) as Hmem by (by split).
  destruct (syscall_good (app_env b) σ (base + Z.of_nat te) (base + Z.of_nat ts) (decimal ds)
    (base + Z.of_nat tk) e s k D Kc decimal_int (user_path_token b te e Hb He) (user_path_token b ts s Hb Hs)
    (user_path_token b tk k Hb Hk) HD HK HlD HlK σ' msgs (proj1 Hv) HneD HneK Hmem Hsv) as (ls & rs & Hls & Hrs & Hc).
  exists ls, b. split; [done|]. split; [done|].
  rewrite Ht. unfold call_turn, kernel_call. cbn [schedules ktree]. rewrite Hsc, Hc.
  by rewrite (tok_str_eq _ _ _ He), (tok_str_eq _ _ _ Hs), (tok_str_eq _ _ _ Hk).
Qed.

(** Under any schedule, a turn that reports success has written, for each byte
    of the input, that byte or its ciphertext, as many of them as the write
    took, and has left the other files. *)
Lemma success_turn ls scheds k' b l : Forall (fun l => errno_label l = true) ls -> Exito ∈ l ->
  turn (mk_kernel σ (ls :: scheds)) comando (complete_line e s k ds rest) = Some (Sigue k' b rest l) ->
  exists X, mixture D Kc X /\ 0 <= written σ s X <= Z.of_nat (length D) /\
    forall q, contents (ktree k') q = if same_file σ s q
      then Some (overlay (written σ s X) X (default [] (contents σ s))) else contents σ q.
Proof using All.
  intros Hls Hex Hturn. destruct Hcalls as (b' & te & ts & tk & Hb & He & Hs & Hk & Ht).
  rewrite Ht in Hturn. unfold call_turn, kernel_call in Hturn. cbn [schedules ktree] in Hturn. rewrite Hsc in Hturn.
  destruct (syscall _ σ _ _ _ _ ls) as [[σ' r rs|f]|] eqn:Hc; [|done..].
  injection Hturn as <- <- <-. assert (r = 0) as ->.
  { rewrite !elem_of_cons in Hex. destruct Hex as [|[|[Hex|[]%not_elem_of_nil]]]; [done..|].
    destruct (Z.eqb_spec (syscall_ret r) 0) as [Hr|]; [|done]. unfold syscall_ret in Hr.
    by destruct ((-4095 <=? r) && (r <? 0)). }
  exact (syscall_mixture (app_env b') σ _ _ _ _ e s k D Kc decimal_int (user_path_token b' te e Hb He)
    (user_path_token b' ts s Hb Hs) (user_path_token b' tk k Hb Hk) HD HK HlD HlK σ' ls rs Hls Hc).
Qed.
End turn.
End Session.
