(* ===== verification/SessionClaims.v ===== *)
(** * Properties of a session: front end and system call together *)
From S2P Require Import Prelude Vfs Kthread XorCrypt XorDecrypt XorCryptThms XorCryptSched XorCryptGood App AppThms AppTurn Session.

Section Claims.
Context {fs file : Type} `{!Vfs fs file} `{!VfsLaws fs file}.
Context (alloc : alloc_site -> Z -> option bytes) (base : Z) (stack : bytes).
Context (Hstack : (256 <= length stack)%nat) `{!KenvLaws (app_env alloc base stack [])}.
Local Abbreviation encrypt_app := (encrypt_app alloc base stack).
Local Abbreviation decrypt_app := (decrypt_app alloc base stack).

(** A line of the two programs: three names and a thread count in digits. *)
Record line_ok (e s k ds : bytes) : Prop := {
  lo_e : word e; lo_s : word s; lo_k : word k;
  lo_ne : ds <> []; lo_digits : Forall (fun c => isdigit c = true) ds;
  lo_count : 0 < decimal ds <= S32_MAX;
  lo_fits : (length (unwords [opt_p; e; opt_o; s; opt_t; ds; opt_k; k]) < 255)%nat
}.

(** What a program prints for one successful line and [salir]. *)
Definition transcript (e s k ds : bytes) : list out :=
  [Prompt; Iniciando e s (decimal ds) k; Exito; Prompt; Terminando].

Lemma line_turns llamada e s k ds comando rest : length comando = 256%nat -> line_ok e s k ds ->
  calls_on (kernel := kernel (fs := fs)) llamada e s k ds EncryptApp.procesar EncryptApp.verificar comando rest /\
  calls_on (kernel := kernel (fs := fs)) llamada e s k ds DecryptApp.procesar DecryptApp.verificar comando rest.
Proof. intros Hcom []. by apply complete_line_turn. Qed.

(** A successful line followed by [salir]. *)
Lemma two_turns {K : Type} pr ve ll (st st' : K) comando e s k ds b :
  iteracion pr ve ll st comando (complete_line e s k ds (salir ++ [ch_nl])) =
    Some (Sigue st' b (salir ++ [ch_nl]) [Prompt; Iniciando e s (decimal ds) k; Exito]) ->
  main_loop pr ve ll 2 st comando (complete_line e s k ds (salir ++ [ch_nl])) =
    Some (Terminado st', transcript e s k ds).
Proof. intros Ht. cbn [main_loop]. rewrite Ht. cbn [mbind option_bind]. by rewrite salir_turn. Qed.

(** C1. A session of [encrypt_app] on a file followed by one of [decrypt_app]
    on its output gives the file back.  Given: each command is a complete line
    that fits the buffer, with names that are words and a count of 1 to 2^31-1
    threads; the data and the key are not empty and one read transfers each;
    the first output and the key are different files; neither output was longer
    than the data; the allocator has room; and the two saves succeed and write
    everything.  Then there are schedules of the two system calls, with every
    thread created, none released early and no other call at the mutex, under
    which both programs report success and end at [salir], the encrypted file
    holds the data XORed with the repeated key and the last output the data. *)
Theorem session_round_trip (σ σ1 σ2 : fs) c1 c2 e s o k ds ms D Kc msgs :
  length c1 = 256%nat -> length c2 = 256%nat -> line_ok e s k ds -> line_ok s o k ms ->
  same_file σ s k = false ->
  contents σ e = Some D -> contents σ k = Some Kc -> D <> [] -> Kc <> [] ->
  Z.of_nat (length D) <= MAX_RW_COUNT -> Z.of_nat (length Kc) <= MAX_RW_COUNT ->
  (length (default [] (contents σ s)) <= length D)%nat ->
  (length (default [] (contents σ o)) <= length D)%nat ->
  room alloc base stack D Kc (decimal ds) -> room alloc base stack D Kc (decimal ms) ->
  MyEncrypt.save_data_to_file σ s (vernam D Kc) (Z.of_nat (length D)) = (σ1, 0, msgs) ->
  written σ s (vernam D Kc) = Z.of_nat (length D) ->
  MyDecrypt.save_data σ1 o D (Z.of_nat (length D)) = (σ2, 0) ->
  written σ1 o D = Z.of_nat (length D) ->
  exists ls1 ls2, Forall (fun l => smooth l = true) (ls1 ++ ls2) /\
    encrypt_app 2 (mk_kernel σ [ls1]) c1 (complete_line e s k ds (salir ++ [ch_nl])) =
      Some (Terminado (mk_kernel σ1 []), transcript e s k ds) /\
    contents σ1 s = Some (vernam D Kc) /\
    decrypt_app 2 (mk_kernel σ1 [ls2]) c2 (complete_line s o k ms (salir ++ [ch_nl])) =
      Some (Terminado (mk_kernel σ2 []), transcript s o k ms) /\
    contents σ2 o = Some D.
Proof using KenvLaws0 VfsLaws0 Hstack.
  intros Hc1 Hc2 Hl1 Hl2 Hsk HD HK HneD HneK HlD HlK Hos Hoo Hr1 [Ha Hb Hc Hd] Hs1 Hw1 Hs2 Hw2.
  destruct (line_turns (kernel_call alloc base stack MyEncrypt.xor_encrypt_syscall) e s k ds c1 (salir ++ [ch_nl]) Hc1 Hl1)
    as [Ht1 _].
  destruct (line_turns (kernel_call alloc base stack MyDecrypt.xor_decrypt) s o k ms c2 (salir ++ [ch_nl]) Hc2 Hl2)
    as [_ Ht2].
  destruct (saved_whole σ s (vernam D Kc) σ1 msgs) as [HE Hq1]; rewrite ?vernam_length; [done..|].
  assert (contents σ1 k = Some Kc) as HK1 by (by rewrite Hq1).
  rewrite save_agree in Hs2. destruct (save_data σ1 o D (Z.of_nat (length D))) as [[σ2' r2] msgs2] eqn:Hsv2.
  cbn in Hs2. injection Hs2 as -> ->.
  destruct (saved_whole σ1 o D σ2 msgs2) as [HO _]; [|done..|].
  { destruct (same_file σ s o) eqn:Hso; [|by rewrite Hq1]. rewrite <- (vernam_length D Kc) in Hs1, Hw1, Hos |- *.
    destruct (save_data_contents _ _ _ _ _ Hs1) as [_ Hq]. by rewrite Hq, Hso, Hw1, overlay_shorter. }
  destruct (good_turn alloc base stack Hstack _ (fun _ _ _ _ _ _ _ => eq_refl) e s k ds _ _ c1 _ Ht1
    (lo_count _ _ _ _ Hl1) σ D Kc HD HK HlD HlK [] σ1 msgs HneD HneK Hr1 Hs1) as (ls1 & b1 & Hls1 & _ & He1).
  assert (vernam D Kc <> []) as HneE by (intros H; by rewrite <- (vernam_involutive D Kc), H in HneD).
  destruct (good_turn alloc base stack Hstack _ syscalls_agree s o k ms _ _ c2 _ Ht2 (lo_count _ _ _ _ Hl2) σ1
    (vernam D Kc) Kc HE HK1 ltac:(by rewrite vernam_length) HlK [] σ2 msgs2 HneE HneK
    ltac:(split; rewrite ?vernam_length; done) ltac:(by rewrite vernam_involutive, vernam_length))
    as (ls2 & b2 & Hls2 & _ & He2).
  exists ls1, ls2. split; [by apply Forall_app_2|]. split; [exact (two_turns _ _ _ _ _ _ _ _ _ _ _ He1)|].
  split; [done|]. split; [exact (two_turns _ _ _ _ _ _ _ _ _ _ _ He2)|done].
Qed.

(** C2. What a report of success is worth: under every schedule of the call
    (a failed [kthread_run] included), when a complete line makes [encrypt_app]
    or [decrypt_app] report success, there are bytes [X], each the input's byte
    or that byte XORed with its key byte, of which the first [w] are in the
    output, [w] being what [kernel_write] returned for them (all, or fewer:
    nobody looks); what the output held past them is still there, and no other
    file has changed. *)
Theorem reported_success_writes (σ : fs) comando e s k ds rest D Kc ls scheds k' b l :
  length comando = 256%nat -> line_ok e s k ds ->
  contents σ e = Some D -> contents σ k = Some Kc ->
  Z.of_nat (length D) <= MAX_RW_COUNT -> Z.of_nat (length Kc) <= MAX_RW_COUNT ->
  Forall (fun l => errno_label l = true) ls -> Exito ∈ l ->
  iteracion EncryptApp.procesar EncryptApp.verificar (kernel_call alloc base stack MyEncrypt.xor_encrypt_syscall)
    (mk_kernel σ (ls :: scheds)) comando (complete_line e s k ds rest) = Some (Sigue k' b rest l) \/
  iteracion DecryptApp.procesar DecryptApp.verificar (kernel_call alloc base stack MyDecrypt.xor_decrypt)
    (mk_kernel σ (ls :: scheds)) comando (complete_line e s k ds rest) = Some (Sigue k' b rest l) ->
  exists X, let w := written σ s X in
    length X = length D /\ 0 <= w <= Z.of_nat (length D) /\
    (forall j x, X !! j = Some x -> D !! j = Some x \/ vernam D Kc !! j = Some x) /\
    contents (ktree k') s = Some (take (Z.to_nat w) X ++ drop (Z.to_nat w) (default [] (contents σ s))) /\
    forall q, same_file σ s q = false -> contents (ktree k') q = contents σ q.
Proof using KenvLaws0 VfsLaws0 Hstack.
  intros Hcom Hl HD HK HlD HlK Hls Hex Ht.
  assert (exists X, mixture D Kc X /\ 0 <= written σ s X <= Z.of_nat (length D) /\
    forall q, contents (ktree k') q = if same_file σ s q
      then Some (overlay (written σ s X) X (default [] (contents σ s))) else contents σ q)
    as (X & [HX1 HX2] & Hw & Hq).
  { destruct Ht as [Ht|Ht].
    - destruct (line_turns (kernel_call alloc base stack MyEncrypt.xor_encrypt_syscall) e s k ds comando rest Hcom Hl)
        as [Hc _].
      exact (success_turn alloc base stack Hstack _ (fun _ _ _ _ _ _ _ => eq_refl) e s k ds _ _ comando rest Hc
        (lo_count _ _ _ _ Hl) σ D Kc HD HK HlD HlK ls scheds k' b l Hls Hex Ht).
    - destruct (line_turns (kernel_call alloc base stack MyDecrypt.xor_decrypt) e s k ds comando rest Hcom Hl) as [_ Hc].
      exact (success_turn alloc base stack Hstack _ syscalls_agree e s k ds _ _ comando rest Hc
        (lo_count _ _ _ _ Hl) σ D Kc HD HK HlD HlK ls scheds k' b l Hls Hex Ht). }
  exists X. split; [done|]. split; [done|]. split; [done|]. split.
  - by rewrite Hq, same_file_refl.
  - intros q Hne. by rewrite Hq, Hne.
Qed.
End Claims.

(** ** A concrete session *)
#[local] Existing Instance SimpleFs.vfs.
#[local] Existing Instance SimpleFs.laws.

Module Demo.
Definition alloc : alloc_site -> Z -> option bytes := kmalloc (SimpleFs.env ∅).
Definition stack : bytes := replicate 256 7.
Definition tree0 : SimpleFs.fs := {[ [97] := [1; 2; 3]; [107] := [7; 9] ]}.
(** Two workers on three bytes, each run to its end before it is stopped. *)
Definition sched : list label :=
  [Main; Main] ++ replicate 8 (Worker 0) ++ replicate 11 (Worker 1) ++ replicate 8 Main.
Definition comando : bytes := repeat 0 256.

Lemma laws : KenvLaws (app_env alloc 4096 stack []).
Proof. destruct (SimpleFs.env_laws ∅) as [H1 H2]. by split. Qed.

Lemma stack_room : (256 <= length stack)%nat.
Proof. vm_compute. lia. Qed.

Lemma word_of c : 33 <= c -> word [c].
Proof. intros Hc. split; [done|]. repeat constructor; unfold ch_sp, ch_nl; lia. Qed.

Lemma line (e s k d : Z) : 33 <= e -> 33 <= s -> 33 <= k -> 49 <= d <= 57 -> line_ok [e] [s] [k] [d].
Proof.
  intros. split; try (by apply word_of); [done| | |cbn; lia].
  - repeat constructor. unfold isdigit. lia.
  - unfold decimal, S32_MAX. cbn [foldl]. lia.
Qed.

Lemma room_any D Kc n : 0 <= n -> room alloc 4096 stack D Kc n.
Proof.
  intros Hn. split; cbn; rewrite decide_True; try (by eauto); unfold sizeof_ptr, sizeof_worker_args; lia.
Qed.

Definition tree1 : SimpleFs.fs := <[ [98] := [6; 11; 4] ]> tree0.
Definition tree2 : SimpleFs.fs := <[ [99] := [1; 2; 3] ]> tree1.

(** One turn of [encrypt_app] under [sched], on a file system whose writes are
    of one byte. *)
Definition turn := iteracion EncryptApp.procesar EncryptApp.verificar
  (kernel_call alloc 4096 stack (MyEncrypt.xor_encrypt_syscall (Vfs0 := SimpleFs.vfs_most (Some 1%nat))))
  (mk_kernel tree0 [sched]) comando (complete_line [97] [98] [107] [50] []).
Definition buf : bytes := match turn with Some (Sigue _ b _ _) => b | _ => [] end.
Definition after : kernel := match turn with Some (Sigue k _ _ _) => k | _ => mk_kernel tree0 [] end.
End Demo.
#[local] Existing Instance Demo.laws.

Lemma session_round_trip_witness :
  exists ls1 ls2, Forall (fun l => smooth l = true) (ls1 ++ ls2) /\
    encrypt_app Demo.alloc 4096 Demo.stack 2 (mk_kernel Demo.tree0 [ls1]) Demo.comando
      (complete_line [97] [98] [107] [50] (salir ++ [ch_nl])) =
      Some (Terminado (mk_kernel Demo.tree1 []), transcript [97] [98] [107] [50]) /\
    contents (file := path) Demo.tree1 [98] = Some (vernam [1; 2; 3] [7; 9]) /\
    decrypt_app Demo.alloc 4096 Demo.stack 2 (mk_kernel Demo.tree1 [ls2]) Demo.comando
      (complete_line [98] [99] [107] [51] (salir ++ [ch_nl])) =
      Some (Terminado (mk_kernel Demo.tree2 []), transcript [98] [99] [107] [51]) /\
    contents (file := path) Demo.tree2 [99] = Some [1; 2; 3].
Proof.
  apply (session_round_trip (file := path) Demo.alloc 4096 Demo.stack Demo.stack_room Demo.tree0 Demo.tree1 Demo.tree2
    Demo.comando Demo.comando [97] [98] [99] [107] [50] [51] [1; 2; 3] [7; 9] [] eq_refl eq_refl).
  1,2: apply Demo.line; lia.
  1-3: vm_compute; reflexivity.
  1,2: discriminate.
  1,2: vm_compute; discriminate.
  1,2: vm_compute; lia.
  1,2: apply Demo.room_any; cbn; lia.
  all: vm_compute; reflexivity.
Defined.

(** One byte at a time is written, and success reported. *)
Lemma reported_success_writes_witness :
  Demo.turn = Some (Sigue Demo.after Demo.buf [] [Prompt; Iniciando [97] [98] 2 [107]; Exito]) /\
  exists X, let w := written (Vfs0 := SimpleFs.vfs_most (Some 1%nat)) Demo.tree0 [98] X in
    length X = length [1; 2; 3] /\ 0 <= w <= Z.of_nat (length [1; 2; 3]) /\
    (forall j x, X !! j = Some x -> [1; 2; 3] !! j = Some x \/ vernam [1; 2; 3] [7; 9] !! j = Some x) /\
    ktree Demo.after !! [98] = Some (take (Z.to_nat w) X ++ drop (Z.to_nat w) (default [] (Demo.tree0 !! [98]))) /\
    forall q, bool_decide ([98] = q) = false -> ktree Demo.after !! q = Demo.tree0 !! q.
Proof.
  split; [vm_compute; reflexivity|].
  refine (@reported_success_writes _ path (SimpleFs.vfs_most (Some 1%nat)) (SimpleFs.laws_most (Some 1%nat))
    Demo.alloc 4096 Demo.stack Demo.stack_room Demo.laws Demo.tree0 Demo.comando
    [97] [98] [107] [50] [] [1; 2; 3] [7; 9] Demo.sched [] Demo.after Demo.buf
    [Prompt; Iniciando [97] [98] 2 [107]; Exito] eq_refl _ _ _ _ _ _ _ _).
  1: apply Demo.line; lia.
  1,2: vm_compute; reflexivity.
  1,2: vm_compute; discriminate.
  1: vm_compute; repeat constructor.
  1: repeat constructor.
  left. vm_compute. reflexivity.
Defined.
