(* ===== verification/Range.v ===== *)
(** * Arrays of address ranges: [kernel/range.c] and [include/linux/range.h]

    An array of [struct range] is a list; a slot whose [end] is 0 is free.
    Array sizes and counts are naturals, as the callers pass array sizes.  An
    access outside the array is [None].  [sort] is [lib/sort.c], which is not
    part of the repository: it is an argument of the functions that call it. *)
From S2P Require Import Prelude.

(** [struct range], two [u64]: the addresses from [start] up to [end]. *)
Record range := mk_range { rstart : Z; rend : Z }.

#[export] Instance range_eq_dec : EqDecision range.
Proof. solve_decision. Defined.

Definition no_range : range := mk_range 0 0.

Definition range_len (r : range) : Z := u64 (rend r - rstart r + 1).
Definition range_contains (r1 r2 : range) : bool := (rstart r1 <=? rstart r2) && (rend r2 <=? rend r1).

Definition add_range (rs : list range) (az nr_range : nat) (start end_ : Z) : option (list range * nat) :=
  if end_ <=? start then Some (rs, nr_range)
  else if (az <=? nr_range)%nat then Some (rs, nr_range)
  else if decide (nr_range < length rs)%nat
       then Some (<[nr_range := mk_range start end_]> rs, S nr_range)
       else None.

(** [memmove(&a[dst], &a[src], n * sizeof(a[0]))] *)
Definition memmove {A} (a : list A) (dst src n : nat) : option (list A) :=
  if decide (src + n <= length a /\ dst + n <= length a)%nat
  then Some (take dst a ++ take n (drop src a) ++ drop (dst + n) a) else None.

(** The loop of [add_range_with_merge] from index [i]; [k] is [nr_range - i],
    which every turn makes smaller: it advances [i] or drops a range. *)
Fixpoint merge_loop (k : nat) (rs : list range) (nr_range i : nat) (start end_ : Z)
    : option (list range * nat * Z * Z) :=
  match k with
  | O => Some (rs, nr_range, start, end_)
  | S k =>
      r ← rs !! i;
      if rend r =? 0 then merge_loop k rs nr_range (S i) start end_
      else
        let common_start := Z.max (rstart r) start in
        let common_end := Z.min (rend r) end_ in
        if common_end <? common_start then merge_loop k rs nr_range (S i) start end_
        else
          rs' ← memmove rs i (S i) (nr_range - S i);
          merge_loop k (<[(nr_range - 1)%nat := no_range]> rs') (nr_range - 1) i
            (Z.min (rstart r) start) (Z.max (rend r) end_)
  end.

Definition add_range_with_merge (rs : list range) (az nr_range : nat) (start end_ : Z)
    : option (list range * nat) :=
  if end_ <=? start then Some (rs, nr_range)
  else
    '(rs', nr', s, e) ← merge_loop nr_range rs nr_range 0 start end_;
    add_range rs' az nr' s e.

(** The first free slot among the first [az]: [az] when there is none. *)
Fixpoint find_free (rs : list range) : nat :=
  match rs with
  | [] => 0
  | r :: rs => if rend r =? 0 then 0 else S (find_free rs)
  end.

(** One turn of [subtract_range]; the result tells whether it ran out of slots
    ([pr_err]). *)
Definition subtract_one (rs : list range) (az j : nat) (start end_ : Z) : option (list range * bool) :=
  r ← rs !! j;
  if rend r =? 0 then Some (rs, false)
  else if (start <=? rstart r) && (rend r <=? end_) then Some (<[j := no_range]> rs, false)
  else if (start <=? rstart r) && (end_ <? rend r) && (rstart r <? end_)
       then Some (<[j := mk_range end_ (rend r)]> rs, false)
  else if (rstart r <? start) && (rend r <=? end_) && (start <? rend r)
       then Some (<[j := mk_range (rstart r) start]> rs, false)
  else if (rstart r <? start) && (end_ <? rend r) then
    let i := find_free (take az rs) in
    let '(rs', full) := if (i <? az)%nat then (<[i := mk_range end_ (rend r)]> rs, false) else (rs, true) in
    Some (<[j := mk_range (rstart r) start]> rs', full)
  else Some (rs, false).

(** [j] goes from [az - k] to [az - 1]. *)
Fixpoint subtract_loop (k : nat) (rs : list range) (az : nat) (start end_ : Z) : option (list range * bool) :=
  match k with
  | O => Some (rs, false)
  | S k =>
      '(rs', f) ← subtract_one rs az (az - S k) start end_;
      '(rs'', f') ← subtract_loop k rs' az start end_;
      Some (rs'', f || f')
  end.

Definition subtract_range (rs : list range) (az : nat) (start end_ : Z) : option (list range * bool) :=
  if end_ <=? start then Some (rs, false) else subtract_loop az rs az start end_.

Definition cmp_range (r1 r2 : range) : Z :=
  if rstart r1 <? rstart r2 then -1 else if rstart r2 <? rstart r1 then 1 else 0.

(** The inner loop of [clean_sort_range]: the last used slot in [i+1 .. i+n]. *)
Fixpoint last_used (rs : list range) (i n : nat) : option (option nat) :=
  match n with
  | O => Some None
  | S n' =>
      r ← rs !! (i + n)%nat;
      if rend r =? 0 then last_used rs i n' else Some (Some (i + n)%nat)
  end.

(** Its outer loop, which fills free slots from the end; [fuel] bounds [k - i]. *)
Fixpoint compact (fuel : nat) (rs : list range) (i k : nat) : option (list range) :=
  match fuel with
  | O => Some rs
  | S fuel =>
      if (i <? k)%nat then
        r ← rs !! i;
        if negb (rend r =? 0) then compact fuel rs (S i) k
        else
          o ← last_used rs i (k - i);
          match o with
          | None => Some rs
          | Some j =>
              q ← rs !! j;
              compact fuel (<[j := no_range]> (<[i := q]> rs)) (S i) (j - 1)
          end
      else Some rs
  end.

Section Sort.
(** [sort(base, n, size, cmp, NULL)] on the first [n] elements. *)
Context (sort : (range -> range -> Z) -> list range -> list range).

Definition sort_range (rs : list range) (nr_range : nat) : list range :=
  sort cmp_range (take nr_range rs) ++ drop nr_range rs.

Definition clean_sort_range (rs : list range) (az : nat) : option (list range * nat) :=
  rs' ← compact az rs 0 (az - 1);
  let nr_range := find_free (take az rs') in
  Some (sort_range rs' nr_range, nr_range).
End Sort.
