(* ===== verification/RangeThms.v ===== *)
(** * Correctness of the range arrays

    An array stands for the set of addresses its slots cover.  Adding a range
    with merging and subtracting one change that set exactly; cleaning and
    sorting leaves it, with the used slots first and in order. *)
From stdpp Require Import sorting.
From S2P Require Import Prelude Range.

(** The addresses a slot, or an array, covers. *)
Definition in_range (x : Z) (r : range) : Prop := rstart r <= x < rend r.
Definition covered (rs : list range) (x : Z) : Prop := Exists (in_range x) rs.

(** A free slot covers nothing; the fields are unsigned. *)
Definition range_ok (r : range) : Prop := 0 <= rstart r /\ 0 <= rend r.

Lemma free_covers_nothing r x : range_ok r -> rend r = 0 -> ~ in_range x r.
Proof. intros [H _] H0 [H1 H2]. lia. Qed.

Lemma covered_app l1 l2 x : covered (l1 ++ l2) x <-> covered l1 x \/ covered l2 x.
Proof. apply Exists_app. Qed.
Lemma covered_cons r l x : covered (r :: l) x <-> in_range x r \/ covered l x.
Proof. apply Exists_cons. Qed.
Lemma covered_nil x : ~ covered [] x.
Proof. intros []%Exists_nil. Qed.

(** ** Adding with merging *)

(** Two ranges that neither meet nor touch. *)
Definition apart (s e : Z) (r : range) : Prop := rend r < s \/ e < rstart r.

(** A normal array: the ranges hold something and are apart from each other. *)
Fixpoint separated (l : list range) : Prop :=
  match l with
  | [] => True
  | r :: l => 0 <= rstart r < rend r /\ Forall (apart (rstart r) (rend r)) l /\ separated l
  end.

Lemma separated_app l1 l2 : separated (l1 ++ l2) <->
  separated l1 /\ separated l2 /\ Forall (fun r => Forall (apart (rstart r) (rend r)) l2) l1.
Proof.
  induction l1 as [|r l1 IH]; cbn; [by split; [intros; split_and!|intros (_ & ? & _)]|].
  rewrite IH, Forall_app, Forall_cons. tauto.
Qed.

Lemma separated_valid l : separated l -> Forall (fun r => 0 <= rstart r < rend r) l.
Proof. induction l as [|r l IH]; cbn; [constructor|]. intros (H & _ & Hs). constructor; auto. Qed.

(** What the loop does to the ranges in use, without the array. *)
Definition meets (s e : Z) (r : range) : bool :=
  negb (rend r =? 0) && negb (Z.min (rend r) e <? Z.max (rstart r) s).

Fixpoint absorb (kept rest : list range) (s e : Z) : list range * Z * Z :=
  match rest with
  | [] => (kept, s, e)
  | r :: rest =>
      if meets s e r then absorb kept rest (Z.min (rstart r) s) (Z.max (rend r) e)
      else absorb (kept ++ [r]) rest s e
  end.

Lemma absorb_length kept rest s e : let '(kept', _, _) := absorb kept rest s e in
  (length kept' <= length kept + length rest)%nat.
Proof.
  revert kept s e; induction rest as [|r rest IH]; intros kept s e; cbn [absorb]; [cbn; lia|].
  destruct (meets s e r).
  - specialize (IH kept (Z.min (rstart r) s) (Z.max (rend r) e)).
    destruct (absorb kept rest _ _) as [[kept' s'] e']. cbn. lia.
  - specialize (IH (kept ++ [r]) s e). destruct (absorb (kept ++ [r]) rest s e) as [[kept' s'] e'].
    rewrite length_app in IH. cbn in *. lia.
Qed.

(** Dropping the first of the ranges to come: those after it move down and the
    last slot in use is cleared. *)
Lemma drop_first kept r rest after :
  memmove (kept ++ r :: rest ++ after) (length kept) (S (length kept)) (length rest) ≫=
    (fun rs' => Some (<[(length kept + length rest)%nat := no_range]> rs')) =
  Some (kept ++ rest ++ no_range :: after).
Proof.
  unfold memmove. rewrite decide_True by (rewrite length_app; cbn; rewrite length_app; lia).
  cbn [mbind option_bind]. f_equal.
  rewrite take_app_length, (drop_app_ge _ _ (S (length kept))) by lia.
  replace (S (length kept) - length kept)%nat with 1%nat by lia. cbn [drop skipn].
  rewrite drop_0, take_app_length, drop_app_ge by lia.
  replace (length kept + length rest - length kept)%nat with (length rest) by lia.
  rewrite (app_comm_cons rest after r), drop_app_le by (cbn; lia).
  assert (exists y, drop (length rest) (r :: rest) = [y]) as [y ->].
  { destruct (drop (length rest) (r :: rest)) as [|y l] eqn:E; apply (f_equal length) in E;
      rewrite length_drop in E; cbn in E; [lia|]. exists y. destruct l; [done|cbn in E; lia]. }
  rewrite insert_app_r_alt by lia. f_equal. rewrite insert_app_r_alt by lia. f_equal.
  by replace (length kept + length rest - length kept - length rest)%nat with 0%nat by lia.
Qed.

(** The array after some ranges were dropped: what is kept, what is to come,
    and what lies past them. *)
Lemma merge_loop_absorb rest : forall kept after s e,
  merge_loop (length rest) (kept ++ rest ++ after) (length kept + length rest) (length kept) s e =
  Some (let '(kept', s', e') := absorb kept rest s e in
        (kept' ++ replicate (length kept + length rest - length kept') no_range ++ after, length kept', s', e')).
Proof.
  induction rest as [|r rest IH]; intros kept after s e.
  { cbn. by rewrite Nat.add_0_r, Nat.sub_diag. }
  cbn [merge_loop absorb length]. rewrite lookup_app_r, Nat.sub_diag by lia.
  cbn [lookup list_lookup app mbind option_bind].
  assert (merge_loop (length rest) (kept ++ r :: rest ++ after) (length kept + S (length rest)) (S (length kept)) s e =
    Some (let '(kept', s', e') := absorb (kept ++ [r]) rest s e in
      (kept' ++ replicate (length kept + S (length rest) - length kept') no_range ++ after, length kept', s', e')))
    as Hskip.
  { specialize (IH (kept ++ [r]) after s e). rewrite <- app_assoc in IH. cbn [app] in IH.
    rewrite length_app in IH. cbn [length] in IH.
    replace (length kept + 1 + length rest)%nat with (length kept + S (length rest))%nat in IH by lia.
    by rewrite Nat.add_1_r in IH. }
  unfold meets. destruct (rend r =? 0); [done|]. cbn [andb negb].
  destruct (Z.min (rend r) e <? Z.max (rstart r) s); [done|]. cbn [negb]. clear Hskip.
  replace (length kept + S (length rest) - S (length kept))%nat with (length rest) by lia.
  replace (length kept + S (length rest) - 1)%nat with (length kept + length rest)%nat by lia.
  pose proof (drop_first kept r rest after) as Hd.
  destruct (memmove _ _ _ _) as [rs'|]; [|done]. cbn [mbind option_bind] in *. injection Hd as ->. rewrite IH.
  pose proof (absorb_length kept rest (Z.min (rstart r) s) (Z.max (rend r) e)) as Hl.
  destruct (absorb kept rest _ _) as [[kept' s'] e']. do 3 f_equal.
  replace (length kept + S (length rest) - length kept')%nat with (S (length kept + length rest - length kept')) by lia.
  by rewrite replicate_S_end, <- app_assoc.
Qed.

Lemma meets_false s e r : s < e -> 0 <= rstart r < rend r -> meets s e r = false -> apart s e r.
Proof. unfold meets, apart. intros Hs Hr. destruct (Z.eqb_spec (rend r) 0), (Z.ltb_spec (Z.min (rend r) e) (Z.max (rstart r) s)); cbn; try done; lia. Qed.

(** The ranges absorbed are in the new one, exactly. *)
Lemma absorb_covered rest : forall kept s e x, s < e ->
  let '(kept', s', e') := absorb kept rest s e in
  s' < e' /\ (covered kept' x \/ s' <= x < e' <-> covered kept x \/ covered rest x \/ s <= x < e).
Proof.
  induction rest as [|r rest IH]; intros kept s e x Hse; cbn [absorb].
  { split; [done|]. pose proof (covered_nil x). tauto. }
  destruct (meets s e r) eqn:Hm.
  - unfold meets in Hm. apply andb_true_iff in Hm as [_ Hm]. apply negb_true_iff, Z.ltb_ge in Hm.
    specialize (IH kept (Z.min (rstart r) s) (Z.max (rend r) e) x ltac:(lia)).
    destruct (absorb kept rest _ _) as [[kept' s'] e']. destruct IH as [? IH]. split; [done|].
    rewrite IH, covered_cons. unfold in_range.
    assert (Z.min (rstart r) s <= x < Z.max (rend r) e <-> rstart r <= x < rend r \/ s <= x < e) as -> by lia. tauto.
  - specialize (IH (kept ++ [r]) s e x Hse). destruct (absorb (kept ++ [r]) rest s e) as [[kept' s'] e'].
    destruct IH as [? IH]. split; [done|]. rewrite IH, covered_app, !covered_cons. pose proof (covered_nil x). tauto.
Qed.

Lemma absorb_separated rest : forall kept s e, 0 <= s < e -> separated (kept ++ rest) ->
  Forall (apart s e) kept ->
  let '(kept', s', e') := absorb kept rest s e in
  0 <= s' < e' /\ separated (kept' ++ [mk_range s' e']).
Proof.
  induction rest as [|r rest IH]; intros kept s e Hse Hsep Hk; cbn [absorb].
  { rewrite app_nil_r in Hsep. split; [done|]. apply separated_app. split_and!; [done|by cbn|].
    eapply Forall_impl; [exact Hk|]. intros k Hr. constructor; [|constructor]. unfold apart in *. cbn. lia. }
  pose proof (separated_valid _ Hsep) as Hv. apply Forall_app in Hv as [Hvk Hv]. inversion_clear Hv as [|? ? Hr _].
  pose proof Hsep as Hsep'. apply separated_app in Hsep' as (Hsk & (_ & Hr1 & Hsr) & Hkr).
  destruct (meets s e r) eqn:Hm.
  - unfold meets in Hm. apply andb_true_iff in Hm as [_ Hm]. apply negb_true_iff, Z.ltb_ge in Hm.
    apply (IH kept (Z.min (rstart r) s) (Z.max (rend r) e)); [lia| |].
    + apply separated_app. split_and!; [done..|]. eapply Forall_impl; [exact Hkr|]. intros k Hkk. by inversion_clear Hkk.
    + rewrite Forall_forall in *. intros k Hin. specialize (Hk k Hin). specialize (Hvk k Hin).
      specialize (Hkr k Hin). rewrite Forall_cons in Hkr. destruct Hkr as [Hkr _]. unfold apart in *. lia.
  - apply (IH (kept ++ [r])); [done|by rewrite <- app_assoc|]. apply Forall_app. split; [done|].
    constructor; [|constructor]. apply meets_false; try done. lia.
Qed.

(** A loop that drops nothing keeps everything. *)
Lemma absorb_kept rest : forall kept s e, let '(kept', _, _) := absorb kept rest s e in
  length kept' = (length kept + length rest)%nat -> kept' = kept ++ rest.
Proof.
  induction rest as [|r rest IH]; intros kept s e; cbn [absorb]; [by rewrite app_nil_r|].
  destruct (meets s e r).
  - pose proof (absorb_length kept rest (Z.min (rstart r) s) (Z.max (rend r) e)) as Hl.
    destruct (absorb kept rest _ _) as [[kept' s'] e']. cbn. lia.
  - specialize (IH (kept ++ [r]) s e). destruct (absorb (kept ++ [r]) rest s e) as [[kept' s'] e'].
    rewrite length_app, <- app_assoc in IH. cbn in *. intros H. apply IH. lia.
Qed.

(** ... and then no range met the one that is added. *)
Lemma absorb_none rest : forall kept s e, let '(kept', s', e') := absorb kept rest s e in
  length kept' = (length kept + length rest)%nat ->
  Forall (fun r => meets s e r = false) rest /\ s' = s /\ e' = e.
Proof.
  induction rest as [|r rest IH]; intros kept s e; cbn [absorb]; [by split|].
  destruct (meets s e r) eqn:Hm.
  - pose proof (absorb_length kept rest (Z.min (rstart r) s) (Z.max (rend r) e)) as Hl.
    destruct (absorb kept rest _ _) as [[kept' s'] e']. cbn. lia.
  - specialize (IH (kept ++ [r]) s e). destruct (absorb (kept ++ [r]) rest s e) as [[kept' s'] e'].
    rewrite length_app in IH. cbn in *. intros H. destruct IH as (? & ? & ?); [lia|]. split; [by constructor|done].
Qed.

(** The whole operation on an array of which the first [nr] slots are in use. *)
Lemma add_range_with_merge_spec used free az s e : s < e -> az = length (used ++ free) ->
  exists kept s' e', absorb [] used s e = (kept, s', e') /\
  let room := bool_decide (length kept < az)%nat in
  add_range_with_merge (used ++ free) az (length used) s e =
    Some (if room
          then (kept ++ mk_range s' e' :: drop 1 (replicate (length used - length kept) no_range ++ free), S (length kept))
          else (used ++ free, length used)).
Proof.
  intros Hse Haz. unfold add_range_with_merge. rewrite (proj2 (Z.leb_gt _ _)) by done.
  pose proof (merge_loop_absorb used [] free s e) as Hm. cbn [length app Nat.add] in Hm. rewrite Hm.
  pose proof (absorb_length [] used s e) as Hl. pose proof (absorb_covered used [] s e 0 Hse) as Hc.
  pose proof (absorb_kept used [] s e) as Hkept.
  destruct (absorb [] used s e) as [[kept s'] e']. exists kept, s', e'. split; [done|].
  destruct Hc as [Hc _]. cbn [mbind option_bind]. unfold add_range. rewrite (proj2 (Z.leb_gt e' s')) by lia.
  cbn [length] in Hl. rewrite length_app in Haz.
  case_bool_decide as Hroom.
  - rewrite (proj2 (Nat.leb_gt _ _)) by lia.
    rewrite decide_True by (rewrite !length_app, length_replicate; lia).
    rewrite insert_app_r_alt, Nat.sub_diag by lia. do 3 f_equal.
    destruct (replicate _ _ ++ free) eqn:E; [|done].
    apply (f_equal length) in E. rewrite length_app, length_replicate in E. cbn in E. lia.
  - rewrite (proj2 (Nat.leb_le _ _)) by lia. do 2 f_equal; [|lia].
    replace (length used - length kept)%nat with 0%nat by lia. cbn. by rewrite Hkept by (cbn; lia).
Qed.

(** ** Subtracting *)
Lemma covered_lookup l x : covered l x <-> exists i r, l !! i = Some r /\ in_range x r.
Proof.
  unfold covered. rewrite Exists_exists. split.
  - intros (r & [i Hi]%list_elem_of_lookup & Hr). eauto.
  - intros (i & r & Hi & Hr). exists r. split; [|done]. by eapply list_elem_of_lookup_2.
Qed.

(** What the slots other than [i] cover. *)
Definition others (l : list range) (i : nat) (x : Z) : Prop :=
  exists k r, k <> i /\ l !! k = Some r /\ in_range x r.

Lemma covered_split l i r x : l !! i = Some r -> covered l x <-> in_range x r \/ others l i x.
Proof.
  intros Hi. rewrite covered_lookup. split.
  - intros (k & q & Hk & Hq). destruct (decide (k = i)) as [->|]; [left; congruence|right; by exists k, q].
  - intros [Hr|(k & q & _ & Hk & Hq)]; eauto.
Qed.

Lemma covered_insert l i r' x : (i < length l)%nat -> covered (<[i := r']> l) x <-> in_range x r' \/ others l i x.
Proof.
  intros Hi. rewrite (covered_split (<[i := r']> l) i r') by (by apply list_lookup_insert_eq).
  apply or_iff_compat_l. split; intros (k & q & Hne & Hk & Hq); exists k, q; rewrite list_lookup_insert_ne in * by done; done.
Qed.

Lemma find_free_spec l : (find_free l < length l)%nat ->
  exists r, l !! find_free l = Some r /\ rend r = 0.
Proof.
  induction l as [|r l IH]; cbn; [lia|]. destruct (Z.eqb_spec (rend r) 0); [by exists r|].
  intros H. apply IH. lia.
Qed.

Lemma find_free_none l : Exists (fun r => rend r = 0) l -> (find_free l < length l)%nat.
Proof. induction 1 as [r l Hr|r l _ IH]; cbn; [by rewrite Hr, Z.eqb_refl; lia|case_match; lia]. Qed.

Section subtract.
Context (s e : Z) (Hs : 0 <= s) (Hse : s < e).

(** A slot with no address of the range that is subtracted. *)
Definition clear_of (r : range) : Prop := forall x, in_range x r -> ~ s <= x < e.

(** A slot that sticks out on both sides of it. *)
Definition straddled (l : list range) (j : nat) : Prop :=
  exists r, l !! j = Some r /\ rstart r < s /\ e < rend r.

(** What one turn, at slot [j], does to the array. *)
Record subtracted (l l' : list range) (j : nat) (full : bool) : Prop := {
  sb_length : length l' = length l;
  sb_ok : Forall range_ok l';
  sb_clear : forall r, l' !! j = Some r -> clear_of r;
  sb_keep : forall i r, i <> j -> l' !! i = Some r -> l !! i = Some r \/ clear_of r;
  sb_sub : forall x, covered l' x -> covered l x;
  sb_exact : full = false -> forall x, covered l x -> ~ s <= x < e -> covered l' x;
  sb_full : full = true -> straddled l j /\ ~ Exists (fun r => rend r = 0) l;
  sb_free : ~ straddled l j -> Exists (fun r => rend r = 0) l -> Exists (fun r => rend r = 0) l'
}.

(** The slot is replaced by one without the subtracted addresses. *)
Lemma subtracted_replace l j r r' : Forall range_ok l -> l !! j = Some r -> range_ok r' ->
  (forall x, in_range x r' <-> in_range x r /\ ~ s <= x < e) -> (rend r = 0 -> rend r' = 0) ->
  subtracted l (<[j := r']> l) j false.
Proof.
  intros Hok Hj Hr' Hx H0. pose proof (lookup_lt_Some _ _ _ Hj) as Hlt. split.
  - apply length_insert.
  - by apply Forall_insert.
  - intros q Hq. rewrite list_lookup_insert_eq in Hq by done. injection Hq as <-. intros x Hin. by apply Hx.
  - intros i q Hne Hq. rewrite list_lookup_insert_ne in Hq by done. by left.
  - intros x. rewrite covered_insert, (covered_split l j r) by done. rewrite Hx. tauto.
  - intros _ x. rewrite covered_insert, (covered_split l j r) by done. rewrite Hx. tauto.
  - done.
  - intros _ He. apply Exists_exists in He as (q & [k Hk]%list_elem_of_lookup & Hq). apply Exists_exists.
    destruct (decide (k = j)) as [->|Hne].
    + exists r'. split; [|apply H0; congruence]. eapply list_elem_of_lookup_2, list_lookup_insert_eq. done.
    + exists q. split; [|done]. apply (list_elem_of_lookup_2 _ k). by rewrite list_lookup_insert_ne.
Qed.

Lemma subtracted_same l j r : Forall range_ok l -> l !! j = Some r -> clear_of r -> subtracted l l j false.
Proof.
  intros Hok Hj Hc. rewrite <- (list_insert_id l j r Hj) at 2. apply (subtracted_replace l j r r); try done.
  - exact (Forall_lookup_1 _ _ _ _ Hok Hj).
  - intros x. split; [intros Hx; split; [done|by apply Hc]|tauto].
Qed.

(** The slot is cut in two: the upper part goes to the free slot [i]. *)
Lemma subtracted_split l i j r q : Forall range_ok l -> l !! j = Some r -> l !! i = Some q -> rend q = 0 ->
  rend r <> 0 -> rstart r < s -> e < rend r ->
  subtracted l (<[j := mk_range (rstart r) s]> (<[i := mk_range e (rend r)]> l)) j false.
Proof using Hs Hse.
  intros Hok Hj Hi Hq Hr H1 H2. assert (i <> j) as Hne by congruence.
  pose proof (lookup_lt_Some _ _ _ Hj). pose proof (lookup_lt_Some _ _ _ Hi).
  pose proof (Forall_lookup_1 _ _ _ _ Hok Hj) as [Hr1 Hr2].
  assert (forall x, others (<[i := mk_range e (rend r)]> l) j x <-> e <= x < rend r \/ others l j x) as Ho.
  { intros x. split.
    - intros (k & p & Hk & Hp & Hx). destruct (decide (k = i)) as [->|Hki].
      + rewrite list_lookup_insert_eq in Hp by done. injection Hp as <-. by left.
      + rewrite list_lookup_insert_ne in Hp by done. right. by exists k, p.
    - intros [Hx|(k & p & Hk & Hp & Hx)].
      + exists i, (mk_range e (rend r)). by rewrite list_lookup_insert_eq.
      + exists k, p. rewrite list_lookup_insert_ne; [done|]. intros <-. simplify_eq.
        by apply (free_covers_nothing q x (Forall_lookup_1 _ _ _ _ Hok Hi) Hq). }
  assert (forall x, covered (<[j := mk_range (rstart r) s]> (<[i := mk_range e (rend r)]> l)) x <->
    in_range x r /\ ~ s <= x < e \/ others l j x) as Hcov.
  { intros x. rewrite covered_insert by (by rewrite length_insert). rewrite Ho. unfold in_range. cbn.
    assert (rstart r <= x < rend r /\ ~ s <= x < e <-> rstart r <= x < s \/ e <= x < rend r) as -> by lia. tauto. }
  split.
  - by rewrite !length_insert.
  - repeat apply Forall_insert; try done; split; cbn; lia.
  - intros p Hp. rewrite list_lookup_insert_eq in Hp by (by rewrite length_insert). injection Hp as <-.
    intros x Hx. unfold in_range in Hx. cbn in Hx. lia.
  - intros k p Hk Hp. rewrite list_lookup_insert_ne in Hp by done. destruct (decide (k = i)) as [->|].
    + rewrite list_lookup_insert_eq in Hp by done. injection Hp as <-. right.
      intros x Hx. unfold in_range in Hx. cbn in Hx. lia.
    + rewrite list_lookup_insert_ne in Hp by done. by left.
  - intros x. rewrite Hcov, (covered_split l j r) by done. tauto.
  - intros _ x. rewrite Hcov, (covered_split l j r) by done. tauto.
  - done.
  - intros []. by exists r.
Qed.

(** Without a free slot the upper part is lost. *)
Lemma subtracted_lost l j r : Forall range_ok l -> l !! j = Some r -> rstart r < s -> e < rend r ->
  ~ Exists (fun r => rend r = 0) l ->
  subtracted l (<[j := mk_range (rstart r) s]> l) j true.
Proof using Hs Hse.
  intros Hok Hj H1 H2 Hfull. pose proof (lookup_lt_Some _ _ _ Hj) as Hlt.
  pose proof (Forall_lookup_1 _ _ _ _ Hok Hj) as [Hr1 Hr2]. split; [apply length_insert|..].
  - apply Forall_insert; [done|]. split; cbn; lia.
  - intros p Hp. rewrite list_lookup_insert_eq in Hp by done. injection Hp as <-. intros x Hx. unfold in_range in Hx. cbn in Hx. lia.
  - intros i q Hne Hq. rewrite list_lookup_insert_ne in Hq by done. by left.
  - intros x. rewrite covered_insert, (covered_split l j r) by done. unfold in_range. cbn.
    intros [?|?]; [left; lia|by right].
  - done.
  - intros _. split; [by exists r|done].
  - done.
Qed.

Lemma subtract_one_spec l j : Forall range_ok l -> (j < length l)%nat ->
  exists l' full, subtract_one l (length l) j s e = Some (l', full) /\ subtracted l l' j full.
Proof using Hs Hse.
  intros Hok Hj. destruct (lookup_lt_is_Some_2 l j Hj) as [r Hr]. unfold subtract_one. rewrite Hr. cbn [mbind option_bind].
  pose proof (Forall_lookup_1 _ _ _ _ Hok Hr) as Hrok. pose proof Hrok as [Hr1 Hr2].
  rewrite (take_ge l (length l)) by done.
  destruct (Z.eqb_spec (rend r) 0) as [H0|H0].
  { eexists _, _. split; [done|]. eapply subtracted_same; eauto. intros x Hx. by apply free_covers_nothing in Hx. }
  destruct (_ && _) eqn:E1.
  { eexists _, _. split; [done|]. apply andb_true_iff in E1 as [?%Z.leb_le ?%Z.leb_le].
    apply (subtracted_replace l j r); [done|done|by split| |done]. unfold in_range. cbn. lia. }
  destruct (_ && _ && _) eqn:E2.
  { eexists _, _. split; [done|]. apply andb_true_iff in E2 as [[?%Z.leb_le ?%Z.ltb_lt]%andb_true_iff ?%Z.ltb_lt].
    apply (subtracted_replace l j r); [done|done|split; cbn; lia| |done]. unfold in_range. cbn. lia. }
  destruct (_ && _ && (s <? rend r)) eqn:E3.
  { eexists _, _. split; [done|]. apply andb_true_iff in E3 as [[?%Z.ltb_lt ?%Z.leb_le]%andb_true_iff ?%Z.ltb_lt].
    apply (subtracted_replace l j r); [done|done|split; cbn; lia| |done]. unfold in_range. cbn. lia. }
  destruct ((rstart r <? s) && (e <? rend r)) eqn:E4.
  - apply andb_true_iff in E4 as [?%Z.ltb_lt ?%Z.ltb_lt].
    destruct (Nat.ltb_spec (find_free l) (length l)) as [Hf|Hf]; (eexists _, _; split; [done|]).
    + destruct (find_free_spec l Hf) as (q & Hq & Hq0). by eapply subtracted_split.
    + apply subtracted_lost; try done. intros He. pose proof (find_free_none l He). lia.
  - eexists _, _. split; [done|]. eapply subtracted_same; eauto. intros x Hx. unfold in_range in Hx. lia.
Qed.

(** Enough room for the turns to come: no slot to visit sticks out on both
    sides, or one does and there is a free slot. *)
Definition fits (k : nat) (l : list range) : Prop :=
  (forall j, (length l - k <= j)%nat -> ~ straddled l j) \/
  Exists (fun r => rend r = 0) l /\
  forall i j, (length l - k <= i)%nat -> (length l - k <= j)%nat -> straddled l i -> straddled l j -> i = j.

Lemma straddled_not_clear l j r : l !! j = Some r -> straddled l j -> ~ clear_of r.
Proof using Hse. intros Hj (q & Hq & H1 & H2) Hc. simplify_eq. apply (Hc s); unfold in_range; lia. Qed.

(** A turn leaves no new slot that sticks out. *)
Lemma straddled_before l l' j f i : subtracted l l' j f -> straddled l' i -> straddled l i /\ i <> j.
Proof using Hse.
  intros [_ _ Hc Hk _ _ _ _] Hst. pose proof Hst as (r & Hi & Hr).
  destruct (decide (i = j)) as [->|Hne]; [by destruct (straddled_not_clear l' j r Hi Hst); apply Hc|].
  destruct (Hk i r Hne Hi) as [Hi'|Hcl]; [|by destruct (straddled_not_clear l' i r Hi Hst)].
  split; [by exists r|done].
Qed.

Lemma fits_step k l l' f : (S k <= length l)%nat -> subtracted l l' (length l - S k) f -> fits (S k) l ->
  f = false /\ fits k l'.
Proof using Hse.
  intros Hk Hsub Hfit. pose proof (sb_length _ _ _ _ Hsub) as Hl. unfold fits. rewrite Hl.
  destruct Hfit as [Hno|[Hfree Hone]].
  - split.
    + destruct f; [|done]. destruct (sb_full _ _ _ _ Hsub eq_refl) as [Hst _]. by destruct (Hno (length l - S k)%nat).
    + left. intros j Hj Hst. destruct (straddled_before _ _ _ _ _ Hsub Hst) as [Hst' _]. apply (Hno j); [lia|done].
  - split; [by destruct f; [destruct (sb_full _ _ _ _ Hsub eq_refl)|]|].
    destruct (decide (Exists (fun r => rstart r < s /\ e < rend r) (drop (length l - S k) (take (length l - k) l)))) as [Hst|Hst].
    + left. intros j Hj Hsj. destruct (straddled_before _ _ _ _ _ Hsub Hsj) as [Hsj' Hne].
      destruct Hne. apply Hone; [lia|done|done|].
      apply Exists_exists in Hst as (r & [i Hi]%list_elem_of_lookup & Hr). rewrite lookup_drop in Hi.
      apply lookup_take_Some in Hi as [Hi Hlt]. assert (i = 0)%nat as -> by lia. rewrite Nat.add_0_r in Hi. by exists r.
    + right. split.
      * apply (sb_free _ _ _ _ Hsub); [|done]. intros (r & Hr & Hrr). apply Hst, Exists_exists. exists r.
        split; [|done]. apply (list_elem_of_lookup_2 _ 0%nat). rewrite lookup_drop, Nat.add_0_r, lookup_take_lt by lia. done.
      * intros i j Hi Hj Hsi Hsj. destruct (straddled_before _ _ _ _ _ Hsub Hsi), (straddled_before _ _ _ _ _ Hsub Hsj).
        apply Hone; try done; lia.
Qed.

Lemma subtract_loop_spec k l : Forall range_ok l -> (k <= length l)%nat ->
  (forall i r, (i < length l - k)%nat -> l !! i = Some r -> clear_of r) ->
  exists l' full, subtract_loop k l (length l) s e = Some (l', full) /\
    length l' = length l /\ Forall range_ok l' /\
    (fits k l -> full = false) /\
    (forall x, covered l' x -> covered l x /\ ~ s <= x < e) /\
    (full = false -> forall x, covered l x -> ~ s <= x < e -> covered l' x).
Proof using Hs Hse.
  revert l; induction k as [|k IH]; intros l Hok Hk Hclear; cbn [subtract_loop].
  - exists l, false. split; [done|]. split; [done|]. split; [done|]. split; [done|]. split; [|done].
    intros x Hx. split; [done|]. apply covered_lookup in Hx as (i & r & Hi & Hr).
    apply (Hclear i r); [apply lookup_lt_Some in Hi; lia|done|done].
  - destruct (subtract_one_spec l (length l - S k) Hok) as (l1 & f1 & H1 & Hsub); [lia|].
    pose proof Hsub as [L1 K1 C1 S1 U1 X1 _ _].
    rewrite H1. cbn [mbind option_bind].
    destruct (IH l1) as (l2 & f2 & H2 & L2 & K2 & F2 & U2 & X2); [done|lia| |].
    + intros i r Hi Hr. destruct (decide (i = (length l - S k)%nat)) as [->|Hne]; [by apply C1|].
      destruct (S1 i r Hne Hr) as [Hr'|]; [|done]. apply (Hclear i r); [lia|done].
    + rewrite L1 in H2. rewrite H2. cbn [mbind option_bind]. exists l2, (f1 || f2). split; [done|].
      split; [lia|]. split; [done|]. split; [|split].
      * intros Hfit. destruct (fits_step k l l1 f1 Hk Hsub Hfit) as [-> Hf]. by apply F2.
      * intros x Hx. destruct (U2 x Hx). auto.
      * intros [-> ->]%orb_false_iff x Hx Hn. auto.
Qed.
End subtract.

(** ** Cleaning and sorting *)
Definition used (r : range) : Prop := rend r <> 0.
#[export] Instance used_dec r : Decision (used r).
Proof. unfold used. apply _. Defined.

(** No used slot after a free one. *)
Definition packed (l : list range) : Prop :=
  forall i j r q, (i < j)%nat -> l !! i = Some r -> rend r = 0 -> l !! j = Some q -> rend q = 0.

Lemma list_delete_insert_eq (l : list range) i r : delete i (<[i := r]> l) = delete i l.
Proof. revert i; induction l as [|q l IH]; intros [|i]; cbn; [done..|]. f_equal. apply IH. Qed.

Lemma filter_used_nil (l : list range) : (forall r, r ∈ l -> rend r = 0) -> filter used l = [].
Proof.
  induction l as [|r l IH]; intros Hl; [done|]. rewrite filter_cons_False.
  - apply IH. intros q Hq. apply Hl. by right.
  - unfold used. rewrite Hl by left. lia.
Qed.

Lemma used_insert (l : list range) i r r' : l !! i = Some r ->
  filter used (<[i := r']> l) ≡ₚ filter used [r'] ++ filter used (delete i l).
Proof.
  intros Hi. rewrite <- filter_app. cbn [app].
  assert (<[i := r']> l ≡ₚ r' :: delete i l) as ->; [|done].
  rewrite <- (list_delete_insert_eq l i r'). apply delete_Permutation, list_lookup_insert_eq.
  by eapply lookup_lt_Some.
Qed.

Lemma used_split (l : list range) i r : l !! i = Some r ->
  filter used l ≡ₚ filter used [r] ++ filter used (delete i l).
Proof. intros Hi. rewrite <- (list_insert_id l i r Hi) at 1. by apply (used_insert l i r r). Qed.

(** Moving a used slot to a free one. *)
Lemma used_move (l : list range) i j r q : i <> j -> l !! i = Some r -> rend r = 0 -> l !! j = Some q -> rend q <> 0 ->
  filter used (<[j := no_range]> (<[i := q]> l)) ≡ₚ filter used l.
Proof.
  intros Hne Hi Hr Hj Hq. apply (Permutation_cons_inv (a := q)).
  assert (filter used [q] = [q]) as Hfq by (by rewrite filter_cons_True).
  assert (filter used [r] = []) as Hfr by (rewrite filter_cons_False; [done|unfold used; lia]).
  assert ((<[i := q]> l) !! j = Some q) as Hj' by (by rewrite list_lookup_insert_ne).
  transitivity (filter used (<[i := q]> l)).
  - rewrite (used_insert (<[i := q]> l) j q no_range Hj'), (used_split (<[i := q]> l) j q Hj'), Hfq. done.
  - rewrite (used_insert l i r q Hi), (used_split l i r Hi), Hfq, Hfr. done.
Qed.

Lemma last_used_spec (l : list range) i n : (i + n < length l)%nat ->
  exists o, last_used l i n = Some o /\
  match o with
  | None => forall j r, (i < j <= i + n)%nat -> l !! j = Some r -> rend r = 0
  | Some j => (i < j <= i + n)%nat /\ (exists q, l !! j = Some q /\ rend q <> 0) /\
      forall k r, (j < k <= i + n)%nat -> l !! k = Some r -> rend r = 0
  end.
Proof.
  induction n as [|n IH]; intros Hn; cbn [last_used].
  { exists None. split; [done|]. lia. }
  destruct (lookup_lt_is_Some_2 l (i + S n)%nat Hn) as [r Hr]. rewrite Hr. cbn [mbind option_bind].
  destruct (Z.eqb_spec (rend r) 0) as [H0|H0].
  - destruct IH as (o & Ho & Hspec); [lia|]. exists o. split; [done|]. destruct o as [j|].
    + destruct Hspec as (Hj & Hq & Hk). split; [lia|]. split; [done|]. intros k q Hkk Hlk.
      destruct (decide (k = i + S n)%nat) as [->|]; [congruence|]. apply (Hk k q); [lia|done].
    + intros j q Hj Hlk. destruct (decide (j = i + S n)%nat) as [->|]; [congruence|]. apply (Hspec j q); [lia|done].
  - exists (Some (i + S n)%nat). split; [done|]. split; [lia|]. split; [by exists r|]. lia.
Qed.

Lemma compact_spec fuel l i k : Forall range_ok l -> (k < length l \/ k = 0)%nat -> (k - i <= fuel)%nat ->
  (forall j r, (j < i)%nat -> l !! j = Some r -> rend r <> 0) ->
  (forall j r, (k < j)%nat -> l !! j = Some r -> rend r = 0) ->
  exists l', compact fuel l i k = Some l' /\ length l' = length l /\ Forall range_ok l' /\
    packed l' /\ filter used l' ≡ₚ filter used l.
Proof.
  revert l i k; induction fuel as [|fuel IH]; intros l i k Hok Hk Hfu Hlo Hhi; cbn [compact].
  { exists l. split_and!; try done. intros a b r q Hab Ha Hr Hb.
    assert (i <= a)%nat by (destruct (decide (a < i)%nat); [|lia]; by destruct (Hlo a r)).
    apply (Hhi b q); [lia|done]. }
  destruct (Nat.ltb_spec i k) as [Hik|Hik].
  2: { exists l. split_and!; try done. intros a b r q Hab Ha Hr Hb.
       assert (i <= a)%nat by (destruct (decide (a < i)%nat); [|lia]; by destruct (Hlo a r)).
       apply (Hhi b q); [lia|done]. }
  destruct Hk as [Hk|Hk]; [|lia].
  destruct (lookup_lt_is_Some_2 l i ltac:(lia)) as [r Hr]. rewrite Hr. cbn [mbind option_bind].
  destruct (Z.eqb_spec (rend r) 0) as [H0|H0]; cbn [negb].
  2: { apply IH; try done; [by left|lia|]. intros j q Hj Hq.
       destruct (decide (j = i)) as [->|]; [congruence|]. apply (Hlo j q); [lia|done]. }
  destruct (last_used_spec l i (k - i)) as (o & -> & Ho); [lia|]. cbn [mbind option_bind].
  replace (i + (k - i))%nat with k in Ho by lia. destruct o as [j|].
  - destruct Ho as (Hj & (q & Hq & Hq0) & Hfree). rewrite Hq. cbn [mbind option_bind].
    destruct (IH (<[j := no_range]> (<[i := q]> l)) (S i) (j - 1)%nat) as (l' & Hc & L & O & P & F).
    + repeat apply Forall_insert; try done. exact (Forall_lookup_1 _ _ _ _ Hok Hq).
    + rewrite !length_insert. lia.
    + lia.
    + intros a p Ha Hp. rewrite list_lookup_insert_ne in Hp by lia. destruct (decide (a = i)) as [->|].
      * rewrite list_lookup_insert_eq in Hp by lia. congruence.
      * rewrite list_lookup_insert_ne in Hp by done. apply (Hlo a p); [lia|done].
    + intros a p Ha Hp. destruct (decide (a = j)) as [->|].
      * rewrite list_lookup_insert_eq in Hp by (rewrite length_insert; lia). by injection Hp as <-.
      * rewrite !list_lookup_insert_ne in Hp by lia. destruct (decide (a <= k)%nat).
        -- apply (Hfree a p); [lia|done].
        -- apply (Hhi a p); [lia|done].
    + exists l'. rewrite !length_insert in L. split_and!; try done.
      rewrite F. by apply (used_move l i j r q); [lia|..].
  - exists l. split_and!; try done. intros a b p q Hab Ha Hp Hb.
    assert (i <= a)%nat by (destruct (decide (a < i)%nat); [|lia]; by destruct (Hlo a p)).
    destruct (decide (b <= k)%nat); [apply (Ho b q); [lia|done]|apply (Hhi b q); [lia|done]].
Qed.

(** In a packed array the used slots are the first ones. *)
Lemma packed_used l : packed l -> filter used l = take (find_free l) l.
Proof.
  induction l as [|r l IH]; intros Hp; [done|]. cbn [find_free].
  destruct (Z.eqb_spec (rend r) 0) as [H0|H0].
  - cbn [take firstn]. apply filter_used_nil. intros q Hq. apply list_elem_of_lookup in Hq as [[|j] Hj].
    + by injection Hj as <-.
    + by apply (Hp 0%nat (S j) r q); [lia|..].
  - rewrite filter_cons_True by done. cbn [take firstn]. f_equal. apply IH.
    intros i j p q Hij Hi Hp0 Hj. by apply (Hp (S i) (S j) p q); [lia|..].
Qed.

Lemma used_covered l l' x : Forall range_ok l -> Forall range_ok l' -> filter used l ≡ₚ filter used l' ->
  covered l x -> covered l' x.
Proof.
  unfold covered. rewrite !Exists_exists, !Forall_forall. intros Hl Hl' HF (r & Hr & Hx). exists r. split; [|done].
  assert (r ∈ filter used l') as [_ ?]%list_elem_of_filter; [|done].
  rewrite <- HF. apply list_elem_of_filter. split; [|done]. intros H0.
  by apply (free_covers_nothing r x (Hl r Hr) H0).
Qed.

(** What [sort] promises: a permutation, in the order of the comparison. *)
Class SortLaws (sort : (range -> range -> Z) -> list range -> list range) := {
  sort_perm : forall cmp l, sort cmp l ≡ₚ l;
  sort_sorted : forall cmp l, (forall a b, 0 < cmp a b -> cmp b a <= 0) ->
    (forall a b c, cmp a b <= 0 -> cmp b c <= 0 -> cmp a c <= 0) ->
    StronglySorted (fun a b => cmp a b <= 0) (sort cmp l)
}.

Lemma cmp_range_le a b : cmp_range a b <= 0 <-> rstart a <= rstart b.
Proof.
  unfold cmp_range. destruct (Z.ltb_spec (rstart a) (rstart b)), (Z.ltb_spec (rstart b) (rstart a)); lia.
Qed.

Section clean_sort.
Context (sort : (range -> range -> Z) -> list range -> list range) `{!SortLaws sort}.

Lemma sort_range_sorted l : StronglySorted (fun a b => rstart a <= rstart b) (sort cmp_range l).
Proof using SortLaws0.
  assert (StronglySorted (fun a b => cmp_range a b <= 0) (sort cmp_range l)) as H.
  { apply sort_sorted.
    - intros a b Hab. apply cmp_range_le. destruct (Z.le_gt_cases (rstart a) (rstart b)) as [H|H]; [|lia].
      apply cmp_range_le in H. lia.
    - intros a b c H1%cmp_range_le H2%cmp_range_le. apply cmp_range_le. lia. }
  induction H as [|a l' _ IH Hall]; constructor; [done|].
  eapply Forall_impl; [exact Hall|]. intros b. apply cmp_range_le.
Qed.

Lemma clean_sort_range_spec l : Forall range_ok l -> exists l' nr,
  clean_sort_range sort l (length l) = Some (l', nr) /\ length l' = length l /\
  take nr l' ≡ₚ filter used l /\ StronglySorted (fun a b => rstart a <= rstart b) (take nr l') /\
  Forall (fun r => rend r = 0) (drop nr l').
Proof using SortLaws0.
  intros Hok. unfold clean_sort_range.
  destruct (compact_spec (length l) l 0 (length l - 1)) as (l1 & -> & L & O & P & F); [done|lia|lia|lia| |].
  { intros j r Hj Hr. apply lookup_lt_Some in Hr. lia. }
  cbn [mbind option_bind]. rewrite <- L, (take_ge l1) by done. set (n := find_free l1).
  exists (sort_range sort l1 n), n. split; [done|]. unfold sort_range.
  assert (length (sort cmp_range (take n l1)) = length (take n l1)) as Hl by (by rewrite sort_perm).
  assert (n <= length l1)%nat as Hn.
  { unfold n. clear. induction l1 as [|r l IH]; cbn; [done|]. case_match; cbn; lia. }
  rewrite length_take, Nat.min_l in Hl by done.
  rewrite take_app_length', drop_app_length' by done. split_and!.
  - rewrite length_app, Hl, length_drop. lia.
  - by rewrite sort_perm, <- F, packed_used.
  - apply sort_range_sorted.
  - apply Forall_lookup. intros j q Hq. rewrite lookup_drop in Hq. apply lookup_lt_Some in Hq as Hlt.
    destruct (find_free_spec l1) as (r & Hr & Hr0); [fold n; lia|]. fold n in Hr.
    destruct (decide (j = 0)%nat) as [->|]; [rewrite Nat.add_0_r in Hq; congruence|].
    apply (P n (n + j)%nat r q); [lia|done..].
Qed.
End clean_sort.
