(* ===== verification/RangeClaims.v ===== *)
(** * Properties of the range arrays *)
From stdpp Require Import sorting.
From S2P Require Import Prelude Range RangeThms.

(** What [add_range_with_merge] leaves of the slots [used] and [free]: all of them
    when it is full and nothing meets the new range, else the new addresses
    covered too. *)
Definition merged (used free : list range) (start end_ : Z) (rs' : list range) (nr' : nat) : Prop :=
  length rs' = length (used ++ free) /\
  (rs' = used ++ free /\ nr' = length used /\ free = [] /\ Forall (fun r => meets start end_ r = false) used \/
   (forall x, covered (take nr' rs') x <-> covered used x \/ start <= x < end_) /\
   (separated used -> separated (take nr' rs'))).

Lemma add_range_with_merge_exact used free start end_ : 0 <= start < end_ ->
  exists rs' nr', add_range_with_merge (used ++ free) (length (used ++ free)) (length used) start end_ = Some (rs', nr') /\
    merged used free start end_ rs' nr'.
Proof.
  intros Hse. unfold merged. destruct (add_range_with_merge_spec used free (length (used ++ free)) start end_) as (kept & s' & e' & Ha & Hadd); [lia|done|].
  rewrite Hadd. pose proof (absorb_length [] used start end_) as Hl. pose proof (absorb_none used [] start end_) as Hno.
  pose proof (absorb_covered used [] start end_) as Hcov. pose proof (absorb_separated used [] start end_) as Hsep.
  rewrite Ha in Hl, Hno, Hcov, Hsep. cbn [length Nat.add app] in *. assert (length (used ++ free) = length used + length free)%nat as Hlen
    by apply length_app.
  case_bool_decide as Hroom; eexists _, _; (split; [done|]).
  - split; [rewrite length_app; cbn; rewrite length_drop, length_app, length_replicate; lia|]. right.
    assert (take (S (length kept)) (kept ++ mk_range s' e' :: drop 1 (replicate (length used - length kept) no_range ++ free))
      = kept ++ [mk_range s' e']) as ->.
    { rewrite cons_middle, app_assoc. apply take_app_length'. rewrite length_app. cbn. lia. }
    split.
    + intros x. destruct (Hcov x ltac:(lia)) as [_ Hx]. rewrite covered_app, covered_cons.
      unfold in_range at 1. cbn [rstart rend]. pose proof (covered_nil x). tauto.
    + intros Hs. by destruct (Hsep Hse Hs ltac:(constructor)).
  - split; [done|]. left. assert (length free = 0)%nat by lia. split; [done|]. split; [done|].
    split; [by destruct free|]. apply Hno. lia.
Qed.

Section subtract_sort.
Context (sort : (range -> range -> Z) -> list range -> list range) `{!SortLaws sort}.

(** No address is in two slots. *)
Definition disjoint_slots (rs : list range) : Prop :=
  forall i j ri rj x, rs !! i = Some ri -> rs !! j = Some rj -> i <> j -> in_range x ri -> ~ in_range x rj.

(** What subtracting and sorting leaves of [rs]; [full] when the slots ran out. *)
Definition subtracted (rs : list range) (start end_ : Z) (full : bool) (rs2 : list range) (nr : nat) : Prop :=
  length rs2 = length rs /\
  Forall (fun r => rend r <> 0) (take nr rs2) /\ Forall (fun r => rend r = 0) (drop nr rs2) /\
  StronglySorted (fun a b => rstart a <= rstart b) (take nr rs2) /\
  (forall x, covered (take nr rs2) x -> covered rs x /\ ~ start <= x < end_) /\
  (full = false -> forall x, covered rs x -> ~ start <= x < end_ -> covered (take nr rs2) x) /\
  (disjoint_slots rs -> Exists (fun r => rend r = 0) rs -> full = false).

Lemma subtract_then_sort_exact rs start end_ : Forall range_ok rs -> 0 <= start < end_ ->
  exists rs1 full rs2 nr, subtract_range rs (length rs) start end_ = Some (rs1, full) /\
    clean_sort_range sort rs1 (length rs1) = Some (rs2, nr) /\ subtracted rs start end_ full rs2 nr.
Proof using SortLaws0.
  intros Hok [Hs Hse]. unfold subtracted. unfold subtract_range. rewrite (proj2 (Z.leb_gt _ _)) by done.
  destruct (subtract_loop_spec start end_ Hs Hse (length rs) rs Hok) as (rs1 & full & H1 & L1 & O1 & F1 & U1 & X1); [done|lia|].
  destruct (clean_sort_range_spec sort rs1 O1) as (rs2 & nr & H2 & L2 & P2 & S2 & E2).
  exists rs1, full, rs2, nr. split; [done|]. split; [done|]. split; [lia|].
  assert (Forall (fun r => rend r <> 0) (take nr rs2)) as Hused.
  { rewrite P2. apply Forall_forall. intros r [Hr _]%list_elem_of_filter. exact Hr. }
  assert (filter used (take nr rs2) = take nr rs2) as Hfu.
  { clear -Hused. induction Hused as [|r l Hr _ IH]; [done|]. rewrite filter_cons_True by done. by rewrite IH. }
  assert (Forall range_ok (take nr rs2)) as Ht.
  { rewrite P2. apply Forall_forall. intros r [_ Hr]%list_elem_of_filter. by apply (proj1 (Forall_forall _ _) O1). }
  assert (forall x, covered (take nr rs2) x <-> covered rs1 x) as Hx.
  { intros x. split; apply used_covered; try done; rewrite Hfu, P2; done. }
  split; [done|]. split; [done|]. split; [done|]. split; [|split].
  - intros x Hc%Hx. by apply U1.
  - intros Hf x Hc Hn. apply Hx. by apply X1.
  - intros Hd Hfree. apply F1. right. split; [done|]. intros i j _ _ (ri & Hi & Hi1 & Hi2) (rj & Hj & Hj1 & Hj2).
    destruct (decide (i = j)) as [|Hne]; [done|]. exfalso.
    apply (Hd i j ri rj start Hi Hj Hne); unfold in_range; lia.
Qed.

(** C40. The range arrays change the addresses they cover exactly.
    [add_range_with_merge] on an array whose first slots are in use: unless the
    array is full and no range meets or touches the new one (then nothing
    changes), the slots in use afterwards cover exactly what they covered before
    and the new range, and if they were apart from each other they still are,
    although the loop looks at each slot once while the range grows.
    [subtract_range] followed by [clean_sort_range]: the slots counted are in
    use, ordered by their start, and cover nothing of the subtracted range and
    nothing that was not covered; unless [subtract_range] reported that it ran
    out of slots they cover everything else that was covered, and it does not
    run out when the slots are disjoint and one of them is free. *)
Theorem range_operations_exact start end_ : 0 <= start < end_ ->
  (forall used free,
   exists rs' nr', add_range_with_merge (used ++ free) (length (used ++ free)) (length used) start end_ = Some (rs', nr') /\
     merged used free start end_ rs' nr') /\
  (forall rs, Forall range_ok rs ->
   exists rs1 full rs2 nr, subtract_range rs (length rs) start end_ = Some (rs1, full) /\
     clean_sort_range sort rs1 (length rs1) = Some (rs2, nr) /\ subtracted rs start end_ full rs2 nr).
Proof using SortLaws0. intros H. split; intros; [by apply add_range_with_merge_exact | by apply subtract_then_sort_exact]. Qed.
End subtract_sort.

(** ** Instances *)

(** Sorting by merging, with the order the comparison gives. *)
Definition le_by (cmp : range -> range -> Z) (a b : range) : Prop := cmp a b <= 0.
#[export] Instance le_by_dec cmp : RelDecision (le_by cmp).
Proof. intros a b. unfold le_by. apply _. Defined.
Definition merge_by (cmp : range -> range -> Z) (l : list range) : list range := merge_sort (le_by cmp) l.

#[export] Instance merge_by_laws : SortLaws merge_by.
Proof.
  split.
  - intros cmp l. apply merge_sort_Permutation.
  - intros cmp l Ht Htr. assert (Transitive (le_by cmp)) by (intros a b c; apply Htr).
    assert (Total (le_by cmp)).
    { intros a b. destruct (Z.le_gt_cases (cmp a b) 0); [by left|right]. apply Ht. lia. }
    exact (StronglySorted_merge_sort (le_by cmp) l).
Qed.

Lemma range_operations_exact_witness :
  (exists rs' nr', add_range_with_merge [mk_range 10 20; mk_range 0 5; mk_range 30 40; no_range] 4 3 4 12 = Some (rs', nr') /\
    merged [mk_range 10 20; mk_range 0 5; mk_range 30 40] [no_range] 4 12 rs' nr') /\
  exists rs1 full rs2 nr, subtract_range [mk_range 10 20; no_range; mk_range 0 5] 3 4 12 = Some (rs1, full) /\
    clean_sort_range merge_by rs1 (length rs1) = Some (rs2, nr) /\
    subtracted [mk_range 10 20; no_range; mk_range 0 5] 4 12 full rs2 nr.
Proof.
  destruct (range_operations_exact merge_by 4 12) as [A S]; [lia|]. split.
  - apply (A [mk_range 10 20; mk_range 0 5; mk_range 30 40] [no_range]).
  - apply S. repeat (apply Forall_cons; split; [unfold range_ok; cbn; lia|]). by apply Forall_nil.
Defined.
