(* ===== verification/Bits.v ===== *)
(** * Bit operations on machine words

    Bit-level reasoning on 64-bit words, carries and borrows of sums and
    differences, and the "find last set" routines of
    [include/asm-generic/bitops]. *)
From S2P Require Import Prelude.

(** [~x] on a 64-bit word. *)
Definition not64 (x : Z) : Z := u64 (Z.lnot x).
#[global] Arguments not64 _ : simpl never.

(** [x << n] and [x >> n] on an unsigned 64-bit word, [n < 64]. *)
Definition shl64 (x n : Z) : Z := u64 (Z.shiftl x n).
Definition shr64 (x n : Z) : Z := Z.shiftr x n.
#[global] Arguments shl64 _ _ : simpl never.
#[global] Arguments shr64 _ _ : simpl never.

(** [__fls]: one halving step of the search, on a word of [64] bits. *)
Definition fls_step (k : Z) (s : Z * Z) : Z * Z :=
  let '(num, word) := s in
  if Z.land word (shl64 U64_MAX (64 - k)) =? 0 then (num - k, shl64 word k) else (num, word).

Definition __fls (word : Z) : Z :=
  let '(num, word) := fls_step 2 (fls_step 4 (fls_step 8 (fls_step 16 (fls_step 32 (63, word))))) in
  if Z.land word (shl64 U64_MAX 63) =? 0 then num - 1 else num.

Definition fls64 (x : Z) : Z := if x =? 0 then 0 else __fls x + 1.

(** [swab16], [swab32], [swab64] by number of bytes. *)
Fixpoint swab (n : nat) (x : Z) : Z :=
  match n with
  | O => 0
  | S m => (x mod 256) * 2 ^ (8 * Z.of_nat m) + swab m (x / 256)
  end.

(** ** Bits *)
Section bits.
Implicit Types x y z i n : Z.

Lemma testbit_u64 x i : 0 <= i -> Z.testbit (u64 x) i = (i <? 64) && Z.testbit x i.
Proof. intros Hi. unfold u64. apply Z.testbit_mod_pow2; lia. Qed.

Lemma testbit_u32 x i : 0 <= i -> Z.testbit (u32 x) i = (i <? 32) && Z.testbit x i.
Proof. intros Hi. unfold u32. apply Z.testbit_mod_pow2; lia. Qed.

Lemma is_u64_iff x : is_u64 x <-> u64 x = x.
Proof. split; cint. Qed.

Lemma is_u64_bits x : is_u64 x <-> forall i, 64 <= i -> Z.testbit x i = false.
Proof.
  rewrite is_u64_iff. split.
  - intros <- i Hi. rewrite testbit_u64 by lia. by destruct (Z.ltb_spec i 64); [lia|].
  - intros H. apply Z.bits_inj'. intros i Hi. rewrite testbit_u64 by lia.
    destruct (Z.ltb_spec i 64); [done|]. by rewrite H by lia.
Qed.

Lemma testbit_high x i : is_u64 x -> 64 <= i -> Z.testbit x i = false.
Proof. rewrite is_u64_bits. auto. Qed.

Lemma is_u64_land x y : is_u64 x -> is_u64 (Z.land x y).
Proof. rewrite !is_u64_bits. intros Hx i Hi. rewrite Z.land_spec, Hx by lia. done. Qed.
Lemma is_u64_land_r x y : is_u64 y -> is_u64 (Z.land x y).
Proof. rewrite Z.land_comm. apply is_u64_land. Qed.
Lemma is_u64_lor x y : is_u64 x -> is_u64 y -> is_u64 (Z.lor x y).
Proof. rewrite !is_u64_bits. intros Hx Hy i Hi. rewrite Z.lor_spec, Hx, Hy by lia. done. Qed.
Lemma is_u64_lxor x y : is_u64 x -> is_u64 y -> is_u64 (Z.lxor x y).
Proof. rewrite !is_u64_bits. intros Hx Hy i Hi. rewrite Z.lxor_spec, Hx, Hy by lia. done. Qed.
Lemma is_u64_ldiff x y : is_u64 x -> is_u64 (Z.ldiff x y).
Proof. rewrite !is_u64_bits. intros Hx i Hi. rewrite Z.ldiff_spec, Hx by lia. done. Qed.
Lemma is_u64_not64 x : is_u64 (not64 x). Proof. apply u64_range. Qed.
Lemma is_u64_shl64 x n : is_u64 (shl64 x n). Proof. apply u64_range. Qed.
Lemma is_u64_shr64 x n : 0 <= n -> is_u64 x -> is_u64 (shr64 x n).
Proof.
  rewrite !is_u64_bits. intros Hn Hx i Hi. unfold shr64. rewrite Z.shiftr_spec by lia. apply Hx. lia.
Qed.
Lemma is_u64_0 : is_u64 0. Proof. cint. Qed.
Lemma is_u64_max : is_u64 U64_MAX. Proof. cint. Qed.

Lemma testbit_not64 x i : 0 <= i -> Z.testbit (not64 x) i = (i <? 64) && negb (Z.testbit x i).
Proof. intros Hi. unfold not64. rewrite testbit_u64, Z.lnot_spec by lia. done. Qed.

Lemma testbit_shl64 x n i :
  0 <= i -> 0 <= n -> Z.testbit (shl64 x n) i = (i <? 64) && ((n <=? i) && Z.testbit x (i - n)).
Proof.
  intros Hi Hn. unfold shl64. rewrite testbit_u64, Z.shiftl_spec by lia.
  destruct (Z.leb_spec n i); cbn; [done|]. rewrite Z.testbit_neg_r by lia. done.
Qed.

Lemma testbit_shr64 x n i : 0 <= i -> Z.testbit (shr64 x n) i = Z.testbit x (i + n).
Proof. intros Hi. unfold shr64. by apply Z.shiftr_spec. Qed.

Lemma U64_MAX_ones : U64_MAX = Z.ones 64. Proof. reflexivity. Qed.

Lemma testbit_ones_nonneg n i : 0 <= n -> 0 <= i -> Z.testbit (Z.ones n) i = (i <? n).
Proof. intros Hn Hi. rewrite Z.testbit_ones by lia. destruct (Z.leb_spec 0 i); [done|lia]. Qed.

Lemma testbit_U64_MAX i : 0 <= i -> Z.testbit U64_MAX i = (i <? 64).
Proof. intros. rewrite U64_MAX_ones. by apply testbit_ones_nonneg. Qed.

(** Bitwise inclusion of non-negative words. *)
Definition subbits (x y : Z) : Prop := forall i, 0 <= i -> Z.testbit x i = true -> Z.testbit y i = true.

Lemma subbits_ldiff x y : subbits x y -> Z.ldiff x y = 0.
Proof.
  intros H. apply Z.bits_inj'. intros i Hi. rewrite Z.ldiff_spec, Z.bits_0.
  specialize (H i Hi). destruct (Z.testbit x i); [by rewrite H|done].
Qed.

Lemma subbits_le x y : 0 <= y -> subbits x y -> 0 <= x <= y.
Proof. intros Hy H%subbits_ldiff. by apply Z.ldiff_le. Qed.

Lemma subbits_mod x y n : 0 <= n -> subbits x y -> subbits (x mod 2 ^ n) (y mod 2 ^ n).
Proof.
  intros Hn H i Hi. rewrite !Z.testbit_mod_pow2 by lia.
  destruct (i <? n); cbn; [by apply H|done].
Qed.

Lemma subbits_mod_le x y n : 0 <= n -> subbits x y -> x mod 2 ^ n <= y mod 2 ^ n.
Proof.
  intros Hn H. assert (0 < 2 ^ n) by (apply Z.pow_pos_nonneg; lia).
  apply subbits_le; [apply Z.mod_pos_bound; lia|]. by apply subbits_mod.
Qed.

(** ** Carries and borrows *)

(** Carry into bit [i] of [x + y], borrow into bit [i] of [x - y]. *)
Definition carry (i x y : Z) : bool := 2 ^ i <=? x mod 2 ^ i + y mod 2 ^ i.
Definition borrow (i x y : Z) : bool := x mod 2 ^ i <? y mod 2 ^ i.

Lemma div_split x i : 0 <= i -> exists q r, x = 2 ^ i * q + r /\ 0 <= r < 2 ^ i /\ x / 2 ^ i = q /\ x mod 2 ^ i = r.
Proof.
  intros Hi. assert (0 < 2 ^ i) by (apply Z.pow_pos_nonneg; lia).
  exists (x / 2 ^ i), (x mod 2 ^ i). pose proof (Z.div_mod x (2 ^ i) ltac:(lia)).
  pose proof (Z.mod_pos_bound x (2 ^ i) ltac:(lia)). done.
Qed.

Lemma div_exact q r p : 0 <= r < p -> (p * q + r) / p = q.
Proof. intros. symmetry. apply (Z.div_unique _ _ _ r); [left; lia|lia]. Qed.

Lemma testbit_div x i : 0 <= i -> Z.testbit x i = Z.odd (x / 2 ^ i).
Proof. intros Hi. by rewrite Z.testbit_odd, Z.shiftr_div_pow2 by lia. Qed.

Lemma testbit_add x y i :
  0 <= i -> Z.testbit (x + y) i = xorb (xorb (Z.testbit x i) (Z.testbit y i)) (carry i x y).
Proof.
  intros Hi. rewrite !testbit_div by done. unfold carry.
  destruct (div_split x i Hi) as (q & r & Hx & Hr & -> & ->).
  destruct (div_split y i Hi) as (q' & r' & Hy & Hr' & -> & ->). subst x y.
  destruct (Z.leb_spec (2 ^ i) (r + r')).
  - replace (2 ^ i * q + r + (2 ^ i * q' + r')) with (2 ^ i * (q + q' + 1) + (r + r' - 2 ^ i)) by lia.
    rewrite div_exact by lia. by rewrite !Z.odd_add.
  - replace (2 ^ i * q + r + (2 ^ i * q' + r')) with (2 ^ i * (q + q') + (r + r')) by lia.
    rewrite div_exact by lia. by rewrite !Z.odd_add, xorb_false_r.
Qed.

Lemma testbit_sub x y i :
  0 <= i -> Z.testbit (x - y) i = xorb (xorb (Z.testbit x i) (Z.testbit y i)) (borrow i x y).
Proof.
  intros Hi. rewrite !testbit_div by done. unfold borrow.
  destruct (div_split x i Hi) as (q & r & Hx & Hr & -> & ->).
  destruct (div_split y i Hi) as (q' & r' & Hy & Hr' & -> & ->). subst x y.
  destruct (Z.ltb_spec r r').
  - replace (2 ^ i * q + r - (2 ^ i * q' + r')) with (2 ^ i * (q - q' - 1) + (r - r' + 2 ^ i)) by lia.
    rewrite div_exact by lia. by rewrite !Z.odd_sub.
  - replace (2 ^ i * q + r - (2 ^ i * q' + r')) with (2 ^ i * (q - q') + (r - r')) by lia.
    rewrite div_exact by lia. by rewrite !Z.odd_sub, xorb_false_r.
Qed.

Lemma carry_mono i x y x' y' :
  0 <= i -> subbits x x' -> subbits y y' -> carry i x y = true -> carry i x' y' = true.
Proof.
  intros Hi Hx Hy. unfold carry. rewrite !Z.leb_le.
  pose proof (subbits_mod_le _ _ _ Hi Hx). pose proof (subbits_mod_le _ _ _ Hi Hy). lia.
Qed.

Lemma borrow_mono i x y x' y' :
  0 <= i -> subbits x' x -> subbits y y' -> borrow i x y = true -> borrow i x' y' = true.
Proof.
  intros Hi Hx Hy. unfold borrow. rewrite !Z.ltb_lt.
  pose proof (subbits_mod_le _ _ _ Hi Hx). pose proof (subbits_mod_le _ _ _ Hi Hy). lia.
Qed.

Lemma add_lor_disjoint x y : Z.land x y = 0 -> x + y = Z.lor x y.
Proof. intros H. rewrite Z.add_nocarry_lxor by done. by rewrite Z.lxor_lor. Qed.

(** ** [__fls] *)

Lemma land_high_zero word k :
  is_u64 word -> 0 <= k <= 64 -> Z.land word (shl64 U64_MAX (64 - k)) = 0 <-> word < 2 ^ (64 - k).
Proof.
  intros Hw Hk. split; intros H.
  - assert (Hs : Z.shiftr word (64 - k) = 0).
    { apply Z.bits_inj'. intros i Hi. rewrite Z.shiftr_spec, Z.bits_0 by lia.
      apply (f_equal (fun z => Z.testbit z (i + (64 - k)))) in H.
      rewrite Z.land_spec, Z.bits_0, testbit_shl64, testbit_U64_MAX in H by lia.
      destruct (Z.ltb_spec (i + (64 - k)) 64); [|apply testbit_high; [done|lia]].
      destruct (Z.leb_spec (64 - k) (i + (64 - k))); [|lia]. cbn in H.
      destruct (Z.ltb_spec (i + (64 - k) - (64 - k)) 64); [|lia]. by rewrite andb_true_r in H. }
    rewrite Z.shiftr_div_pow2 in Hs by lia. apply Z.div_small_iff in Hs; [|lia]. destruct Hw. lia.
  - apply Z.bits_inj'. intros i Hi. rewrite Z.land_spec, Z.bits_0, testbit_shl64 by lia.
    destruct (Z.leb_spec (64 - k) i); [|by rewrite andb_false_r, andb_false_r].
    destruct Hw. assert (Hz : Z.testbit word i = false); [|by rewrite Hz].
    destruct (decide (word = 0)) as [->|]; [apply Z.bits_0|].
    apply Z.bits_above_log2; [lia|]. apply Z.log2_lt_pow2; [lia|].
    apply (Z.lt_le_trans _ _ _ H). apply Z.pow_le_mono_r; lia.
Qed.

(** What the search keeps: the word has been shifted by [63 - num], and its top
    bit is among the [m] highest ones. *)
Definition fls_inv (x m : Z) (s : Z * Z) : Prop :=
  0 < s.2 < 2 ^ 64 /\ Z.log2 s.2 = Z.log2 x + (63 - s.1) /\ 64 - m <= Z.log2 s.2.

Lemma log2_lt_iff w n : 0 < w -> 0 <= n -> w < 2 ^ n <-> Z.log2 w < n.
Proof. intros. by apply Z.log2_lt_pow2. Qed.

Lemma fls_step_inv x k s : 0 < k <= 32 -> fls_inv x (2 * k) s -> fls_inv x k (fls_step k s).
Proof.
  destruct s as [num word]. intros Hk (Hw & Hlog & Hm). cbn [fst snd] in *. unfold fls_step.
  destruct (Z.eqb_spec (Z.land word (shl64 U64_MAX (64 - k))) 0) as [Hz|Hz];
    rewrite land_high_zero in Hz by (unfold is_u64; lia).
  - assert (Hsh : shl64 word k = word * 2 ^ k).
    { unfold shl64. rewrite Z.shiftl_mul_pow2 by lia. apply u64_id. unfold is_u64.
      replace 64 with ((64 - k) + k) by lia. rewrite Z.pow_add_r by lia. nia. }
    unfold fls_inv. cbn [fst snd]. rewrite Hsh, Z.log2_mul_pow2 by lia.
    split; [|split; lia]. replace 64 with ((64 - k) + k) by lia. rewrite Z.pow_add_r by lia. nia.
  - unfold fls_inv. cbn [fst snd]. rewrite log2_lt_iff in Hz by lia. repeat split; lia.
Qed.

(** [__fls] finds the position of the highest set bit. *)
Lemma fls_spec x : 0 < x < 2 ^ 64 -> __fls x = Z.log2 x.
Proof.
  intros Hx. assert (Hi : fls_inv x (2 * 32) (63, x)).
  { repeat split; cbn [fst snd]; try lia. pose proof (Z.log2_nonneg x). lia. }
  pose proof (fls_step_inv x 2 _ ltac:(lia) (fls_step_inv x 4 _ ltac:(lia) (fls_step_inv x 8 _ ltac:(lia)
    (fls_step_inv x 16 _ ltac:(lia) (fls_step_inv x 32 _ ltac:(lia) Hi))))) as Hf.
  unfold __fls. destruct (fls_step 2 _) as [num word]. destruct Hf as (Hw & Hlog & Hm). cbn [fst snd] in *.
  assert (Z.log2 word < 64) by (apply log2_lt_iff; lia).
  destruct (Z.eqb_spec (Z.land word (shl64 U64_MAX 63)) 0) as [Hz|Hz];
    rewrite (land_high_zero word 1), log2_lt_iff in Hz by (unfold is_u64; lia); lia.
Qed.

Lemma fls64_bound x : is_u64 x -> x < 2 ^ fls64 x /\ 0 <= fls64 x <= 64.
Proof.
  intros Hx. unfold fls64. destruct (Z.eqb_spec x 0) as [->|]; [done|].
  unfold is_u64 in Hx. rewrite fls_spec by lia. pose proof (Z.log2_spec x ltac:(lia)).
  assert (Z.log2 x < 64) by (apply log2_lt_iff; lia). pose proof (Z.log2_nonneg x).
  rewrite Z.add_1_r. lia.
Qed.
End bits.

#[export] Hint Resolve is_u64_land is_u64_land_r is_u64_lor is_u64_lxor is_u64_ldiff is_u64_not64
  is_u64_shl64 is_u64_shr64 is_u64_0 is_u64_max : cint.
