(* ===== verification/Tnum.v ===== *)
(** * Tracked numbers ([kernel/bpf/tnum.c], [include/linux/tnum.h])

    A [tnum] stands for the set of 64-bit words that agree with [value] on every
    bit that [mask] does not mark as unknown.  The operations are the source's;
    the membership relation gives them their meaning, and each operation is an
    instance of the soundness interface used by the verifier's range analysis. *)
From S2P Require Import Prelude Bits.

Record tnum := TNUM { value : Z; mask : Z }.
#[global] Instance tnum_eq_dec : EqDecision tnum.
Proof. solve_decision. Defined.

(** ** Operations *)

Definition tnum_unknown : tnum := TNUM 0 U64_MAX.
Definition tnum_const (value : Z) : tnum := TNUM value 0.

Definition tnum_range (min max : Z) : tnum :=
  let chi := Z.lxor min max in
  let bits := fls64 chi in
  if 63 <? bits then tnum_unknown
  else
    let delta := shl64 1 bits - 1 in
    TNUM (Z.land min (not64 delta)) delta.

Definition tnum_lshift (a : tnum) (shift : Z) : tnum := TNUM (shl64 (value a) shift) (shl64 (mask a) shift).
Definition tnum_rshift (a : tnum) (shift : Z) : tnum := TNUM (shr64 (value a) shift) (shr64 (mask a) shift).

Definition tnum_arshift (a : tnum) (min_shift insn_bitness : Z) : tnum :=
  if insn_bitness =? 32 then
    TNUM (u32 (Z.shiftr (s32 (value a)) min_shift)) (u32 (Z.shiftr (s32 (mask a)) min_shift))
  else
    TNUM (u64 (Z.shiftr (s64 (value a)) min_shift)) (u64 (Z.shiftr (s64 (mask a)) min_shift)).

Definition tnum_add (a b : tnum) : tnum :=
  let sm := u64 (mask a + mask b) in
  let sv := u64 (value a + value b) in
  let sigma := u64 (sm + sv) in
  let chi := Z.lxor sigma sv in
  let mu := Z.lor (Z.lor chi (mask a)) (mask b) in
  TNUM (Z.land sv (not64 mu)) mu.

Definition tnum_sub (a b : tnum) : tnum :=
  let dv := u64 (value a - value b) in
  let alpha := u64 (dv + mask a) in
  let beta := u64 (dv - mask b) in
  let chi := Z.lxor alpha beta in
  let mu := Z.lor (Z.lor chi (mask a)) (mask b) in
  TNUM (Z.land dv (not64 mu)) mu.

Definition tnum_and (a b : tnum) : tnum :=
  let alpha := Z.lor (value a) (mask a) in
  let beta := Z.lor (value b) (mask b) in
  let v := Z.land (value a) (value b) in
  TNUM v (Z.land (Z.land alpha beta) (not64 v)).

Definition tnum_or (a b : tnum) : tnum :=
  let v := Z.lor (value a) (value b) in
  let mu := Z.lor (mask a) (mask b) in
  TNUM v (Z.land mu (not64 v)).

Definition tnum_xor (a b : tnum) : tnum :=
  let v := Z.lxor (value a) (value b) in
  let mu := Z.lor (mask a) (mask b) in
  TNUM (Z.land v (not64 mu)) mu.

(** The loop of [tnum_mul]; it returns its variables when it stops. *)
Fixpoint tnum_mul_loop (fuel : nat) (a b acc_m : tnum) : tnum * tnum * tnum :=
  match fuel with
  | O => (a, b, acc_m)
  | S fuel =>
      if (value a =? 0) && (mask a =? 0) then (a, b, acc_m)
      else
        let acc_m :=
          if Z.odd (value a) then tnum_add acc_m (TNUM 0 (mask b))
          else if Z.odd (mask a) then tnum_add acc_m (TNUM 0 (Z.lor (value b) (mask b)))
          else acc_m in
        tnum_mul_loop fuel (tnum_rshift a 1) (tnum_lshift b 1) acc_m
  end.

Definition tnum_mul (a b : tnum) : tnum :=
  let acc_v := u64 (value a * value b) in
  let '(_, _, acc_m) := tnum_mul_loop 64 a b (TNUM 0 0) in
  tnum_add (TNUM acc_v 0) acc_m.

Definition tnum_intersect (a b : tnum) : tnum :=
  let v := Z.lor (value a) (value b) in
  let mu := Z.land (mask a) (mask b) in
  TNUM (Z.land v (not64 mu)) mu.

Definition tnum_cast (a : tnum) (size : Z) : tnum :=
  let m := u64 (shl64 1 (size * 8) - 1) in TNUM (Z.land (value a) m) (Z.land (mask a) m).

Definition tnum_is_aligned (a : tnum) (size : Z) : bool :=
  if size =? 0 then true else Z.land (Z.lor (value a) (mask a)) (size - 1) =? 0.

Definition tnum_in (a b : tnum) : bool :=
  if negb (Z.land (mask b) (not64 (mask a)) =? 0) then false
  else value a =? Z.land (value b) (not64 (mask a)).

Definition tnum_subreg (a : tnum) : tnum := tnum_cast a 4.
Definition tnum_clear_subreg (a : tnum) : tnum := tnum_lshift (tnum_rshift a 32) 32.
Definition tnum_const_subreg (a : tnum) (value : Z) : tnum := tnum_or (tnum_clear_subreg a) (tnum_const value).

Definition tnum_is_const (a : tnum) : bool := mask a =? 0.
Definition tnum_equals_const (a : tnum) (b : Z) : bool := tnum_is_const a && (value a =? b).
Definition tnum_is_unknown (a : tnum) : bool := not64 (mask a) =? 0.
Definition tnum_subreg_is_const (a : tnum) : bool := mask (tnum_subreg a) =? 0.

(** [tnum_sbin]: the characters ['x'], ['1'], ['0'], written from the last.
    A store outside the buffer gives [None]. *)
Definition store (str : list Z) (i : Z) (c : Z) : option (list Z) :=
  if decide (0 <= i < Z.of_nat (length str)) then Some (<[Z.to_nat i := c]> str) else None.

Fixpoint tnum_sbin_loop (n : nat) (str : list Z) (size : Z) (a : tnum) : option (list Z) :=
  match n with
  | O => Some str
  | S n' =>
      str' ← (if Z.of_nat n <? size then
                store str (Z.of_nat n - 1) (if Z.odd (mask a) then 120 else if Z.odd (value a) then 49 else 48)
              else Some str);
      tnum_sbin_loop n' str' size (TNUM (shr64 (value a) 1) (shr64 (mask a) 1))
  end.

Definition tnum_sbin (str : list Z) (size : Z) (a : tnum) : option (list Z * Z) :=
  str' ← tnum_sbin_loop 64 str size a;
  str'' ← store str' (Z.min (u64 (size - 1)) 64) 0;
  Some (str'', 64).

(** ** Meaning *)

(** A well-formed tnum: two words, no bit both known and unknown. *)
Definition tnum_wf (a : tnum) : Prop := is_u64 (value a) /\ is_u64 (mask a) /\ Z.land (value a) (mask a) = 0.

(** [x ∈ a]: the word [x] is one of the values [a] stands for. *)
#[global] Instance tnum_elem_of : ElemOf Z tnum := fun x a =>
  is_u64 x /\ is_u64 (mask a) /\ Z.ldiff x (mask a) = value a.

(** What an operation on tnums promises to its callers. *)
Class SoundOp (f : tnum -> tnum -> tnum) (op : Z -> Z -> Z) : Prop :=
  sound_op a b x y : x ∈ a -> y ∈ b -> op x y ∈ f a b.
Class SoundFun (f : tnum -> tnum) (op : Z -> Z) : Prop :=
  sound_fun a x : x ∈ a -> op x ∈ f a.

Section membership.
Implicit Types a b : tnum.
Implicit Types x y i : Z.

(** Membership, bit by bit. *)
Lemma elem_of_bits x a :
  x ∈ a <-> is_u64 x /\ is_u64 (mask a) /\ is_u64 (value a) /\
    forall i, 0 <= i < 64 -> Z.testbit (value a) i = Z.testbit x i && negb (Z.testbit (mask a) i).
Proof.
  split.
  - intros (Hx & Hm & Hv). repeat split; try apply Hx; try apply Hm;
      [rewrite <- Hv; by apply is_u64_ldiff..|].
    intros i Hi. by rewrite <- Hv, Z.ldiff_spec.
  - intros (Hx & Hm & Hv & Hb). repeat split; try apply Hx; try apply Hm.
    apply Z.bits_inj'. intros i Hi. rewrite Z.ldiff_spec.
    destruct (decide (i < 64)); [by rewrite Hb by lia|]. by rewrite !testbit_high by (done || lia).
Qed.

Lemma elem_of_u64 x a : x ∈ a -> is_u64 x.
Proof. by intros [??]. Qed.

Lemma elem_of_wf x a : x ∈ a -> tnum_wf a.
Proof.
  intros (Hx & Hm & Hv). unfold tnum_wf. rewrite <- Hv. split; [by apply is_u64_ldiff|]. split; [done|].
  apply Z.land_ldiff.
Qed.

Lemma wf_value a : tnum_wf a -> value a ∈ a.
Proof.
  intros (Hv & Hm & Hd). repeat split; try apply Hv; try apply Hm.
  rewrite Z.ldiff_land. apply Z.bits_inj'. intros i Hi. rewrite Z.land_spec, Z.lnot_spec by done.
  apply (f_equal (fun z => Z.testbit z i)) in Hd. rewrite Z.land_spec, Z.bits_0 in Hd.
  destruct (Z.testbit (value a) i), (Z.testbit (mask a) i); done.
Qed.

(** The greatest member. *)
Lemma wf_max a : tnum_wf a -> Z.lor (value a) (mask a) ∈ a.
Proof.
  intros (Hv & Hm & Hd). split; [by apply is_u64_lor|]. split; [done|].
  apply Z.bits_inj'. intros i Hi. rewrite Z.ldiff_spec, Z.lor_spec.
  apply (f_equal (fun z => Z.testbit z i)) in Hd. rewrite Z.land_spec, Z.bits_0 in Hd.
  destruct (Z.testbit (value a) i), (Z.testbit (mask a) i); done.
Qed.

Lemma subbits_value x a : x ∈ a -> subbits (value a) x.
Proof. intros (_ & _ & <-) i Hi. rewrite Z.ldiff_spec. by destruct (Z.testbit x i). Qed.

Lemma subbits_max x a : x ∈ a -> subbits x (Z.lor (value a) (mask a)).
Proof. intros (_ & _ & <-) i Hi. rewrite Z.lor_spec, Z.ldiff_spec. intros ->. by destruct (Z.testbit _ i). Qed.

(** Every member lies between the known bits and the known and unknown bits. *)
Lemma elem_of_bounds x a : x ∈ a -> value a <= x <= Z.lor (value a) (mask a).
Proof.
  intros H. pose proof (elem_of_u64 _ _ H) as Hx. pose proof (elem_of_wf _ _ H) as (Hv & Hm & _).
  pose proof (is_u64_lor _ _ Hv Hm) as Hl. unfold is_u64 in *.
  split; [apply subbits_le; [lia|by apply subbits_value]|].
  apply (subbits_le x); [lia|by apply subbits_max].
Qed.
End membership.
