(* ===== verification/TnumThms.v ===== *)
(** * Tracked numbers: every operation is sound

    One instance of the soundness interface per operation of [tnum.c]; the
    carry arguments for sum and difference, and the loop invariant of the
    product. *)
From S2P Require Import Prelude Bits Tnum.

(** Bits of an expression, at an index known to be in the word. *)
Ltac bit_rewrite :=
  repeat (progress rewrite ?Z.land_spec, ?Z.lor_spec, ?Z.lxor_spec, ?Z.ldiff_spec, ?testbit_not64,
    ?testbit_u64, ?Z.bits_0 by lia).

(** Membership in the result, bit by bit, from the bits of the operands. *)
Ltac mem_bits :=
  repeat match goal with H : _ ∈ _ |- _ => apply elem_of_bits in H as (? & ? & ? & ?) end;
  apply elem_of_bits; cbv delta [tnum_and tnum_or tnum_xor tnum_intersect tnum_unknown tnum_cast tnum_lshift tnum_rshift] beta zeta; cbn [value mask]; split; [|split; [|split]];
  [eauto with cint..|
   intros i Hi; bit_rewrite; destruct (Z.ltb_spec i 64) as [_|?]; [|lia];
   repeat match goal with H : forall i, 0 <= i < 64 -> _ |- _ => specialize (H i Hi); rewrite ?H end].

(** Rewrites with what is known of bit [i]. *)
Ltac known_bits i :=
  repeat match goal with H : Z.testbit (value _) i = _ |- _ => rewrite H; clear H end.

Section bitwise.
Implicit Types a b : tnum.
Implicit Types x y : Z.

Lemma elem_of_unknown x : is_u64 x -> x ∈ tnum_unknown.
Proof.
  intros Hx. mem_bits. rewrite testbit_U64_MAX by lia.
  destruct (Z.ltb_spec i 64); [|lia]. by rewrite andb_false_r.
Qed.

Lemma elem_of_const x y : is_u64 x -> y ∈ tnum_const x <-> y = x.
Proof.
  intros Hx. split.
  - intros (_ & _ & H). cbn in H. by rewrite Z.ldiff_0_r in H.
  - intros ->. split; [done|]. split; [apply is_u64_0|apply Z.ldiff_0_r].
Qed.

#[global] Instance tnum_and_sound : SoundOp tnum_and Z.land.
Proof. intros a b x y Ha Hb. mem_bits. btauto. Qed.

#[global] Instance tnum_or_sound : SoundOp tnum_or Z.lor.
Proof. intros a b x y Ha Hb. mem_bits. btauto. Qed.

#[global] Instance tnum_xor_sound : SoundOp tnum_xor Z.lxor.
Proof. intros a b x y Ha Hb. mem_bits. btauto. Qed.

(** A word that both tnums allow is allowed by their intersection. *)
Lemma tnum_intersect_sound a b x : x ∈ a -> x ∈ b -> x ∈ tnum_intersect a b.
Proof. intros Ha Hb. mem_bits. btauto. Qed.
End bitwise.

(** ** Sum and difference *)
Section arith.
Implicit Types a b : tnum.
Implicit Types x y i : Z.

Lemma wf_sum a : tnum_wf a -> value a + mask a = Z.lor (value a) (mask a).
Proof. intros (_ & _ & Hd). by apply add_lor_disjoint. Qed.

Lemma u64_sum4 p q r s : u64 (u64 (p + q) + u64 (r + s)) = u64 ((r + p) + (s + q)).
Proof. rewrite u64_add_l, u64_add_r. f_equal. lia. Qed.

(** The carries of the sum lie between those of the least and of the greatest
    operands, so a bit where these agree is the same for all operands. *)
#[global] Instance tnum_add_sound : SoundOp tnum_add (fun x y => u64 (x + y)).
Proof.
  intros a b x y Ha Hb.
  pose proof (wf_sum a (elem_of_wf _ _ Ha)) as Hsa. pose proof (wf_sum b (elem_of_wf _ _ Hb)) as Hsb.
  pose proof (subbits_value _ _ Ha) as Hla. pose proof (subbits_max _ _ Ha) as Hha.
  pose proof (subbits_value _ _ Hb) as Hlb. pose proof (subbits_max _ _ Hb) as Hhb.
  unfold tnum_add. rewrite u64_sum4, Hsa, Hsb. mem_bits.
  rewrite !testbit_add by lia. bit_rewrite.
  pose proof (carry_mono i _ _ _ _ ltac:(lia) Hla Hlb) as Hc1.
  pose proof (carry_mono i _ _ _ _ ltac:(lia) Hha Hhb) as Hc2.
  known_bits i.
  destruct (carry i (value a) (value b)), (carry i x y), (carry i (Z.lor _ _) (Z.lor _ _)); try (by specialize (Hc1 eq_refl));
    try (by specialize (Hc2 eq_refl)); btauto.
Qed.

Lemma u64_diff p q r : u64 (u64 (p - q) + r) = u64 ((p + r) - q).
Proof. rewrite u64_add_l. f_equal. lia. Qed.
Lemma u64_diff' p q r : u64 (u64 (p - q) - r) = u64 (p - (q + r)).
Proof. cint. Qed.

#[global] Instance tnum_sub_sound : SoundOp tnum_sub (fun x y => u64 (x - y)).
Proof.
  intros a b x y Ha Hb.
  pose proof (wf_sum a (elem_of_wf _ _ Ha)) as Hsa. pose proof (wf_sum b (elem_of_wf _ _ Hb)) as Hsb.
  pose proof (subbits_value _ _ Ha) as Hla. pose proof (subbits_max _ _ Ha) as Hha.
  pose proof (subbits_value _ _ Hb) as Hlb. pose proof (subbits_max _ _ Hb) as Hhb.
  assert (Hma : subbits (value a) (Z.lor (value a) (mask a))) by (intros j Hj; rewrite Z.lor_spec; by intros ->).
  assert (Hmb : subbits (value b) (Z.lor (value b) (mask b))) by (intros j Hj; rewrite Z.lor_spec; by intros ->).
  assert (Hrefl : forall z, subbits z z) by (by intros z j Hj).
  unfold tnum_sub. rewrite u64_diff, u64_diff', Hsa, Hsb. mem_bits.
  rewrite !testbit_sub by lia. bit_rewrite.
  pose proof (borrow_mono i _ _ _ _ ltac:(lia) Hha Hlb) as Hc1.
  pose proof (borrow_mono i _ _ _ _ ltac:(lia) Hla Hhb) as Hc2.
  pose proof (borrow_mono i _ _ _ _ ltac:(lia) Hma (Hrefl (value b))) as Hc3.
  pose proof (borrow_mono i _ _ _ _ ltac:(lia) (Hrefl (value a)) Hmb) as Hc4.
  known_bits i.
  destruct (borrow i (value a) (value b)), (borrow i x y), (borrow i (Z.lor _ _) (value b)),
    (borrow i (value a) (Z.lor _ _)); try (by specialize (Hc1 eq_refl)); try (by specialize (Hc2 eq_refl));
    try (by specialize (Hc3 eq_refl)); try (by specialize (Hc4 eq_refl)); btauto.
Qed.

(** ** Shifts, casts and ranges *)

Lemma tnum_rshift_sound n : 0 <= n -> SoundFun (fun a => tnum_rshift a n) (fun x => shr64 x n).
Proof.
  intros Hn a x Ha. apply elem_of_bits in Ha as (Hx & Hm & Hv & Hb). apply elem_of_bits. cbn [value mask tnum_rshift].
  split; [|split; [|split]]; [eauto with cint..|]. intros i Hi. rewrite !testbit_shr64 by lia.
  destruct (decide (i + n < 64)); [apply Hb; lia|]. by rewrite !testbit_high by (done || lia).
Qed.

Lemma tnum_lshift_sound n : 0 <= n -> SoundFun (fun a => tnum_lshift a n) (fun x => shl64 x n).
Proof.
  intros Hn a x Ha. apply elem_of_bits in Ha as (Hx & Hm & Hv & Hb). apply elem_of_bits. cbn [value mask tnum_lshift].
  split; [|split; [|split]]; [eauto with cint..|]. intros i Hi. rewrite !testbit_shl64 by lia.
  destruct (Z.leb_spec n i), (Z.ltb_spec i 64); cbn; try lia; try done. apply Hb. lia.
Qed.

Lemma shl64_1 n : 0 <= n < 64 -> shl64 1 n - 1 = Z.ones n.
Proof.
  intros Hn. unfold shl64. rewrite Z.shiftl_1_l, u64_id.
  - rewrite Z.ones_equiv. lia.
  - split; [lia|]. apply Z.pow_lt_mono_r; lia.
Qed.

Lemma is_u64_ones n : 0 <= n <= 64 -> is_u64 (Z.ones n).
Proof.
  intros Hn. rewrite Z.ones_equiv. assert (2 ^ n <= 2 ^ 64) by (apply Z.pow_le_mono_r; lia).
  assert (0 < 2 ^ n) by (apply Z.pow_pos_nonneg; lia). unfold is_u64. lia.
Qed.

Lemma cast_mask size : 0 <= size < 8 -> u64 (shl64 1 (size * 8) - 1) = Z.ones (size * 8).
Proof. intros Hs. rewrite shl64_1 by lia. apply u64_id, is_u64_ones. lia. Qed.

Lemma tnum_cast_sound size : 0 <= size < 8 -> SoundFun (fun a => tnum_cast a size) (fun x => x mod 2 ^ (size * 8)).
Proof.
  intros Hs a x Ha. unfold tnum_cast. rewrite cast_mask by done.
  apply elem_of_bits in Ha as (Hx & Hm & Hv & Hb). apply elem_of_bits. cbn [value mask].
  rewrite <- Z.land_ones by lia. split; [|split; [|split]]; [eauto with cint..|].
  intros i Hi. bit_rewrite. rewrite Hb by done. btauto.
Qed.

Lemma tnum_range_sound min max x :
  is_u64 min -> is_u64 max -> min <= x <= max -> x ∈ tnum_range min max.
Proof.
  intros Hmin Hmax Hx. assert (Hxu : is_u64 x) by (unfold is_u64 in *; lia).
  unfold tnum_range. set (bits := fls64 (Z.lxor min max)).
  destruct (fls64_bound (Z.lxor min max) ltac:(eauto with cint)) as [Hchi Hbits]. fold bits in Hchi, Hbits.
  destruct (Z.ltb_spec 63 bits); [by apply elem_of_unknown|]. rewrite shl64_1 by lia.
  assert (Heq : forall i, bits <= i -> Z.testbit x i = Z.testbit min i).
  { assert (Hs : Z.shiftr min bits = Z.shiftr max bits).
    { apply Z.lxor_eq. rewrite <- Z.shiftr_lxor, Z.shiftr_div_pow2 by lia. apply Z.div_small.
      split; [|done]. rewrite Z.lxor_nonneg. unfold is_u64 in *. lia. }
    rewrite !Z.shiftr_div_pow2 in Hs by lia.
    assert (Hxd : x / 2 ^ bits = min / 2 ^ bits).
    { assert (0 < 2 ^ bits) by (apply Z.pow_pos_nonneg; lia).
      pose proof (Z.div_le_mono min x (2 ^ bits)). pose proof (Z.div_le_mono x max (2 ^ bits)). lia. }
    intros i Hi. replace i with ((i - bits) + bits) by lia.
    rewrite <- !Z.shiftr_spec, !Z.shiftr_div_pow2 by lia. by rewrite Hxd. }
  apply elem_of_bits. cbn [value mask]. assert (is_u64 (Z.ones bits)) by (apply is_u64_ones; lia).
  split; [|split; [|split]]; [eauto with cint..|].
  intros i Hi. bit_rewrite. rewrite testbit_ones_nonneg by lia.
  destruct (Z.ltb_spec i bits), (Z.ltb_spec i 64); cbn; try lia; rewrite ?Heq by lia; btauto.
Qed.
End arith.

(** ** Product *)
Section product.
Implicit Types a b acc : tnum.
Implicit Types x y z : Z.

Lemma u64_cong p q : (exists k, p = q + k * 2 ^ 64) -> u64 p = u64 q.
Proof. intros [k ->]. unfold u64. by rewrite Z.mod_add. Qed.

Lemma u64_witness p : exists k, u64 p = p + k * 2 ^ 64.
Proof. exists (- (p / 2 ^ 64)). unfold u64. pose proof (Z.div_mod p (2 ^ 64) ltac:(lia)). lia. Qed.

(** The unknown part of a member. *)
Lemma elem_of_rest x a : x ∈ a -> x - value a = Z.land x (mask a).
Proof.
  intros (_ & _ & <-).
  assert (Hd : Z.land (Z.ldiff x (mask a)) (Z.land x (mask a)) = 0).
  { apply Z.bits_inj'. intros i Hi. bit_rewrite. btauto. }
  assert (Hx : x = Z.ldiff x (mask a) + Z.land x (mask a)); [|lia].
  rewrite (add_lor_disjoint _ _ Hd). apply Z.bits_inj'. intros i Hi. bit_rewrite. btauto.
Qed.

Lemma elem_of_zero_value x m : is_u64 m -> is_u64 x -> subbits x m -> x ∈ TNUM 0 m.
Proof. intros Hm Hx H. split; [done|]. split; [done|]. by apply subbits_ldiff. Qed.

Lemma odd_testbit x : Z.odd x = Z.testbit x 0.
Proof. by rewrite Z.bit0_odd. Qed.

Lemma half x : x = 2 * Z.shiftr x 1 + Z.b2z (Z.odd x).
Proof. rewrite Z.shiftr_div_pow2 by lia. change (2 ^ 1) with 2. rewrite <- Z.bit0_odd, Z.bit0_mod. apply Z.div_mod. lia. Qed.

Lemma shl64_double x : exists k, shl64 x 1 = 2 * x + k * 2 ^ 64.
Proof. unfold shl64. rewrite Z.shiftl_mul_pow2 by lia. destruct (u64_witness (x * 2 ^ 1)) as [k ->]. exists k. lia. Qed.

(** The partial product added in a turn. *)
Definition mul_term (a b : tnum) (x y : Z) : Z :=
  if Z.odd (value a) then y - value b else if Z.odd x then y else 0.

(** One turn: the accumulator takes the term, the rest is shifted. *)
Lemma mul_turn a b acc x y z :
  x ∈ a -> y ∈ b -> z ∈ acc ->
  let acc' := if Z.odd (value a) then tnum_add acc (TNUM 0 (mask b))
              else if Z.odd (mask a) then tnum_add acc (TNUM 0 (Z.lor (value b) (mask b)))
              else acc in
  u64 (z + mul_term a b x y) ∈ acc'.
Proof.
  intros Ha Hb Hz acc'. unfold acc', mul_term. pose proof (elem_of_u64 _ _ Hz) as Hzu.
  pose proof (elem_of_wf _ _ Hb) as (Hvb & Hmb & _). pose proof (elem_of_u64 _ _ Hb) as Hyu.
  destruct (Z.odd (value a)) eqn:Hv.
  - apply tnum_add_sound; [done|]. rewrite (elem_of_rest _ _ Hb).
    apply elem_of_zero_value; [done|eauto with cint|]. intros i Hi. rewrite Z.land_spec. by intros [_ ?]%andb_true_iff.
  - destruct (Z.odd (mask a)) eqn:Hm.
    + apply tnum_add_sound; [done|]. destruct (Z.odd x).
      * apply elem_of_zero_value; [eauto with cint|done|]. by apply subbits_max.
      * apply elem_of_zero_value; [eauto with cint..|]. intros i Hi. by rewrite Z.bits_0.
    + apply elem_of_bits in Ha as (_ & _ & _ & Hbit). specialize (Hbit 0 ltac:(lia)).
      rewrite <- !odd_testbit, Hv, Hm, andb_true_r in Hbit. rewrite <- Hbit, Z.add_0_r, u64_id; done.
Qed.

(** The arithmetic of a turn, modulo 2^64. *)
Lemma mul_turn_sum a b x y z :
  x ∈ a ->
  u64 (z + x * y - value a * value b) =
  u64 (u64 (z + mul_term a b x y) + shr64 x 1 * shl64 y 1 - shr64 (value a) 1 * shl64 (value b) 1).
Proof.
  intros Ha. destruct (u64_witness (z + mul_term a b x y)) as [k ->].
  destruct (shl64_double y) as [k1 ->]. destruct (shl64_double (value b)) as [k2 ->]. unfold shr64.
  symmetry. apply u64_cong.
  exists (k + Z.shiftr x 1 * k1 - Z.shiftr (value a) 1 * k2).
  pose proof (half x) as Hx. pose proof (half (value a)) as Hv.
  set (x' := Z.shiftr x 1) in *. set (v' := Z.shiftr (value a) 1) in *. clearbody x' v'.
  unfold mul_term. destruct (Z.odd (value a)) eqn:Ho.
  - assert (Hox : Z.odd x = true).
    { apply elem_of_bits in Ha as (_ & _ & _ & Hbit). specialize (Hbit 0 ltac:(lia)).
      rewrite <- !odd_testbit, Ho in Hbit. by destruct (Z.odd x). }
    rewrite Hox in Hx. cbn [Z.b2z] in *. rewrite Hx, Hv. lia.
  - cbn [Z.b2z] in Hv. rewrite Hv. destruct (Z.odd x); cbn [Z.b2z] in Hx; rewrite Hx; lia.
Qed.

Lemma mul_loop_sound fuel a b acc x y z :
  x ∈ a -> y ∈ b -> z ∈ acc ->
  let '(a', b', acc') := tnum_mul_loop fuel a b acc in
  exists x' y' z', x' ∈ a' /\ y' ∈ b' /\ z' ∈ acc' /\
    u64 (z + x * y - value a * value b) = u64 (z' + x' * y' - value a' * value b').
Proof.
  revert a b acc x y z; induction fuel as [|fuel IH]; intros a b acc x y z Ha Hb Hz; cbn [tnum_mul_loop]; [eauto 8|].
  destruct ((value a =? 0) && (mask a =? 0)); [eauto 8|].
  pose proof (mul_turn a b acc x y z Ha Hb Hz) as Hacc. cbv zeta in Hacc.
  specialize (IH _ _ _ _ _ _ (tnum_rshift_sound 1 ltac:(lia) a x Ha) (tnum_lshift_sound 1 ltac:(lia) b y Hb) Hacc).
  destruct (tnum_mul_loop fuel _ _ _) as [[a' b'] acc']. destruct IH as (x' & y' & z' & Hx' & Hy' & Hz' & He).
  exists x', y', z'. rewrite <- He. repeat (split; [done|]). by apply mul_turn_sum.
Qed.

(** The loop ends: 64 turns shift every bit of [a] out. *)
Lemma mul_loop_ends fuel a b acc :
  0 <= value a < 2 ^ Z.of_nat fuel -> 0 <= mask a < 2 ^ Z.of_nat fuel ->
  (tnum_mul_loop fuel a b acc).1.1 = TNUM 0 0.
Proof.
  revert a b acc; induction fuel as [|fuel IH]; intros [v m] b acc Hv Hm; cbn [value mask] in *.
  { cbn in *. f_equal; lia. }
  cbn [tnum_mul_loop value mask]. destruct ((v =? 0) && (m =? 0)) eqn:Hz.
  - apply andb_true_iff in Hz as [->%Z.eqb_eq ->%Z.eqb_eq]. done.
  - rewrite Nat2Z.inj_succ, Z.pow_succ_r in Hv, Hm by lia.
    apply IH; cbn [value mask tnum_rshift]; unfold shr64; rewrite Z.shiftr_div_pow2 by lia;
      change (2 ^ 1) with 2; Z.to_euclidean_division_equations; lia.
Qed.

#[global] Instance tnum_mul_sound : SoundOp tnum_mul (fun x y => u64 (x * y)).
Proof.
  intros a b x y Ha Hb. unfold tnum_mul.
  pose proof (elem_of_wf _ _ Ha) as (Hva & Hma & _). unfold is_u64 in Hva, Hma.
  pose proof (mul_loop_ends 64 a b (TNUM 0 0) Hva Hma) as Hend.
  pose proof (mul_loop_sound 64 a b (TNUM 0 0) x y 0 Ha Hb ltac:(by apply (elem_of_const 0); [apply is_u64_0|])) as Hs.
  destruct (tnum_mul_loop 64 a b (TNUM 0 0)) as [[a' b'] acc']. cbn in Hend. subst a'.
  destruct Hs as (x' & y' & z' & Hx' & _ & Hz' & He).
  apply (elem_of_const 0) in Hx'; [|apply is_u64_0]. subst x'. cbn [value] in He.
  replace (u64 (x * y)) with (u64 (u64 (value a * value b) + z')).
  - apply tnum_add_sound; [|done]. apply elem_of_const; [apply u64_range|done].
  - replace (z' + 0 * y' - 0 * value b') with z' in He by lia. rewrite u64_add_l.
    cint_unfold. rewrite Z.add_comm, <- Z.add_mod_idemp_l, <- He, Z.add_mod_idemp_l by lia. f_equal. lia.
Qed.
End product.

(** ** Arithmetic shifts *)
Section arshift.
Implicit Types a b : tnum.
Implicit Types x i w : Z.

(** Bits of a word read as a signed number of [w] bits. *)
Lemma testbit_sext w x j :
  0 < w -> 0 <= j ->
  Z.testbit ((x + 2 ^ (w - 1)) mod 2 ^ w - 2 ^ (w - 1)) j = Z.testbit x (Z.min j (w - 1)).
Proof.
  intros Hw Hj. set (y := _ - _). assert (Hp : 2 ^ w = 2 * 2 ^ (w - 1)).
  { rewrite <- Z.pow_succ_r by lia. f_equal. lia. }
  assert (0 < 2 ^ (w - 1)) by (apply Z.pow_pos_nonneg; lia).
  assert (Hlow : forall i, 0 <= i < w -> Z.testbit y i = Z.testbit x i).
  { intros i Hi. assert (Hm : y mod 2 ^ w = x mod 2 ^ w).
    { unfold y. rewrite Zminus_mod_idemp_l. f_equal. lia. }
    apply (f_equal (fun z => Z.testbit z i)) in Hm. rewrite !Z.testbit_mod_pow2 in Hm by lia.
    by destruct (Z.ltb_spec i w); [|lia]. }
  destruct (decide (j < w)); [by rewrite Z.min_l, Hlow by lia|].
  rewrite Z.min_r, <- Hlow by lia. rewrite !testbit_div by lia.
  assert (Hy : - 2 ^ (w - 1) <= y < 2 ^ (w - 1)).
  { unfold y. pose proof (Z.mod_pos_bound (x + 2 ^ (w - 1)) (2 ^ w)). lia. }
  assert (Hjw : 2 ^ (w - 1) <= 2 ^ j) by (apply Z.pow_le_mono_r; lia).
  destruct (decide (0 <= y)).
  - by rewrite !Z.div_small by lia.
  - assert (Hd : forall p, 2 ^ (w - 1) <= p -> y / p = -1); [|by rewrite !Hd].
    intros p Hle. symmetry. apply (Z.div_unique _ _ _ (y + p)); lia.
Qed.

Lemma testbit_s64 x j : 0 <= j -> Z.testbit (s64 x) j = Z.testbit x (Z.min j 63).
Proof. intros. by apply (testbit_sext 64). Qed.
Lemma testbit_s32 x j : 0 <= j -> Z.testbit (s32 x) j = Z.testbit x (Z.min j 31).
Proof. intros. by apply (testbit_sext 32). Qed.

Lemma is_u64_u32 x : is_u64 (u32 x). Proof. cint. Qed.

Lemma tnum_arshift64_sound n :
  0 <= n -> SoundFun (fun a => tnum_arshift a n 64) (fun x => u64 (Z.shiftr (s64 x) n)).
Proof.
  intros Hn a x Ha. unfold tnum_arshift. cbn [Z.eqb Pos.eqb]. apply elem_of_bits in Ha as (Hx & Hm & Hv & Hb).
  apply elem_of_bits. cbn [value mask]. split; [|split; [|split]]; [apply u64_range..|].
  intros i Hi. rewrite !testbit_u64, !Z.shiftr_spec, !testbit_s64, Hb by lia. btauto.
Qed.

Lemma tnum_arshift32_sound n :
  0 <= n -> SoundFun (fun a => tnum_arshift a n 32) (fun x => u32 (Z.shiftr (s32 x) n)).
Proof.
  intros Hn a x Ha. unfold tnum_arshift. cbn [Z.eqb Pos.eqb]. apply elem_of_bits in Ha as (Hx & Hm & Hv & Hb).
  apply elem_of_bits. cbn [value mask]. split; [|split; [|split]]; [apply is_u64_u32..|].
  intros i Hi. rewrite !testbit_u32, !Z.shiftr_spec, !testbit_s32, Hb by lia. btauto.
Qed.
End arshift.

(** ** Comparison of tnums *)
Section queries.
Implicit Types a b : tnum.
Implicit Types x : Z.

Lemma tnum_in_spec a b :
  is_u64 (mask a) -> tnum_wf b -> tnum_in a b = true <-> (forall x, x ∈ b -> x ∈ a).
Proof.
  intros Hma Hwb. unfold tnum_in. split.
  - destruct (Z.eqb_spec (Z.land (mask b) (not64 (mask a))) 0) as [Hz|]; cbn; [|done].
    intros Hv%Z.eqb_eq x Hx. apply elem_of_bits in Hx as (Hx & Hm & Hvb & Hb). apply elem_of_bits.
    split; [done|]. split; [done|]. rewrite Hv. split; [eauto with cint|]. intros i Hi. bit_rewrite.
    apply (f_equal (fun z => Z.testbit z i)) in Hz. rewrite Z.land_spec, testbit_not64, Z.bits_0 in Hz by lia.
    destruct (Z.ltb_spec i 64); [|lia]. cbn in *. rewrite Hb by done.
    destruct (Z.testbit (mask b) i), (Z.testbit (mask a) i), (Z.testbit x i); done.
  - intros Hsub. pose proof (Hsub _ (wf_value _ Hwb)) as Hlo. pose proof (Hsub _ (wf_max _ Hwb)) as Hhi.
    destruct Hwb as (Hvb & Hmb & Hd).
    assert (Hz : Z.land (mask b) (not64 (mask a)) = 0).
    { destruct Hlo as (_ & _ & Hlo). destruct Hhi as (_ & _ & Hhi). rewrite <- Hlo in Hhi.
      apply Z.bits_inj'. intros i Hi. bit_rewrite.
      apply (f_equal (fun z => Z.testbit z i)) in Hhi, Hd. revert Hhi Hd. bit_rewrite.
      destruct (Z.testbit (mask b) i), (Z.testbit (mask a) i), (Z.testbit (value b) i), (i <? 64); done. }
    rewrite Hz. cbn. apply Z.eqb_eq. destruct Hlo as (_ & _ & <-).
    apply Z.bits_inj'. intros i Hi. bit_rewrite.
    destruct (Z.ltb_spec i 64); [done|]. by rewrite testbit_high by (done || lia).
Qed.

Lemma low_bits_mod x k : 0 <= k -> Z.land x (2 ^ k - 1) = x mod 2 ^ k.
Proof. intros Hk. rewrite <- Z.land_ones by done. f_equal. rewrite Z.ones_equiv. lia. Qed.

Lemma tnum_is_aligned_spec a k :
  tnum_wf a -> 0 <= k < 64 ->
  tnum_is_aligned a (2 ^ k) = true <-> (forall x, x ∈ a -> x mod 2 ^ k = 0).
Proof.
  intros Hwf Hk. unfold tnum_is_aligned. assert (0 < 2 ^ k) by (apply Z.pow_pos_nonneg; lia).
  destruct (Z.eqb_spec (2 ^ k) 0); [lia|]. rewrite Z.eqb_eq, low_bits_mod by lia. split.
  - intros Hz x Hx. pose proof (subbits_mod_le _ _ k ltac:(lia) (subbits_max _ _ Hx)).
    pose proof (Z.mod_pos_bound x (2 ^ k)). lia.
  - intros H'. apply H'. by apply wf_max.
Qed.
End queries.

(** ** The low half of a register *)
Section subreg.
Implicit Types a b : tnum.
Implicit Types x y : Z.

Lemma tnum_subreg_sound a x : x ∈ a -> u32 x ∈ tnum_subreg a.
Proof. apply (tnum_cast_sound 4 ltac:(lia)). Qed.

Definition clear_low (x : Z) : Z := shl64 (shr64 x 32) 32.

Lemma clear_low_eq x : is_u64 x -> clear_low x = x - u32 x.
Proof.
  intros Hx. unfold clear_low, shl64, shr64. rewrite Z.shiftl_mul_pow2, Z.shiftr_div_pow2 by lia. cint.
Qed.

Lemma tnum_clear_subreg_sound a x : x ∈ a -> clear_low x ∈ tnum_clear_subreg a.
Proof. intros Ha. apply tnum_lshift_sound, tnum_rshift_sound; done. Qed.

Lemma lor_halves x y : is_u64 x -> is_u32 y -> Z.lor (clear_low x) y = x - u32 x + y.
Proof.
  intros Hx Hy. rewrite <- clear_low_eq by done. symmetry. apply add_lor_disjoint.
  apply Z.bits_inj'. intros i Hi. rewrite Z.land_spec, Z.bits_0. unfold clear_low.
  rewrite testbit_shl64 by lia. rewrite <- (u32_id y), testbit_u32 by (done || lia).
  destruct (Z.leb_spec 32 i), (Z.ltb_spec i 32); try lia; btauto.
Qed.

(** A register whose low half is replaced. *)
Lemma with_subreg_sound a b x y :
  x ∈ a -> y ∈ b -> is_u32 y -> x - u32 x + y ∈ tnum_or (tnum_clear_subreg a) b.
Proof.
  intros Ha Hb Hy. rewrite <- lor_halves by (done || by eapply elem_of_u64).
  apply tnum_or_sound; [|done]. by apply tnum_clear_subreg_sound.
Qed.

Lemma tnum_const_subreg_sound a x y : x ∈ a -> is_u32 y -> x - u32 x + y ∈ tnum_const_subreg a y.
Proof.
  intros Ha Hy. apply with_subreg_sound; try done. apply elem_of_const; [|done]. revert Hy. cint.
Qed.
End subreg.

(** ** [tnum_sbin] *)
Section sbin.
Implicit Types a : tnum.
Implicit Types str : list Z.

(** The character for bit [k]: ['x'], ['1'] or ['0']. *)
Definition bit_char (a : tnum) (k : Z) : Z :=
  if Z.testbit (mask a) k then 120 else if Z.testbit (value a) k then 49 else 48.

Lemma store_spec str (i : nat) c :
  (i < length str)%nat -> store str (Z.of_nat i) c = Some (<[i := c]> str).
Proof. intros Hi. unfold store. case_decide; [by rewrite Nat2Z.id|lia]. Qed.

Lemma sbin_loop_spec n str size a :
  size <= Z.of_nat (length str) ->
  exists str', tnum_sbin_loop n str size a = Some str' /\ length str' = length str /\
    forall j : nat, str' !! j =
      (if decide ((j < n)%nat /\ Z.of_nat j + 1 < size) then Some (bit_char a (Z.of_nat (n - 1 - j))) else str !! j).
Proof.
  revert str a; induction n as [|n IH]; intros str a Hsize.
  { exists str. split; [done|]. split; [done|]. intros j. by case_decide; [lia|]. }
  cbn [tnum_sbin_loop]. set (c := if Z.odd (mask a) then _ else _).
  assert (Hc : c = bit_char a 0) by (unfold c, bit_char; by rewrite !Z.bit0_odd).
  set (str1 := if Z.of_nat (S n) <? size then <[n := c]> str else str).
  assert (Hst : (if Z.of_nat (S n) <? size then store str (Z.of_nat (S n) - 1) c else Some str) = Some str1).
  { unfold str1. destruct (Z.ltb_spec (Z.of_nat (S n)) size); [|done].
    replace (Z.of_nat (S n) - 1) with (Z.of_nat n) by lia. apply store_spec. lia. }
  rewrite Hst. cbn [mbind option_bind].
  assert (Hl : length str1 = length str) by (unfold str1; case_match; [apply length_insert|done]).
  destruct (IH str1 (TNUM (shr64 (value a) 1) (shr64 (mask a) 1)) ltac:(lia)) as (str' & Hr & Hl' & Hj).
  exists str'. split; [done|]. split; [lia|]. intros j. rewrite Hj.
  assert (Hch : forall k, 0 <= k -> bit_char (TNUM (shr64 (value a) 1) (shr64 (mask a) 1)) k = bit_char a (k + 1)).
  { intros k Hk. unfold bit_char. cbn [value mask]. by rewrite !testbit_shr64. }
  destruct (decide ((j < n)%nat /\ Z.of_nat j + 1 < size)), (decide ((j < S n)%nat /\ Z.of_nat j + 1 < size)); try lia.
  - rewrite Hch by lia. do 2 f_equal. lia.
  - assert (j = n) as -> by lia. unfold str1. destruct (Z.ltb_spec (Z.of_nat (S n)) size); [|lia].
    rewrite list_lookup_insert_eq by lia. rewrite Hc. do 2 f_equal. lia.
  - unfold str1. destruct (Z.ltb_spec (Z.of_nat (S n)) size); [|done].
    rewrite list_lookup_insert_ne; [done|]. lia.
Qed.
End sbin.
