(* ===== verification/BpfReg.v ===== *)
(** * The verifier's registers: ranges of scalars ([kernel/bpf/verifier.c])

    A register state holds, for a scalar, a tracked number and signed and
    unsigned bounds of the 64-bit value and of its low half.  Here are the
    operations that set bounds, deduce one kind of bound from another and
    resize a scalar, and the set of values a state stands for. *)
From S2P Require Import Prelude Bits Tnum.

(** [enum bpf_reg_type]: a base type in the low 8 bits, flags above them. *)
Definition NOT_INIT : Z := 0.
Definition SCALAR_VALUE : Z := 1.
Definition CONST_PTR_TO_MAP : Z := 3.
Definition PTR_TO_MAP_VALUE : Z := 4.
Definition PTR_TO_MAP_KEY : Z := 5.
Definition PTR_TO_SOCKET : Z := 11.
Definition PTR_TO_SOCK_COMMON : Z := 12.
Definition PTR_TO_TCP_SOCK : Z := 13.
Definition PTR_TO_BTF_ID : Z := 16.
Definition PTR_TO_MEM : Z := 17.
Definition PTR_MAYBE_NULL : Z := 2 ^ 8.
Definition MEM_ALLOC : Z := 2 ^ 19.
Definition PTR_TRUSTED : Z := 2 ^ 20.
Definition NON_OWN_REF : Z := 2 ^ 22.

(** What precedes [var_off] in [struct bpf_reg_state], and the ids. *)
Record reg_meta := mk_meta {
  type : Z;
  off : Z;
  raw : Z;
  id : Z;
  ref_obj_id : Z;
  frameno : Z;
  precise : bool
}.

Record bpf_reg_state := mk_reg {
  meta : reg_meta;
  var_off : tnum;
  smin_value : Z; smax_value : Z;
  umin_value : Z; umax_value : Z;
  s32_min_value : Z; s32_max_value : Z;
  u32_min_value : Z; u32_max_value : Z
}.

(** The part of [bpf_verifier_env] these functions read. *)
Record bpf_verifier_env := mk_env { bpf_capable : bool; allow_ptr_leaks : bool; bypass_spec_v1 : bool }.

(** Assignments to one or two fields. *)
Definition set_meta (m : reg_meta) (r : bpf_reg_state) : bpf_reg_state :=
  mk_reg m (var_off r) (smin_value r) (smax_value r) (umin_value r) (umax_value r)
    (s32_min_value r) (s32_max_value r) (u32_min_value r) (u32_max_value r).
Definition set_var_off (t : tnum) (r : bpf_reg_state) : bpf_reg_state :=
  mk_reg (meta r) t (smin_value r) (smax_value r) (umin_value r) (umax_value r)
    (s32_min_value r) (s32_max_value r) (u32_min_value r) (u32_max_value r).
Definition set_s64 (lo hi : Z) (r : bpf_reg_state) : bpf_reg_state :=
  mk_reg (meta r) (var_off r) lo hi (umin_value r) (umax_value r)
    (s32_min_value r) (s32_max_value r) (u32_min_value r) (u32_max_value r).
Definition set_u64 (lo hi : Z) (r : bpf_reg_state) : bpf_reg_state :=
  mk_reg (meta r) (var_off r) (smin_value r) (smax_value r) lo hi
    (s32_min_value r) (s32_max_value r) (u32_min_value r) (u32_max_value r).
Definition set_s32 (lo hi : Z) (r : bpf_reg_state) : bpf_reg_state :=
  mk_reg (meta r) (var_off r) (smin_value r) (smax_value r) (umin_value r) (umax_value r)
    lo hi (u32_min_value r) (u32_max_value r).
Definition set_u32 (lo hi : Z) (r : bpf_reg_state) : bpf_reg_state :=
  mk_reg (meta r) (var_off r) (smin_value r) (smax_value r) (umin_value r) (umax_value r)
    (s32_min_value r) (s32_max_value r) lo hi.

(** ** Known and unknown registers *)

Definition ___mark_reg_known (reg : bpf_reg_state) (imm : Z) : bpf_reg_state :=
  set_u32 (u32 imm) (u32 imm) (set_s32 (s32 imm) (s32 imm)
    (set_u64 imm imm (set_s64 (s64 imm) (s64 imm) (set_var_off (tnum_const imm) reg)))).

Definition __mark_reg_known (reg : bpf_reg_state) (imm : Z) : bpf_reg_state :=
  let m := meta reg in
  ___mark_reg_known (set_meta (mk_meta (type m) 0 0 0 0 (frameno m) (precise m)) reg) imm.

Definition __mark_reg32_known (reg : bpf_reg_state) (imm : Z) : bpf_reg_state :=
  set_u32 (u32 imm) (u32 imm) (set_s32 (s32 imm) (s32 imm)
    (set_var_off (tnum_const_subreg (var_off reg) (u32 imm)) reg)).

Definition __mark_reg_known_zero (reg : bpf_reg_state) : bpf_reg_state := __mark_reg_known reg 0.

Definition set_type (t : Z) (reg : bpf_reg_state) : bpf_reg_state :=
  let m := meta reg in
  set_meta (mk_meta t (off m) (raw m) (id m) (ref_obj_id m) (frameno m) (precise m)) reg.

Definition __mark_reg_const_zero (reg : bpf_reg_state) : bpf_reg_state :=
  set_type SCALAR_VALUE (__mark_reg_known reg 0).

Definition __mark_reg64_unbounded (reg : bpf_reg_state) : bpf_reg_state :=
  set_u64 0 U64_MAX (set_s64 S64_MIN S64_MAX reg).

Definition __mark_reg32_unbounded (reg : bpf_reg_state) : bpf_reg_state :=
  set_u32 0 U32_MAX (set_s32 S32_MIN S32_MAX reg).

Definition __mark_reg_unbounded (reg : bpf_reg_state) : bpf_reg_state :=
  set_u32 0 U32_MAX (set_s32 S32_MIN S32_MAX (set_u64 0 U64_MAX (set_s64 S64_MIN S64_MAX reg))).

Definition __mark_reg_unknown (env : bpf_verifier_env) (reg : bpf_reg_state) : bpf_reg_state :=
  __mark_reg_unbounded (set_var_off tnum_unknown
    (set_meta (mk_meta SCALAR_VALUE 0 0 0 0 0 (negb (bpf_capable env))) reg)).

Definition __mark_reg_not_init (env : bpf_verifier_env) (reg : bpf_reg_state) : bpf_reg_state :=
  set_type NOT_INIT (__mark_reg_unknown env reg).

(** ** Deductions *)

Definition __update_reg32_bounds (reg : bpf_reg_state) : bpf_reg_state :=
  let var32_off := tnum_subreg (var_off reg) in
  set_u32 (Z.max (u32_min_value reg) (u32 (value var32_off)))
          (Z.min (u32_max_value reg) (u32 (Z.lor (value var32_off) (mask var32_off))))
    (set_s32 (Z.max (s32_min_value reg) (s32 (Z.lor (value var32_off) (Z.land (mask var32_off) (u64 S32_MIN)))))
             (Z.min (s32_max_value reg) (s32 (Z.lor (value var32_off) (Z.land (mask var32_off) S32_MAX)))) reg).

Definition __update_reg64_bounds (reg : bpf_reg_state) : bpf_reg_state :=
  let v := value (var_off reg) in
  let m := mask (var_off reg) in
  set_u64 (Z.max (umin_value reg) v) (Z.min (umax_value reg) (Z.lor v m))
    (set_s64 (Z.max (smin_value reg) (s64 (Z.lor v (Z.land m (u64 S64_MIN)))))
             (Z.min (smax_value reg) (s64 (Z.lor v (Z.land m S64_MAX)))) reg).

Definition __update_reg_bounds (reg : bpf_reg_state) : bpf_reg_state :=
  __update_reg64_bounds (__update_reg32_bounds reg).

Definition __reg32_deduce_bounds (reg : bpf_reg_state) : bpf_reg_state :=
  let lo := Z.max (u32 (s32_min_value reg)) (u32_min_value reg) in
  let hi := Z.min (u32 (s32_max_value reg)) (u32_max_value reg) in
  if (0 <=? s32_min_value reg) || (s32_max_value reg <? 0) then
    set_u32 lo hi (set_s32 (s32 lo) (s32 hi) reg)
  else if 0 <=? s32 (u32_max_value reg) then
    set_u32 (u32_min_value reg) hi (set_s32 (s32 (u32_min_value reg)) (s32 hi) reg)
  else if s32 (u32_min_value reg) <? 0 then
    set_u32 lo (u32_max_value reg) (set_s32 (s32 lo) (s32 (u32_max_value reg)) reg)
  else reg.

Definition __reg64_deduce_bounds (reg : bpf_reg_state) : bpf_reg_state :=
  let lo := Z.max (u64 (smin_value reg)) (umin_value reg) in
  let hi := Z.min (u64 (smax_value reg)) (umax_value reg) in
  if (0 <=? smin_value reg) || (smax_value reg <? 0) then
    set_u64 lo hi (set_s64 (s64 lo) (s64 hi) reg)
  else if 0 <=? s64 (umax_value reg) then
    set_u64 (umin_value reg) hi (set_s64 (s64 (umin_value reg)) (s64 hi) reg)
  else if s64 (umin_value reg) <? 0 then
    set_u64 lo (umax_value reg) (set_s64 (s64 lo) (s64 (umax_value reg)) reg)
  else reg.

Definition __reg_deduce_bounds (reg : bpf_reg_state) : bpf_reg_state :=
  __reg64_deduce_bounds (__reg32_deduce_bounds reg).

Definition __reg_bound_offset (reg : bpf_reg_state) : bpf_reg_state :=
  let var64_off := tnum_intersect (var_off reg) (tnum_range (umin_value reg) (umax_value reg)) in
  let var32_off := tnum_intersect (tnum_subreg var64_off) (tnum_range (u32_min_value reg) (u32_max_value reg)) in
  set_var_off (tnum_or (tnum_clear_subreg var64_off) var32_off) reg.

Definition reg_bounds_sync (reg : bpf_reg_state) : bpf_reg_state :=
  __update_reg_bounds (__reg_bound_offset (__reg_deduce_bounds (__update_reg_bounds reg))).

(** ** Moving bounds between the halves *)

Definition __reg32_bound_s64 (a : Z) : bool := (0 <=? a) && (a <=? S32_MAX).

Definition __reg_assign_32_into_64 (reg : bpf_reg_state) : bpf_reg_state :=
  let reg := set_u64 (u32_min_value reg) (u32_max_value reg) reg in
  if __reg32_bound_s64 (s32_min_value reg) && __reg32_bound_s64 (s32_max_value reg) then
    set_s64 (s32_min_value reg) (s32_max_value reg) reg
  else set_s64 0 U32_MAX reg.

Definition __reg_combine_32_into_64 (reg : bpf_reg_state) : bpf_reg_state :=
  reg_bounds_sync
    (if tnum_equals_const (tnum_clear_subreg (var_off reg)) 0 then __reg_assign_32_into_64 reg
     else __mark_reg64_unbounded reg).

Definition __reg64_bound_s32 (a : Z) : bool := (S32_MIN <=? a) && (a <=? S32_MAX).
Definition __reg64_bound_u32 (a : Z) : bool := (0 <=? a) && (a <=? U32_MAX).

Definition __reg_combine_64_into_32 (reg : bpf_reg_state) : bpf_reg_state :=
  let reg := __mark_reg32_unbounded reg in
  let reg :=
    if __reg64_bound_s32 (smin_value reg) && __reg64_bound_s32 (smax_value reg) then
      set_s32 (s32 (smin_value reg)) (s32 (smax_value reg)) reg else reg in
  let reg :=
    if __reg64_bound_u32 (umin_value reg) && __reg64_bound_u32 (umax_value reg) then
      set_u32 (u32 (umin_value reg)) (u32 (umax_value reg)) reg else reg in
  reg_bounds_sync reg.

(** ** Resizing *)

Definition zext_32_to_64 (reg : bpf_reg_state) : bpf_reg_state :=
  __reg_assign_32_into_64 (set_var_off (tnum_subreg (var_off reg)) reg).

Definition coerce_reg_to_size (reg : bpf_reg_state) (size : Z) : bpf_reg_state :=
  let reg := set_var_off (tnum_cast (var_off reg) size) reg in
  let mask := shl64 1 (size * 8) - 1 in
  let '(lo, hi) :=
    if Z.land (umin_value reg) (not64 mask) =? Z.land (umax_value reg) (not64 mask)
    then (Z.land (umin_value reg) mask, Z.land (umax_value reg) mask)
    else (0, mask) in
  let reg := set_s64 (s64 lo) (s64 hi) (set_u64 lo hi reg) in
  if 4 <=? size then reg else __reg_combine_64_into_32 reg.

(** [(s8)x], [(s16)x], [(s32)x] by size in bytes. *)
Definition sext_size (size x : Z) : Z := if size =? 1 then s8 x else if size =? 2 then s16 x else s32 x.

Definition set_sext64_default_val (reg : bpf_reg_state) (size : Z) : bpf_reg_state :=
  let '(lo, hi) :=
    if size =? 1 then (- 2 ^ 7, 2 ^ 7 - 1)
    else if size =? 2 then (- 2 ^ 15, 2 ^ 15 - 1)
    else (S32_MIN, S32_MAX) in
  set_var_off tnum_unknown (set_u32 0 U32_MAX (set_u64 0 U64_MAX (set_s32 lo hi (set_s64 lo hi reg)))).

Definition coerce_reg_to_size_sx (reg : bpf_reg_state) (size : Z) : bpf_reg_state :=
  let num_bits := size * 8 in
  if tnum_is_const (var_off reg) then
    let c := u64 (sext_size size (value (var_off reg))) in
    set_u32 (u32 c) (u32 c) (set_s32 (s32 c) (s32 c) (set_u64 c c (set_s64 (s64 c) (s64 c)
      (set_var_off (tnum_const c) reg))))
  else
    let top_smax_value := shl64 (shr64 (u64 (smax_value reg)) num_bits) num_bits in
    let top_smin_value := shl64 (shr64 (u64 (smin_value reg)) num_bits) num_bits in
    let init_max := sext_size size (smax_value reg) in
    let init_min := sext_size size (smin_value reg) in
    let s64_max := Z.max init_max init_min in
    let s64_min := Z.min init_max init_min in
    if (top_smax_value =? top_smin_value) && Bool.eqb (0 <=? s64_max) (0 <=? s64_min) then
      (* [umin_value = u32_min_value = s64_min] assigns the truncated value twice *)
      set_var_off (tnum_range (u64 s64_min) (u64 s64_max))
        (set_u64 (u32 s64_min) (u32 s64_max) (set_u32 (u32 s64_min) (u32 s64_max)
          (set_s64 (s32 s64_min) (s32 s64_max) (set_s32 (s32 s64_min) (s32 s64_max) reg))))
    else set_sext64_default_val reg size.

Definition set_sext32_default_val (reg : bpf_reg_state) (size : Z) : bpf_reg_state :=
  let '(lo, hi) := if size =? 1 then (- 2 ^ 7, 2 ^ 7 - 1) else (- 2 ^ 15, 2 ^ 15 - 1) in
  set_var_off (tnum_subreg tnum_unknown) (set_u32 0 U32_MAX (set_s32 lo hi reg)).

(** [(s8)x] or [(s16)x]: the sizes of the 32-bit form. *)
Definition sext_size32 (size x : Z) : Z := if size =? 1 then s8 x else s16 x.

Definition coerce_subreg_to_size_sx (reg : bpf_reg_state) (size : Z) : bpf_reg_state :=
  let num_bits := size * 8 in
  if tnum_is_const (var_off reg) then
    let c := u64 (sext_size32 size (s32 (value (var_off reg)))) in
    set_u32 (u32 c) (u32 c) (set_s32 (s32 c) (s32 c) (set_var_off (tnum_const c) reg))
  else
    let top_smax_value := u32 (Z.shiftl (Z.shiftr (u32 (s32_max_value reg)) num_bits) num_bits) in
    let top_smin_value := u32 (Z.shiftl (Z.shiftr (u32 (s32_min_value reg)) num_bits) num_bits) in
    let init_max := sext_size32 size (s32_max_value reg) in
    let init_min := sext_size32 size (s32_min_value reg) in
    let s32_max := Z.max init_max init_min in
    let s32_min := Z.min init_max init_min in
    if (top_smax_value =? top_smin_value) && Bool.eqb (0 <=? s32_min) (0 <=? s32_max) then
      set_var_off (tnum_subreg (tnum_range (u64 s32_min) (u64 s32_max)))
        (set_u32 (u32 s32_min) (u32 s32_max) (set_s32 s32_min s32_max reg))
    else set_sext32_default_val reg size.

(** ** The values a state stands for *)

Definition in64 (r : bpf_reg_state) (x : Z) : Prop :=
  smin_value r <= s64 x <= smax_value r /\ umin_value r <= x <= umax_value r.
Definition in32 (r : bpf_reg_state) (x : Z) : Prop :=
  s32_min_value r <= s32 x <= s32_max_value r /\ u32_min_value r <= u32 x <= u32_max_value r.

(** [x ∈ r]: the register may hold the word [x]. *)
#[global] Instance reg_elem_of : ElemOf Z bpf_reg_state := fun x r => x ∈ var_off r /\ in64 r x /\ in32 r x.

(** Each field within its C type. *)
Definition reg_fields (r : bpf_reg_state) : Prop :=
  is_s64 (smin_value r) /\ is_s64 (smax_value r) /\ is_u64 (umin_value r) /\ is_u64 (umax_value r) /\
  is_s32 (s32_min_value r) /\ is_s32 (s32_max_value r) /\ is_u32 (u32_min_value r) /\ is_u32 (u32_max_value r).

(** The verifier's invariant of a register: a scalar known not to be negative
    has its unsigned bound and its tracked bits say so too. *)
Definition reg_ok (r : bpf_reg_state) : Prop :=
  reg_fields r /\
  (0 <= smin_value r -> umax_value r <= S64_MAX /\ Z.testbit (mask (var_off r)) 63 = false) /\
  (0 <= s32_min_value r -> u32_max_value r <= S32_MAX /\ Z.testbit (mask (var_off r)) 31 = false).

(** What a transformation of register states promises when the register's
    value goes from [x] to [op x]: the value stays inside and the invariant holds. *)
Class RegSound (f : bpf_reg_state -> bpf_reg_state) (op : Z -> Z) : Prop :=
  reg_sound r x : reg_ok r -> x ∈ r -> op x ∈ f r /\ reg_ok (f r).
