(* ===== verification/BpfRegThms.v ===== *)
(** * Register ranges: the deductions are sound

    Every operation of [BpfReg] keeps the value of the register inside the
    state and re-establishes the invariant [reg_ok]. *)
From S2P Require Import Prelude Bits Tnum TnumThms BpfReg.

(** ** Signed and unsigned readings of a word *)
Section readings.
Implicit Types x y : Z.

Lemma s64_cases x : is_u64 x -> (x < 2 ^ 63 /\ s64 x = x) \/ (2 ^ 63 <= x /\ s64 x = x - 2 ^ 64).
Proof. cint. Qed.
Lemma s32_cases x : is_u32 x -> (x < 2 ^ 31 /\ s32 x = x) \/ (2 ^ 31 <= x /\ s32 x = x - 2 ^ 32).
Proof. cint. Qed.
Lemma u64_cases x : is_s64 x -> (0 <= x /\ u64 x = x) \/ (x < 0 /\ u64 x = x + 2 ^ 64).
Proof. cint. Qed.
Lemma u32_cases x : is_s32 x -> (0 <= x /\ u32 x = x) \/ (x < 0 /\ u32 x = x + 2 ^ 32).
Proof. cint. Qed.

(** The value of a [w]-bit word read as signed: its low bits and its sign bit. *)
Lemma sext_split w x :
  0 < w -> (x + 2 ^ (w - 1)) mod 2 ^ w - 2 ^ (w - 1) =
  x mod 2 ^ (w - 1) - 2 ^ (w - 1) * Z.b2z (Z.testbit x (w - 1)).
Proof.
  intros Hw. assert (Hp : 2 ^ w = 2 * 2 ^ (w - 1)) by (rewrite <- Z.pow_succ_r by lia; f_equal; lia).
  assert (0 < 2 ^ (w - 1)) by (apply Z.pow_pos_nonneg; lia).
  rewrite testbit_div by lia. destruct (div_split x (w - 1) ltac:(lia)) as (q & r & -> & Hr & -> & ->).
  pose proof (half q) as Hq. set (q' := Z.shiftr q 1) in Hq. clearbody q'. rewrite Hp, Hq.
  rewrite Z.add_comm, (Z.add_comm (2 * q')), Z.odd_add_mul_2. set (p := 2 ^ (w - 1)) in *. clearbody p.
  assert (Ho : Z.odd (Z.b2z (Z.odd q)) = Z.odd q) by (by destruct (Z.odd q)).
  rewrite Ho. destruct (Z.odd q); cbn [Z.b2z].
  - rewrite <- (Z.mod_unique _ (2 * p) (q' + 1) r); lia.
  - rewrite <- (Z.mod_unique _ (2 * p) q' (p + r)); lia.
Qed.

Lemma s64_split x : s64 x = x mod 2 ^ 63 - 2 ^ 63 * Z.b2z (Z.testbit x 63).
Proof. apply (sext_split 64). lia. Qed.
Lemma s32_split x : s32 x = x mod 2 ^ 31 - 2 ^ 31 * Z.b2z (Z.testbit x 31).
Proof. apply (sext_split 32). lia. Qed.

(** Signed order from the sign bits and the order of the other bits. *)
Lemma s64_le x y :
  (Z.testbit y 63 = true -> Z.testbit x 63 = true) ->
  (Z.testbit x 63 = Z.testbit y 63 -> x mod 2 ^ 63 <= y mod 2 ^ 63) -> s64 x <= s64 y.
Proof.
  intros H1 H2. rewrite !s64_split. pose proof (Z.mod_pos_bound x (2 ^ 63)). pose proof (Z.mod_pos_bound y (2 ^ 63)).
  destruct (Z.testbit x 63), (Z.testbit y 63); cbn [Z.b2z]; try specialize (H2 eq_refl); try specialize (H1 eq_refl);
    try done; lia.
Qed.
Lemma s32_le x y :
  (Z.testbit y 31 = true -> Z.testbit x 31 = true) ->
  (Z.testbit x 31 = Z.testbit y 31 -> x mod 2 ^ 31 <= y mod 2 ^ 31) -> s32 x <= s32 y.
Proof.
  intros H1 H2. rewrite !s32_split. pose proof (Z.mod_pos_bound x (2 ^ 31)). pose proof (Z.mod_pos_bound y (2 ^ 31)).
  destruct (Z.testbit x 31), (Z.testbit y 31); cbn [Z.b2z]; try specialize (H2 eq_refl); try specialize (H1 eq_refl);
    try done; lia.
Qed.

(** Inclusion of the bits below [n] gives the order of the remainders. *)
Lemma low_bits_le x y n :
  0 <= n -> (forall i, 0 <= i < n -> Z.testbit x i = true -> Z.testbit y i = true) -> x mod 2 ^ n <= y mod 2 ^ n.
Proof.
  intros Hn H. assert (0 < 2 ^ n) by (apply Z.pow_pos_nonneg; lia).
  apply subbits_le; [apply Z.mod_pos_bound; lia|]. intros i Hi. rewrite !Z.testbit_mod_pow2 by lia.
  destruct (Z.ltb_spec i n); cbn; [apply H; lia|done].
Qed.

Lemma testbit_S64_MIN i : 0 <= i -> Z.testbit (u64 S64_MIN) i = (i =? 63).
Proof. intros Hi. change (u64 S64_MIN) with (2 ^ 63). rewrite Z.pow2_bits_eqb by lia. apply Z.eqb_sym. Qed.
Lemma testbit_S64_MAX i : 0 <= i -> Z.testbit S64_MAX i = (i <? 63).
Proof. intros Hi. change S64_MAX with (Z.ones 63). by apply testbit_ones_nonneg. Qed.
Lemma testbit_S32_MAX i : 0 <= i -> Z.testbit S32_MAX i = (i <? 31).
Proof. intros Hi. change S32_MAX with (Z.ones 31). by apply testbit_ones_nonneg. Qed.
Lemma testbit_S32_MIN i : 0 <= i < 64 -> Z.testbit (u64 S32_MIN) i = (31 <=? i).
Proof.
  intros Hi. change (u64 S32_MIN) with (shl64 U64_MAX 31). rewrite testbit_shl64 by lia.
  destruct (Z.ltb_spec i 64), (Z.leb_spec 31 i); cbn; try lia; try done.
  rewrite testbit_U64_MAX by lia. by destruct (Z.ltb_spec (i - 31) 64); [|lia].
Qed.
End readings.

(** ** Bounds from a tracked number *)
Section from_tnum.
Context (a : tnum) (x : Z).

Lemma member_bit i : x ∈ a -> 0 <= i < 64 ->
  Z.testbit (value a) i = Z.testbit x i && negb (Z.testbit (mask a) i).
Proof. intros (_ & _ & _ & Hb)%elem_of_bits. apply Hb. Qed.

Lemma tnum_smin : x ∈ a -> s64 (Z.lor (value a) (Z.land (mask a) (u64 S64_MIN))) <= s64 x.
Proof.
  intros Ha. apply s64_le.
  - rewrite Z.lor_spec, Z.land_spec, testbit_S64_MIN by lia. rewrite (member_bit 63 Ha) by lia.
    intros ->. by destruct (Z.testbit _ 63).
  - intros _. apply low_bits_le; [lia|]. intros i Hi. rewrite Z.lor_spec, Z.land_spec, testbit_S64_MIN by lia.
    destruct (Z.eqb_spec i 63); [lia|]. rewrite andb_false_r, orb_false_r, (member_bit i Ha) by lia.
    by destruct (Z.testbit x i).
Qed.

Lemma tnum_smax : x ∈ a -> s64 x <= s64 (Z.lor (value a) (Z.land (mask a) S64_MAX)).
Proof.
  intros Ha. apply s64_le.
  - rewrite Z.lor_spec, Z.land_spec, testbit_S64_MAX by lia. rewrite (member_bit 63 Ha) by lia.
    change (63 <? 63) with false. rewrite andb_false_r, orb_false_r. by destruct (Z.testbit x 63).
  - intros _. apply low_bits_le; [lia|]. intros i Hi. rewrite Z.lor_spec, Z.land_spec, testbit_S64_MAX by lia.
    destruct (Z.ltb_spec i 63); [|lia]. rewrite andb_true_r, (member_bit i Ha) by lia.
    intros ->. by destruct (Z.testbit (mask a) i).
Qed.

Lemma tnum_s32min : x ∈ a -> s32 (Z.lor (value a) (Z.land (mask a) (u64 S32_MIN))) <= s32 x.
Proof.
  intros Ha. apply s32_le.
  - rewrite Z.lor_spec, Z.land_spec, testbit_S32_MIN by lia. rewrite (member_bit 31 Ha) by lia.
    intros ->. by destruct (Z.testbit _ 31).
  - intros _. apply low_bits_le; [lia|]. intros i Hi. rewrite Z.lor_spec, Z.land_spec, testbit_S32_MIN by lia.
    destruct (Z.leb_spec 31 i); [lia|]. rewrite andb_false_r, orb_false_r, (member_bit i Ha) by lia.
    by destruct (Z.testbit x i).
Qed.

Lemma tnum_s32max : x ∈ a -> s32 x <= s32 (Z.lor (value a) (Z.land (mask a) S32_MAX)).
Proof.
  intros Ha. apply s32_le.
  - rewrite Z.lor_spec, Z.land_spec, testbit_S32_MAX by lia. rewrite (member_bit 31 Ha) by lia.
    change (31 <? 31) with false. rewrite andb_false_r, orb_false_r. by destruct (Z.testbit x 31).
  - intros _. apply low_bits_le; [lia|]. intros i Hi. rewrite Z.lor_spec, Z.land_spec, testbit_S32_MAX by lia.
    destruct (Z.ltb_spec i 31); [|lia]. rewrite andb_true_r, (member_bit i Ha) by lia.
    intros ->. by destruct (Z.testbit (mask a) i).
Qed.

(** The low half lies between the low halves of the known and of all bits. *)
Lemma tnum_u32_bounds : x ∈ a -> u32 (value a) <= u32 x <= u32 (Z.lor (value a) (mask a)).
Proof. intros Ha. split; apply subbits_mod_le; try lia; [by apply subbits_value|by apply subbits_max]. Qed.
End from_tnum.

(** ** The deductions *)

Section ranges.
Implicit Types x y : Z.
Lemma is_s64_max x y : is_s64 x -> is_s64 y -> is_s64 (Z.max x y). Proof. unfold is_s64. lia. Qed.
Lemma is_s64_min x y : is_s64 x -> is_s64 y -> is_s64 (Z.min x y). Proof. unfold is_s64. lia. Qed.
Lemma is_s32_max x y : is_s32 x -> is_s32 y -> is_s32 (Z.max x y). Proof. unfold is_s32. lia. Qed.
Lemma is_s32_min x y : is_s32 x -> is_s32 y -> is_s32 (Z.min x y). Proof. unfold is_s32. lia. Qed.
Lemma is_u64_Zmax x y : is_u64 x -> is_u64 y -> is_u64 (Z.max x y). Proof. unfold is_u64. lia. Qed.
Lemma is_u64_Zmin x y : is_u64 x -> is_u64 y -> is_u64 (Z.min x y). Proof. unfold is_u64. lia. Qed.
Lemma is_u32_Zmax x y : is_u32 x -> is_u32 y -> is_u32 (Z.max x y). Proof. unfold is_u32. lia. Qed.
Lemma is_u32_Zmin x y : is_u32 x -> is_u32 y -> is_u32 (Z.min x y). Proof. unfold is_u32. lia. Qed.
Lemma is_u32_is_u64 x : is_u32 x -> is_u64 x. Proof. unfold is_u32, is_u64. lia. Qed.
Lemma is_s32_S32_MIN : is_s32 S32_MIN. Proof. done. Qed.
Lemma is_s32_S32_MAX : is_s32 S32_MAX. Proof. done. Qed.
Lemma is_s64_S64_MIN : is_s64 S64_MIN. Proof. done. Qed.
Lemma is_s64_S64_MAX : is_s64 S64_MAX. Proof. done. Qed.
Lemma is_u32_0 : is_u32 0. Proof. done. Qed.
Lemma is_u32_U32_MAX : is_u32 U32_MAX. Proof. done. Qed.
End ranges.
#[export] Hint Resolve is_s64_max is_s64_min is_s32_max is_s32_min is_u64_Zmax is_u64_Zmin is_u32_Zmax
  is_u32_Zmin is_s32_S32_MIN is_s32_S32_MAX is_s64_S64_MIN is_s64_S64_MAX is_u32_0 is_u32_U32_MAX : cint.

(** A state with its fields in range that contains [x]. *)
Definition holds (r : bpf_reg_state) (x : Z) : Prop := reg_fields r /\ x ∈ r.

(** Opens a state into its fields. *)
Ltac open_reg :=
  repeat match goal with
  | H : holds _ _ |- _ => destruct H as [? ?]
  | H : reg_ok _ |- _ => destruct H as (? & ? & ?)
  | H : reg_fields _ |- _ => destruct H as (? & ? & ? & ? & ? & ? & ? & ?)
  | H : _ ∈ (_ : bpf_reg_state) |- _ => destruct H as (? & [? ?] & [? ?])
  end.
(** [lia] with the ranges of the types and their limits unfolded. *)
Ltac clia :=
  unfold is_s64, is_u64, is_s32, is_u32, S32_MIN, S32_MAX, S64_MIN, S64_MAX, U32_MAX, U64_MAX in *; lia.
(** Splits a goal about a state into its parts. *)
Ltac close_reg :=
  unfold holds, reg_fields;
  repeat match goal with
  | |- _ ∈ (_ : bpf_reg_state) => split; [|split; split]
  | |- is_s64 _ => fail 1 | |- is_u64 _ => fail 1 | |- is_s32 _ => fail 1 | |- is_u32 _ => fail 1
  | |- _ /\ _ => split
  end; cbn [set_var_off set_s64 set_u64 set_s32 set_u32 set_meta meta var_off smin_value smax_value
            umin_value umax_value s32_min_value s32_max_value u32_min_value u32_max_value];
  try (eauto with cint; fail).

Section deductions.
Implicit Types r : bpf_reg_state.
Implicit Types x : Z.

Lemma update32_sound r x : holds r x -> holds (__update_reg32_bounds r) x.
Proof.
  intros [Hf (Ht & [Hs Hu] & [Hs3 Hu3])]. open_reg. pose proof (tnum_subreg_sound _ _ Ht) as Hsub.
  pose proof (tnum_s32min _ _ Hsub). pose proof (tnum_s32max _ _ Hsub). pose proof (tnum_u32_bounds _ _ Hsub).
  rewrite s32_u32 in *. rewrite (u32_id (u32 x)) in * by apply u32_range.
  unfold __update_reg32_bounds. close_reg; clia.
Qed.

Lemma update64_sound r x : holds r x -> holds (__update_reg64_bounds r) x.
Proof.
  intros [Hf (Ht & [Hs Hu] & [Hs3 Hu3])]. open_reg. pose proof (elem_of_wf _ _ Ht) as (Hv & Hm & _).
  pose proof (tnum_smin _ _ Ht). pose proof (tnum_smax _ _ Ht). pose proof (elem_of_bounds _ _ Ht).
  unfold __update_reg64_bounds. close_reg; clia.
Qed.

Lemma update_sound r x : holds r x -> holds (__update_reg_bounds r) x.
Proof. intros H. by apply update64_sound, update32_sound. Qed.

(** Case analysis on the sign of every word in sight. *)
Ltac sign32 t := pose proof (s32_cases t ltac:(eauto with cint)).
Ltac sign64 t := pose proof (s64_cases t ltac:(eauto with cint)).

Lemma deduce32_sound r x : holds r x -> holds (__reg32_deduce_bounds r) x.
Proof.
  intros [Hf (Ht & [Hs Hu] & [Hs3 Hu3])]. open_reg. unfold __reg32_deduce_bounds.
  pose proof (s32_cases (u32 x) (u32_range x)) as Hx. rewrite s32_u32 in Hx.
  pose proof (u32_cases (s32_min_value r) ltac:(done)). pose proof (u32_cases (s32_max_value r) ltac:(done)).
  sign32 (u32_min_value r). sign32 (u32_max_value r).
  sign32 (Z.max (u32 (s32_min_value r)) (u32_min_value r)). sign32 (Z.min (u32 (s32_max_value r)) (u32_max_value r)).
  destruct (Z.leb_spec 0 (s32_min_value r)); [|destruct (Z.ltb_spec (s32_max_value r) 0)]; cbn [orb];
    [close_reg; clia..|].
  destruct (Z.leb_spec 0 (s32 (u32_max_value r))); [close_reg; clia|].
  destruct (Z.ltb_spec (s32 (u32_min_value r)) 0); close_reg; clia.
Qed.

Lemma deduce64_sound r x : holds r x -> holds (__reg64_deduce_bounds r) x.
Proof.
  intros [Hf (Ht & [Hs Hu] & [Hs3 Hu3])]. open_reg. unfold __reg64_deduce_bounds.
  pose proof (s64_cases x (elem_of_u64 _ _ Ht)) as Hx.
  pose proof (u64_cases (smin_value r) ltac:(done)). pose proof (u64_cases (smax_value r) ltac:(done)).
  sign64 (umin_value r). sign64 (umax_value r).
  sign64 (Z.max (u64 (smin_value r)) (umin_value r)). sign64 (Z.min (u64 (smax_value r)) (umax_value r)).
  destruct (Z.leb_spec 0 (smin_value r)); [|destruct (Z.ltb_spec (smax_value r) 0)]; cbn [orb];
    [close_reg; clia..|].
  destruct (Z.leb_spec 0 (s64 (umax_value r))); [close_reg; clia|].
  destruct (Z.ltb_spec (s64 (umin_value r)) 0); close_reg; clia.
Qed.

Lemma deduce_sound r x : holds r x -> holds (__reg_deduce_bounds r) x.
Proof. intros H. by apply deduce64_sound, deduce32_sound. Qed.

Lemma bound_offset_sound r x : holds r x -> holds (__reg_bound_offset r) x.
Proof.
  intros [Hf (Ht & [Hs Hu] & [Hs3 Hu3])]. open_reg. unfold __reg_bound_offset.
  set (v64 := tnum_intersect _ _). set (v32 := tnum_intersect (tnum_subreg v64) _).
  assert (H64 : x ∈ v64) by (apply tnum_intersect_sound; [done|by apply tnum_range_sound]).
  assert (H32 : u32 x ∈ v32).
  { apply tnum_intersect_sound; [by apply tnum_subreg_sound|].
    apply tnum_range_sound; try done; by apply is_u32_is_u64. }
  close_reg; try clia. replace x with (x - u32 x + u32 x) by lia. apply with_subreg_sound; try done. apply u32_range.
Qed.

Lemma sync_holds r x : holds r x -> holds (reg_bounds_sync r) x.
Proof. intros H. by apply update_sound, bound_offset_sound, deduce_sound, update_sound. Qed.
End deductions.

(** ** Synchronising bounds establishes the invariant *)
Section invariant.
Implicit Types r : bpf_reg_state.
Implicit Types a b : tnum.
Implicit Types x y : Z.

(** Non-negative signed bounds are reflected in the unsigned ones. *)
Definition nonneg_bounds r : Prop :=
  (0 <= smin_value r -> umax_value r <= S64_MAX) /\ (0 <= s32_min_value r -> u32_max_value r <= S32_MAX).
(** ... and in the tracked bits. *)
Definition nonneg_bits r : Prop :=
  (0 <= smin_value r -> Z.testbit (mask (var_off r)) 63 = false) /\
  (0 <= s32_min_value r -> Z.testbit (mask (var_off r)) 31 = false).

Lemma reg_ok_intro r : reg_fields r -> nonneg_bounds r -> nonneg_bits r -> reg_ok r.
Proof. intros Hf [H1 H2] [H3 H4]. split; [done|]. split; eauto. Qed.

Ltac sign32 t := pose proof (s32_cases t ltac:(eauto with cint)).
Ltac sign64 t := pose proof (s64_cases t ltac:(eauto with cint)).

Lemma deduce32_nonneg r x : holds r x -> let r' := __reg32_deduce_bounds r in
  0 <= s32_min_value r' -> u32_max_value r' <= S32_MAX.
Proof.
  intros [Hf (Ht & [Hs Hu] & [Hs3 Hu3])]. open_reg. unfold __reg32_deduce_bounds.
  pose proof (s32_cases (u32 x) (u32_range x)) as Hx. rewrite s32_u32 in Hx.
  pose proof (u32_cases (s32_min_value r) ltac:(done)). pose proof (u32_cases (s32_max_value r) ltac:(done)).
  sign32 (u32_min_value r). sign32 (u32_max_value r).
  sign32 (Z.max (u32 (s32_min_value r)) (u32_min_value r)).
  destruct (Z.leb_spec 0 (s32_min_value r)); [|destruct (Z.ltb_spec (s32_max_value r) 0)]; cbn [orb]; [cbn; clia..|].
  destruct (Z.leb_spec 0 (s32 (u32_max_value r))); [cbn; clia|].
  destruct (Z.ltb_spec (s32 (u32_min_value r)) 0); cbn; clia.
Qed.

Lemma deduce64_nonneg r x : holds r x -> let r' := __reg64_deduce_bounds r in
  0 <= smin_value r' -> umax_value r' <= S64_MAX.
Proof.
  intros [Hf (Ht & [Hs Hu] & [Hs3 Hu3])]. open_reg. unfold __reg64_deduce_bounds.
  pose proof (s64_cases x (elem_of_u64 _ _ Ht)) as Hx.
  pose proof (u64_cases (smin_value r) ltac:(done)). pose proof (u64_cases (smax_value r) ltac:(done)).
  sign64 (umin_value r). sign64 (umax_value r).
  sign64 (Z.max (u64 (smin_value r)) (umin_value r)).
  destruct (Z.leb_spec 0 (smin_value r)); [|destruct (Z.ltb_spec (smax_value r) 0)]; cbn [orb]; [cbn; clia..|].
  destruct (Z.leb_spec 0 (s64 (umax_value r))); [cbn; clia|].
  destruct (Z.ltb_spec (s64 (umin_value r)) 0); cbn; clia.
Qed.

Lemma deduce_nonneg r x : holds r x -> nonneg_bounds (__reg_deduce_bounds r).
Proof.
  intros H. split; [by eapply deduce64_nonneg, deduce32_sound|].
  pose proof (deduce32_nonneg r x H) as H32. unfold __reg_deduce_bounds, __reg64_deduce_bounds.
  by repeat case_match.
Qed.

(** The unknown bits of a range lie below its width. *)
Lemma range_mask_bit min max k i :
  0 <= min < 2 ^ k -> 0 <= max < 2 ^ k -> 0 <= k <= 63 -> k <= i -> Z.testbit (mask (tnum_range min max)) i = false.
Proof.
  intros Hmin Hmax Hk Hi. assert (2 ^ k <= 2 ^ 63) by (apply Z.pow_le_mono_r; lia).
  assert (Hx : 0 <= Z.lxor min max) by (apply Z.lxor_nonneg; lia).
  assert (Hl : fls64 (Z.lxor min max) <= k).
  { unfold fls64. destruct (Z.eqb_spec (Z.lxor min max) 0); [lia|].
    assert (Hlog : Z.log2 (Z.lxor min max) < k).
    { assert (Hm : forall z, 0 <= z < 2 ^ k -> z = 0 \/ Z.log2 z < k).
      { intros z Hz. destruct (decide (z = 0)); [by left|right]. apply Z.log2_lt_pow2; lia. }
      pose proof (Z.log2_lxor min max ltac:(lia) ltac:(lia)).
      destruct (Hm min ltac:(lia)) as [->|], (Hm max ltac:(lia)) as [->|]; try (change (Z.log2 0) with 0 in *);
        rewrite ?Z.lxor_0_l, ?Z.lxor_0_r in *; lia. }
    rewrite fls_spec; [lia|]. split; [lia|]. apply Z.log2_lt_pow2; lia. }
  unfold tnum_range. destruct (fls64_bound (Z.lxor min max)) as [_ Hb].
  { apply is_u64_lxor; unfold is_u64; lia. }
  destruct (Z.ltb_spec 63 (fls64 (Z.lxor min max))); [lia|]. cbn [mask].
  rewrite shl64_1 by lia. rewrite testbit_ones_nonneg by lia. apply Z.ltb_ge. lia.
Qed.

(** Unknown bits of the combinations used below. *)
Lemma mask_or_clear a b i :
  0 <= i -> Z.testbit (mask a) i = false -> Z.testbit (mask b) i = false -> Z.testbit (mask (tnum_or a b)) i = false.
Proof. intros Hi Ha Hb. cbn [tnum_or mask]. rewrite Z.land_spec, Z.lor_spec, Ha, Hb. done. Qed.
Lemma mask_intersect a b i :
  Z.testbit (mask (tnum_intersect a b)) i = Z.testbit (mask a) i && Z.testbit (mask b) i.
Proof. cbn [tnum_intersect mask]. apply Z.land_spec. Qed.
Lemma mask_subreg a i : 0 <= i -> Z.testbit (mask (tnum_subreg a)) i = (i <? 32) && Z.testbit (mask a) i.
Proof.
  intros Hi. unfold tnum_subreg, tnum_cast. cbn [mask]. rewrite cast_mask by lia.
  rewrite Z.land_spec, testbit_ones_nonneg by lia. apply andb_comm.
Qed.
Lemma mask_clear_subreg a i :
  0 <= i < 64 -> Z.testbit (mask (tnum_clear_subreg a)) i = (32 <=? i) && Z.testbit (mask a) i.
Proof.
  intros Hi. unfold tnum_clear_subreg, tnum_lshift, tnum_rshift. cbn [mask].
  rewrite testbit_shl64 by lia. destruct (Z.ltb_spec i 64); [|lia]. cbn [andb].
  destruct (Z.leb_spec 32 i); cbn [andb]; [|done]. rewrite testbit_shr64 by lia. f_equal. lia.
Qed.

Lemma bound_offset_nonneg r x :
  holds r x -> nonneg_bounds r -> nonneg_bounds (__reg_bound_offset r) /\ nonneg_bits (__reg_bound_offset r).
Proof.
  intros [Hf (Ht & [Hs Hu] & [Hs3 Hu3])] [Hn1 Hn2]. split; [done|]. open_reg.
  split; intros Hge; apply mask_or_clear; try lia; rewrite ?mask_clear_subreg, ?mask_intersect, ?mask_subreg by lia.
  - specialize (Hn1 Hge). rewrite (range_mask_bit _ _ 63) by clia. by rewrite andb_false_r.
  - done.
  - done.
  - specialize (Hn2 Hge). rewrite (range_mask_bit (u32_min_value r) (u32_max_value r) 31) by clia. by rewrite andb_false_r.
Qed.

Lemma bit63_clear y : is_u64 y -> Z.testbit y 63 = false -> y <= S64_MAX.
Proof. intros Hy Hb. pose proof (s64_split y) as Hs. rewrite Hb in Hs. cbn in Hs. revert Hs. cint. Qed.
Lemma bit31_clear y : is_u32 y -> Z.testbit y 31 = false -> y <= S32_MAX.
Proof. intros Hy Hb. pose proof (s32_split y) as Hs. rewrite Hb in Hs. cbn in Hs. revert Hs. cint. Qed.
Lemma s64_nonneg y : 0 <= s64 y -> Z.testbit y 63 = false.
Proof.
  rewrite s64_split. pose proof (Z.mod_pos_bound y (2 ^ 63) ltac:(lia)). destruct (Z.testbit y 63); cbn; [lia|done].
Qed.
Lemma s32_nonneg y : 0 <= s32 y -> Z.testbit y 31 = false.
Proof.
  rewrite s32_split. pose proof (Z.mod_pos_bound y (2 ^ 31) ltac:(lia)). destruct (Z.testbit y 31); cbn; [lia|done].
Qed.

Lemma update_ok r x : holds r x -> nonneg_bounds r -> nonneg_bits r -> reg_ok (__update_reg_bounds r).
Proof.
  intros H [Hn1 Hn2] [Hb1 Hb2]. apply reg_ok_intro; [by eapply update_sound|..].
  - destruct H as [Hf (Ht & _ & _)]. pose proof (elem_of_wf _ _ Ht) as (Hv & Hm & _). open_reg.
    split; unfold __update_reg_bounds, __update_reg64_bounds, __update_reg32_bounds; cbn -[tnum_subreg];
      intros [Hge|Hge]%Z.max_le; [specialize (Hn1 Hge); lia| |specialize (Hn2 Hge); lia|].
    + apply s64_nonneg in Hge. rewrite Z.lor_spec, Z.land_spec, testbit_S64_MIN, andb_true_r in Hge by lia.
      assert (Z.lor (value (var_off r)) (mask (var_off r)) <= S64_MAX); [|lia].
      apply bit63_clear; [eauto with cint|]. by rewrite Z.lor_spec.
    + apply s32_nonneg in Hge. rewrite Z.lor_spec, Z.land_spec, testbit_S32_MIN, andb_true_r in Hge by lia.
      pose proof (bit31_clear (u32 (Z.lor (value (tnum_subreg (var_off r))) (mask (tnum_subreg (var_off r))))) (u32_range _)) as Hu.
      rewrite testbit_u32, Z.lor_spec, Hge in Hu by lia. specialize (Hu eq_refl). lia.
  - split; unfold __update_reg_bounds, __update_reg64_bounds, __update_reg32_bounds; cbn -[tnum_subreg];
      intros [Hge|Hge]%Z.max_le; [by apply Hb1| |by apply Hb2|].
    + apply s64_nonneg in Hge. rewrite Z.lor_spec, Z.land_spec, testbit_S64_MIN, andb_true_r in Hge by lia.
      by apply orb_false_iff in Hge as [_ ?].
    + apply s32_nonneg in Hge. rewrite Z.lor_spec, Z.land_spec, testbit_S32_MIN, andb_true_r in Hge by lia.
      apply orb_false_iff in Hge as [_ Hge]. by rewrite mask_subreg in Hge by lia.
Qed.

(** After synchronisation the value is still inside and the invariant holds,
    whatever the state looked like before. *)
Lemma sync_sound r x : holds r x -> x ∈ reg_bounds_sync r /\ reg_ok (reg_bounds_sync r).
Proof.
  intros H. split; [by apply sync_holds|].
  pose proof (deduce_sound _ _ (update_sound _ _ H)) as Hd.
  pose proof (deduce_nonneg _ _ (update_sound _ _ H)) as Hn.
  destruct (bound_offset_nonneg _ _ Hd Hn) as [Hn' Hb].
  eapply update_ok; [by apply bound_offset_sound|done|done].
Qed.
End invariant.

(** ** Known, unknown and resized registers *)
Section resizing.
Implicit Types r : bpf_reg_state.
Implicit Types x y : Z.

(** What is left when only one half of the bounds can be trusted. *)
Definition holds32 r x : Prop := reg_fields r /\ x ∈ var_off r /\ in32 r x.
Definition holds64 r x : Prop := reg_fields r /\ x ∈ var_off r /\ in64 r x.

Lemma holds_32 r x : holds r x -> holds32 r x. Proof. by intros [? (? & ? & ?)]. Qed.
Lemma holds_64 r x : holds r x -> holds64 r x. Proof. by intros [? (? & ? & ?)]. Qed.

Lemma reg_ok_holds r x : reg_ok r -> x ∈ r -> holds r x.
Proof. intros [Hf _] Hx. by split. Qed.

Lemma mark_known_sound r y : is_u64 y -> reg_fields r -> y ∈ ___mark_reg_known r y /\ reg_ok (___mark_reg_known r y).
Proof.
  intros Hy Hf. pose proof (s64_cases y Hy). pose proof (s32_cases (u32 y) (u32_range y)) as H32. rewrite s32_u32 in H32.
  unfold ___mark_reg_known. split; [|apply reg_ok_intro; open_reg].
  - close_reg; try clia. by apply elem_of_const.
  - close_reg.
  - pose proof (u32_range y). split; cbn; clia.
  - split; intros _; apply Z.bits_0.
Qed.

Lemma unbounded_sound r x : is_u64 x -> in64 (__mark_reg_unbounded r) x /\ in32 (__mark_reg_unbounded r) x.
Proof.
  intros Hx. pose proof (s64_range x). pose proof (s32_range x). pose proof (u32_range x).
  split; split; cbn; clia.
Qed.

Lemma mark_unknown_sound env r x : is_u64 x -> x ∈ __mark_reg_unknown env r /\ reg_ok (__mark_reg_unknown env r).
Proof.
  intros Hx. split.
  - split; [by apply elem_of_unknown|]. by apply unbounded_sound.
  - split; [repeat split; done|]. split; cbn; unfold S64_MIN, S32_MIN; lia.
Qed.

Lemma assign_32_into_64_sound r x : holds32 r x -> is_u32 x -> holds (__reg_assign_32_into_64 r) x.
Proof.
  intros (Hf & Ht & [Hs Hu]) Hx. pose proof (s64_cases x (is_u32_is_u64 _ Hx)). pose proof (s32_cases x Hx).
  rewrite (u32_id x Hx) in Hu. open_reg. unfold __reg_assign_32_into_64, __reg32_bound_s64.
  assert (is_s64 U32_MAX) by done. assert (forall z, is_s32 z -> is_s64 z) by (unfold is_s32, is_s64; lia).
  cbn [s32_min_value s32_max_value set_u64].
  destruct (_ && _) eqn:Hb; close_reg; try (by apply is_u32_is_u64); rewrite ?(u32_id x) by done; clia.
Qed.

Lemma zext_sound r x : holds32 r x -> holds (zext_32_to_64 r) (u32 x).
Proof.
  intros (Hf & Ht & [Hs Hu]). unfold zext_32_to_64. apply assign_32_into_64_sound; [|apply u32_range].
  split; [done|]. split; [by apply tnum_subreg_sound|]. unfold in32. cbn.
  by rewrite s32_u32, (u32_id (u32 x)) by apply u32_range.
Qed.

Lemma clear_subreg_zero a x : x ∈ a -> tnum_equals_const (tnum_clear_subreg a) 0 = true -> is_u32 x.
Proof.
  intros Ha He. unfold tnum_equals_const, tnum_is_const in He.
  apply andb_true_iff in He as [Hm%Z.eqb_eq Hv%Z.eqb_eq].
  pose proof (tnum_clear_subreg_sound _ _ Ha) as (_ & _ & Hc). rewrite Hm, Hv, Z.ldiff_0_r in Hc.
  rewrite clear_low_eq in Hc by (by eapply elem_of_u64). pose proof (u32_range x) as Hr. clia.
Qed.

Lemma combine_32_into_64_sound r x :
  holds32 r x -> x ∈ __reg_combine_32_into_64 r /\ reg_ok (__reg_combine_32_into_64 r).
Proof.
  intros (Hf & Ht & H32). unfold __reg_combine_32_into_64. apply sync_sound.
  destruct (tnum_equals_const _ 0) eqn:He.
  - apply assign_32_into_64_sound; [done|by eapply clear_subreg_zero].
  - pose proof (s64_range x). pose proof (elem_of_u64 _ _ Ht). destruct H32 as [Hs Hu]. open_reg.
    unfold __mark_reg64_unbounded. close_reg; clia.
Qed.

Lemma unbounded32_sound r x : holds64 r x -> holds (__mark_reg32_unbounded r) x.
Proof.
  intros (Hf & Ht & [Hs Hu]). pose proof (s32_range x). pose proof (u32_range x). open_reg.
  unfold __mark_reg32_unbounded. close_reg; clia.
Qed.

Lemma s32_from_s64 r x :
  holds r x -> __reg64_bound_s32 (smin_value r) && __reg64_bound_s32 (smax_value r) = true ->
  holds (set_s32 (s32 (smin_value r)) (s32 (smax_value r)) r) x.
Proof.
  intros [Hf (Ht & [Hs Hu] & [Hs3 Hu3])] Hb. open_reg.
  assert (Hr : is_s32 (smin_value r) /\ is_s32 (smax_value r)) by (unfold __reg64_bound_s32 in Hb; clia).
  assert (s32 x = s64 x).
  { rewrite <- (s32_id (s64 x)) by clia. pose proof (s64_u64 x). cint. }
  rewrite !s32_id by tauto. close_reg; clia.
Qed.

Lemma u32_from_u64 r x :
  holds r x -> __reg64_bound_u32 (umin_value r) && __reg64_bound_u32 (umax_value r) = true ->
  holds (set_u32 (u32 (umin_value r)) (u32 (umax_value r)) r) x.
Proof.
  intros [Hf (Ht & [Hs Hu] & [Hs3 Hu3])] Hb. open_reg.
  assert (Hr : is_u32 (umin_value r) /\ is_u32 (umax_value r)) by (unfold __reg64_bound_u32 in Hb; clia).
  assert (u32 x = x) by (apply u32_id; clia).
  rewrite !u32_id by tauto. close_reg; clia.
Qed.

Lemma combine_64_into_32_sound r x :
  holds64 r x -> x ∈ __reg_combine_64_into_32 r /\ reg_ok (__reg_combine_64_into_32 r).
Proof.
  intros H%unbounded32_sound. unfold __reg_combine_64_into_32. apply sync_sound.
  set (r1 := if __reg64_bound_s32 _ && _ then _ else _).
  assert (H1 : holds r1 x) by (unfold r1; case_match eqn:Hb; [by apply s32_from_s64|done]).
  case_match eqn:Hb; [by apply u32_from_u64|done].
Qed.
End resizing.
