(* ===== verification/BpfCoerce.v ===== *)
(** * Register ranges: truncation and sign extension

    [coerce_reg_to_size] and the 32-bit sign extension are sound.  The 64-bit
    sign extension is sound except for negative ranges, where its unsigned
    bounds are truncated to 32 bits and leave the value out. *)
From S2P Require Import Prelude Bits Tnum TnumThms BpfReg BpfRegThms.

(** ** Words with the same high bits *)
Section blocks.
Implicit Types x y lo hi n : Z.

(** Between two words with the same high part, the low parts are ordered. *)
Lemma same_block lo x hi n :
  0 <= n -> lo <= x <= hi -> lo / 2 ^ n = hi / 2 ^ n -> lo mod 2 ^ n <= x mod 2 ^ n <= hi mod 2 ^ n.
Proof.
  intros Hn Hx Hd. assert (0 < 2 ^ n) by (apply Z.pow_pos_nonneg; lia).
  pose proof (Z.div_le_mono lo x (2 ^ n)). pose proof (Z.div_le_mono x hi (2 ^ n)).
  pose proof (Z.div_mod lo (2 ^ n)). pose proof (Z.div_mod x (2 ^ n)). pose proof (Z.div_mod hi (2 ^ n)).
  assert (x / 2 ^ n = lo / 2 ^ n) by lia. nia.
Qed.

Lemma high_bits x n : 0 <= n < 64 -> is_u64 x -> Z.land x (not64 (Z.ones n)) = 2 ^ n * (x / 2 ^ n).
Proof.
  intros Hn Hx. assert (He : Z.land x (not64 (Z.ones n)) = Z.ldiff x (Z.ones n)).
  { apply Z.bits_inj'. intros i Hi. rewrite Z.land_spec, Z.ldiff_spec, testbit_not64 by lia.
    destruct (Z.ltb_spec i 64); [done|]. by rewrite testbit_high by (done || lia). }
  rewrite He, Z.ldiff_ones_r, Z.shiftl_mul_pow2, Z.shiftr_div_pow2 by lia. lia.
Qed.

Lemma top_bits x n : 0 <= n < 64 -> is_u64 x -> shl64 (shr64 x n) n = 2 ^ n * (x / 2 ^ n).
Proof.
  intros Hn Hx. unfold shl64, shr64. rewrite Z.shiftr_div_pow2, Z.shiftl_mul_pow2 by lia.
  assert (0 < 2 ^ n) by (apply Z.pow_pos_nonneg; lia). rewrite Z.mul_comm. apply u64_id.
  pose proof (Z.mul_div_le x (2 ^ n) ltac:(lia)). pose proof (Z.div_pos x (2 ^ n)). unfold is_u64 in *. nia.
Qed.

(** Sign extension from [n] bits depends on the low bits, and keeps their order
    between two words of the same sign. *)
Definition sext (n x : Z) : Z := (x + 2 ^ (n - 1)) mod 2 ^ n - 2 ^ (n - 1).

Lemma sext_cases n x : 0 < n ->
  (x mod 2 ^ n < 2 ^ (n - 1) /\ sext n x = x mod 2 ^ n) \/
  (2 ^ (n - 1) <= x mod 2 ^ n /\ sext n x = x mod 2 ^ n - 2 ^ n).
Proof.
  intros Hn. unfold sext. assert (Hp : 2 ^ n = 2 * 2 ^ (n - 1)) by (rewrite <- Z.pow_succ_r by lia; f_equal; lia).
  assert (0 < 2 ^ (n - 1)) by (apply Z.pow_pos_nonneg; lia).
  rewrite <- Zplus_mod_idemp_l. pose proof (Z.mod_pos_bound x (2 ^ n) ltac:(lia)).
  destruct (Z.lt_ge_cases (x mod 2 ^ n) (2 ^ (n - 1))).
  - left. rewrite (Z.mod_small (x mod 2 ^ n + 2 ^ (n - 1))) by lia. lia.
  - right. rewrite <- (Z.mod_unique (x mod 2 ^ n + 2 ^ (n - 1)) (2 ^ n) 1 (x mod 2 ^ n - 2 ^ (n - 1))); lia.
Qed.

Lemma sext_between n lo x hi :
  0 < n -> lo mod 2 ^ n <= x mod 2 ^ n <= hi mod 2 ^ n -> (0 <=? sext n hi) = (0 <=? sext n lo) ->
  sext n lo <= sext n x <= sext n hi.
Proof.
  intros Hn Hx Hs. pose proof (Z.mod_pos_bound lo (2 ^ n)). pose proof (Z.mod_pos_bound hi (2 ^ n)).
  assert (0 < 2 ^ (n - 1)) by (apply Z.pow_pos_nonneg; lia).
  assert (Hp : 2 ^ n = 2 * 2 ^ (n - 1)) by (rewrite <- Z.pow_succ_r by lia; f_equal; lia).
  destruct (sext_cases n lo Hn) as [[? E1]|[? E1]], (sext_cases n x Hn) as [[? E2]|[? E2]],
    (sext_cases n hi Hn) as [[? E3]|[? E3]]; rewrite E1, E3 in Hs; rewrite E1, E2, E3;
    revert Hs; repeat match goal with |- context [?a <=? ?b] => destruct (Z.leb_spec a b) end; intros Hs; try done; try lia.
Qed.

Lemma sext_range n x : 0 < n -> - 2 ^ (n - 1) <= sext n x < 2 ^ (n - 1).
Proof.
  intros Hn. unfold sext. pose proof (Z.mod_pos_bound (x + 2 ^ (n - 1)) (2 ^ n)).
  assert (Hp : 2 ^ n = 2 * 2 ^ (n - 1)) by (rewrite <- Z.pow_succ_r by lia; f_equal; lia).
  assert (0 < 2 ^ (n - 1)) by (apply Z.pow_pos_nonneg; lia). lia.
Qed.
End blocks.

(** The sizes in bytes of a truncation, and of a sign extension. *)
Definition is_size (size : Z) : Prop := size = 1 \/ size = 2 \/ size = 4.

Lemma sext_size_eq size x : is_size size -> sext_size size x = sext (size * 8) x.
Proof. by intros [->|[->| ->]]. Qed.
Lemma sext_size32_eq size x : size = 1 \/ size = 2 -> sext_size32 size x = sext (size * 8) x.
Proof. by intros [->| ->]. Qed.

Section coerce.
Implicit Types r : bpf_reg_state.
Implicit Types x size : Z.

Lemma mask_cast a size i :
  0 <= size < 8 -> 0 <= i -> Z.testbit (mask (tnum_cast a size)) i = (i <? size * 8) && Z.testbit (mask a) i.
Proof.
  intros Hs Hi. unfold tnum_cast. cbn [mask]. rewrite cast_mask by lia.
  rewrite Z.land_spec, testbit_ones_nonneg by lia. apply andb_comm.
Qed.

(** The bounds that [coerce_reg_to_size] computes for the low bits. *)
Lemma coerce_bounds lo hi x n :
  0 <= n < 64 -> is_u64 lo -> is_u64 hi -> is_u64 x -> lo <= x <= hi ->
  let m := Z.ones n in
  let b := if Z.land lo (not64 m) =? Z.land hi (not64 m) then (Z.land lo m, Z.land hi m) else (0, m) in
  b.1 <= x mod 2 ^ n <= b.2 /\ 0 <= b.1 < 2 ^ n /\ 0 <= b.2 < 2 ^ n.
Proof.
  intros Hn Hlo Hhi Hxu Hx m b. assert (0 < 2 ^ n) by (apply Z.pow_pos_nonneg; lia).
  pose proof (Z.mod_pos_bound x (2 ^ n)). pose proof (Z.mod_pos_bound lo (2 ^ n)). pose proof (Z.mod_pos_bound hi (2 ^ n)).
  unfold b, m. rewrite !high_bits by done. destruct (Z.eqb_spec (2 ^ n * (lo / 2 ^ n)) (2 ^ n * (hi / 2 ^ n))) as [He|]; cbn [fst snd].
  - rewrite !Z.land_ones by lia. apply Z.mul_reg_l in He; [|lia].
    pose proof (same_block lo x hi n ltac:(lia) Hx He). lia.
  - rewrite Z.ones_equiv. lia.
Qed.

Lemma coerce_sound size : is_size size -> RegSound (fun r => coerce_reg_to_size r size) (fun x => x mod 2 ^ (size * 8)).
Proof.
  intros Hsz r x Hok Hx. pose proof Hok as (Hf & Hok1 & Hok2). destruct Hx as (Ht & [Hs Hu] & [Hs3 Hu3]).
  assert (Hsize : 1 <= size <= 4) by (destruct Hsz as [->|[->| ->]]; lia).
  pose proof (elem_of_u64 _ _ Ht) as Hxu. unfold coerce_reg_to_size. cbn [umin_value umax_value set_var_off].
  rewrite shl64_1 by lia. destruct Hf as (F1 & F2 & F3 & F4 & F5 & F6 & F7 & F8).
  pose proof (coerce_bounds (umin_value r) (umax_value r) x (size * 8) ltac:(lia) F3 F4 Hxu Hu) as Hb. cbv zeta in Hb.
  destruct (if _ =? _ then _ else _) as [lo hi]. cbn [fst snd] in Hb. destruct Hb as (Hx & Hlo & Hhi).
  assert (Hpow : 2 ^ (size * 8) <= 2 ^ 32) by (apply Z.pow_le_mono_r; lia).
  set (y := x mod 2 ^ (size * 8)) in *.
  assert (Hty : y ∈ tnum_cast (var_off r) size) by (by apply (tnum_cast_sound size ltac:(lia))).
  rewrite (s64_id lo), (s64_id hi) by clia.
  assert (Hsy : s64 y = y) by (apply s64_id; clia).
  destruct (Z.leb_spec 4 size).
  - assert (size = 4) as -> by lia. change (y) with (u32 x) in *. split.
    + close_reg; try clia; rewrite ?s32_u32, ?(u32_id (u32 x)) by (apply u32_range); clia.
    + apply reg_ok_intro; [close_reg; clia|..].
      * split; cbn; [clia|]. intros Hge. by destruct (Hok2 Hge).
      * split; intros Hge; cbn [var_off set_s64 set_u64 set_var_off]; rewrite mask_cast by lia; [done|].
        by destruct (Hok2 Hge) as [_ ->].
  - apply combine_64_into_32_sound. split; [close_reg; clia|]. split; [done|]. split; cbn; clia.
Qed.
(** Signed bounds with the same high bits bound the sign-extended low bits. *)
Lemma sx_between lo hi x n :
  n = 8 \/ n = 16 \/ n = 32 -> is_s64 lo -> is_s64 hi -> is_u64 x -> lo <= s64 x <= hi ->
  shl64 (shr64 (u64 hi) n) n = shl64 (shr64 (u64 lo) n) n -> (0 <=? sext n hi) = (0 <=? sext n lo) ->
  sext n lo <= sext n x <= sext n hi.
Proof.
  intros Hn Hlo Hhi Hxu Hx Htop Hs. assert (Hn' : 0 <= n < 64) by lia.
  rewrite !top_bits in Htop by (done || apply u64_range).
  apply Z.mul_reg_l in Htop; [|apply Z.pow_nonzero; lia].
  apply sext_between; [lia| |done].
  assert (Hmod : forall z, u64 z mod 2 ^ n = z mod 2 ^ n) by (intros z; destruct Hn as [->|[->| ->]]; cint).
  rewrite <- (Hmod lo), <- (Hmod hi). apply same_block; [lia| |by symmetry].
  pose proof (u64_cases lo Hlo). pose proof (u64_cases hi Hhi). pose proof (s64_cases x Hxu).
  assert (~ (u64 hi < 2 ^ 63 <= u64 lo)); [|clia].
  intros Hc. pose proof (u64_range lo) as Hrl. pose proof (u64_range hi) as Hrh. clear - Hn Htop Hc Hrl Hrh.
  unfold is_u64 in *. destruct Hn as [->|[->| ->]]; Z.to_euclidean_division_equations; lia.
Qed.

(** The range of the result is negative: the branch whose unsigned bounds are
    truncated to 32 bits. *)
Definition sx_truncates (r : bpf_reg_state) (size : Z) : bool :=
  negb (tnum_is_const (var_off r)) &&
  (shl64 (shr64 (u64 (smax_value r)) (size * 8)) (size * 8) =? shl64 (shr64 (u64 (smin_value r)) (size * 8)) (size * 8)) &&
  (sext_size size (smin_value r) <? 0) && (sext_size size (smax_value r) <? 0).

Lemma size_bits size : is_size size -> size * 8 = 8 \/ size * 8 = 16 \/ size * 8 = 32.
Proof. unfold is_size. lia. Qed.

Lemma sext_size_s32 size x : is_size size -> is_s32 (sext_size size x).
Proof.
  intros Hsz. rewrite sext_size_eq by done. pose proof (sext_range (size * 8) x).
  destruct Hsz as [->|[->| ->]]; cbn [Z.mul Pos.mul Pos.add] in *; unfold is_s32 in *; lia.
Qed.

Lemma const_member a x : x ∈ a -> tnum_is_const a = true -> value a = x.
Proof. intros (_ & _ & <-) Hm%Z.eqb_eq. by rewrite Hm, Z.ldiff_0_r. Qed.

Lemma sext64_default_sound r size x :
  is_size size -> let y := u64 (sext_size size x) in
  y ∈ set_sext64_default_val r size /\ reg_ok (set_sext64_default_val r size).
Proof.
  intros Hsz y. pose proof (sext_size_s32 size x Hsz) as H32.
  assert (Hs : s64 y = sext_size size x) by (unfold y; rewrite s64_u64; apply s64_id; clia).
  assert (Hs' : s32 y = sext_size size x) by (unfold y; revert H32; cint).
  pose proof (sext_range (size * 8) x) as Hr. rewrite <- sext_size_eq in Hr by done.
  pose proof (u64_range (sext_size size x)) as Hu. pose proof (u32_range y) as Hu32. fold y in Hu.
  unfold set_sext64_default_val. destruct Hsz as [->|[->| ->]];
    cbn [Z.eqb Pos.eqb Z.mul Pos.mul Pos.add Z.sub Z.add Z.opp Z.pos_sub Pos.pred_double] in *; split;
    try (close_reg; [by apply elem_of_unknown|clia..]);
    (split; [close_reg; clia|split; cbn; clia]).
Qed.

Lemma coerce_sx_sound r size x :
  is_size size -> reg_ok r -> x ∈ r -> sx_truncates r size = false ->
  u64 (sext_size size x) ∈ coerce_reg_to_size_sx r size /\ reg_ok (coerce_reg_to_size_sx r size).
Proof.
  intros Hsz Hok Hx Htr. pose proof Hok as (Hf & _ & _). destruct Hx as (Ht & [Hs Hu] & _).
  pose proof (elem_of_u64 _ _ Ht) as Hxu. unfold coerce_reg_to_size_sx, sx_truncates in *.
  destruct (tnum_is_const (var_off r)) eqn:Hc; cbn [negb andb] in Htr.
  { rewrite (const_member _ _ Ht Hc). apply (mark_known_sound r); [apply u64_range|done]. }
  set (hi := sext_size size (smax_value r)) in *. set (lo := sext_size size (smin_value r)) in *.
  destruct (Z.eqb_spec (shl64 (shr64 (u64 (smax_value r)) (size * 8)) (size * 8))
    (shl64 (shr64 (u64 (smin_value r)) (size * 8)) (size * 8))) as [Htop|]; cbn [andb] in *;
    [|by apply sext64_default_sound].
  destruct (Bool.eqb _ _) eqn:Hsg; [|by apply sext64_default_sound].
  assert (Hsg' : (0 <=? hi) = (0 <=? lo)).
  { apply eqb_prop in Hsg. destruct (Z.max_spec hi lo) as [[? E]|[? E]], (Z.min_spec hi lo) as [[? E']|[? E']]; rewrite E, E' in Hsg; done || lia. }
  destruct Hf as (F1 & F2 & _).
  assert (Hb : lo <= sext_size size x <= hi).
  { unfold lo, hi in *. rewrite !sext_size_eq in * by done.
    eapply sx_between; try done. by apply size_bits. }
  assert (0 <= lo) by lia. rewrite Z.max_l, Z.min_r by lia.
  pose proof (sext_size_s32 size (smax_value r) Hsz) as R1. pose proof (sext_size_s32 size (smin_value r) Hsz) as R2.
  fold hi in R1. fold lo in R2. set (y := sext_size size x) in *.
  rewrite (u64_id y), (u64_id lo), (u64_id hi), (u32_id lo), (u32_id hi), (s32_id lo), (s32_id hi) by clia.
  assert (Hym : y ∈ tnum_range lo hi) by (apply tnum_range_sound; clia).
  assert (s64 y = y) by (apply s64_id; clia). assert (s32 y = y) by (apply s32_id; clia). assert (u32 y = y) by (apply u32_id; clia).
  split; [close_reg; try done; clia|]. split; [close_reg; clia|].
  split; intros _; (split; [cbn -[tnum_range]; clia|cbn [var_off set_var_off]; apply (range_mask_bit _ _ 31); clia]).
Qed.

(** That branch: its unsigned bounds, and a value of more than 32 bits. *)
Lemma coerce_sx_truncated_value r size x :
  is_size size -> reg_ok r -> x ∈ r -> sx_truncates r size = true ->
  let hi := sext_size size (smax_value r) in
  let lo := sext_size size (smin_value r) in
  umin_value (coerce_reg_to_size_sx r size) = u32 (Z.min hi lo) /\
  umax_value (coerce_reg_to_size_sx r size) = u32 (Z.max hi lo) /\ U32_MAX < u64 (sext_size size x).
Proof.
  intros Hsz ((F1 & F2 & _) & _ & _) (Ht & [Hs _] & _) Htr.
  pose proof (elem_of_u64 _ _ Ht) as Hxu. unfold sx_truncates in Htr. unfold coerce_reg_to_size_sx.
  apply andb_true_iff in Htr as [[[Hc Htop]%andb_true_iff Hlo]%andb_true_iff Hhi].
  apply negb_true_iff in Hc. rewrite Hc, Htop. apply Z.eqb_eq in Htop. apply Z.ltb_lt in Hlo, Hhi.
  set (hi := sext_size size (smax_value r)) in *. set (lo := sext_size size (smin_value r)) in *.
  replace (Bool.eqb (0 <=? Z.max hi lo) (0 <=? Z.min hi lo)) with true by
    (symmetry; apply eqb_true_iff; destruct (Z.leb_spec 0 (Z.max hi lo)), (Z.leb_spec 0 (Z.min hi lo)); lia || done).
  cbn [andb umax_value umin_value set_var_off set_u64]. split; [done|]. split; [done|].
  assert (Hb : lo <= sext_size size x <= hi).
  { unfold lo, hi in *. rewrite !sext_size_eq in * by done. eapply sx_between; try done; [by apply size_bits|].
    destruct (Z.leb_spec 0 (sext (size * 8) (smax_value r))), (Z.leb_spec 0 (sext (size * 8) (smin_value r))); lia || done. }
  pose proof (sext_size_s32 size x Hsz) as R. 
  pose proof (u64_cases (sext_size size x) ltac:(clia)). clia.
Qed.
(** In that branch both unsigned bounds fit in 32 bits and the value does not. *)
Lemma sx_truncated_bounds r size x :
  is_size size -> reg_ok r -> x ∈ r -> sx_truncates r size = true ->
  umin_value (coerce_reg_to_size_sx r size) <= U32_MAX /\ umax_value (coerce_reg_to_size_sx r size) <= U32_MAX /\
  U32_MAX < u64 (sext_size size x).
Proof.
  intros Hsz Hok Hx Htr. pose proof (coerce_sx_truncated_value r size x Hsz Hok Hx Htr) as (E1 & E2 & H).
  rewrite E1, E2. pose proof (u32_range (Z.min (sext_size size (smax_value r)) (sext_size size (smin_value r)))).
  pose proof (u32_range (Z.max (sext_size size (smax_value r)) (sext_size size (smin_value r)))). clia.
Qed.

Lemma coerce_sx_truncated r size x :
  is_size size -> reg_ok r -> x ∈ r -> sx_truncates r size = true ->
  umax_value (coerce_reg_to_size_sx r size) < u64 (sext_size size x).
Proof. intros Hsz Hok Hx Htr. pose proof (sx_truncated_bounds r size x Hsz Hok Hx Htr). lia. Qed.

(** The same for the low half. *)
Lemma top_bits32 x n :
  0 <= n -> is_u32 x -> u32 (Z.shiftl (Z.shiftr x n) n) = 2 ^ n * (x / 2 ^ n).
Proof.
  intros Hn Hx. rewrite Z.shiftr_div_pow2, Z.shiftl_mul_pow2 by lia.
  assert (0 < 2 ^ n) by (apply Z.pow_pos_nonneg; lia). rewrite Z.mul_comm. apply u32_id.
  pose proof (Z.mul_div_le x (2 ^ n) ltac:(lia)). pose proof (Z.div_pos x (2 ^ n)). unfold is_u32 in *. nia.
Qed.

Lemma sx_between32 lo hi x n :
  n = 8 \/ n = 16 -> is_s32 lo -> is_s32 hi -> lo <= s32 x <= hi ->
  u32 (Z.shiftl (Z.shiftr (u32 hi) n) n) = u32 (Z.shiftl (Z.shiftr (u32 lo) n) n) ->
  (0 <=? sext n hi) = (0 <=? sext n lo) -> sext n lo <= sext n x <= sext n hi.
Proof.
  intros Hn Hlo Hhi Hx Htop Hs. assert (Hn' : 0 <= n) by lia.
  rewrite !top_bits32 in Htop by (done || apply u32_range).
  apply Z.mul_reg_l in Htop; [|apply Z.pow_nonzero; lia].
  apply sext_between; [lia| |done].
  assert (Hmod : forall z, u32 z mod 2 ^ n = z mod 2 ^ n) by (intros z; destruct Hn as [->| ->]; cint).
  rewrite <- (Hmod lo), <- (Hmod hi), <- (Hmod x). apply same_block; [lia| |by symmetry].
  pose proof (u32_cases lo Hlo). pose proof (u32_cases hi Hhi). pose proof (s32_cases (u32 x) (u32_range x)) as Hc.
  rewrite s32_u32 in Hc. pose proof (u32_range x).
  assert (~ (u32 hi < 2 ^ 31 <= u32 lo)); [|clia].
  intros Hlt. pose proof (u32_range lo) as Hrl. pose proof (u32_range hi) as Hrh. clear - Hn Htop Hlt Hrl Hrh.
  unfold is_u32 in *. destruct Hn as [->| ->]; Z.to_euclidean_division_equations; lia.
Qed.

Lemma sext_size32_s16 size x : size = 1 \/ size = 2 -> - 2 ^ 15 <= sext_size32 size x < 2 ^ 15.
Proof.
  intros Hsz. rewrite sext_size32_eq by done. pose proof (sext_range (size * 8) x).
  destruct Hsz as [->| ->]; cbn [Z.mul Pos.mul Pos.add] in *; lia.
Qed.

Lemma sext32_default_sound r size x :
  size = 1 \/ size = 2 -> reg_fields r -> holds32 (set_sext32_default_val r size) (u32 (sext_size32 size x)).
Proof.
  intros Hsz Hf. pose proof (sext_size32_s16 size x Hsz) as H16. set (y := sext_size32 size x) in *.
  pose proof (sext_range (size * 8) x) as Hr. rewrite <- sext_size32_eq in Hr by done. fold y in Hr.
  clearbody y. assert (Hs : s32 y = y) by (apply s32_id; clia). pose proof (u32_range y). open_reg.
  split; [|split; [|split]].
  - unfold set_sext32_default_val. destruct Hsz as [->| ->]; close_reg.
  - unfold set_sext32_default_val. destruct Hsz as [->| ->]; cbn [Z.eqb Pos.eqb var_off set_var_off];
      rewrite <- (u32_id (u32 y)) by apply u32_range; apply tnum_subreg_sound, elem_of_unknown, is_u32_is_u64, u32_range.
  - rewrite s32_u32, Hs. unfold set_sext32_default_val. destruct Hsz as [->| ->]; cbn in *; lia.
  - rewrite u32_id by apply u32_range. unfold set_sext32_default_val. destruct Hsz as [->| ->]; cbn; clia.
Qed.

(** The 32-bit sign extension followed by the zero extension of the result. *)
Lemma coerce_subreg_sx_holds r size x :
  size = 1 \/ size = 2 -> holds r x ->
  holds (zext_32_to_64 (coerce_subreg_to_size_sx r size)) (u32 (sext_size32 size x)).
Proof.
  intros Hsz [Hf (Ht & _ & [Hs Hu])]. set (y := sext_size32 size x).
  assert (Hgoal : forall r' z, u32 z = u32 y -> holds32 r' z -> holds (zext_32_to_64 r') (u32 y)).
  { intros r' z <-. apply zext_sound. }
  unfold coerce_subreg_to_size_sx. destruct (tnum_is_const (var_off r)) eqn:Hc.
  { rewrite (const_member _ _ Ht Hc). apply (Hgoal _ (u64 y)); [apply u32_u64|].
    replace (sext_size32 size (s32 x)) with y by
      (unfold y, sext_size32; destruct Hsz as [->| ->]; cbn [Z.eqb Pos.eqb]; cint).
    assert (is_u64 (u64 y)) by apply u64_range. open_reg. split; [close_reg|]. split; [by apply elem_of_const|].
    split; cbn -[y]; lia. }
  set (hi := sext_size32 size (s32_max_value r)) in *. set (lo := sext_size32 size (s32_min_value r)) in *.
  destruct (_ && _) eqn:Hb.
  2: { apply (Hgoal _ (u32 y)); [apply u32_id, u32_range|]. by apply sext32_default_sound. }
  apply andb_true_iff in Hb as [Htop%Z.eqb_eq Hsg].
  assert (Hsg' : (0 <=? hi) = (0 <=? lo)).
  { apply eqb_prop in Hsg. destruct (Z.max_spec hi lo) as [[? E]|[? E]], (Z.min_spec hi lo) as [[? E']|[? E']]; rewrite E, E' in Hsg; done || lia. }
  destruct Hf as (F1 & F2 & F3 & F4 & F5 & F6 & F7 & F8).
  assert (Hy : lo <= y <= hi).
  { unfold lo, hi, y in *. rewrite !sext_size32_eq in * by done. eapply sx_between32; try done. clear - Hsz. lia. }
  pose proof (sext_size32_s16 size (s32_max_value r) Hsz) as R1. pose proof (sext_size32_s16 size (s32_min_value r) Hsz) as R2.
  fold hi in R1. fold lo in R2. rewrite Z.max_l, Z.min_r by lia. clearbody y hi lo. clear Htop Hsg.
  assert (Hsgn : 0 <= lo \/ hi < 0) by lia.
  pose proof (u64_cases lo ltac:(clia)). pose proof (u64_cases hi ltac:(clia)). pose proof (u64_cases y ltac:(clia)).
  pose proof (u32_cases lo ltac:(clia)). pose proof (u32_cases hi ltac:(clia)). pose proof (u32_cases y ltac:(clia)).
  apply (Hgoal _ (u32 y)); [apply u32_id, u32_range|].
  split; [close_reg; clia|]. split; [|split; cbn].
  - cbn [var_off set_var_off]. rewrite <- u32_u64. apply tnum_subreg_sound, tnum_range_sound; [apply u64_range..|clia].
  - rewrite s32_u32, s32_id by clia. lia.
  - rewrite (u32_id (u32 y)) by apply u32_range. clia.
Qed.
End coerce.
