(* ===== verification/BpfAlu.v ===== *)
(** * Arithmetic on scalars: the verifier and the interpreter

    [adjust_scalar_min_max_vals] and the functions it calls
    ([kernel/bpf/verifier.c]) compute the range of a result; the ALU cases of
    [___bpf_prog_run] ([kernel/bpf/core.c]) compute the result itself. *)
From S2P Require Import Prelude Bits Tnum BpfReg.

Inductive alu_op :=
| BPF_ADD | BPF_SUB | BPF_MUL | BPF_DIV | BPF_OR | BPF_AND | BPF_LSH | BPF_RSH | BPF_NEG | BPF_MOD
| BPF_XOR | BPF_MOV | BPF_ARSH | BPF_END.
#[global] Instance alu_op_eq_dec : EqDecision alu_op.
Proof. solve_decision. Defined.

(** The parts of an ALU instruction: operation, class [BPF_ALU64] or not,
    immediate or register source, [imm] and [off]. *)
Record bpf_insn := mk_insn { opcode : alu_op; alu64 : bool; src_k : bool; imm : Z; insn_off : Z }.

(** ** The interpreter *)

(** Division of 64-bit values; no result by zero or when it overflows. *)
Definition udiv (x y : Z) : option Z := if y =? 0 then None else Some (x / y).
Definition umod (x y : Z) : option Z := if y =? 0 then None else Some (x mod y).
Definition sdiv64 (x y : Z) : option Z :=
  if (s64 y =? 0) || ((s64 x =? S64_MIN) && (s64 y =? -1)) then None else Some (u64 (Z.quot (s64 x) (s64 y))).

(** [abs] on an [int] (the result wraps at [INT_MIN]), and the 64-bit [AX] and
    32-bit divisor that [do_div] works with. *)
Definition abs32 (x : Z) : Z := s32 (Z.abs (s32 x)).
Definition sdiv32 (x y : Z) : option Z :=
  ax ← udiv (u64 (abs32 x)) (u32 (abs32 y));
  Some (if Bool.eqb (s32 x <? 0) (s32 y <? 0) then u32 ax else u32 (- ax)).
Definition smod32 (x y : Z) : option Z :=
  ax ← umod (u64 (abs32 x)) (u32 (abs32 y));
  Some (if s32 x <? 0 then u32 (- ax) else u32 ax).

(** [switch (OFF)] of the divisions: unsigned, signed, and for any other offset
    [DST] as it was. *)
Definition switch_off (off : Z) (unsigned signed : option Z) (x : Z) : option Z :=
  if off =? 0 then unsigned else if off =? 1 then signed else Some x.

(** The new value of [DST], for the 64-bit and the 32-bit class. *)
Definition alu64_exec (op : alu_op) (off x y : Z) : option Z :=
  match op with
  | BPF_ADD => Some (u64 (x + y))
  | BPF_SUB => Some (u64 (x - y))
  | BPF_AND => Some (Z.land x y)
  | BPF_OR => Some (Z.lor x y)
  | BPF_XOR => Some (Z.lxor x y)
  | BPF_MUL => Some (u64 (x * y))
  | BPF_LSH => Some (u64 (Z.shiftl x (Z.land y 63)))
  | BPF_RSH => Some (Z.shiftr x (Z.land y 63))
  | BPF_ARSH => Some (u64 (Z.shiftr (s64 x) (Z.land y 63)))
  | BPF_DIV => switch_off off (udiv x y) (sdiv64 x y) x
  | BPF_MOD => switch_off off (umod x y) (ax ← sdiv64 x y; Some (u64 (x - ax * y))) x
  | _ => None
  end.

Definition alu32_exec (op : alu_op) (off x y : Z) : option Z :=
  match op with
  | BPF_ADD => Some (u32 (u32 x + u32 y))
  | BPF_SUB => Some (u32 (u32 x - u32 y))
  | BPF_AND => Some (Z.land (u32 x) (u32 y))
  | BPF_OR => Some (Z.lor (u32 x) (u32 y))
  | BPF_XOR => Some (Z.lxor (u32 x) (u32 y))
  | BPF_MUL => Some (u32 (u32 x * u32 y))
  | BPF_LSH => Some (u32 (Z.shiftl (u32 x) (Z.land (u32 y) 31)))
  | BPF_RSH => Some (Z.shiftr (u32 x) (Z.land (u32 y) 31))
  | BPF_ARSH => Some (u32 (Z.shiftr (s32 x) (Z.land y 31)))
  | BPF_DIV => switch_off off (udiv (u32 x) (u32 y)) (sdiv32 x y) x
  | BPF_MOD => switch_off off (umod (u32 x) (u32 y)) (smod32 x y) x
  | _ => None
  end.

Definition alu_exec (insn : bpf_insn) (x y : Z) : option Z :=
  if alu64 insn then alu64_exec (opcode insn) (insn_off insn) x y
  else alu32_exec (opcode insn) (insn_off insn) x y.

(** ** The verifier *)

Definition signed_add_overflows (a b : Z) : bool :=
  let res := s64 (u64 (u64 a + u64 b)) in if b <? 0 then a <? res else res <? a.
Definition signed_add32_overflows (a b : Z) : bool :=
  let res := s32 (u32 (u32 a + u32 b)) in if b <? 0 then a <? res else res <? a.
Definition signed_sub_overflows (a b : Z) : bool :=
  let res := s64 (u64 (u64 a - u64 b)) in if b <? 0 then res <? a else a <? res.
Definition signed_sub32_overflows (a b : Z) : bool :=
  let res := s32 (u32 (u32 a - u32 b)) in if b <? 0 then res <? a else a <? res.

Definition scalar32_min_max_add (dst_reg src_reg : bpf_reg_state) : bpf_reg_state :=
  let smin_val := s32_min_value src_reg in
  let smax_val := s32_max_value src_reg in
  let umin_val := u32_min_value src_reg in
  let umax_val := u32_max_value src_reg in
  let d := if signed_add32_overflows (s32_min_value dst_reg) smin_val
             || signed_add32_overflows (s32_max_value dst_reg) smax_val
           then set_s32 S32_MIN S32_MAX dst_reg
           else set_s32 (s32 (s32_min_value dst_reg + smin_val)) (s32 (s32_max_value dst_reg + smax_val)) dst_reg in
  if (u32 (u32_min_value d + umin_val) <? umin_val) || (u32 (u32_max_value d + umax_val) <? umax_val)
  then set_u32 0 U32_MAX d
  else set_u32 (u32 (u32_min_value d + umin_val)) (u32 (u32_max_value d + umax_val)) d.

Definition scalar_min_max_add (dst_reg src_reg : bpf_reg_state) : bpf_reg_state :=
  let smin_val := smin_value src_reg in
  let smax_val := smax_value src_reg in
  let umin_val := umin_value src_reg in
  let umax_val := umax_value src_reg in
  let d := if signed_add_overflows (smin_value dst_reg) smin_val
             || signed_add_overflows (smax_value dst_reg) smax_val
           then set_s64 S64_MIN S64_MAX dst_reg
           else set_s64 (s64 (smin_value dst_reg + smin_val)) (s64 (smax_value dst_reg + smax_val)) dst_reg in
  if (u64 (umin_value d + umin_val) <? umin_val) || (u64 (umax_value d + umax_val) <? umax_val)
  then set_u64 0 U64_MAX d
  else set_u64 (u64 (umin_value d + umin_val)) (u64 (umax_value d + umax_val)) d.

Definition scalar32_min_max_sub (dst_reg src_reg : bpf_reg_state) : bpf_reg_state :=
  let smin_val := s32_min_value src_reg in
  let smax_val := s32_max_value src_reg in
  let umin_val := u32_min_value src_reg in
  let umax_val := u32_max_value src_reg in
  let d := if signed_sub32_overflows (s32_min_value dst_reg) smax_val
             || signed_sub32_overflows (s32_max_value dst_reg) smin_val
           then set_s32 S32_MIN S32_MAX dst_reg
           else set_s32 (s32 (s32_min_value dst_reg - smax_val)) (s32 (s32_max_value dst_reg - smin_val)) dst_reg in
  if u32_min_value d <? umax_val then set_u32 0 U32_MAX d
  else set_u32 (u32 (u32_min_value d - umax_val)) (u32 (u32_max_value d - umin_val)) d.

Definition scalar_min_max_sub (dst_reg src_reg : bpf_reg_state) : bpf_reg_state :=
  let smin_val := smin_value src_reg in
  let smax_val := smax_value src_reg in
  let umin_val := umin_value src_reg in
  let umax_val := umax_value src_reg in
  let d := if signed_sub_overflows (smin_value dst_reg) smax_val
             || signed_sub_overflows (smax_value dst_reg) smin_val
           then set_s64 S64_MIN S64_MAX dst_reg
           else set_s64 (s64 (smin_value dst_reg - smax_val)) (s64 (smax_value dst_reg - smin_val)) dst_reg in
  if umin_value d <? umax_val then set_u64 0 U64_MAX d
  else set_u64 (u64 (umin_value d - umax_val)) (u64 (umax_value d - umin_val)) d.

Definition U16_MAX : Z := 2 ^ 16 - 1.

Definition scalar32_min_max_mul (dst_reg src_reg : bpf_reg_state) : bpf_reg_state :=
  let smin_val := s32_min_value src_reg in
  let umin_val := u32_min_value src_reg in
  let umax_val := u32_max_value src_reg in
  if (smin_val <? 0) || (s32_min_value dst_reg <? 0) then __mark_reg32_unbounded dst_reg
  else if (U16_MAX <? umax_val) || (U16_MAX <? u32_max_value dst_reg) then __mark_reg32_unbounded dst_reg
  else
    let d := set_u32 (u32 (u32_min_value dst_reg * umin_val)) (u32 (u32_max_value dst_reg * umax_val)) dst_reg in
    if S32_MAX <? u32_max_value d then set_s32 S32_MIN S32_MAX d
    else set_s32 (s32 (u32_min_value d)) (s32 (u32_max_value d)) d.

Definition scalar_min_max_mul (dst_reg src_reg : bpf_reg_state) : bpf_reg_state :=
  let smin_val := smin_value src_reg in
  let umin_val := umin_value src_reg in
  let umax_val := umax_value src_reg in
  if (smin_val <? 0) || (smin_value dst_reg <? 0) then __mark_reg64_unbounded dst_reg
  else if (U32_MAX <? umax_val) || (U32_MAX <? umax_value dst_reg) then __mark_reg64_unbounded dst_reg
  else
    let d := set_u64 (u64 (umin_value dst_reg * umin_val)) (u64 (umax_value dst_reg * umax_val)) dst_reg in
    if S64_MAX <? umax_value d then set_s64 S64_MIN S64_MAX d
    else set_s64 (s64 (umin_value d)) (s64 (umax_value d)) d.

(** The signed bounds of a bitwise operation: those of the unsigned result
    when both operands are known not to be negative. *)
Definition bitwise_s32 (d : bpf_reg_state) (smin_val : Z) : bpf_reg_state :=
  if (s32_min_value d <? 0) || (smin_val <? 0) then set_s32 S32_MIN S32_MAX d
  else set_s32 (s32 (u32_min_value d)) (s32 (u32_max_value d)) d.
Definition bitwise_s64 (d : bpf_reg_state) (smin_val : Z) : bpf_reg_state :=
  if (smin_value d <? 0) || (smin_val <? 0) then set_s64 S64_MIN S64_MAX d
  else set_s64 (s64 (umin_value d)) (s64 (umax_value d)) d.

Definition scalar32_min_max_and (dst_reg src_reg : bpf_reg_state) : bpf_reg_state :=
  let src_known := tnum_subreg_is_const (var_off src_reg) in
  let dst_known := tnum_subreg_is_const (var_off dst_reg) in
  let var32_off := tnum_subreg (var_off dst_reg) in
  if src_known && dst_known then __mark_reg32_known dst_reg (value var32_off)
  else
    bitwise_s32 (set_u32 (u32 (value var32_off)) (Z.min (u32_max_value dst_reg) (u32_max_value src_reg)) dst_reg)
      (s32_min_value src_reg).

Definition scalar_min_max_and (dst_reg src_reg : bpf_reg_state) : bpf_reg_state :=
  let src_known := tnum_is_const (var_off src_reg) in
  let dst_known := tnum_is_const (var_off dst_reg) in
  if src_known && dst_known then __mark_reg_known dst_reg (value (var_off dst_reg))
  else
    __update_reg_bounds
      (bitwise_s64 (set_u64 (value (var_off dst_reg)) (Z.min (umax_value dst_reg) (umax_value src_reg)) dst_reg)
        (smin_value src_reg)).

Definition scalar32_min_max_or (dst_reg src_reg : bpf_reg_state) : bpf_reg_state :=
  let src_known := tnum_subreg_is_const (var_off src_reg) in
  let dst_known := tnum_subreg_is_const (var_off dst_reg) in
  let var32_off := tnum_subreg (var_off dst_reg) in
  if src_known && dst_known then __mark_reg32_known dst_reg (value var32_off)
  else
    bitwise_s32 (set_u32 (Z.max (u32_min_value dst_reg) (u32_min_value src_reg))
                         (u32 (Z.lor (value var32_off) (mask var32_off))) dst_reg)
      (s32_min_value src_reg).

Definition scalar_min_max_or (dst_reg src_reg : bpf_reg_state) : bpf_reg_state :=
  let src_known := tnum_is_const (var_off src_reg) in
  let dst_known := tnum_is_const (var_off dst_reg) in
  if src_known && dst_known then __mark_reg_known dst_reg (value (var_off dst_reg))
  else
    __update_reg_bounds
      (bitwise_s64 (set_u64 (Z.max (umin_value dst_reg) (umin_value src_reg))
                            (Z.lor (value (var_off dst_reg)) (mask (var_off dst_reg))) dst_reg)
        (smin_value src_reg)).

Definition scalar32_min_max_xor (dst_reg src_reg : bpf_reg_state) : bpf_reg_state :=
  let src_known := tnum_subreg_is_const (var_off src_reg) in
  let dst_known := tnum_subreg_is_const (var_off dst_reg) in
  let var32_off := tnum_subreg (var_off dst_reg) in
  if src_known && dst_known then __mark_reg32_known dst_reg (value var32_off)
  else
    let d := set_u32 (u32 (value var32_off)) (u32 (Z.lor (value var32_off) (mask var32_off))) dst_reg in
    if (0 <=? s32_min_value d) && (0 <=? s32_min_value src_reg)
    then set_s32 (s32 (u32_min_value d)) (s32 (u32_max_value d)) d
    else set_s32 S32_MIN S32_MAX d.

Definition scalar_min_max_xor (dst_reg src_reg : bpf_reg_state) : bpf_reg_state :=
  let src_known := tnum_is_const (var_off src_reg) in
  let dst_known := tnum_is_const (var_off dst_reg) in
  if src_known && dst_known then __mark_reg_known dst_reg (value (var_off dst_reg))
  else
    let d := set_u64 (value (var_off dst_reg)) (Z.lor (value (var_off dst_reg)) (mask (var_off dst_reg))) dst_reg in
    __update_reg_bounds
      (if (0 <=? smin_value d) && (0 <=? smin_value src_reg)
       then set_s64 (s64 (umin_value d)) (s64 (umax_value d)) d
       else set_s64 S64_MIN S64_MAX d).

Definition __scalar32_min_max_lsh (dst_reg : bpf_reg_state) (umin_val umax_val : Z) : bpf_reg_state :=
  let d := set_s32 S32_MIN S32_MAX dst_reg in
  if (31 <? umax_val) || (shl64 1 (31 - umax_val) <? u32_max_value d) then set_u32 0 U32_MAX d
  else set_u32 (u32 (Z.shiftl (u32_min_value d) umin_val)) (u32 (Z.shiftl (u32_max_value d) umax_val)) d.

Definition scalar32_min_max_lsh (dst_reg src_reg : bpf_reg_state) : bpf_reg_state :=
  let umax_val := u32_max_value src_reg in
  let umin_val := u32_min_value src_reg in
  let subreg := tnum_subreg (var_off dst_reg) in
  let d := __scalar32_min_max_lsh dst_reg umin_val umax_val in
  __update_reg32_bounds (__mark_reg64_unbounded (set_var_off (tnum_subreg (tnum_lshift subreg umin_val)) d)).

Definition __scalar64_min_max_lsh (dst_reg : bpf_reg_state) (umin_val umax_val : Z) : bpf_reg_state :=
  let by32 := (umin_val =? 32) && (umax_val =? 32) in
  let hi := if by32 && (0 <=? s32_max_value dst_reg) then s64 (Z.shiftl (s32_max_value dst_reg) 32) else S64_MAX in
  let lo := if by32 && (0 <=? s32_min_value dst_reg) then s64 (Z.shiftl (s32_min_value dst_reg) 32) else S64_MIN in
  let d := set_s64 lo hi dst_reg in
  if shl64 1 (63 - umax_val) <? umax_value d then set_u64 0 U64_MAX d
  else set_u64 (shl64 (umin_value d) umin_val) (shl64 (umax_value d) umax_val) d.

Definition scalar_min_max_lsh (dst_reg src_reg : bpf_reg_state) : bpf_reg_state :=
  let umax_val := umax_value src_reg in
  let umin_val := umin_value src_reg in
  let d := __scalar32_min_max_lsh (__scalar64_min_max_lsh dst_reg umin_val umax_val) umin_val umax_val in
  __update_reg_bounds (set_var_off (tnum_lshift (var_off d) umin_val) d).

Definition scalar32_min_max_rsh (dst_reg src_reg : bpf_reg_state) : bpf_reg_state :=
  let subreg := tnum_subreg (var_off dst_reg) in
  let umax_val := u32_max_value src_reg in
  let umin_val := u32_min_value src_reg in
  let d := set_s32 S32_MIN S32_MAX dst_reg in
  let d := set_var_off (tnum_rshift subreg umin_val) d in
  let d := set_u32 (Z.shiftr (u32_min_value d) umax_val) (Z.shiftr (u32_max_value d) umin_val) d in
  __update_reg32_bounds (__mark_reg64_unbounded d).

Definition scalar_min_max_rsh (dst_reg src_reg : bpf_reg_state) : bpf_reg_state :=
  let umax_val := umax_value src_reg in
  let umin_val := umin_value src_reg in
  let d := set_s64 S64_MIN S64_MAX dst_reg in
  let d := set_var_off (tnum_rshift (var_off d) umin_val) d in
  let d := set_u64 (shr64 (umin_value d) umax_val) (shr64 (umax_value d) umin_val) d in
  __update_reg_bounds (__mark_reg32_unbounded d).

Definition scalar32_min_max_arsh (dst_reg src_reg : bpf_reg_state) : bpf_reg_state :=
  let umin_val := u32_min_value src_reg in
  let d := set_s32 (s32 (u32 (Z.shiftr (s32_min_value dst_reg) umin_val)))
                   (s32 (u32 (Z.shiftr (s32_max_value dst_reg) umin_val))) dst_reg in
  let d := set_var_off (tnum_arshift (tnum_subreg (var_off d)) umin_val 32) d in
  __update_reg32_bounds (__mark_reg64_unbounded (set_u32 0 U32_MAX d)).

Definition scalar_min_max_arsh (dst_reg src_reg : bpf_reg_state) : bpf_reg_state :=
  let umin_val := umin_value src_reg in
  let d := set_s64 (Z.shiftr (smin_value dst_reg) umin_val) (Z.shiftr (smax_value dst_reg) umin_val) dst_reg in
  let d := set_var_off (tnum_arshift (var_off d) umin_val 64) d in
  __update_reg_bounds (__mark_reg32_unbounded (set_u64 0 U64_MAX d)).

(** ** Sanitation state of an instruction ([struct bpf_insn_aux_data]) *)

Record aux_data := mk_aux { alu_state : Z; alu_limit : Z }.
Definition BPF_ALU_NON_POINTER : Z := 8.
Definition REASON_PATHS : Z := -3.
Definition EACCES : Z := 13.

Definition sanitize_needed (op : alu_op) : bool := bool_decide (op = BPF_ADD) || bool_decide (op = BPF_SUB).
Definition can_skip_alu_sanitation (env : bpf_verifier_env) (insn : bpf_insn) : bool :=
  bypass_spec_v1 env || src_k insn.
Definition update_alu_sanitation_state (aux : aux_data) (state limit : Z) : aux_data * Z :=
  if negb (alu_state aux =? 0) && (negb (alu_state aux =? state) || negb (alu_limit aux =? limit))
  then (aux, REASON_PATHS) else (mk_aux state limit, 0).
Definition sanitize_val_alu (env : bpf_verifier_env) (aux : aux_data) (insn : bpf_insn) : aux_data * Z :=
  if can_skip_alu_sanitation env insn then (aux, 0)
  else update_alu_sanitation_state aux BPF_ALU_NON_POINTER 0.

(** The switch of [adjust_scalar_min_max_vals] on the operation. *)
Definition scalar_switch (env : bpf_verifier_env) (insn : bpf_insn) (dst_reg src_reg : bpf_reg_state) : bpf_reg_state :=
  let insn_bitness := if alu64 insn then 64 else 32 in
  let alu32 := negb (alu64 insn) in
  let out_of_range := insn_bitness <=? umax_value src_reg in
  match opcode insn with
  | BPF_ADD =>
      let d := scalar_min_max_add (scalar32_min_max_add dst_reg src_reg) src_reg in
      set_var_off (tnum_add (var_off d) (var_off src_reg)) d
  | BPF_SUB =>
      let d := scalar_min_max_sub (scalar32_min_max_sub dst_reg src_reg) src_reg in
      set_var_off (tnum_sub (var_off d) (var_off src_reg)) d
  | BPF_MUL =>
      let d := set_var_off (tnum_mul (var_off dst_reg) (var_off src_reg)) dst_reg in
      scalar_min_max_mul (scalar32_min_max_mul d src_reg) src_reg
  | BPF_AND =>
      let d := set_var_off (tnum_and (var_off dst_reg) (var_off src_reg)) dst_reg in
      scalar_min_max_and (scalar32_min_max_and d src_reg) src_reg
  | BPF_OR =>
      let d := set_var_off (tnum_or (var_off dst_reg) (var_off src_reg)) dst_reg in
      scalar_min_max_or (scalar32_min_max_or d src_reg) src_reg
  | BPF_XOR =>
      let d := set_var_off (tnum_xor (var_off dst_reg) (var_off src_reg)) dst_reg in
      scalar_min_max_xor (scalar32_min_max_xor d src_reg) src_reg
  | BPF_LSH =>
      if out_of_range then __mark_reg_unknown env dst_reg
      else if alu32 then scalar32_min_max_lsh dst_reg src_reg else scalar_min_max_lsh dst_reg src_reg
  | BPF_RSH =>
      if out_of_range then __mark_reg_unknown env dst_reg
      else if alu32 then scalar32_min_max_rsh dst_reg src_reg else scalar_min_max_rsh dst_reg src_reg
  | BPF_ARSH =>
      if out_of_range then __mark_reg_unknown env dst_reg
      else if alu32 then scalar32_min_max_arsh dst_reg src_reg else scalar_min_max_arsh dst_reg src_reg
  | _ => __mark_reg_unknown env dst_reg
  end.

(** The bounds of the source contradict each other, or a known source. *)
Definition invalid_bounds (insn : bpf_insn) (src_reg : bpf_reg_state) : bool :=
  if alu64 insn then
    (tnum_is_const (var_off src_reg) &&
      (negb (smin_value src_reg =? smax_value src_reg) || negb (umin_value src_reg =? umax_value src_reg)))
    || (smax_value src_reg <? smin_value src_reg) || (umax_value src_reg <? umin_value src_reg)
  else
    (tnum_subreg_is_const (var_off src_reg) &&
      (negb (s32_min_value src_reg =? s32_max_value src_reg) || negb (u32_min_value src_reg =? u32_max_value src_reg)))
    || (s32_max_value src_reg <? s32_min_value src_reg) || (u32_max_value src_reg <? u32_min_value src_reg).

(** The new destination, the sanitation state and the return value. *)
Definition adjust_scalar_min_max_vals (env : bpf_verifier_env) (aux : aux_data) (insn : bpf_insn)
    (dst_reg src_reg : bpf_reg_state) : bpf_reg_state * aux_data * Z :=
  let src_known := if alu64 insn then tnum_is_const (var_off src_reg) else tnum_subreg_is_const (var_off src_reg) in
  if invalid_bounds insn src_reg then (__mark_reg_unknown env dst_reg, aux, 0)
  else if negb src_known && negb (bool_decide (opcode insn ∈ [BPF_ADD; BPF_SUB; BPF_AND]))
  then (__mark_reg_unknown env dst_reg, aux, 0)
  else
    let '(aux, ret) := if sanitize_needed (opcode insn) then sanitize_val_alu env aux insn else (aux, 0) in
    if ret <? 0 then (dst_reg, aux, - EACCES)
    else
      let d := scalar_switch env insn dst_reg src_reg in
      let d := if alu64 insn then d else zext_32_to_64 d in
      (reg_bounds_sync d, aux, 0).
