(* ===== verification/BpfAluThms.v ===== *)
(** * Arithmetic on scalars: the computed range contains the result

    One lemma per [scalar*_min_max_*] function and the composition of
    [adjust_scalar_min_max_vals], against the interpreter. *)
From S2P Require Import Prelude Bits Tnum TnumThms BpfReg BpfRegThms BpfCoerce BpfAlu.

(** ** Overflow tests *)
Section overflow.
Implicit Types a b : Z.

Lemma add32_overflows a b : is_s32 a -> is_s32 b -> signed_add32_overflows a b = false -> is_s32 (a + b).
Proof.
  intros Ha Hb. unfold signed_add32_overflows.
  assert (E : s32 (u32 (u32 a + u32 b)) = s32 (a + b)) by cint. rewrite E. revert Ha Hb. clear E.
  destruct (Z.ltb_spec b 0); intros ?? Hlt%Z.ltb_ge; cint.
Qed.
Lemma add64_overflows a b : is_s64 a -> is_s64 b -> signed_add_overflows a b = false -> is_s64 (a + b).
Proof.
  intros Ha Hb. unfold signed_add_overflows.
  assert (E : s64 (u64 (u64 a + u64 b)) = s64 (a + b)) by cint. rewrite E. revert Ha Hb. clear E.
  destruct (Z.ltb_spec b 0); intros ?? Hlt%Z.ltb_ge; cint.
Qed.
Lemma sub32_overflows a b : is_s32 a -> is_s32 b -> signed_sub32_overflows a b = false -> is_s32 (a - b).
Proof.
  intros Ha Hb. unfold signed_sub32_overflows.
  assert (E : s32 (u32 (u32 a - u32 b)) = s32 (a - b)) by cint. rewrite E. revert Ha Hb. clear E.
  destruct (Z.ltb_spec b 0); intros ?? Hlt%Z.ltb_ge; cint.
Qed.
Lemma sub64_overflows a b : is_s64 a -> is_s64 b -> signed_sub_overflows a b = false -> is_s64 (a - b).
Proof.
  intros Ha Hb. unfold signed_sub_overflows.
  assert (E : s64 (u64 (u64 a - u64 b)) = s64 (a - b)) by cint. rewrite E. revert Ha Hb. clear E.
  destruct (Z.ltb_spec b 0); intros ?? Hlt%Z.ltb_ge; cint.
Qed.

Lemma u32_wraps a b : is_u32 a -> is_u32 b -> (u32 (a + b) <? b) = false -> is_u32 (a + b).
Proof. intros Ha Hb Hlt%Z.ltb_ge. revert Ha Hb Hlt. cint. Qed.
Lemma u64_wraps a b : is_u64 a -> is_u64 b -> (u64 (a + b) <? b) = false -> is_u64 (a + b).
Proof. intros Ha Hb Hlt%Z.ltb_ge. revert Ha Hb Hlt. cint. Qed.

Lemma s32_add a b : s32 (a + b) = s32 (s32 a + s32 b). Proof. cint. Qed.
Lemma s32_sub a b : s32 (a - b) = s32 (s32 a - s32 b). Proof. cint. Qed.
Lemma u32_add a b : u32 (a + b) = u32 (u32 a + u32 b). Proof. cint. Qed.
Lemma u32_sub a b : u32 (a - b) = u32 (u32 a - u32 b). Proof. cint. Qed.
Lemma s64_add a b : s64 (a + b) = s64 (s64 a + s64 b). Proof. cint. Qed.
Lemma s64_sub a b : s64 (a - b) = s64 (s64 a - s64 b). Proof. cint. Qed.
Lemma s32_u64 a : s32 (u64 a) = s32 a. Proof. cint. Qed.
End overflow.

(** What a function on the low half leaves alone: the 64-bit bounds. *)
Definition same64 (r r' : bpf_reg_state) : Prop :=
  smin_value r' = smin_value r /\ smax_value r' = smax_value r /\
  umin_value r' = umin_value r /\ umax_value r' = umax_value r.
Definition same32 (r r' : bpf_reg_state) : Prop :=
  s32_min_value r' = s32_min_value r /\ s32_max_value r' = s32_max_value r /\
  u32_min_value r' = u32_min_value r /\ u32_max_value r' = u32_max_value r.

Lemma same64_in r r' x : same64 r r' -> in64 r x -> in64 r' x.
Proof. intros (E1 & E2 & E3 & E4) [H1 H2]. split; [rewrite E1, E2|rewrite E3, E4]; done. Qed.
Lemma same32_in r r' x : same32 r r' -> in32 r x -> in32 r' x.
Proof. intros (E1 & E2 & E3 & E4) [H1 H2]. split; [rewrite E1, E2|rewrite E3, E4]; done. Qed.

(** ** Sum and difference *)
Section add_sub.
Implicit Types d s : bpf_reg_state.
Implicit Types x y : Z.

Ltac start := intros Hd Hs [Hs3 Hu3] [Hs3' Hu3']; destruct Hd as (D1 & D2 & D3 & D4 & D5 & D6 & D7 & D8);
  destruct Hs as (S1 & S2 & S3 & S4 & S5 & S6 & S7 & S8).
(** Both tests are false: their consequences [L], from the ranges in context. *)
Ltac both H L id := let H1 := fresh in let H2 := fresh in
  apply orb_false_iff in H as [H1 H2]; apply L in H1; [|done..]; apply L in H2; [|done..];
  rewrite ?(id _ H1), ?(id _ H2).
Ltac finish := unfold reg_fields; cbn [set_s32 set_u32 set_s64 set_u64 smin_value smax_value umin_value umax_value
    s32_min_value s32_max_value u32_min_value u32_max_value in32 in64] in *;
  repeat split; clia.

Lemma add32_sound d s x y :
  reg_fields d -> reg_fields s -> in32 d x -> in32 s y ->
  let d' := scalar32_min_max_add d s in
  (in32 d' (x + y) /\ reg_fields d') /\ (same64 d d' /\ var_off d' = var_off d).
Proof.
  start. unfold scalar32_min_max_add. split; [|repeat case_match; done].
  pose proof (s32_range (s32 x + s32 y)). pose proof (u32_range (u32 x + u32 y)).
  unfold in32. rewrite (s32_add x y), (u32_add x y).
  set (d1 := if signed_add32_overflows _ _ || _ then _ else _).
  assert (H1 : s32_min_value d1 <= s32 (s32 x + s32 y) <= s32_max_value d1 /\ reg_fields d1).
  { unfold d1. case_match eqn:Ho; [finish|]. both Ho add32_overflows s32_id. rewrite (s32_id (s32 x + s32 y)) by clia. finish. }
  assert (E : u32_min_value d1 = u32_min_value d /\ u32_max_value d1 = u32_max_value d) by (unfold d1; by case_match).
  clearbody d1. destruct E as [E1 E2], H1 as [H1 (? & ? & ? & ? & ? & ? & ? & ?)]. rewrite E1, E2.
  case_match eqn:Hu; [finish|]. both Hu u32_wraps u32_id. rewrite (u32_id (u32 x + u32 y)) by clia. finish.
Qed.

Lemma add64_sound d s x y :
  reg_fields d -> reg_fields s -> is_u64 x -> is_u64 y -> in64 d x -> in64 s y ->
  let d' := scalar_min_max_add d s in
  (in64 d' (u64 (x + y)) /\ reg_fields d') /\ (same32 d d' /\ var_off d' = var_off d).
Proof.
  intros Hd Hs Hx Hy. revert Hd Hs. start. unfold scalar_min_max_add. split; [|repeat case_match; done].
  pose proof (s64_range (s64 x + s64 y)). pose proof (u64_range (x + y)).
  unfold in64. rewrite (s64_u64 (x + y)), (s64_add x y).
  set (d1 := if signed_add_overflows _ _ || _ then _ else _).
  assert (H1 : smin_value d1 <= s64 (s64 x + s64 y) <= smax_value d1 /\ reg_fields d1).
  { unfold d1. case_match eqn:Ho; [finish|]. both Ho add64_overflows s64_id. rewrite (s64_id (s64 x + s64 y)) by clia. finish. }
  assert (E : umin_value d1 = umin_value d /\ umax_value d1 = umax_value d) by (unfold d1; by case_match).
  clearbody d1. destruct E as [E1 E2], H1 as [H1 (? & ? & ? & ? & ? & ? & ? & ?)]. rewrite E1, E2.
  case_match eqn:Hu; [finish|]. both Hu u64_wraps u64_id. rewrite (u64_id (x + y)) by clia. finish.
Qed.

Lemma sub32_sound d s x y :
  reg_fields d -> reg_fields s -> in32 d x -> in32 s y ->
  let d' := scalar32_min_max_sub d s in
  (in32 d' (x - y) /\ reg_fields d') /\ (same64 d d' /\ var_off d' = var_off d).
Proof.
  start. unfold scalar32_min_max_sub. split; [|repeat case_match; done].
  pose proof (s32_range (s32 x - s32 y)). pose proof (u32_range (u32 x - u32 y)).
  unfold in32. rewrite (s32_sub x y), (u32_sub x y).
  set (d1 := if signed_sub32_overflows _ _ || _ then _ else _).
  assert (H1 : s32_min_value d1 <= s32 (s32 x - s32 y) <= s32_max_value d1 /\ reg_fields d1).
  { unfold d1. case_match eqn:Ho; [finish|]. both Ho sub32_overflows s32_id. rewrite (s32_id (s32 x - s32 y)) by clia. finish. }
  assert (E : u32_min_value d1 = u32_min_value d /\ u32_max_value d1 = u32_max_value d) by (unfold d1; by case_match).
  clearbody d1. destruct E as [E1 E2], H1 as [H1 (? & ? & ? & ? & ? & ? & ? & ?)]. rewrite E1, E2.
  destruct (Z.ltb_spec (u32_min_value d) (u32_max_value s)); [finish|].
  rewrite (u32_id (_ - u32_max_value s)), (u32_id (_ - u32_min_value s)), (u32_id (u32 x - u32 y)) by clia. finish.
Qed.

Lemma sub64_sound d s x y :
  reg_fields d -> reg_fields s -> is_u64 x -> is_u64 y -> in64 d x -> in64 s y ->
  let d' := scalar_min_max_sub d s in
  (in64 d' (u64 (x - y)) /\ reg_fields d') /\ (same32 d d' /\ var_off d' = var_off d).
Proof.
  intros Hd Hs Hx Hy. revert Hd Hs. start. unfold scalar_min_max_sub. split; [|repeat case_match; done].
  pose proof (s64_range (s64 x - s64 y)). pose proof (u64_range (x - y)).
  unfold in64. rewrite (s64_u64 (x - y)), (s64_sub x y).
  set (d1 := if signed_sub_overflows _ _ || _ then _ else _).
  assert (H1 : smin_value d1 <= s64 (s64 x - s64 y) <= smax_value d1 /\ reg_fields d1).
  { unfold d1. case_match eqn:Ho; [finish|]. both Ho sub64_overflows s64_id. rewrite (s64_id (s64 x - s64 y)) by clia. finish. }
  assert (E : umin_value d1 = umin_value d /\ umax_value d1 = umax_value d) by (unfold d1; by case_match).
  clearbody d1. destruct E as [E1 E2], H1 as [H1 (? & ? & ? & ? & ? & ? & ? & ?)]. rewrite E1, E2.
  destruct (Z.ltb_spec (umin_value d) (umax_value s)); [finish|].
  rewrite (u64_id (_ - umax_value s)), (u64_id (_ - umin_value s)), (u64_id (x - y)) by clia. finish.
Qed.
End add_sub.

(** ** Product *)
Section mul.
Implicit Types d s : bpf_reg_state.
Implicit Types x y : Z.

Lemma mul32_sound d s x y :
  reg_fields d -> reg_fields s -> in32 d x -> in32 s y ->
  let d' := scalar32_min_max_mul d s in
  (in32 d' (x * y) /\ reg_fields d') /\ (same64 d d' /\ var_off d' = var_off d).
Proof.
  intros (D1 & D2 & D3 & D4 & D5 & D6 & D7 & D8) (S1 & S2 & S3 & S4 & S5 & S6 & S7 & S8) [Hs Hu] [Hs' Hu'].
  unfold scalar32_min_max_mul. split; [|repeat case_match; done].
  assert (Hun : in32 (__mark_reg32_unbounded d) (x * y) /\ reg_fields (__mark_reg32_unbounded d)).
  { pose proof (s32_range (x * y)). pose proof (u32_range (x * y)). repeat split; cbn; clia. }
  case_match eqn:Hneg; [done|]. case_match eqn:Hbig; [done|]. unfold U16_MAX in Hbig.
  assert (E : u32 (x * y) = u32 x * u32 y) by
    (unfold u32; rewrite Zmult_mod; apply Z.mod_small; fold (u32 x) (u32 y); unfold is_u32 in *; nia).
  assert (B1 : is_u32 (u32_min_value d * u32_min_value s)) by (unfold is_u32 in *; nia).
  assert (B2 : is_u32 (u32_max_value d * u32_max_value s)) by (unfold is_u32 in *; nia).
  rewrite (u32_id _ B1), (u32_id _ B2). cbn [u32_min_value u32_max_value set_u32].
  assert (Hb : u32_min_value d * u32_min_value s <= u32 (x * y) <= u32_max_value d * u32_max_value s).
  { rewrite E. unfold is_u32 in *. split; nia. }
  pose proof (s32_range (x * y)). pose proof (s32_cases (u32 (x * y)) (u32_range _)) as Hc. rewrite s32_u32 in Hc.
  destruct (Z.ltb_spec S32_MAX (u32_max_value d * u32_max_value s)); [repeat split; cbn; clia|].
  rewrite !s32_id by clia. repeat split; cbn; clia.
Qed.

Lemma mul64_sound d s x y :
  reg_fields d -> reg_fields s -> is_u64 x -> is_u64 y -> in64 d x -> in64 s y ->
  let d' := scalar_min_max_mul d s in
  (in64 d' (u64 (x * y)) /\ reg_fields d') /\ (same32 d d' /\ var_off d' = var_off d).
Proof.
  intros (D1 & D2 & D3 & D4 & D5 & D6 & D7 & D8) (S1 & S2 & S3 & S4 & S5 & S6 & S7 & S8) Hx Hy [Hs Hu] [Hs' Hu'].
  unfold scalar_min_max_mul. split; [|repeat case_match; done].
  assert (Hun : in64 (__mark_reg64_unbounded d) (u64 (x * y)) /\ reg_fields (__mark_reg64_unbounded d)).
  { pose proof (s64_range (u64 (x * y))). pose proof (u64_range (x * y)). repeat split; cbn; clia. }
  case_match eqn:Hneg; [done|]. case_match eqn:Hbig; [done|]. unfold U32_MAX in Hbig.
  assert (E : is_u64 (x * y)) by (unfold is_u64 in *; nia). rewrite (u64_id _ E).
  assert (B1 : is_u64 (umin_value d * umin_value s)) by (unfold is_u64 in *; nia).
  assert (B2 : is_u64 (umax_value d * umax_value s)) by (unfold is_u64 in *; nia).
  rewrite (u64_id _ B1), (u64_id _ B2). cbn [umin_value umax_value set_u64].
  assert (Hb : umin_value d * umin_value s <= x * y <= umax_value d * umax_value s).
  { unfold is_u64 in *. split; nia. }
  pose proof (s64_range (x * y)). pose proof (s64_cases (x * y) E).
  destruct (Z.ltb_spec S64_MAX (umax_value d * umax_value s)); [repeat split; cbn; clia|].
  rewrite !s64_id by clia. repeat split; cbn; clia.
Qed.
End mul.

(** ** Bitwise operations *)
Section bitwise.
Implicit Types d s : bpf_reg_state.
Implicit Types x y z : Z.

Lemma u32_land_le x y : 0 <= u32 (Z.land x y) <= Z.min (u32 x) (u32 y).
Proof.
  pose proof (u32_range (Z.land x y)) as Hr. unfold is_u32 in Hr. split; [lia|].
  apply Z.min_glb; apply subbits_mod_le; try lia; intros i Hi; rewrite Z.land_spec; by intros [??]%andb_true_iff.
Qed.
Lemma u32_lor_le x y : Z.max (u32 x) (u32 y) <= u32 (Z.lor x y).
Proof.
  apply Z.max_lub; apply subbits_mod_le; try lia; intros i Hi; rewrite Z.lor_spec; intros ->; btauto.
Qed.
Lemma land_le x y : is_u64 x -> is_u64 y -> 0 <= Z.land x y <= Z.min x y.
Proof.
  intros Hx Hy. unfold is_u64 in *. pose proof (Z.land_nonneg x y). split; [lia|].
  apply Z.min_glb; apply (subbits_le (Z.land x y)); try lia; intros i Hi; rewrite Z.land_spec; by intros [??]%andb_true_iff.
Qed.
Lemma lor_le x y : is_u64 x -> is_u64 y -> Z.max x y <= Z.lor x y.
Proof.
  intros Hx Hy. unfold is_u64 in *. assert (0 <= Z.lor x y) by (apply Z.lor_nonneg; lia).
  apply Z.max_lub; [apply (subbits_le x)|apply (subbits_le y)]; try lia; intros i Hi; rewrite Z.lor_spec; intros ->; btauto.
Qed.

(** The tracked bits of the result, and which of them are unknown. *)
Definition bit63 d : Prop := Z.testbit (mask (var_off d)) 63 = false.

(** What a function on the low half of a bitwise result promises. *)
Definition low_half d d' z : Prop :=
  (reg_fields d' /\ z ∈ var_off d' /\ in32 d' z) /\ same64 d d' /\ (bit63 d -> bit63 d').

Lemma mark32_known_low d v z :
  reg_fields d -> z ∈ var_off d -> is_u32 v -> u32 z = v -> low_half d (__mark_reg32_known d v) z.
Proof.
  intros (D1 & D2 & D3 & D4 & D5 & D6 & D7 & D8) Hz Hv Hzv. rewrite <- (u32_id v Hv) in Hzv.
  assert (Es : s32 z = s32 v) by (rewrite <- (s32_u32 z), Hzv; apply s32_u32).
  unfold __mark_reg32_known. split; [split; [close_reg|split]|split; [done|]].
  - cbn [var_off set_u32 set_s32 set_var_off]. replace z with (z - u32 z + u32 v) by lia.
    apply tnum_const_subreg_sound; [done|apply u32_range].
  - split; cbn; lia.
  - unfold bit63. cbn [var_off set_u32 set_s32 set_var_off]. intros Hb. unfold tnum_const_subreg.
    apply mask_or_clear; [lia| |apply Z.bits_0]. by rewrite mask_clear_subreg by lia.
Qed.

(** The known low half of a tracked number. *)
Lemma subreg_known a z :
  z ∈ a -> tnum_subreg_is_const a = true -> u32 z = value (tnum_subreg a).
Proof. intros Hz%tnum_subreg_sound Hc. symmetry. by apply const_member. Qed.

Lemma bitwise_s32_low d smin_val z :
  reg_fields d -> z ∈ var_off d -> u32_min_value d <= u32 z <= u32_max_value d ->
  (0 <= s32_min_value d -> 0 <= smin_val -> u32_max_value d <= S32_MAX) ->
  low_half d (bitwise_s32 d smin_val) z.
Proof.
  intros (D1 & D2 & D3 & D4 & D5 & D6 & D7 & D8) Hz Hu Hn. pose proof (s32_range z).
  pose proof (s32_cases (u32 z) (u32_range z)) as Hc. rewrite s32_u32 in Hc. unfold bitwise_s32.
  case_match eqn:Hneg; (split; [split; [close_reg; clia|split; [done|]]|done]).
  - split; cbn; clia.
  - rewrite !s32_id by clia. split; cbn; clia.
Qed.

Lemma low_half_set_u32 d lo hi d' z : low_half (set_u32 lo hi d) d' z -> low_half d d' z.
Proof. done. Qed.

Lemma xor_branch32 d smin_val :
  (if (0 <=? s32_min_value d) && (0 <=? smin_val)
   then set_s32 (s32 (u32_min_value d)) (s32 (u32_max_value d)) d
   else set_s32 S32_MIN S32_MAX d) = bitwise_s32 d smin_val.
Proof. unfold bitwise_s32. rewrite !Z.leb_antisym. by destruct (s32_min_value d <? 0), (smin_val <? 0). Qed.
Lemma xor_branch64 d smin_val :
  (if (0 <=? smin_value d) && (0 <=? smin_val)
   then set_s64 (s64 (umin_value d)) (s64 (umax_value d)) d
   else set_s64 S64_MIN S64_MAX d) = bitwise_s64 d smin_val.
Proof. unfold bitwise_s64. rewrite !Z.leb_antisym. by destruct (smin_value d <? 0), (smin_val <? 0). Qed.

(** The greatest low half of a tracked number whose bit 31 is known to be clear. *)
Lemma subreg_max_nonneg a z :
  z ∈ a -> Z.testbit (mask a) 31 = false -> Z.testbit z 31 = false ->
  u32 (Z.lor (value (tnum_subreg a)) (mask (tnum_subreg a))) <= S32_MAX.
Proof.
  intros Hz Hm Hb. apply bit31_clear; [apply u32_range|]. rewrite testbit_u32, Z.lor_spec, mask_subreg by lia.
  rewrite (member_bit _ _ 31 (tnum_subreg_sound _ _ Hz)) by lia. rewrite testbit_u32 by lia. by rewrite Hm, Hb.
Qed.
Lemma max_nonneg a z :
  z ∈ a -> Z.testbit (mask a) 63 = false -> Z.testbit z 63 = false -> Z.lor (value a) (mask a) <= S64_MAX.
Proof.
  intros Hz Hm Hb. pose proof (elem_of_wf _ _ Hz) as (Hv & Hmm & _). apply bit63_clear; [eauto with cint|].
  rewrite Z.lor_spec, (member_bit _ _ 63 Hz) by lia. by rewrite Hm, Hb.
Qed.

(** What the three operations have in common: the known case and the range. *)
Lemma bitwise32_low d s z lo hi :
  reg_fields d -> z ∈ var_off d -> is_u32 lo -> is_u32 hi -> lo <= u32 z <= hi ->
  (0 <= s32_min_value d -> 0 <= s32_min_value s -> hi <= S32_MAX) ->
  low_half d
    (if tnum_subreg_is_const (var_off s) && tnum_subreg_is_const (var_off d)
     then __mark_reg32_known d (value (tnum_subreg (var_off d)))
     else bitwise_s32 (set_u32 lo hi d) (s32_min_value s)) z.
Proof.
  intros Hd Hz Hlo Hhi Hu Hn. case_match eqn:Hc.
  - apply andb_true_iff in Hc as [_ Hc]. pose proof (subreg_known _ _ Hz Hc) as Hk.
    apply mark32_known_low; try done. rewrite <- Hk. apply u32_range.
  - apply (low_half_set_u32 d lo hi). apply bitwise_s32_low; try done. open_reg. close_reg.
Qed.

Lemma bitwise64_holds d s z lo hi :
  reg_fields d -> z ∈ var_off d -> in32 d z -> is_u64 lo -> is_u64 hi -> lo <= z <= hi ->
  (0 <= smin_value d -> 0 <= smin_value s -> hi <= S64_MAX) ->
  holds
    (if tnum_is_const (var_off s) && tnum_is_const (var_off d)
     then __mark_reg_known d (value (var_off d))
     else __update_reg_bounds (bitwise_s64 (set_u64 lo hi d) (smin_value s))) z.
Proof.
  intros Hd Hz H32 Hlo Hhi Hu Hn. case_match eqn:Hc.
  - apply andb_true_iff in Hc as [_ Hc]. rewrite (const_member _ _ Hz Hc).
    pose proof (elem_of_u64 _ _ Hz) as Hzu. split; apply (mark_known_sound (set_meta _ d)); try done.
  - apply update_sound. pose proof (s64_range z). pose proof (s64_cases z (elem_of_u64 _ _ Hz)).
    open_reg. destruct H32 as [Hs3 Hu3]. unfold bitwise_s64.
    cbn [smin_value umin_value umax_value set_u64]. case_match eqn:Hneg; [close_reg; try clia; done|].
    rewrite !s64_id by clia. close_reg; try done; clia.
Qed.

Lemma nonneg_land x y : Z.testbit x 31 = false -> Z.testbit (Z.land x y) 31 = false.
Proof. intros H. by rewrite Z.land_spec, H. Qed.

Lemma s32_neg_bit x lo : lo <= s32 x -> 0 <= lo -> Z.testbit x 31 = false.
Proof. intros. apply s32_nonneg. lia. Qed.
Lemma s64_neg_bit x lo : lo <= s64 x -> 0 <= lo -> Z.testbit x 63 = false.
Proof. intros. apply s64_nonneg. lia. Qed.
End bitwise.

(** ** The three bitwise operations, both halves *)
Section bitwise_ops.
Context (d s : bpf_reg_state) (x y : Z).

(** Both operands are inside states that satisfy the invariant. *)
Definition operands : Prop := (reg_ok d /\ x ∈ d) /\ (reg_ok s /\ y ∈ s).

(** Unknown bits of the combined tracked number. *)
Lemma mask_bitwise i (f : tnum -> tnum -> tnum) :
  f = tnum_or \/ f = tnum_xor -> 0 <= i ->
  Z.testbit (mask (var_off d)) i = false -> Z.testbit (mask (var_off s)) i = false ->
  Z.testbit (mask (f (var_off d) (var_off s))) i = false.
Proof.
  intros [->| ->] Hi Hm1 Hm2; [by apply mask_or_clear|]. cbn [tnum_xor mask]. by rewrite Z.lor_spec, Hm1, Hm2.
Qed.

Lemma subreg_bounds a z :
  z ∈ a -> u32 (value (tnum_subreg a)) <= u32 z <= u32 (Z.lor (value (tnum_subreg a)) (mask (tnum_subreg a))).
Proof.
  intros Hz%tnum_subreg_sound. pose proof (tnum_u32_bounds _ _ Hz) as Hb.
  by rewrite (u32_id (u32 z)) in Hb by apply u32_range.
Qed.

(** Composition of the function on the low half with the one on the whole. *)
Lemma bitwise_compose d0 d1 z lo hi :
  low_half d0 d1 z -> is_u64 lo -> is_u64 hi -> lo <= z <= hi ->
  (0 <= smin_value d0 -> 0 <= smin_value s -> hi <= S64_MAX) ->
  holds
    (if tnum_is_const (var_off s) && tnum_is_const (var_off d1)
     then __mark_reg_known d1 (value (var_off d1))
     else __update_reg_bounds (bitwise_s64 (set_u64 lo hi d1) (smin_value s))) z.
Proof.
  intros ((Hf & Hz & H32) & (E1 & _) & _) Hlo Hhi Hb Hn. apply bitwise64_holds; try done. by rewrite E1.
Qed.

Lemma and_holds :
  operands ->
  let d0 := set_var_off (tnum_and (var_off d) (var_off s)) d in
  holds (scalar_min_max_and (scalar32_min_max_and d0 s) s) (Z.land x y).
Proof.
  intros [[(Hfd & Nd & Nd3) (Tx & [Sx Ux] & [Sx3 Ux3])] [(Hfs & Ns & Ns3) (Ty & [Sy Uy] & [Sy3 Uy3])]] d0.
  pose proof (sound_op _ _ _ _ Tx Ty : Z.land x y ∈ tnum_and _ _) as Hz.
  pose proof Hfd as (D1 & D2 & D3 & D4 & D5 & D6 & D7 & D8). pose proof Hfs as (S1 & S2 & S3 & S4 & S5 & S6 & S7 & S8).
  pose proof (elem_of_u64 _ _ Tx) as Xu. pose proof (elem_of_u64 _ _ Ty) as Yu.
  pose proof (u32_land_le x y). pose proof (land_le x y Xu Yu). pose proof (subreg_bounds _ _ Hz).
  assert (Hlow : low_half d0 (scalar32_min_max_and d0 s) (Z.land x y)).
  { apply bitwise32_low; try done; [apply u32_range|by apply is_u32_Zmin|cbn -[tnum_subreg tnum_and]; lia|].
    cbn. intros H3 _. apply Nd3 in H3. lia. }
  assert (Hz' := proj1 (proj2 (proj1 Hlow))). pose proof (elem_of_bounds _ _ Hz') as Hb.
  pose proof (elem_of_wf _ _ Hz') as (Hv & _). pose proof Hlow as (_ & (E1 & E2 & E3 & E4) & _).
  eapply bitwise_compose; [done|done|..]; rewrite ?E4; cbn -[scalar32_min_max_and].
  - by apply is_u64_Zmin.
  - split; [apply Hb|]. lia.
  - intros H3 _. apply Nd in H3. lia.
Qed.

Lemma or_holds :
  operands ->
  let d0 := set_var_off (tnum_or (var_off d) (var_off s)) d in
  holds (scalar_min_max_or (scalar32_min_max_or d0 s) s) (Z.lor x y).
Proof.
  intros [[(Hfd & Nd & Nd3) (Tx & [Sx Ux] & [Sx3 Ux3])] [(Hfs & Ns & Ns3) (Ty & [Sy Uy] & [Sy3 Uy3])]] d0.
  pose proof (sound_op _ _ _ _ Tx Ty : Z.lor x y ∈ tnum_or _ _) as Hz.
  pose proof Hfd as (D1 & D2 & D3 & D4 & D5 & D6 & D7 & D8). pose proof Hfs as (S1 & S2 & S3 & S4 & S5 & S6 & S7 & S8).
  pose proof (elem_of_u64 _ _ Tx) as Xu. pose proof (elem_of_u64 _ _ Ty) as Yu.
  pose proof (u32_lor_le x y). pose proof (lor_le x y Xu Yu). pose proof (subreg_bounds _ _ Hz).
  assert (Hlow : low_half d0 (scalar32_min_max_or d0 s) (Z.lor x y)).
  { apply bitwise32_low; try done; [by apply is_u32_Zmax|apply u32_range|cbn -[tnum_subreg tnum_or]; lia|].
    cbn [s32_min_value set_var_off]. intros H3 H4. apply (subreg_max_nonneg _ _ Hz).
    - apply mask_bitwise; [by left|lia|by apply Nd3|by apply Ns3].
    - rewrite Z.lor_spec, (s32_neg_bit x _ (proj1 Sx3) H3), (s32_neg_bit y _ (proj1 Sy3) H4). done. }
  assert (Hz' := proj1 (proj2 (proj1 Hlow))). pose proof (elem_of_bounds _ _ Hz') as Hb.
  pose proof (elem_of_wf _ _ Hz') as (Hv & Hm & _). pose proof Hlow as (_ & (E1 & E2 & E3 & E4) & E5).
  eapply bitwise_compose; [done|..]; rewrite ?E3; cbn -[scalar32_min_max_or].
  - by apply is_u64_Zmax.
  - eauto with cint.
  - split; [lia|]. apply Hb.
  - intros H3 H4. apply (max_nonneg _ _ Hz').
    + apply E5. apply mask_bitwise; [by left|lia|by apply Nd|by apply Ns].
    + rewrite Z.lor_spec, (s64_neg_bit x _ (proj1 Sx) H3), (s64_neg_bit y _ (proj1 Sy) H4). done.
Qed.

Lemma xor_holds :
  operands ->
  let d0 := set_var_off (tnum_xor (var_off d) (var_off s)) d in
  holds (scalar_min_max_xor (scalar32_min_max_xor d0 s) s) (Z.lxor x y).
Proof.
  intros [[(Hfd & Nd & Nd3) (Tx & [Sx Ux] & [Sx3 Ux3])] [(Hfs & Ns & Ns3) (Ty & [Sy Uy] & [Sy3 Uy3])]] d0.
  pose proof (sound_op _ _ _ _ Tx Ty : Z.lxor x y ∈ tnum_xor _ _) as Hz. pose proof (subreg_bounds _ _ Hz).
  assert (Hlow : low_half d0 (scalar32_min_max_xor d0 s) (Z.lxor x y)).
  { unfold scalar32_min_max_xor. rewrite xor_branch32. apply bitwise32_low; try done; try apply u32_range.
    cbn [s32_min_value set_var_off]. intros H3 H4. apply (subreg_max_nonneg _ _ Hz).
    - apply mask_bitwise; [by right|lia|by apply Nd3|by apply Ns3].
    - rewrite Z.lxor_spec, (s32_neg_bit x _ (proj1 Sx3) H3), (s32_neg_bit y _ (proj1 Sy3) H4). done. }
  assert (Hz' := proj1 (proj2 (proj1 Hlow))). pose proof (elem_of_bounds _ _ Hz') as Hb.
  pose proof (elem_of_wf _ _ Hz') as (Hv & Hm & _). pose proof Hlow as (_ & _ & E5).
  unfold scalar_min_max_xor. rewrite xor_branch64.
  eapply bitwise_compose; [done|done|eauto with cint|apply Hb|].
  intros H3 H4. apply (max_nonneg _ _ Hz').
  - apply E5. apply mask_bitwise; [by right|lia|by apply Nd|by apply Ns].
  - rewrite Z.lxor_spec, (s64_neg_bit x _ (proj1 Sx) H3), (s64_neg_bit y _ (proj1 Sy) H4). done.
Qed.
End bitwise_ops.
