(* ===== verification/BpfShift.v ===== *)
(** * Shifts of scalars: the computed range contains the result *)
From S2P Require Import Prelude Bits Tnum TnumThms BpfReg BpfRegThms BpfCoerce BpfAlu BpfAluThms.

Section arithmetic.
Implicit Types x y n : Z.

Lemma pow2_split n w : 0 <= n <= w -> 2 ^ w = 2 ^ n * 2 ^ (w - n) /\ 0 < 2 ^ n /\ 0 < 2 ^ (w - n).
Proof.
  intros Hn. rewrite <- Z.pow_add_r by lia. split; [f_equal; lia|]. split; apply Z.pow_pos_nonneg; lia.
Qed.

Lemma shl64_mul x n : 0 <= n -> is_u64 (x * 2 ^ n) -> shl64 x n = x * 2 ^ n.
Proof. intros Hn Hx. unfold shl64. rewrite Z.shiftl_mul_pow2 by done. by apply u64_id. Qed.

Lemma shiftr_mono x y n : 0 <= n -> x <= y -> Z.shiftr x n <= Z.shiftr y n.
Proof. intros Hn Hx. rewrite !Z.shiftr_div_pow2 by done. apply Z.div_le_mono; [apply Z.pow_pos_nonneg; lia|done]. Qed.

Lemma shiftr_u x n : 0 <= n -> 0 <= x -> 0 <= Z.shiftr x n <= x.
Proof.
  intros Hn Hx. rewrite Z.shiftr_div_pow2 by done. assert (0 < 2 ^ n) by (apply Z.pow_pos_nonneg; lia).
  split; [by apply Z.div_pos|]. apply Z.div_le_upper_bound; nia.
Qed.

(** An arithmetic shift stays between the value and -1 or 0. *)
Lemma shiftr_s x n w : 0 <= n -> 0 < w -> - w <= x < w -> - w <= Z.shiftr x n < w.
Proof.
  intros Hn Hw Hx. rewrite Z.shiftr_div_pow2 by done. assert (0 < 2 ^ n) by (apply Z.pow_pos_nonneg; lia).
  split; [apply Z.div_le_lower_bound; nia|apply Z.div_lt_upper_bound; nia].
Qed.

(** The low half of a left shift depends on the low half only. *)
Lemma u32_shiftl x n : 0 <= n -> u32 (Z.shiftl x n) = u32 (Z.shiftl (u32 x) n).
Proof.
  intros Hn. rewrite !Z.shiftl_mul_pow2 by done. unfold u32. by rewrite Zmult_mod_idemp_l.
Qed.

Lemma s64_shl32 x : s64 (x * 2 ^ 32) = s32 x * 2 ^ 32.
Proof. cint. Qed.
End arithmetic.

(** ** Left shifts *)
Section lsh.
Implicit Types d s : bpf_reg_state.
Implicit Types x n : Z.

(** The bounds of the low half. *)
Lemma lsh32_bounds d x n :
  reg_fields d -> in32 d x -> 0 <= n < 64 ->
  let d' := __scalar32_min_max_lsh d n n in
  (in32 d' (Z.shiftl x n) /\ reg_fields d') /\ (same64 d d' /\ var_off d' = var_off d).
Proof.
  intros (D1 & D2 & D3 & D4 & D5 & D6 & D7 & D8) [Hs Hu] Hn. unfold __scalar32_min_max_lsh.
  split; [|case_match; done]. pose proof (s32_range (Z.shiftl x n)). pose proof (u32_range (Z.shiftl x n)).
  cbn [u32_max_value set_s32]. destruct (_ || _) eqn:Hb; [repeat split; cbn; clia|].
  apply orb_false_iff in Hb as [Hn31%Z.ltb_ge Hb%Z.ltb_ge].
  destruct (pow2_split n 31 ltac:(lia)) as (Hp & Hp1 & Hp2).
  rewrite shl64_mul, Z.mul_1_l in Hb; [|lia|].
  2:{ rewrite Z.mul_1_l. split; [lia|]. apply Z.pow_lt_mono_r; lia. }
  assert (Hmax : u32_max_value d * 2 ^ n <= 2 ^ 31) by nia.
  unfold in32. rewrite (u32_shiftl x) by lia. rewrite !Z.shiftl_mul_pow2 in * by lia.
  pose proof (u32_range x) as Hxr. unfold is_u32 in *.
  rewrite (u32_id (u32 x * 2 ^ n)), (u32_id (u32_min_value _ * 2 ^ n)), (u32_id (u32_max_value _ * 2 ^ n))
    by (unfold is_u32; cbn; nia).
  repeat split; cbn; try clia; nia.
Qed.

Lemma lsh64_bounds d x n :
  reg_fields d -> is_u64 x -> in64 d x -> in32 d x -> 0 <= n < 64 ->
  let d' := __scalar64_min_max_lsh d n n in
  (in64 d' (shl64 x n) /\ reg_fields d') /\ (same32 d d' /\ var_off d' = var_off d).
Proof.
  intros (D1 & D2 & D3 & D4 & D5 & D6 & D7 & D8) Hx [Hs Hu] [Hs3 Hu3] Hn. unfold __scalar64_min_max_lsh.
  split; [|case_match; done]. set (hi := if _ && (0 <=? s32_max_value d) then _ else _).
  set (lo := if _ && (0 <=? s32_min_value d) then _ else _).
  pose proof (u64_range (Z.shiftl x n)) as Hr. fold (shl64 x n) in Hr. pose proof (s64_range (shl64 x n)) as Hsr.
  assert (H32 : n = 32 -> s64 (shl64 x n) = s32 x * 2 ^ 32).
  { intros ->. unfold shl64. rewrite s64_u64, Z.shiftl_mul_pow2 by lia. apply s64_shl32. }
  assert (Hlo : lo <= s64 (shl64 x n) /\ is_s64 lo).
  { unfold lo. case_match eqn:Hc; [|split; clia]. rewrite Z.shiftl_mul_pow2 by lia.
    rewrite (s64_id (s32_min_value d * _)) by clia. rewrite H32 by lia. clia. }
  assert (Hhi : s64 (shl64 x n) <= hi /\ is_s64 hi).
  { unfold hi. case_match eqn:Hc; [|split; clia]. rewrite Z.shiftl_mul_pow2 by lia.
    rewrite (s64_id (s32_max_value d * _)) by clia. rewrite H32 by lia. clia. }
  clearbody lo hi. cbn [umax_value umin_value set_s64].
  destruct (Z.ltb_spec (shl64 1 (63 - n)) (umax_value d)) as [|Hb]; [repeat split; cbn; clia|].
  destruct (pow2_split n 63 ltac:(lia)) as (Hp & Hp1 & Hp2).
  rewrite shl64_mul, Z.mul_1_l in Hb; [|lia|].
  2:{ rewrite Z.mul_1_l. split; [lia|]. apply Z.pow_lt_mono_r; lia. }
  assert (Hmax : umax_value d * 2 ^ n <= 2 ^ 63) by nia. unfold is_u64 in *.
  unfold in64. cbn [smin_value smax_value umin_value umax_value set_s64 set_u64].
  rewrite (shl64_mul x), (shl64_mul (umin_value d)), (shl64_mul (umax_value d)) in * by (lia || (unfold is_u64; nia)).
  repeat split; cbn; try clia; nia.
Qed.

Lemma lsh64_holds d s x n :
  holds d x -> umin_value s = n -> umax_value s = n -> 0 <= n < 64 ->
  holds (scalar_min_max_lsh d s) (shl64 x n).
Proof.
  intros [Hf (Ht & H64 & H32)] E1 E2 Hn. unfold scalar_min_max_lsh. rewrite E1, E2. apply update_sound.
  destruct (lsh64_bounds d x n Hf (elem_of_u64 _ _ Ht) H64 H32 Hn) as [[B1 F1] [S1 V1]]. cbv zeta in *.
  set (d1 := __scalar64_min_max_lsh d n n) in *.
  destruct (lsh32_bounds d1 x n F1 (same32_in _ _ _ S1 H32) Hn) as [[B2 F2] [S2 V2]].
  split; [done|]. split; [|split].
  - cbn [var_off set_var_off]. rewrite V2, V1. by apply tnum_lshift_sound; [lia|].
  - exact (same64_in _ _ _ S2 B1).
  - unfold shl64, in32. cbn [s32_min_value s32_max_value u32_min_value u32_max_value set_var_off].
    rewrite s32_u64, u32_u64. exact B2.
Qed.

Lemma lsh32_holds d s x n :
  holds d x -> u32_min_value s = n -> u32_max_value s = n -> 0 <= n < 32 ->
  holds (scalar32_min_max_lsh d s) (u32 (Z.shiftl (u32 x) n)).
Proof.
  intros [Hf (Ht & H64 & H32)] E1 E2 Hn. unfold scalar32_min_max_lsh. rewrite E1, E2. apply update32_sound.
  destruct (lsh32_bounds d x n Hf H32 ltac:(lia)) as [[B2 F2] _]. cbv zeta in *.
  rewrite <- u32_shiftl by lia. set (z := u32 (Z.shiftl x n)).
  assert (Hz : is_u32 z) by apply u32_range. pose proof (s64_range z). open_reg.
  split; [close_reg|]. split; [|split].
  - cbn [var_off set_var_off __mark_reg64_unbounded set_u64 set_s64].
    replace z with (u32 (shl64 (u32 x) n)) by (unfold z, shl64; rewrite u32_u64; symmetry; apply u32_shiftl; lia).
    apply tnum_subreg_sound, tnum_lshift_sound; [lia|]. by apply tnum_subreg_sound.
  - split; cbn -[z]; clia.
  - unfold in32. cbn [s32_min_value s32_max_value u32_min_value u32_max_value set_var_off __mark_reg64_unbounded set_u64 set_s64].
    unfold z. rewrite s32_u32, (u32_id (u32 _)) by apply u32_range. exact B2.
Qed.
End lsh.

(** ** Right shifts *)
Section rsh.
Implicit Types d s : bpf_reg_state.
Implicit Types x n : Z.

Lemma rsh64_holds d s x n :
  holds d x -> umin_value s = n -> umax_value s = n -> 0 <= n < 64 ->
  holds (scalar_min_max_rsh d s) (shr64 x n).
Proof.
  intros [Hf (Ht & [Hs Hu] & _)] E1 E2 Hn. unfold scalar_min_max_rsh. rewrite E1, E2. apply update_sound.
  pose proof (elem_of_u64 _ _ Ht) as Hx. pose proof (is_u64_shr64 x n ltac:(lia) Hx) as Hz.
  apply unbounded32_sound. pose proof (s64_range (shr64 x n)). open_reg.
  split; [close_reg; apply is_u64_shr64; (done || lia)|]. split; [by apply tnum_rshift_sound; [lia|]|].
  split; cbn -[shr64]; [clia|]. split; apply shiftr_mono; lia.
Qed.

Lemma rsh32_holds d s x n :
  holds d x -> u32_min_value s = n -> u32_max_value s = n -> 0 <= n < 32 ->
  holds (scalar32_min_max_rsh d s) (Z.shiftr (u32 x) n).
Proof.
  intros [Hf (Ht & _ & [Hs Hu])] E1 E2 Hn. unfold scalar32_min_max_rsh. rewrite E1, E2. apply update32_sound.
  pose proof (shiftr_u (u32 x) n ltac:(lia) (proj1 (u32_range x))) as Hz. pose proof (u32_range x) as Hxr.
  set (z := Z.shiftr (u32 x) n) in *. assert (Hzu : is_u32 z) by clia.
  pose proof (s64_range z). pose proof (s32_range z).
  assert (Hsh : forall v, is_u32 v -> is_u32 (Z.shiftr v n)).
  { intros v Hv. pose proof (shiftr_u v n ltac:(lia) (proj1 Hv)). clia. }
  open_reg. unfold __mark_reg64_unbounded. split; [close_reg|]. split; [|split].
  - cbn [var_off set_var_off __mark_reg64_unbounded set_u64 set_s64 set_u32].
    apply (tnum_rshift_sound n ltac:(lia)). by apply tnum_subreg_sound.
  - split; cbn -[z]; clia.
  - split; cbn -[z]; [clia|]. rewrite (u32_id z Hzu). split; apply shiftr_mono; lia.
Qed.

Lemma arsh64_holds d s x n :
  holds d x -> umin_value s = n -> 0 <= n < 64 ->
  holds (scalar_min_max_arsh d s) (u64 (Z.shiftr (s64 x) n)).
Proof.
  intros [Hf (Ht & [Hs Hu] & _)] E1 Hn. unfold scalar_min_max_arsh. rewrite E1. apply update_sound, unbounded32_sound.
  assert (Hr : forall v, is_s64 v -> is_s64 (Z.shiftr v n)) by (intros v Hv; apply shiftr_s; (done || lia)).
  pose proof (Hr _ (s64_range x)) as Hz. pose proof (u64_range (Z.shiftr (s64 x) n)). open_reg.
  split; [close_reg|]. split; [by apply tnum_arshift64_sound; [lia|]|].
  split; cbn; [|clia]. rewrite s64_u64, s64_id by done. split; apply shiftr_mono; lia.
Qed.

Lemma arsh32_holds d s x n :
  holds d x -> u32_min_value s = n -> 0 <= n < 32 ->
  holds (scalar32_min_max_arsh d s) (u32 (Z.shiftr (s32 x) n)).
Proof.
  intros [Hf (Ht & _ & [Hs Hu])] E1 Hn. unfold scalar32_min_max_arsh. rewrite E1. apply update32_sound.
  assert (Hr : forall v, is_s32 v -> is_s32 (Z.shiftr v n)) by (intros v Hv; apply shiftr_s; (done || lia)).
  pose proof (Hr _ (s32_range x)) as Hz. set (z := u32 (Z.shiftr (s32 x) n)) in *.
  assert (Hzu : is_u32 z) by apply u32_range. pose proof (s64_range z). open_reg. unfold __mark_reg64_unbounded.
  split; [close_reg|]. split; [|split].
  - cbn [var_off set_var_off __mark_reg64_unbounded set_u64 set_s64 set_u32].
    replace z with (u32 (Z.shiftr (s32 (u32 x)) n)) by (by rewrite s32_u32).
    apply tnum_arshift32_sound; [lia|]. by apply tnum_subreg_sound.
  - split; cbn -[z]; clia.
  - split; cbn -[z]; [|rewrite u32_id by done; clia]. unfold z.
    rewrite !s32_u32, (s32_id _ Hz), (s32_id (Z.shiftr (s32_min_value d) n)), (s32_id (Z.shiftr (s32_max_value d) n)) by auto.
    split; apply shiftr_mono; lia.
Qed.
End rsh.
