(* ===== verification/BpfAluSound.v ===== *)
(** * Soundness of the verifier's scalar arithmetic

    For every ALU instruction on two scalars, the range that the verifier
    computes contains the value that the interpreter computes, and the new
    state satisfies the verifier's invariant again. *)
From S2P Require Import Prelude Bits Tnum TnumThms BpfReg BpfRegThms BpfCoerce BpfAlu BpfAluThms BpfShift.

Section results.
Implicit Types x y z : Z.

Lemma is_u32_bits x : is_u32 x <-> u32 x = x.
Proof. split; cint. Qed.
Lemma is_u32_lor x y : is_u32 x -> is_u32 y -> is_u32 (Z.lor x y).
Proof.
  rewrite !is_u32_bits. intros Hx Hy. apply Z.bits_inj'. intros i Hi. rewrite testbit_u32, Z.lor_spec by lia.
  rewrite <- Hx, <- Hy, !testbit_u32 by lia. btauto.
Qed.
Lemma is_u32_lxor x y : is_u32 x -> is_u32 y -> is_u32 (Z.lxor x y).
Proof.
  rewrite !is_u32_bits. intros Hx Hy. apply Z.bits_inj'. intros i Hi. rewrite testbit_u32, Z.lxor_spec by lia.
  rewrite <- Hx, <- Hy, !testbit_u32 by lia. btauto.
Qed.
Lemma is_u32_land x y : is_u32 x -> is_u32 y -> is_u32 (Z.land x y).
Proof.
  rewrite !is_u32_bits. intros Hx Hy. apply Z.bits_inj'. intros i Hi. rewrite testbit_u32, Z.land_spec by lia.
  rewrite <- Hx, <- Hy, !testbit_u32 by lia. btauto.
Qed.

Lemma u32_land x y : u32 (Z.land x y) = Z.land (u32 x) (u32 y).
Proof. apply Z.bits_inj'. intros i Hi. rewrite testbit_u32, !Z.land_spec, !testbit_u32 by lia. btauto. Qed.
Lemma u32_lor x y : u32 (Z.lor x y) = Z.lor (u32 x) (u32 y).
Proof. apply Z.bits_inj'. intros i Hi. rewrite testbit_u32, !Z.lor_spec, !testbit_u32 by lia. btauto. Qed.
Lemma u32_lxor x y : u32 (Z.lxor x y) = Z.lxor (u32 x) (u32 y).
Proof. apply Z.bits_inj'. intros i Hi. rewrite testbit_u32, !Z.lxor_spec, !testbit_u32 by lia. destruct (i <? 32); btauto. Qed.

Lemma udiv_range x y z m : 0 <= x < m -> 0 <= y -> udiv x y = Some z -> 0 <= z < m.
Proof.
  intros Hx Hy. unfold udiv. destruct (Z.eqb_spec y 0); [done|]. intros [= <-].
  split; [apply Z.div_pos; lia|]. apply Z.div_lt_upper_bound; nia.
Qed.
Lemma umod_range x y z m : 0 <= x < m -> 0 <= y -> umod x y = Some z -> 0 <= z < m.
Proof.
  intros Hx Hy. unfold umod. destruct (Z.eqb_spec y 0); [done|]. intros [= <-].
  pose proof (Z.mod_le x y). pose proof (Z.mod_pos_bound x y). lia.
Qed.

Lemma shift_range x n m : 0 <= n -> 0 <= x < m -> 0 <= Z.shiftr x n < m.
Proof. intros Hn Hx. pose proof (shiftr_u x n Hn (proj1 Hx)). lia. Qed.

Lemma land_nonneg_r y k : 0 <= k -> 0 <= Z.land y k.
Proof. intros. apply Z.land_nonneg. by right. Qed.

(** The offset of a 32-bit division is one that the interpreter knows. *)
Definition off_ok (insn : bpf_insn) : Prop :=
  alu64 insn = false -> opcode insn = BPF_DIV \/ opcode insn = BPF_MOD -> insn_off insn = 0 \/ insn_off insn = 1.

(** The interpreter's results are words. *)
Lemma alu64_range op o x y z : is_u64 x -> is_u64 y -> alu64_exec op o x y = Some z -> is_u64 z.
Proof.
  intros Hx Hy. destruct op; cbn [alu64_exec]; try done; try (intros [= <-]; eauto with cint).
  - unfold switch_off. case_match; [by apply udiv_range; destruct Hy|]. case_match; [|by intros [= <-]].
    unfold sdiv64. case_match; [done|]. intros [= <-]. apply u64_range.
  - by apply shift_range, Hx; apply land_nonneg_r.
  - unfold switch_off. case_match; [by apply umod_range; destruct Hy|]. case_match; [|by intros [= <-]].
    destruct (sdiv64 x y); [|done]. cbn. intros [= <-]. apply u64_range.
Qed.

Lemma alu32_range op o x y z :
  (op = BPF_DIV \/ op = BPF_MOD -> o = 0 \/ o = 1) -> alu32_exec op o x y = Some z -> is_u32 z.
Proof.
  intros Ho. assert (Hsw : op = BPF_DIV \/ op = BPF_MOD -> forall a b, switch_off o a b x = if o =? 0 then a else b).
  { intros [-> | ->]%Ho; done. }
  pose proof (u32_range x) as Hx. pose proof (u32_range y) as Hy.
  destruct op; cbn [alu32_exec]; rewrite ?Hsw by auto; try done; try (intros [= <-]; eauto using is_u32_land, is_u32_lor, is_u32_lxor with cint).
  - case_match; [apply udiv_range; [done|apply Hy]|]. unfold sdiv32. destruct (udiv _ _); [|done]. cbn.
    intros [= <-]. case_match; apply u32_range.
  - by apply shift_range, Hx; apply land_nonneg_r.
  - case_match; [apply umod_range; [done|apply Hy]|]. unfold smod32. destruct (umod _ _); [|done]. cbn.
    intros [= <-]. case_match; apply u32_range.
Qed.
End results.

(** ** The switch on the operation *)
Section switch.
Context (env : bpf_verifier_env) (insn : bpf_insn) (d s : bpf_reg_state) (x y : Z).
Context (Hop : operands d s x y).

Lemma operands_holds : holds d x /\ holds s y.
Proof. destruct Hop as [[Hd Hx] [Hs Hy]]. split; by apply reg_ok_holds. Qed.

Lemma add_holds :
  let d1 := scalar_min_max_add (scalar32_min_max_add d s) s in
  holds (set_var_off (tnum_add (var_off d1) (var_off s)) d1) (u64 (x + y)).
Proof.
  destruct operands_holds as [[Fd (Tx & X64 & X32)] [Fs (Ty & Y64 & Y32)]].
  destruct (add32_sound d s x y Fd Fs X32 Y32) as [[A1 A2] [A3 A4]]. cbv zeta in *.
  destruct (add64_sound _ s x y A2 Fs (elem_of_u64 _ _ Tx) (elem_of_u64 _ _ Ty) (same64_in _ _ _ A3 X64) Y64)
    as [[B1 B2] [B3 B4]]. cbv zeta in *.
  split; [done|]. split; [|split].
  - cbn [var_off set_var_off]. rewrite B4, A4. by apply tnum_add_sound.
  - exact B1.
  - pose proof (same32_in _ _ _ B3 A1) as [C1 C2]. split; cbn -[scalar_min_max_add]; rewrite ?s32_u64, ?u32_u64; done.
Qed.

Lemma sub_holds :
  let d1 := scalar_min_max_sub (scalar32_min_max_sub d s) s in
  holds (set_var_off (tnum_sub (var_off d1) (var_off s)) d1) (u64 (x - y)).
Proof.
  destruct operands_holds as [[Fd (Tx & X64 & X32)] [Fs (Ty & Y64 & Y32)]].
  destruct (sub32_sound d s x y Fd Fs X32 Y32) as [[A1 A2] [A3 A4]]. cbv zeta in *.
  destruct (sub64_sound _ s x y A2 Fs (elem_of_u64 _ _ Tx) (elem_of_u64 _ _ Ty) (same64_in _ _ _ A3 X64) Y64)
    as [[B1 B2] [B3 B4]]. cbv zeta in *.
  split; [done|]. split; [|split].
  - cbn [var_off set_var_off]. rewrite B4, A4. by apply tnum_sub_sound.
  - exact B1.
  - pose proof (same32_in _ _ _ B3 A1) as [C1 C2]. split; cbn -[scalar_min_max_sub]; rewrite ?s32_u64, ?u32_u64; done.
Qed.

Lemma mul_holds :
  let d0 := set_var_off (tnum_mul (var_off d) (var_off s)) d in
  holds (scalar_min_max_mul (scalar32_min_max_mul d0 s) s) (u64 (x * y)).
Proof.
  intros d0. destruct operands_holds as [[Fd (Tx & X64 & X32)] [Fs (Ty & Y64 & Y32)]].
  destruct (mul32_sound d0 s x y Fd Fs X32 Y32) as [[A1 A2] [A3 A4]]. cbv zeta in *.
  destruct (mul64_sound _ s x y A2 Fs (elem_of_u64 _ _ Tx) (elem_of_u64 _ _ Ty) (same64_in d0 _ _ A3 X64) Y64)
    as [[B1 B2] [B3 B4]]. cbv zeta in *.
  split; [done|]. split; [|split].
  - rewrite B4, A4. by apply tnum_mul_sound.
  - exact B1.
  - pose proof (same32_in _ _ _ B3 A1) as [C1 C2]. split; rewrite ?s32_u64, ?u32_u64; done.
Qed.

Lemma unknown_holds z : is_u64 z -> holds (__mark_reg_unknown env d) z.
Proof. intros Hz. destruct (mark_unknown_sound env d z Hz) as [H1 [H2 _]]. by split. Qed.

Lemma land_mask n k : 0 <= k -> 0 <= n < 2 ^ k -> Z.land n (2 ^ k - 1) = n.
Proof. intros Hk Hn. rewrite low_bits_mod by done. by apply Z.mod_small. Qed.

(** A known source whose bounds agree is the value of both bounds. *)
Lemma known64 :
  alu64 insn = true -> tnum_is_const (var_off s) = true -> invalid_bounds insn s = false ->
  umin_value s = y /\ umax_value s = y.
Proof.
  intros E Hc Hi. destruct operands_holds as [_ [_ (_ & [_ Hu] & _)]]. unfold invalid_bounds in Hi. rewrite E, Hc in Hi.
  destruct (Z.eqb_spec (umin_value s) (umax_value s)); [lia|]. rewrite orb_true_r in Hi. done.
Qed.

Lemma known32 :
  alu64 insn = false -> tnum_subreg_is_const (var_off s) = true -> invalid_bounds insn s = false ->
  u32_min_value s = u32 y /\ u32_max_value s = u32 y.
Proof.
  intros E Hc Hi. destruct operands_holds as [_ [_ (_ & _ & [_ Hu])]]. unfold invalid_bounds in Hi. rewrite E, Hc in Hi.
  destruct (Z.eqb_spec (u32_min_value s) (u32_max_value s)); [lia|]. rewrite orb_true_r in Hi. done.
Qed.

Definition always_tracked (op : alu_op) : bool := bool_decide (op ∈ [BPF_ADD; BPF_SUB; BPF_AND]).

Lemma switch64 z :
  alu64 insn = true -> invalid_bounds insn s = false ->
  tnum_is_const (var_off s) || always_tracked (opcode insn) = true ->
  alu64_exec (opcode insn) (insn_off insn) x y = Some z -> holds (scalar_switch env insn d s) z.
Proof.
  intros E Hi Hk He. destruct operands_holds as [Hd Hs]. destruct Hd as [Fd (Tx & X64 & X32)], Hs as [Fs (Ty & Y64 & Y32)].
  pose proof (alu64_range _ _ _ _ _ (elem_of_u64 _ _ Tx) (elem_of_u64 _ _ Ty) He) as Hz.
  pose proof (elem_of_u64 _ _ Ty) as Hyu. unfold scalar_switch. rewrite E. cbn [negb].
  assert (Hsh : always_tracked (opcode insn) = false -> umax_value s < 64 ->
    umin_value s = y /\ umax_value s = y /\ 0 <= y < 64 /\ Z.land y 63 = y).
  { intros Hna Hlt. rewrite Hna, orb_false_r in Hk. destruct (known64 E Hk Hi) as [H1 H2].
    unfold is_u64 in Hyu. repeat split; try lia. apply (land_mask y 6); lia. }
  destruct (opcode insn) eqn:Eo; cbn [alu64_exec] in He; try (injection He as <-); try done.
  - apply add_holds.
  - apply sub_holds.
  - apply mul_holds.
  - by apply unknown_holds.
  - by apply or_holds.
  - by apply and_holds.
  - destruct (Z.leb_spec 64 (umax_value s)) as [|Hr]; [by apply unknown_holds|]. destruct (Hsh eq_refl Hr) as (H1 & H2 & H3 & ->). by apply lsh64_holds.
  - destruct (Z.leb_spec 64 (umax_value s)) as [|Hr]; [by apply unknown_holds|]. destruct (Hsh eq_refl Hr) as (H1 & H2 & H3 & ->). by apply rsh64_holds.
  - by apply unknown_holds.
  - by apply xor_holds.
  - destruct (Z.leb_spec 64 (umax_value s)) as [|Hr]; [by apply unknown_holds|]. destruct (Hsh eq_refl Hr) as (H1 & H2 & H3 & ->). by apply arsh64_holds.
Qed.

(** In the 32-bit class the state holds a word whose low half is the result. *)
Lemma switch32 z :
  alu64 insn = false -> off_ok insn -> invalid_bounds insn s = false ->
  tnum_subreg_is_const (var_off s) || always_tracked (opcode insn) = true ->
  alu32_exec (opcode insn) (insn_off insn) x y = Some z ->
  exists w, u32 w = z /\ holds (scalar_switch env insn d s) w.
Proof.
  intros E Ho Hi Hk He. destruct operands_holds as [Hd Hs]. pose proof (alu32_range _ _ _ _ _ (Ho E) He) as Hz.
  pose proof Hd as [Fd (Tx & X64 & X32)]. pose proof Hs as [Fs (Ty & Y64 & Y32)].
  pose proof (elem_of_u64 _ _ Ty) as Hyu. unfold scalar_switch. rewrite E. cbn [negb].
  assert (Hsh : always_tracked (opcode insn) = false -> umax_value s < 32 ->
    u32_min_value s = u32 y /\ u32_max_value s = u32 y /\ 0 <= u32 y < 32 /\ Z.land (u32 y) 31 = u32 y /\ u32 y = y).
  { intros Hna Hlt. rewrite Hna, orb_false_r in Hk. destruct (known32 E Hk Hi) as [H1 H2].
    destruct Y64 as [_ Hy]. unfold is_u64 in Hyu. assert (u32 y = y) by (apply u32_id; unfold is_u32; lia).
    repeat split; try lia. apply (land_mask (u32 y) 5); lia. }
  assert (Hw : holds (scalar_switch env insn d s) z -> exists w, u32 w = z /\ holds (scalar_switch env insn d s) w).
  { intros H. exists z. by rewrite u32_id. }
  assert (Hunk : exists w, u32 w = z /\ holds (__mark_reg_unknown env d) w).
  { exists z. split; [by apply u32_id|]. by apply unknown_holds, is_u32_is_u64. }
  destruct (opcode insn) eqn:Eo; cbn [alu32_exec] in He; try (injection He as <-); try done.
  - eexists. split; [|apply add_holds]. rewrite u32_u64. apply u32_add.
  - eexists. split; [|apply sub_holds]. rewrite u32_u64. apply u32_sub.
  - eexists. split; [|apply mul_holds]. rewrite u32_u64. unfold u32. by rewrite <- Zmult_mod.
  - eexists. split; [|by apply or_holds]. apply u32_lor.
  - eexists. split; [|by apply and_holds]. apply u32_land.
  - destruct (Z.leb_spec 32 (umax_value s)) as [|Hr]; [done|]. destruct (Hsh eq_refl Hr) as (H1 & H2 & H3 & E4 & H5). rewrite E4 in *.
    eexists. split; [|by apply lsh32_holds]. by apply u32_id.
  - destruct (Z.leb_spec 32 (umax_value s)) as [|Hr]; [done|]. destruct (Hsh eq_refl Hr) as (H1 & H2 & H3 & E4 & H5). rewrite E4 in *.
    eexists. split; [|by apply rsh32_holds]. by apply u32_id.
  - eexists. split; [|by apply xor_holds]. apply u32_lxor.
  - destruct (Z.leb_spec 32 (umax_value s)) as [|Hr]; [done|]. destruct (Hsh eq_refl Hr) as (H1 & H2 & H3 & E4 & H5). 
    assert (Ey : Z.land y 31 = u32 y) by (rewrite H5 in E4; congruence). rewrite Ey in *.
    eexists. split; [|by apply arsh32_holds]. by apply u32_id.
Qed.

(** The whole of [adjust_scalar_min_max_vals]. *)
Lemma adjust_scalar_sound aux d' aux' z :
  off_ok insn -> adjust_scalar_min_max_vals env aux insn d s = (d', aux', 0) -> alu_exec insn x y = Some z ->
  z ∈ d' /\ reg_ok d'.
Proof.
  intros Hoff Ha He. destruct operands_holds as [[Fd (Tx & X64 & X32)] [Fs (Ty & Y64 & Y32)]].
  assert (Hzu : is_u64 z).
  { unfold alu_exec in He. destruct (alu64 insn) eqn:E; [|by eapply is_u32_is_u64, alu32_range; [apply Hoff|]].
    eapply alu64_range; [..|done]; by eapply elem_of_u64. }
  unfold adjust_scalar_min_max_vals in Ha. destruct (invalid_bounds insn s) eqn:Hi.
  { injection Ha as <- <-. by apply mark_unknown_sound. }
  destruct (negb _ && _) eqn:Hk in Ha.
  { injection Ha as <- <-. by apply mark_unknown_sound. }
  destruct (if sanitize_needed _ then _ else _) as [aux1 ret]. destruct (ret <? 0); [by injection Ha|].
  injection Ha as <- <-. apply sync_sound. unfold alu_exec in He.
  assert (Hk' : (if alu64 insn then tnum_is_const (var_off s) else tnum_subreg_is_const (var_off s))
    || always_tracked (opcode insn) = true).
  { apply andb_false_iff in Hk as [Hk%negb_false_iff|Hk%negb_false_iff]; [by rewrite Hk|].
    unfold always_tracked. rewrite Hk. apply orb_true_r. }
  destruct (alu64 insn) eqn:E; [by apply switch64|].
  destruct (switch32 z E Hoff Hi Hk' He) as (w & <- & Hw). by apply zext_sound, holds_32.
Qed.

(** The result of a division may be any word of its width. *)
Lemma adjust_division_sound aux d' aux' z :
  opcode insn = BPF_DIV \/ opcode insn = BPF_MOD -> is_u64 z -> (alu64 insn = false -> is_u32 z) ->
  adjust_scalar_min_max_vals env aux insn d s = (d', aux', 0) -> z ∈ d' /\ reg_ok d'.
Proof.
  clear Hop. intros Hop Hz H32. unfold adjust_scalar_min_max_vals.
  case_match; [intros [= <- <-]; by apply mark_unknown_sound|].
  case_match; [intros [= <- <-]; by apply mark_unknown_sound|].
  assert (scalar_switch env insn d s = __mark_reg_unknown env d) as ->.
  { unfold scalar_switch. by destruct Hop as [-> | ->]. }
  destruct (if sanitize_needed _ then _ else _) as [aux1 ret]. destruct (ret <? 0); [by intros [=]|].
  intros [= <- <-]. apply sync_sound. pose proof (unknown_holds z Hz) as Hu.
  destruct (alu64 insn); [done|]. rewrite <- (u32_id z) by auto. by apply zext_sound, holds_32.
Qed.
End switch.
