(* ===== verification/BpfJmp.v ===== *)
(** * Conditional jumps: the verifier and the interpreter

    [is_branch_taken] decides a comparison from the ranges; [reg_set_min_max]
    and [reg_combine_min_max] refine the ranges in both branches
    ([kernel/bpf/verifier.c]); [COND_JMP] of [___bpf_prog_run]
    ([kernel/bpf/core.c]) is the comparison itself. *)
From S2P Require Import Prelude Bits Tnum BpfReg.

Inductive jmp_op :=
| BPF_JEQ | BPF_JNE | BPF_JSET | BPF_JGT | BPF_JGE | BPF_JLT | BPF_JLE
| BPF_JSGT | BPF_JSGE | BPF_JSLT | BPF_JSLE.

(** ** The interpreter: is the jump taken? *)
Definition cond_jmp (op : jmp_op) (is_jmp32 : bool) (dst src : Z) : bool :=
  let '(x, y) := if is_jmp32 then (u32 dst, u32 src) else (dst, src) in
  let '(sx, sy) := if is_jmp32 then (s32 dst, s32 src) else (s64 dst, s64 src) in
  match op with
  | BPF_JEQ => x =? y
  | BPF_JNE => negb (x =? y)
  | BPF_JSET => negb (Z.land x y =? 0)
  | BPF_JGT => y <? x
  | BPF_JLT => x <? y
  | BPF_JGE => y <=? x
  | BPF_JLE => x <=? y
  | BPF_JSGT => sy <? sx
  | BPF_JSLT => sx <? sy
  | BPF_JSGE => sy <=? sx
  | BPF_JSLE => sx <=? sy
  end.

(** ** Deciding a comparison *)

(** 1: taken, 0: not taken, -1: unknown. *)
Definition decide_branch (yes no : bool) : Z := if yes then 1 else if no then 0 else -1.

Definition is_branch32_taken (reg : bpf_reg_state) (val : Z) (op : jmp_op) : Z :=
  let subreg := tnum_subreg (var_off reg) in
  let sval := s32 val in
  match op with
  | BPF_JEQ =>
      if tnum_is_const subreg then Z.b2z (tnum_equals_const subreg val)
      else if (val <? u32_min_value reg) || (u32_max_value reg <? val) then 0 else -1
  | BPF_JNE =>
      if tnum_is_const subreg then Z.b2z (negb (tnum_equals_const subreg val))
      else if (val <? u32_min_value reg) || (u32_max_value reg <? val) then 1 else -1
  | BPF_JSET =>
      decide_branch (negb (Z.land (Z.land (not64 (mask subreg)) (value subreg)) val =? 0))
                    (Z.land (Z.lor (mask subreg) (value subreg)) val =? 0)
  | BPF_JGT => decide_branch (val <? u32_min_value reg) (u32_max_value reg <=? val)
  | BPF_JSGT => decide_branch (sval <? s32_min_value reg) (s32_max_value reg <=? sval)
  | BPF_JLT => decide_branch (u32_max_value reg <? val) (val <=? u32_min_value reg)
  | BPF_JSLT => decide_branch (s32_max_value reg <? sval) (sval <=? s32_min_value reg)
  | BPF_JGE => decide_branch (val <=? u32_min_value reg) (u32_max_value reg <? val)
  | BPF_JSGE => decide_branch (sval <=? s32_min_value reg) (s32_max_value reg <? sval)
  | BPF_JLE => decide_branch (u32_max_value reg <=? val) (val <? u32_min_value reg)
  | BPF_JSLE => decide_branch (s32_max_value reg <=? sval) (sval <? s32_min_value reg)
  end.

Definition is_branch64_taken (reg : bpf_reg_state) (val : Z) (op : jmp_op) : Z :=
  let sval := s64 val in
  match op with
  | BPF_JEQ =>
      if tnum_is_const (var_off reg) then Z.b2z (tnum_equals_const (var_off reg) val)
      else if (val <? umin_value reg) || (umax_value reg <? val) then 0 else -1
  | BPF_JNE =>
      if tnum_is_const (var_off reg) then Z.b2z (negb (tnum_equals_const (var_off reg) val))
      else if (val <? umin_value reg) || (umax_value reg <? val) then 1 else -1
  | BPF_JSET =>
      decide_branch (negb (Z.land (Z.land (not64 (mask (var_off reg))) (value (var_off reg))) val =? 0))
                    (Z.land (Z.lor (mask (var_off reg)) (value (var_off reg))) val =? 0)
  | BPF_JGT => decide_branch (val <? umin_value reg) (umax_value reg <=? val)
  | BPF_JSGT => decide_branch (sval <? smin_value reg) (smax_value reg <=? sval)
  | BPF_JLT => decide_branch (umax_value reg <? val) (val <=? umin_value reg)
  | BPF_JSLT => decide_branch (smax_value reg <? sval) (sval <=? smin_value reg)
  | BPF_JGE => decide_branch (val <=? umin_value reg) (umax_value reg <? val)
  | BPF_JSGE => decide_branch (sval <=? smin_value reg) (smax_value reg <? sval)
  | BPF_JLE => decide_branch (umax_value reg <=? val) (val <? umin_value reg)
  | BPF_JSLE => decide_branch (smax_value reg <=? sval) (sval <? smin_value reg)
  end.

(** Types of pointers that cannot be NULL. *)
Definition base_type (t : Z) : Z := Z.land t 255.
Definition type_flag (t : Z) : Z := Z.ldiff t 255.
Definition type_may_be_null (t : Z) : bool := negb (Z.land t PTR_MAYBE_NULL =? 0).
Definition BPF_REG_TRUSTED_MODIFIERS : Z := Z.lor (Z.lor MEM_ALLOC PTR_TRUSTED) NON_OWN_REF.
Definition bpf_type_has_unsafe_modifiers (t : Z) : bool :=
  negb (Z.ldiff (type_flag t) BPF_REG_TRUSTED_MODIFIERS =? 0).
(** The types in [reg2btf_ids] (with [CONFIG_NET]). *)
Definition reg2btf_ids (base : Z) : bool :=
  bool_decide (base ∈ [PTR_TO_SOCKET; PTR_TO_SOCK_COMMON; PTR_TO_TCP_SOCK; CONST_PTR_TO_MAP]).
Definition is_trusted_reg (reg : bpf_reg_state) : bool :=
  let t := type (meta reg) in
  if negb (ref_obj_id (meta reg) =? 0) then true
  else if reg2btf_ids (base_type t) && negb (bpf_type_has_unsafe_modifiers t) then true
  else negb (Z.land (type_flag t) BPF_REG_TRUSTED_MODIFIERS =? 0) && negb (bpf_type_has_unsafe_modifiers t).
Definition reg_not_null (reg : bpf_reg_state) : bool :=
  if type_may_be_null (type (meta reg)) then false
  else
    let t := base_type (type (meta reg)) in
    bool_decide (t ∈ [PTR_TO_SOCKET; PTR_TO_TCP_SOCK; PTR_TO_MAP_VALUE; PTR_TO_MAP_KEY; PTR_TO_SOCK_COMMON])
    || ((t =? PTR_TO_BTF_ID) && is_trusted_reg reg) || (t =? PTR_TO_MEM).

Definition __is_pointer_value (allow_ptr_leaks : bool) (reg : bpf_reg_state) : bool :=
  if allow_ptr_leaks then false else negb (type (meta reg) =? SCALAR_VALUE).

Definition is_branch_taken (reg : bpf_reg_state) (val : Z) (op : jmp_op) (is_jmp32 : bool) : Z :=
  if __is_pointer_value false reg then
    if negb (reg_not_null reg) then -1
    else if negb (val =? 0) then -1
    else match op with BPF_JEQ => 0 | BPF_JNE => 1 | _ => -1 end
  else if is_jmp32 then is_branch32_taken reg (u32 val) op
  else is_branch64_taken reg val op.

Definition flip_opcode (op : jmp_op) : jmp_op :=
  match op with
  | BPF_JEQ => BPF_JEQ | BPF_JNE => BPF_JNE | BPF_JSET => BPF_JSET
  | BPF_JGE => BPF_JLE | BPF_JGT => BPF_JLT | BPF_JLE => BPF_JGE | BPF_JLT => BPF_JGT
  | BPF_JSGE => BPF_JSLE | BPF_JSGT => BPF_JSLT | BPF_JSLE => BPF_JSGE | BPF_JSLT => BPF_JSGT
  end.

(** ** Refining the branches *)

Definition is_power_of_2 (n : Z) : bool := negb (n =? 0) && (Z.land n (n - 1) =? 0).

(** The state of the two branches: the register and the tracked numbers of its
    whole and of its low half, as the function carries them to its end. *)
Definition upd_u32 (f g : Z -> Z) (r : bpf_reg_state) : bpf_reg_state := set_u32 (f (u32_min_value r)) (g (u32_max_value r)) r.
Definition upd_u64 (f g : Z -> Z) (r : bpf_reg_state) : bpf_reg_state := set_u64 (f (umin_value r)) (g (umax_value r)) r.
Definition upd_s32 (f g : Z -> Z) (r : bpf_reg_state) : bpf_reg_state := set_s32 (f (s32_min_value r)) (g (s32_max_value r)) r.
Definition upd_s64 (f g : Z -> Z) (r : bpf_reg_state) : bpf_reg_state := set_s64 (f (smin_value r)) (g (smax_value r)) r.
Definition keep (v : Z) : Z := v.

(** One branch with a 32-bit comparison: the low half replaces its bits. *)
Definition finish32 (r : bpf_reg_state) (off64 off32 : tnum) : bpf_reg_state :=
  __reg_combine_32_into_64 (set_var_off (tnum_or (tnum_clear_subreg off64) (tnum_subreg off32)) r).
Definition finish64 (r : bpf_reg_state) (off64 : tnum) : bpf_reg_state :=
  __reg_combine_64_into_32 (set_var_off off64 r).

(** Results: (true branch, false branch). *)
Definition reg_set_min_max32 (true_reg false_reg : bpf_reg_state) (val32 : Z) (op : jmp_op) : bpf_reg_state * bpf_reg_state :=
  let false_32off := tnum_subreg (var_off false_reg) in
  let false_64off := var_off false_reg in
  let true_32off := tnum_subreg (var_off true_reg) in
  let true_64off := var_off true_reg in
  let sval32 := s32 val32 in
  let done (t f : bpf_reg_state) := (finish32 t true_64off true_32off, finish32 f false_64off false_32off) in
  match op with
  | BPF_JEQ =>
      let t := __mark_reg32_known true_reg val32 in
      (finish32 t true_64off (tnum_subreg (var_off t)), finish32 false_reg false_64off false_32off)
  | BPF_JNE =>
      let f := __mark_reg32_known false_reg val32 in
      (finish32 true_reg true_64off true_32off, finish32 f false_64off (tnum_subreg (var_off f)))
  | BPF_JSET =>
      (finish32 true_reg true_64off
         (if is_power_of_2 val32 then tnum_or true_32off (tnum_const val32) else true_32off),
       finish32 false_reg false_64off (tnum_and false_32off (tnum_const (u32 (Z.lnot val32)))))
  | BPF_JGE => done (upd_u32 (Z.max val32) keep true_reg) (upd_u32 keep (Z.min (u32 (val32 - 1))) false_reg)
  | BPF_JGT => done (upd_u32 (Z.max (u32 (val32 + 1))) keep true_reg) (upd_u32 keep (Z.min val32) false_reg)
  | BPF_JSGE => done (upd_s32 (Z.max sval32) keep true_reg) (upd_s32 keep (Z.min (s32 (sval32 - 1))) false_reg)
  | BPF_JSGT => done (upd_s32 (Z.max (s32 (sval32 + 1))) keep true_reg) (upd_s32 keep (Z.min sval32) false_reg)
  | BPF_JLE => done (upd_u32 keep (Z.min val32) true_reg) (upd_u32 (Z.max (u32 (val32 + 1))) keep false_reg)
  | BPF_JLT => done (upd_u32 keep (Z.min (u32 (val32 - 1))) true_reg) (upd_u32 (Z.max val32) keep false_reg)
  | BPF_JSLE => done (upd_s32 keep (Z.min sval32) true_reg) (upd_s32 (Z.max (s32 (sval32 + 1))) keep false_reg)
  | BPF_JSLT => done (upd_s32 keep (Z.min (s32 (sval32 - 1))) true_reg) (upd_s32 (Z.max sval32) keep false_reg)
  end.

Definition reg_set_min_max64 (true_reg false_reg : bpf_reg_state) (val : Z) (op : jmp_op) : bpf_reg_state * bpf_reg_state :=
  let false_64off := var_off false_reg in
  let true_64off := var_off true_reg in
  let sval := s64 val in
  let done (t f : bpf_reg_state) := (finish64 t true_64off, finish64 f false_64off) in
  match op with
  | BPF_JEQ => let t := ___mark_reg_known true_reg val in (finish64 t (var_off t), finish64 false_reg false_64off)
  | BPF_JNE => let f := ___mark_reg_known false_reg val in (finish64 true_reg true_64off, finish64 f (var_off f))
  | BPF_JSET =>
      (finish64 true_reg (if is_power_of_2 val then tnum_or true_64off (tnum_const val) else true_64off),
       finish64 false_reg (tnum_and false_64off (tnum_const (not64 val))))
  | BPF_JGE => done (upd_u64 (Z.max val) keep true_reg) (upd_u64 keep (Z.min (u64 (val - 1))) false_reg)
  | BPF_JGT => done (upd_u64 (Z.max (u64 (val + 1))) keep true_reg) (upd_u64 keep (Z.min val) false_reg)
  | BPF_JSGE => done (upd_s64 (Z.max sval) keep true_reg) (upd_s64 keep (Z.min (s64 (sval - 1))) false_reg)
  | BPF_JSGT => done (upd_s64 (Z.max (s64 (sval + 1))) keep true_reg) (upd_s64 keep (Z.min sval) false_reg)
  | BPF_JLE => done (upd_u64 keep (Z.min val) true_reg) (upd_u64 (Z.max (u64 (val + 1))) keep false_reg)
  | BPF_JLT => done (upd_u64 keep (Z.min (u64 (val - 1))) true_reg) (upd_u64 (Z.max val) keep false_reg)
  | BPF_JSLE => done (upd_s64 keep (Z.min sval) true_reg) (upd_s64 (Z.max (s64 (sval + 1))) keep false_reg)
  | BPF_JSLT => done (upd_s64 keep (Z.min (s64 (sval - 1))) true_reg) (upd_s64 (Z.max sval) keep false_reg)
  end.

Definition reg_set_min_max (true_reg false_reg : bpf_reg_state) (val val32 : Z) (op : jmp_op) (is_jmp32 : bool)
    : bpf_reg_state * bpf_reg_state :=
  if __is_pointer_value false false_reg then (true_reg, false_reg)
  else if is_jmp32 then reg_set_min_max32 true_reg false_reg val32 op
  else reg_set_min_max64 true_reg false_reg val op.

Definition reg_set_min_max_inv (true_reg false_reg : bpf_reg_state) (val val32 : Z) (op : jmp_op) (is_jmp32 : bool)
    : bpf_reg_state * bpf_reg_state :=
  reg_set_min_max true_reg false_reg val val32 (flip_opcode op) is_jmp32.

(** ** Registers known to be equal *)

(** Results: (source, destination). *)
Definition __reg_combine_min_max (src_reg dst_reg : bpf_reg_state) : bpf_reg_state * bpf_reg_state :=
  let umin := Z.max (umin_value src_reg) (umin_value dst_reg) in
  let umax := Z.min (umax_value src_reg) (umax_value dst_reg) in
  let smin := Z.max (smin_value src_reg) (smin_value dst_reg) in
  let smax := Z.min (smax_value src_reg) (smax_value dst_reg) in
  let voff := tnum_intersect (var_off src_reg) (var_off dst_reg) in
  (reg_bounds_sync (set_var_off voff (set_s64 smin smax (set_u64 umin umax src_reg))),
   reg_bounds_sync (set_var_off voff (set_s64 smin smax (set_u64 umin umax dst_reg)))).

(** The four registers (true source, true destination, false source, false
    destination) after a comparison of two registers. *)
Definition reg_combine_min_max (true_src true_dst false_src false_dst : bpf_reg_state) (op : jmp_op)
    : (bpf_reg_state * bpf_reg_state) * (bpf_reg_state * bpf_reg_state) :=
  match op with
  | BPF_JEQ => (__reg_combine_min_max true_src true_dst, (false_src, false_dst))
  | BPF_JNE => ((true_src, true_dst), __reg_combine_min_max false_src false_dst)
  | _ => ((true_src, true_dst), (false_src, false_dst))
  end.
