(* ===== verification/BpfJmpThms.v ===== *)
(** * Conditional jumps: decided comparisons are right and refined ranges sound *)
From S2P Require Import Prelude Bits Tnum TnumThms BpfReg BpfRegThms BpfCoerce BpfAlu BpfAluThms BpfAluSound BpfJmp.

(** ** Deciding a comparison *)
Section decide.
Implicit Types r : bpf_reg_state.
Implicit Types x y val : Z.

(** A verdict agrees with the comparison it is about. *)
Definition agrees (verdict : Z) (b : bool) : Prop := (verdict = 1 -> b = true) /\ (verdict = 0 -> b = false).

Lemma agrees_decide yes no b : (yes = true -> b = true) -> (no = true -> b = false) -> agrees (decide_branch yes no) b.
Proof. intros H1 H2. unfold decide_branch. split; repeat case_match; try done; intros; auto. Qed.

Lemma agrees_known k b : k = b -> agrees (Z.b2z k) b.
Proof. intros ->. by destruct b. Qed.

(** Known bits common to [x] and [val], and bits that may be. *)
Lemma jset_yes a x val :
  x ∈ a -> negb (Z.land (Z.land (not64 (mask a)) (value a)) val =? 0) = true -> negb (Z.land x val =? 0) = true.
Proof.
  intros Ha. rewrite !negb_true_iff, !Z.eqb_neq. intros Hn Hz. apply Hn. apply Z.bits_inj'. intros i Hi.
  rewrite !Z.land_spec, Z.bits_0. apply (f_equal (fun w => Z.testbit w i)) in Hz. rewrite Z.land_spec, Z.bits_0 in Hz.
  pose proof (subbits_value _ _ Ha i Hi) as Hs. destruct (Z.testbit (value a) i), (Z.testbit x i), (Z.testbit val i);
    rewrite ?andb_false_r; try done. by specialize (Hs eq_refl).
Qed.
Lemma jset_no a x val :
  x ∈ a -> (Z.land (Z.lor (mask a) (value a)) val =? 0) = true -> negb (Z.land x val =? 0) = false.
Proof.
  intros Ha. rewrite negb_false_iff, !Z.eqb_eq. intros Hz. apply Z.bits_inj'. intros i Hi.
  apply (f_equal (fun w => Z.testbit w i)) in Hz. rewrite Z.land_spec, Z.lor_spec, Z.bits_0 in *.
  pose proof (subbits_max _ _ Ha i Hi) as Hs. rewrite Z.lor_spec in Hs.
  destruct (Z.testbit (value a) i), (Z.testbit (mask a) i), (Z.testbit x i), (Z.testbit val i); try done; by specialize (Hs eq_refl).
Qed.

Lemma known_eq a x val : x ∈ a -> tnum_is_const a = true -> tnum_equals_const a val = (x =? val).
Proof. intros Ha Hc. unfold tnum_equals_const. rewrite Hc, (const_member _ _ Ha Hc). done. Qed.

Ltac cmp := intros; repeat match goal with
  | H : (_ <? _) = true |- _ => apply Z.ltb_lt in H
  | H : (_ <=? _) = true |- _ => apply Z.leb_le in H
  | |- (_ <? _) = true => apply Z.ltb_lt
  | |- (_ <=? _) = true => apply Z.leb_le
  | |- (_ <? _) = false => apply Z.ltb_ge
  | |- (_ <=? _) = false => apply Z.leb_gt
  end; lia.

Lemma branch64_sound r x val op : x ∈ r -> agrees (is_branch64_taken r val op) (cond_jmp op false x val).
Proof.
  intros (Ht & [Hs Hu] & _). unfold is_branch64_taken, cond_jmp.
  destruct op; try (apply agrees_decide; cmp).
  - destruct (tnum_is_const _) eqn:Hc; [by apply agrees_known, known_eq|].
    case_match eqn:Hb; [|done]. split; [done|]. intros _. apply Z.eqb_neq. lia.
  - destruct (tnum_is_const _) eqn:Hc; [by apply agrees_known; f_equal; apply known_eq|].
    case_match eqn:Hb; [|done]. split; [|done]. intros _. apply negb_true_iff, Z.eqb_neq. lia.
  - apply agrees_decide; [by apply jset_yes|by apply jset_no].
Qed.

Lemma branch32_sound r x val op : x ∈ r -> is_u32 val -> agrees (is_branch32_taken r val op) (cond_jmp op true x val).
Proof.
  intros (Ht & _ & [Hs Hu]) Hv. unfold is_branch32_taken, cond_jmp. pose proof (tnum_subreg_sound _ _ Ht) as Hsub.
  rewrite (u32_id val Hv). destruct op; try (apply agrees_decide; cmp).
  - destruct (tnum_is_const _) eqn:Hc; [by apply agrees_known, known_eq|].
    case_match eqn:Hb; [|done]. split; [done|]. intros _. apply Z.eqb_neq. lia.
  - destruct (tnum_is_const _) eqn:Hc; [by apply agrees_known; f_equal; apply known_eq|].
    case_match eqn:Hb; [|done]. split; [|done]. intros _. apply negb_true_iff, Z.eqb_neq. lia.
  - apply agrees_decide; [by apply jset_yes|by apply jset_no].
Qed.

Lemma branch_sound r x val op is32 :
  type (meta r) = SCALAR_VALUE -> x ∈ r -> agrees (is_branch_taken r val op is32) (cond_jmp op is32 x val).
Proof.
  intros Hty Hx. unfold is_branch_taken, __is_pointer_value. rewrite Hty. cbn [Z.eqb Pos.eqb SCALAR_VALUE negb].
  destruct is32; [|by apply branch64_sound]. pose proof (branch32_sound r x (u32 val) op Hx (u32_range val)) as H.
  unfold cond_jmp in *. by rewrite (u32_id (u32 val)), s32_u32 in H by apply u32_range.
Qed.

(** The flipped comparison swaps its operands. *)
Lemma flip_sound op is32 x y : cond_jmp (flip_opcode op) is32 x y = cond_jmp op is32 y x.
Proof.
  destruct op, is32; cbn; try done; rewrite 1?Z.eqb_sym; try done; by rewrite Z.land_comm.
Qed.
End decide.

(** ** Refining the branches *)
Section refine.
Implicit Types r : bpf_reg_state.
Implicit Types x val : Z.

Lemma finish32_sound r off64 off32 x :
  reg_fields r -> x ∈ off64 -> u32 x ∈ off32 -> in32 r x -> x ∈ finish32 r off64 off32 /\ reg_ok (finish32 r off64 off32).
Proof.
  intros Hf H64 H32 Hin. apply combine_32_into_64_sound. split; [done|]. split; [|done].
  cbn [var_off set_var_off]. replace x with (x - u32 x + u32 x) by lia. apply with_subreg_sound; [done| |apply u32_range].
  rewrite <- (u32_id (u32 x)) by apply u32_range. by apply tnum_subreg_sound.
Qed.

Lemma finish64_sound r off64 x :
  reg_fields r -> x ∈ off64 -> in64 r x -> x ∈ finish64 r off64 /\ reg_ok (finish64 r off64).
Proof. intros Hf H64 Hin. by apply combine_64_into_32_sound. Qed.

Lemma land_not x val : is_u64 x -> Z.land x val = 0 -> Z.land x (not64 val) = x.
Proof.
  intros Hx Hz. apply Z.bits_inj'. intros i Hi. rewrite Z.land_spec, testbit_not64 by lia.
  apply (f_equal (fun w => Z.testbit w i)) in Hz. rewrite Z.land_spec, Z.bits_0 in Hz.
  destruct (Z.ltb_spec i 64); [|by rewrite testbit_high by (done || lia)].
  destruct (Z.testbit x i), (Z.testbit val i); done.
Qed.

Lemma power_of_2 n : 0 <= n -> is_power_of_2 n = true -> exists k, 0 <= k /\ n = 2 ^ k.
Proof.
  intros Hn. unfold is_power_of_2. rewrite andb_true_iff, negb_true_iff, Z.eqb_neq, Z.eqb_eq. intros [Hz Hl].
  exists (Z.log2 n). pose proof (Z.log2_nonneg n). split; [done|]. pose proof (Z.log2_spec n ltac:(lia)) as [H1 H2].
  destruct (decide (n = 2 ^ Z.log2 n)) as [|Hne]; [done|]. exfalso.
  apply (f_equal (fun w => Z.testbit w (Z.log2 n))) in Hl. rewrite Z.land_spec, Z.bits_0 in Hl.
  rewrite Z.bit_log2 in Hl by lia. cbn in Hl.
  rewrite <- (Z.log2_unique (n - 1) (Z.log2 n)), Z.bit_log2 in Hl by lia. done.
Qed.

Lemma jset_or x n : 0 <= n -> is_power_of_2 n = true -> Z.land x n <> 0 -> Z.lor x n = x.
Proof.
  intros Hn (k & Hk & ->)%power_of_2 Hz; [|done]. apply Z.bits_inj'. intros i Hi.
  rewrite Z.lor_spec, Z.pow2_bits_eqb by lia. destruct (Z.eqb_spec k i) as [->|]; [|by rewrite orb_false_r].
  rewrite orb_true_r. destruct (Z.testbit x i) eqn:Hb; [done|]. exfalso. apply Hz. apply Z.bits_inj'. intros j Hj.
  rewrite Z.land_spec, Z.bits_0, Z.pow2_bits_eqb by lia. destruct (Z.eqb_spec i j) as [->|]; [by rewrite Hb|apply andb_false_r].
Qed.

(** Both branches, given where the value is. *)
Definition branch_ok (b : bool) (regs : bpf_reg_state * bpf_reg_state) x : Prop :=
  let r := if b then regs.1 else regs.2 in x ∈ r /\ reg_ok r.

Lemma branch_ok_intro b t f x :
  (b = true -> x ∈ t /\ reg_ok t) -> (b = false -> x ∈ f /\ reg_ok f) -> branch_ok b (t, f) x.
Proof. unfold branch_ok. destruct b; auto. Qed.

Ltac cmp_hyp := repeat match goal with
  | H : (_ <? _) = true |- _ => apply Z.ltb_lt in H
  | H : (_ <=? _) = true |- _ => apply Z.leb_le in H
  | H : (_ <? _) = false |- _ => apply Z.ltb_ge in H
  | H : (_ <=? _) = false |- _ => apply Z.leb_gt in H
  end.
Ltac wrap_ids := repeat match goal with
  | |- context [u64 (?a + 1)] => rewrite (u64_id (a + 1)) by clia
  | |- context [u64 (?a - 1)] => rewrite (u64_id (a - 1)) by clia
  | |- context [s64 (?a + 1)] => rewrite (s64_id (a + 1)) by clia
  | |- context [s64 (?a - 1)] => rewrite (s64_id (a - 1)) by clia
  | |- context [u32 (?a + 1)] => rewrite (u32_id (a + 1)) by clia
  | |- context [u32 (?a - 1)] => rewrite (u32_id (a - 1)) by clia
  | |- context [s32 (?a + 1)] => rewrite (s32_id (a + 1)) by clia
  | |- context [s32 (?a - 1)] => rewrite (s32_id (a - 1)) by clia
  end.
(** A branch that only moves one bound. *)
Ltac bound_branch lem := intros Hc; cmp_hyp; wrap_ids; unfold upd_u64, upd_s64, upd_u32, upd_s32, keep;
  apply lem; try done; [close_reg; clia|split; cbn; clia].

Lemma set64_sound r x val op :
  reg_fields r -> x ∈ r -> is_u64 val ->
  branch_ok (cond_jmp op false x val) (reg_set_min_max64 r r val op) x.
Proof.
  intros Hf (Ht & [Hs Hu] & _) Hv. pose proof (elem_of_u64 _ _ Ht) as Hx.
  pose proof (s64_range val). pose proof (s64_range x). pose proof Hf as (F1 & F2 & F3 & F4 & F5 & F6 & F7 & F8).
  assert (Hr : x ∈ finish64 r (var_off r) /\ reg_ok (finish64 r (var_off r))) by (by apply finish64_sound).
  unfold reg_set_min_max64, cond_jmp.
  destruct op; apply branch_ok_intro; try (bound_branch finish64_sound); intros Hc.
  - apply Z.eqb_eq in Hc as ->. destruct (mark_known_sound r val Hv Hf) as [(K1 & K2 & K3) [K4 _]].
    by apply finish64_sound.
  - exact Hr.
  - exact Hr.
  - apply negb_false_iff, Z.eqb_eq in Hc as ->. destruct (mark_known_sound r val Hv Hf) as [(K1 & K2 & K3) [K4 _]].
    by apply finish64_sound.
  - apply negb_true_iff, Z.eqb_neq in Hc. destruct (is_power_of_2 val) eqn:Hp; [|exact Hr].
    apply finish64_sound; try done. rewrite <- (jset_or x val (proj1 Hv) Hp Hc). apply tnum_or_sound; [done|].
    by apply elem_of_const.
  - apply negb_false_iff, Z.eqb_eq in Hc. apply finish64_sound; try done.
    rewrite <- (land_not x val Hx Hc). apply tnum_and_sound; [done|]. apply elem_of_const; [apply u64_range|done].
Qed.

Lemma set32_sound r x val op :
  reg_fields r -> x ∈ r -> is_u32 val ->
  branch_ok (cond_jmp op true x val) (reg_set_min_max32 r r val op) x.
Proof.
  intros Hf (Ht & _ & [Hs Hu]) Hv. pose proof (tnum_subreg_sound _ _ Ht) as Hsub.
  pose proof (s32_range val). pose proof (s32_range x). pose proof (u32_range x) as Hx.
  pose proof Hf as (F1 & F2 & F3 & F4 & F5 & F6 & F7 & F8).
  assert (Hr : x ∈ finish32 r (var_off r) (tnum_subreg (var_off r)) /\ reg_ok (finish32 r (var_off r) (tnum_subreg (var_off r))))
    by (by apply finish32_sound).
  assert (Hkn : u32 x = val ->
    x ∈ finish32 (__mark_reg32_known r val) (var_off r) (tnum_subreg (var_off (__mark_reg32_known r val))) /\
    reg_ok (finish32 (__mark_reg32_known r val) (var_off r) (tnum_subreg (var_off (__mark_reg32_known r val))))).
  { intros He. destruct (mark32_known_low r val x Hf Ht Hv He) as [(K1 & K2 & K3) _].
    apply finish32_sound; try done. by apply tnum_subreg_sound. }
  unfold reg_set_min_max32, cond_jmp. rewrite (u32_id val Hv).
  destruct op; apply branch_ok_intro; try (bound_branch finish32_sound); intros Hc.
  - apply Z.eqb_eq in Hc. by apply Hkn.
  - exact Hr.
  - exact Hr.
  - apply negb_false_iff, Z.eqb_eq in Hc. by apply Hkn.
  - apply negb_true_iff, Z.eqb_neq in Hc. destruct (is_power_of_2 val) eqn:Hp; [|exact Hr].
    apply finish32_sound; try done. rewrite <- (jset_or (u32 x) val (proj1 Hv) Hp Hc). apply tnum_or_sound; [done|].
    by apply elem_of_const; [apply is_u32_is_u64|].
  - apply negb_false_iff, Z.eqb_eq in Hc. apply finish32_sound; try done.
    assert (E : Z.land (u32 x) (u32 (Z.lnot val)) = u32 x).
    { rewrite <- (land_not (u32 x) val (is_u32_is_u64 _ Hx) Hc) at 2. apply Z.bits_inj'. intros i Hi.
      rewrite !Z.land_spec, testbit_not64, !testbit_u32, Z.lnot_spec by lia.
      destruct (Z.ltb_spec i 32), (Z.ltb_spec i 64); try lia; btauto. }
    rewrite <- E. apply tnum_and_sound; [done|]. apply elem_of_const; [apply is_u32_is_u64, u32_range|done].
Qed.

(** Two registers known to be equal. *)
Lemma combine_sound s d x :
  reg_fields s -> reg_fields d -> x ∈ s -> x ∈ d ->
  let '(s', d') := __reg_combine_min_max s d in (x ∈ s' /\ reg_ok s') /\ (x ∈ d' /\ reg_ok d').
Proof.
  intros Hfs Hfd (Ts & [Ss Us] & [S3 U3]) (Td & [Sd Ud] & [S3' U3']).
  pose proof (tnum_intersect_sound _ _ _ Ts Td) as Ti. cbn [__reg_combine_min_max]. open_reg.
  split; apply sync_sound; close_reg; try done; clia.
Qed.
End refine.

(** ** Both kinds of comparison *)

(** A comparison with a constant. *)
Lemma refine_const_sound reg x val val32 op is_jmp32 true_reg false_reg :
  type (meta reg) = SCALAR_VALUE -> reg_ok reg -> x ∈ reg -> is_u64 val -> is_u32 val32 ->
  reg_set_min_max reg reg val val32 op is_jmp32 = (true_reg, false_reg) ->
  let r := if cond_jmp op is_jmp32 x (if is_jmp32 then val32 else val) then true_reg else false_reg in
  x ∈ r /\ reg_ok r.
Proof.
  intros Hty [Hf _] Hx Hv Hv32 Hset. unfold reg_set_min_max, __is_pointer_value in Hset. rewrite Hty in Hset.
  cbn [Z.eqb Pos.eqb SCALAR_VALUE negb] in Hset.
  destruct is_jmp32.
  - pose proof (set32_sound reg x val32 op Hf Hx Hv32) as H. by rewrite Hset in H.
  - pose proof (set64_sound reg x val op Hf Hx Hv) as H. by rewrite Hset in H.
Qed.

(** A comparison of two registers for equality. *)
Lemma refine_equal_sound src dst x y op s1 d1 s0 d0 :
  reg_ok src -> reg_ok dst -> x ∈ dst -> y ∈ src ->
  reg_combine_min_max src dst src dst op = ((s1, d1), (s0, d0)) ->
  let '(s', d') := if cond_jmp op false x y then (s1, d1) else (s0, d0) in y ∈ s' /\ reg_ok s' /\ x ∈ d' /\ reg_ok d'.
Proof.
  intros Hs Hd Hx Hy Hc. pose proof (combine_sound src dst x (proj1 Hs) (proj1 Hd)) as Hcomb.
  destruct op; cbn -[__reg_combine_min_max] in *; try (injection Hc as <- <- <- <-; match goal with |- context [if ?b then _ else _] => destruct b end; tauto).
  - destruct (Z.eqb_spec x y) as [->|]; destruct (__reg_combine_min_max src dst) as [a b]; injection Hc as <- <- <- <-.
    + specialize (Hcomb Hy Hx). tauto.
    + tauto.
  - destruct (Z.eqb_spec x y) as [->|]; destruct (__reg_combine_min_max src dst) as [a b]; injection Hc as <- <- <- <-; cbn [negb].
    + specialize (Hcomb Hy Hx). tauto.
    + tauto.
Qed.
