(* ===== verification/BpfProg.v ===== *)
(** * BPF programs and the interpreter

    Instructions as the program holds them, the scalar part of
    [___bpf_prog_run] ([kernel/bpf/core.c]) on register files, and the checks
    that [do_misc_fixups] ([kernel/bpf/verifier.c]) puts around divisions.

    A register that nothing has written is [None].  Undefined steps (reading
    such a register, leaving the program, dividing by zero, shifting by more
    than the width, an opcode outside the jump table) are [Stuck]; memory
    access, calls and atomic operations are not modelled and [Stuck] as well. *)
From S2P Require Import Prelude Bits Tnum BpfReg BpfAlu BpfJmp.

(** [struct bpf_insn]. *)
Record insn := mk_raw { code : Z; dst_reg : nat; src_reg : nat; i_off : Z; i_imm : Z }.

(** Each field within its C type. *)
Definition insn_fields (i : insn) : Prop :=
  0 <= code i < 2 ^ 8 /\ - 2 ^ 15 <= i_off i < 2 ^ 15 /\ is_s32 (i_imm i).

(** ** Opcodes ([include/uapi/linux/bpf.h], [bpf_common.h]) *)

Definition BPF_LD : Z := 0.
Definition BPF_ALU : Z := 4.
Definition BPF_JMP : Z := 5.
Definition BPF_JMP32 : Z := 6.
Definition BPF_ALU64 : Z := 7.
Definition BPF_X : Z := 8.
Definition BPF_JA : Z := 0.
Definition BPF_CALL : Z := 128.
Definition BPF_EXIT : Z := 144.
Definition BPF_DW : Z := 24.
Definition BPF_CLASS (c : Z) : Z := Z.land c 7.
Definition BPF_OP (c : Z) : Z := Z.land c 240.
Definition BPF_SRC (c : Z) : Z := Z.land c 8.
Definition BPF_SIZE (c : Z) : Z := Z.land c 24.
Definition BPF_MODE (c : Z) : Z := Z.land c 224.
Definition src_is_k (i : insn) : bool := BPF_SRC (code i) =? 0.

Definition alu_op_of (op : Z) : option alu_op :=
  match op with
  | 0 => Some BPF_ADD | 16 => Some BPF_SUB | 32 => Some BPF_MUL | 48 => Some BPF_DIV | 64 => Some BPF_OR
  | 80 => Some BPF_AND | 96 => Some BPF_LSH | 112 => Some BPF_RSH | 128 => Some BPF_NEG | 144 => Some BPF_MOD
  | 160 => Some BPF_XOR | 176 => Some BPF_MOV | 192 => Some BPF_ARSH | 208 => Some BPF_END
  | _ => None
  end.

(** Conditional jumps only. *)
Definition jmp_op_of (op : Z) : option jmp_op :=
  match op with
  | 16 => Some BPF_JEQ | 32 => Some BPF_JGT | 48 => Some BPF_JGE | 64 => Some BPF_JSET | 80 => Some BPF_JNE
  | 96 => Some BPF_JSGT | 112 => Some BPF_JSGE | 160 => Some BPF_JLT | 176 => Some BPF_JLE
  | 192 => Some BPF_JSLT | 208 => Some BPF_JSLE
  | _ => None
  end.

(** The arithmetic part of an instruction. *)
Definition alu_insn (op : alu_op) (i : insn) : bpf_insn :=
  mk_insn op (BPF_CLASS (code i) =? BPF_ALU64) (src_is_k i) (i_imm i) (i_off i).

(** ** The interpreter *)

Abbreviation reg_file := (list (option Z)).
Definition read (rf : reg_file) (n : nat) : option Z := mjoin (rf !! n).

(** [BPF_END] on a little-endian machine. *)
Definition exec_end (i : insn) (x : Z) : option Z :=
  let swap := if BPF_CLASS (code i) =? BPF_ALU64 then src_is_k i else negb (src_is_k i) in
  if (BPF_CLASS (code i) =? BPF_ALU64) && negb (src_is_k i) then None
  else match i_imm i with
  | 16 => Some (if swap then swab 2 x else u16 x)
  | 32 => Some (if swap then swab 4 x else u32 x)
  | 64 => Some (if swap then swab 8 x else x)
  | _ => Some x
  end.

(** [BPF_MOV] from a register. *)
Definition exec_mov (is64 : bool) (off x y : Z) : Z :=
  if is64 then
    match off with 0 => y | 8 => u64 (s8 y) | 16 => u64 (s16 y) | 32 => u64 (s32 y) | _ => x end
  else
    match off with 0 => u32 y | 8 => u32 (s8 y) | 16 => u32 (s16 y) | _ => x end.

(** An immediate shift is not masked. *)
Definition shift_undefined (op : alu_op) (i : insn) : bool :=
  bool_decide (op ∈ [BPF_LSH; BPF_RSH; BPF_ARSH]) && src_is_k i &&
  ((i_imm i <? 0) || ((if BPF_CLASS (code i) =? BPF_ALU64 then 64 else 32) <=? i_imm i)).

(** The new value of [DST]. *)
Definition exec_alu (i : insn) (rf : reg_file) : option Z :=
  let is64 := BPF_CLASS (code i) =? BPF_ALU64 in
  op ← alu_op_of (BPF_OP (code i));
  match op with
  | BPF_NEG => if src_is_k i then x ← read rf (dst_reg i); Some (if is64 then u64 (- x) else u32 (- x)) else None
  | BPF_END => x ← read rf (dst_reg i); exec_end i x
  | BPF_MOV =>
      if src_is_k i then Some (if is64 then u64 (i_imm i) else u32 (i_imm i))
      else y ← read rf (src_reg i); Some (exec_mov is64 (i_off i) (default 0 (read rf (dst_reg i))) y)
  | _ =>
      x ← read rf (dst_reg i);
      y ← (if src_is_k i then Some (u64 (i_imm i)) else read rf (src_reg i));
      if shift_undefined op i then None else alu_exec (alu_insn op i) x y
  end.

Inductive outcome := Next (pc : Z) (rf : reg_file) | Return (r0 : option Z) | Stuck.

Definition or_stuck (o : option outcome) : outcome := default Stuck o.
Definition write (rf : reg_file) (n : nat) (v pc : Z) : outcome :=
  if decide (n < length rf)%nat then Next pc (<[n := Some v]> rf) else Stuck.

(** Jumps: the new position, or the return. *)
Definition exec_jmp (i : insn) (pc : Z) (rf : reg_file) : option outcome :=
  let is32 := BPF_CLASS (code i) =? BPF_JMP32 in
  if BPF_OP (code i) =? BPF_JA then
    if src_is_k i then Some (Next (pc + (if is32 then i_imm i else i_off i) + 1) rf) else None
  else if BPF_OP (code i) =? BPF_EXIT then
    if src_is_k i && negb is32 then Some (Return (read rf 0)) else None
  else
    op ← jmp_op_of (BPF_OP (code i));
    x ← read rf (dst_reg i);
    y ← (if src_is_k i then Some (u64 (i_imm i)) else read rf (src_reg i));
    Some (Next (pc + (if cond_jmp op is32 x y then i_off i else 0) + 1) rf).

(** [BPF_LD | BPF_IMM | BPF_DW] takes the high half from the next instruction. *)
Definition imm64 (i next : insn) : Z := Z.lor (u32 (i_imm i)) (u64 (Z.shiftl (u32 (i_imm next)) 32)).

Definition fetch (prog : list insn) (pc : Z) : option insn := if 0 <=? pc then prog !! Z.to_nat pc else None.

Definition exec_insn (prog : list insn) (pc : Z) (rf : reg_file) : outcome :=
  or_stuck (
    i ← fetch prog pc;
    let class := BPF_CLASS (code i) in
    if (class =? BPF_ALU) || (class =? BPF_ALU64) then v ← exec_alu i rf; Some (write rf (dst_reg i) v (pc + 1))
    else if (class =? BPF_JMP) || (class =? BPF_JMP32) then exec_jmp i pc rf
    else if code i =? Z.lor BPF_LD BPF_DW then
      next ← fetch prog (pc + 1); Some (write rf (dst_reg i) (imm64 i next) (pc + 2))
    else None).

(** ** Divisions made safe *)

Definition needs_patch (i : insn) : bool :=
  bool_decide (code i ∈ [Z.lor BPF_ALU64 152; Z.lor BPF_ALU64 56; Z.lor BPF_ALU 152; Z.lor BPF_ALU 56]).

(** What [do_misc_fixups] puts in the place of a division by a register. *)
Definition patchlet (i : insn) : list insn :=
  let is64 := BPF_CLASS (code i) =? BPF_ALU64 in
  let jmp := if is64 then BPF_JMP else BPF_JMP32 in
  if BPF_OP (code i) =? 48 then
    [mk_raw (Z.lor jmp 80) (src_reg i) 0 2 0;
     mk_raw (Z.lor BPF_ALU 168) (dst_reg i) (dst_reg i) 0 0;
     mk_raw BPF_JMP 0 0 1 0;
     i]
  else
    [mk_raw (Z.lor jmp 16) (src_reg i) 0 (1 + (if is64 then 0 else 1)) 0; i] ++
    (if is64 then []
     else [mk_raw BPF_JMP 0 0 1 0; mk_raw (Z.lor BPF_ALU 184) (dst_reg i) (dst_reg i) 0 0]).

(** The patch from its first instruction to its end; its jumps go forward, so
    it takes at most one step per instruction. *)
Fixpoint run_patch (n : nat) (p : list insn) (pc : Z) (rf : reg_file) : option reg_file :=
  if pc =? Z.of_nat (length p) then Some rf
  else match n with
  | O => None
  | S n => match exec_insn p pc rf with Next pc rf => run_patch n p pc rf | _ => None end
  end.

(** ** Running a program

    A division is executed as the sequence that replaces it.  The patching
    moves the instructions behind it and adjusts every jump, so positions are
    those of the program that was verified. *)
Definition step_insn (prog : list insn) (pc : Z) (rf : reg_file) : outcome :=
  match fetch prog pc with
  | None => Stuck
  | Some i =>
      if needs_patch i then
        match run_patch (length (patchlet i)) (patchlet i) 0 rf with Some rf => Next (pc + 1) rf | None => Stuck end
      else exec_insn prog pc rf
  end.

(** The positions visited and how the run ended. *)
Fixpoint run_prog (n : nat) (prog : list insn) (pc : Z) (rf : reg_file) : option (list Z * outcome) :=
  match n with
  | O => None
  | S n =>
      match step_insn prog pc rf with
      | Next pc' rf' => '(tr, o) ← run_prog n prog pc' rf'; Some (pc :: tr, o)
      | o => Some ([pc], o)
      end
  end.

(** What [__bpf_prog_run] starts with: the context in R1, the end of the stack
    in R10; the verifier counts on no other register. *)
Definition init_regs (ctx fp : Z) : reg_file :=
  [None; Some ctx; None; None; None; None; None; None; None; None; Some fp].
