(* ===== verification/BpfCheck.v ===== *)
(** * The verifier's walk over a program ([kernel/bpf/verifier.c])

    The checks of one instruction, the stack of states still to be explored and
    the loop of [do_check], for programs made of arithmetic, moves, jumps,
    64-bit immediates and [exit].  A result [Outside] marks what is not
    modelled: loads, stores, calls, arithmetic on pointers, and comparisons of
    packet pointers and of pointers that may be NULL.

    What [is_state_visited] answers at a prune point (go on, prune the state
    because it resembles an earlier one, or an error such as an infinite loop)
    is a parameter, so that the walk is that of any comparison of states; the
    comparison itself is left out, and with it the marks only it reads (liveness
    and precision, the latter set by [mark_chain_precision]). *)
From S2P Require Import Prelude Bits Tnum BpfReg BpfAlu BpfJmp BpfProg.

(** The result of a check. *)
Inductive res (A : Type) := Ok (a : A) | Reject (e : Z) | Outside.
Arguments Ok {A} a.
Arguments Reject {A} e.
Arguments Outside {A}.
#[global] Instance res_bind : MBind res := fun A B f r =>
  match r with Ok a => f a | Reject e => Reject e | Outside => Outside end.

Definition ENOTSUPP : Z := 524.
Definition PTR_TO_CTX : Z := 2.
Definition PTR_TO_STACK : Z := 6.
Definition PTR_TO_PACKET_META : Z := 7.
Definition PTR_TO_PACKET : Z := 8.
Definition PTR_TO_PACKET_END : Z := 9.
Definition MAX_BPF_REG : nat := 11.
Definition BPF_REG_FP : nat := 10.
Definition BPF_COMPLEXITY_LIMIT_JMP_SEQ : Z := 8192.
Definition BPF_COMPLEXITY_LIMIT_INSNS : Z := 1000000.

(** ** Program types *)

(** [enum bpf_prog_type] and [enum bpf_attach_type], as far as they decide what
    a program may return. *)
Inductive bpf_prog_type :=
| CGROUP_SOCK_ADDR | CGROUP_SKB | CGROUP_SOCK | SOCK_OPS | CGROUP_DEVICE | CGROUP_SYSCTL | CGROUP_SOCKOPT
| RAW_TRACEPOINT | TRACING | SK_LOOKUP | LSM | NETFILTER | STRUCT_OPS | OTHER_TYPE.
Inductive bpf_attach_type :=
| UDP4_RECVMSG | UDP6_RECVMSG | INET4_GETPEERNAME | INET6_GETPEERNAME | INET4_GETSOCKNAME | INET6_GETSOCKNAME
| INET4_BIND | INET6_BIND | INET_EGRESS | TRACE_FENTRY | TRACE_FEXIT | TRACE_RAW_TP | MODIFY_RETURN | TRACE_ITER
| LSM_CGROUP | OTHER_ATTACH.
#[global] Instance bpf_attach_type_eq_dec : EqDecision bpf_attach_type.
Proof. solve_decision. Defined.

(** What [check_return_code] reads of the program. *)
Record prog_kind := mk_kind {
  prog_type : bpf_prog_type;
  expected_attach_type : bpf_attach_type;
  has_attach_btf_id : bool;
  attach_func_void : bool
}.

(** ** States *)

(** [struct bpf_verifier_state] with its one frame. *)
Record bpf_verifier_state := mk_vstate { regs : list bpf_reg_state; speculative : bool }.
(** [struct bpf_verifier_stack_elem]. *)
Record stack_elem := mk_elem { st : bpf_verifier_state; elem_idx : Z }.

(** What [do_check] changes in [struct bpf_verifier_env]; [seen] lists the
    positions whose [insn_aux_data] is marked. *)
Record walk := mk_walk {
  cur : bpf_verifier_state;
  insn_idx : Z;
  head : list stack_elem;
  stack_size : Z;
  insn_processed : Z;
  id_gen : Z;
  insn_aux : list aux_data;
  seen : list Z;
  enforce_expected_attach_type : bool
}.
#[export] Instance eta_vstate : Eta bpf_verifier_state := fun r => mk_vstate (regs r) (speculative r).
#[export] Hint Extern 1 (@Setter bpf_verifier_state _ _) => mk_setter : typeclass_instances.
#[export] Instance eta_walk : Eta walk := fun r =>
  mk_walk (cur r) (insn_idx r) (head r) (stack_size r) (insn_processed r) (id_gen r) (insn_aux r) (seen r)
    (enforce_expected_attach_type r).
#[export] Hint Extern 1 (@Setter walk _ _) => mk_setter : typeclass_instances.

(** A zeroed register state, and access by number. *)
Definition reg_zero : bpf_reg_state := mk_reg (mk_meta 0 0 0 0 0 0 false) (TNUM 0 0) 0 0 0 0 0 0 0 0.
Definition reg_at (rs : list bpf_reg_state) (n : nat) : bpf_reg_state := default reg_zero (rs !! n).
Definition set_regs (rs : list bpf_reg_state) (w : walk) : walk := w <| cur := (cur w) <| regs := rs |> |>.
Definition set_id (n : Z) (r : bpf_reg_state) : bpf_reg_state :=
  let m := meta r in
  set_meta (mk_meta (type m) (off m) (raw m) n (ref_obj_id m) (frameno m) (precise m)) r.
Definition reg_type (r : bpf_reg_state) : Z := type (meta r).
Definition reg_id (r : bpf_reg_state) : Z := id (meta r).

Section Check.
Context (env : bpf_verifier_env).

(** ** Registers of a frame *)

(** A number out of range kills the registers. *)
Definition mark_reg_unknown (rs : list bpf_reg_state) (n : nat) : list bpf_reg_state :=
  if decide (n < MAX_BPF_REG)%nat then <[n := __mark_reg_unknown env (reg_at rs n)]> rs
  else (__mark_reg_not_init env <$> take BPF_REG_FP rs) ++ drop BPF_REG_FP rs.

Inductive reg_arg_type := SRC_OP | DST_OP | DST_OP_NO_MARK.

Definition check_reg_arg (rs : list bpf_reg_state) (regno : nat) (t : reg_arg_type) : res (list bpf_reg_state) :=
  if decide (MAX_BPF_REG <= regno)%nat then Reject (- EINVAL)
  else match t with
  | SRC_OP => if reg_type (reg_at rs regno) =? NOT_INIT then Reject (- EACCES) else Ok rs
  | _ =>
      if decide (regno = BPF_REG_FP) then Reject (- EACCES)
      else Ok (match t with DST_OP => mark_reg_unknown rs regno | _ => rs end)
  end.

Definition is_pointer_value (rs : list bpf_reg_state) (regno : nat) : bool :=
  __is_pointer_value (allow_ptr_leaks env) (reg_at rs regno).

Definition type_is_pkt_pointer (t : Z) : bool :=
  bool_decide (base_type t ∈ [PTR_TO_PACKET; PTR_TO_PACKET_META]).
Definition reg_is_pkt_pointer_any (r : bpf_reg_state) : bool :=
  type_is_pkt_pointer (reg_type r) || (reg_type r =? PTR_TO_PACKET_END).

(** ** Arithmetic *)

(** The state of an immediate source. *)
Definition off_reg (imm : Z) : bpf_reg_state := __mark_reg_known (set_type SCALAR_VALUE reg_zero) (u64 imm).

Definition cur_aux (w : walk) : aux_data := default (mk_aux 0 0) (insn_aux w !! Z.to_nat (insn_idx w)).
Definition set_aux (a : aux_data) (w : walk) : walk := w <| insn_aux := <[Z.to_nat (insn_idx w) := a]> (insn_aux w) |>.

Definition adjust_reg_min_max_vals (w : walk) (op : alu_op) (i : insn) : res walk :=
  let rs := regs (cur w) in
  let dst := reg_at rs (dst_reg i) in
  let dst_ptr := negb (reg_type dst =? SCALAR_VALUE) in
  let dst := if dst_ptr then dst else set_id 0 dst in
  let rs := <[dst_reg i := dst]> rs in
  let src := if src_is_k i then off_reg (i_imm i) else reg_at rs (src_reg i) in
  let src_ptr := negb (reg_type src =? SCALAR_VALUE) in
  if src_ptr && dst_ptr then
    match op with
    | BPF_SUB =>
        if allow_ptr_leaks env then Ok (set_regs (mark_reg_unknown rs (dst_reg i)) w) else Reject (- EACCES)
    | _ => Reject (- EACCES)
    end
  else if src_ptr || dst_ptr then Outside
  else
    let '(dst, aux, err) := adjust_scalar_min_max_vals env (cur_aux w) (alu_insn op i) dst src in
    if err =? 0 then Ok (set_aux aux (set_regs (<[dst_reg i := dst]> rs) w)) else Reject err.

(** A move from a register, after the checks of its operands. *)
Definition mov_x (w : walk) (i : insn) : res walk :=
  let rs := regs (cur w) in
  let src := reg_at rs (src_reg i) in
  let need_id := (reg_type src =? SCALAR_VALUE) && (reg_id src =? 0) && negb (tnum_is_const (var_off src)) in
  let gen := u32 (id_gen w + 1) in
  (* both registers get the id when the value is copied as it is *)
  let copy (same : bool) :=
    let src' := if same && need_id then set_id gen src else src in
    let dst := if same then src' else set_id 0 src' in
    (<[src_reg i := src']> rs, dst, if same && need_id then w <| id_gen := gen |> else w) in
  let put '(rs, dst, w) := Ok (set_regs (<[dst_reg i := dst]> rs) w) in
  let zext dst := reg_bounds_sync (zext_32_to_64 dst) in
  let no_sext := umax_value src <? shl64 1 (i_off i - 1) in
  if BPF_CLASS (code i) =? BPF_ALU64 then
    if i_off i =? 0 then put (copy true)
    else if is_pointer_value rs (src_reg i) then Reject (- EACCES)
    else if reg_type src =? SCALAR_VALUE then
      let '(rs, dst, w) := copy no_sext in put (rs, coerce_reg_to_size_sx dst (Z.shiftr (i_off i) 3), w)
    else Ok (set_regs (mark_reg_unknown rs (dst_reg i)) w)
  else if is_pointer_value rs (src_reg i) then Reject (- EACCES)
  else if reg_type src =? SCALAR_VALUE then
    if i_off i =? 0 then let '(rs, dst, w) := copy (umax_value src <=? U32_MAX) in put (rs, zext dst, w)
    else let '(rs, dst, w) := copy no_sext in put (rs, zext (coerce_subreg_to_size_sx dst (Z.shiftr (i_off i) 3)), w)
  else put (rs, zext (reg_at (mark_reg_unknown rs (dst_reg i)) (dst_reg i)), w).

(** Reserved fields: what each form of an instruction must leave zero. *)
Definition mov_reserved (i : insn) : bool :=
  if src_is_k i then negb (src_reg i =? 0)%nat || nonzero (i_off i)
  else nonzero (i_imm i) ||
    negb (bool_decide (i_off i ∈ (if BPF_CLASS (code i) =? BPF_ALU then [0; 8; 16] else [0; 8; 16; 32]))).
Definition neg_reserved (i : insn) : bool :=
  negb (src_is_k i) || negb (src_reg i =? 0)%nat || nonzero (i_off i) || nonzero (i_imm i).
Definition end_reserved (i : insn) : bool :=
  negb (src_reg i =? 0)%nat || nonzero (i_off i) || negb (bool_decide (i_imm i ∈ [16; 32; 64])) ||
  ((BPF_CLASS (code i) =? BPF_ALU64) && negb (src_is_k i)).
Definition alu_reserved (op : alu_op) (i : insn) : bool :=
  (if src_is_k i then negb (src_reg i =? 0)%nat else nonzero (i_imm i)) || (1 <? i_off i) ||
  ((i_off i =? 1) && negb (bool_decide (op ∈ [BPF_MOD; BPF_DIV]))).

Definition check_unary (w : walk) (i : insn) (reserved : bool) : res walk :=
  if reserved then Reject (- EINVAL)
  else
    rs ← check_reg_arg (regs (cur w)) (dst_reg i) SRC_OP;
    if is_pointer_value rs (dst_reg i) then Reject (- EACCES)
    else rs ← check_reg_arg rs (dst_reg i) DST_OP; Ok (set_regs rs w).

Definition check_mov (w : walk) (i : insn) : res walk :=
  if mov_reserved i then Reject (- EINVAL)
  else
    rs ← (if src_is_k i then Ok (regs (cur w)) else check_reg_arg (regs (cur w)) (src_reg i) SRC_OP);
    rs ← check_reg_arg rs (dst_reg i) DST_OP_NO_MARK;
    if src_is_k i then
      let dst := set_type SCALAR_VALUE (reg_at (mark_reg_unknown rs (dst_reg i)) (dst_reg i)) in
      let v := if BPF_CLASS (code i) =? BPF_ALU64 then u64 (i_imm i) else u32 (i_imm i) in
      Ok (set_regs (<[dst_reg i := __mark_reg_known dst v]> rs) w)
    else mov_x (set_regs rs w) i.

Definition check_binary (w : walk) (op : alu_op) (i : insn) : res walk :=
  if alu_reserved op i then Reject (- EINVAL)
  else
    rs ← (if src_is_k i then Ok (regs (cur w)) else check_reg_arg (regs (cur w)) (src_reg i) SRC_OP);
    rs ← check_reg_arg rs (dst_reg i) SRC_OP;
    if bool_decide (op ∈ [BPF_MOD; BPF_DIV]) && src_is_k i && (i_imm i =? 0) then Reject (- EINVAL)
    else if shift_undefined op i then Reject (- EINVAL)
    else rs ← check_reg_arg rs (dst_reg i) DST_OP_NO_MARK; adjust_reg_min_max_vals (set_regs rs w) op i.

Definition check_alu_op (w : walk) (i : insn) : res walk :=
  match alu_op_of (BPF_OP (code i)) with
  | None => Reject (- EINVAL)
  | Some BPF_NEG => check_unary w i (neg_reserved i)
  | Some BPF_END => check_unary w i (end_reserved i)
  | Some BPF_MOV => check_mov w i
  | Some op => check_binary w op i
  end.

(** ** The stack of states to explore *)

(** Whether the allocation of a stack element succeeds, and whether a signal is
    pending, while the given number of instructions has been processed. *)
Context (kzalloc_ok signal_pending : Z -> bool).

Definition push_stack (w : walk) (idx : Z) (v : bpf_verifier_state) : option walk :=
  if negb (kzalloc_ok (insn_processed w)) then None
  else
    let w := w <| head := mk_elem v (u32 idx) :: head w |> <| stack_size := stack_size w + 1 |> in
    if BPF_COMPLEXITY_LIMIT_JMP_SEQ <? stack_size w then None else Some w.

Definition pop_stack (w : walk) : option walk :=
  match head w with
  | [] => None
  | e :: rest =>
      Some (w <| cur := st e |> <| insn_idx := elem_idx e |> <| head := rest |> <| stack_size := stack_size w - 1 |>)
  end.

(** The branch not taken, for execution under speculation. *)
Definition sanitize_speculative_path (w : walk) (i : insn) (next_idx : Z) : option walk :=
  let rs := mark_reg_unknown (regs (cur w)) (dst_reg i) in
  let rs := if src_is_k i then rs else mark_reg_unknown rs (src_reg i) in
  push_stack w next_idx (mk_vstate rs true).

(** ** Conditional jumps *)

Definition find_equal_scalars (known : bpf_reg_state) (rs : list bpf_reg_state) : list bpf_reg_state :=
  (fun r => if (reg_type r =? SCALAR_VALUE) && (reg_id r =? reg_id known) then known else r) <$> rs.

(** Known and of the width that is compared. *)
Definition cmp_value (is_jmp32 : bool) (r : bpf_reg_state) : option Z :=
  let t := if is_jmp32 then tnum_subreg (var_off r) else var_off r in
  if (reg_type r =? SCALAR_VALUE) && tnum_is_const t then Some (value t) else None.

(** The prediction from the states of the operands. *)
Definition predict (op : jmp_op) (is_jmp32 : bool) (i : insn) (dst src : bpf_reg_state) : Z :=
  if src_is_k i then is_branch_taken dst (u64 (i_imm i)) op is_jmp32
  else match cmp_value is_jmp32 src with
  | Some v => is_branch_taken dst v op is_jmp32
  | None =>
      match cmp_value is_jmp32 dst with
      | Some v => is_branch_taken src v (flip_opcode op) is_jmp32
      | None => -1
      end
  end.

(** A register as large as the comparison is known. *)
Definition cmp_const (is_jmp32 : bool) (r : bpf_reg_state) : bool :=
  tnum_is_const (var_off r) || (is_jmp32 && tnum_is_const (tnum_subreg (var_off r))).

(** What [reg_combine_min_max] leaves in the registers [src] and [dst] of one
    branch; one register compared with itself is synchronised twice. *)
Definition combine_into (rs : list bpf_reg_state) (dst src : nat) : list bpf_reg_state :=
  let '(s, d) := __reg_combine_min_max (reg_at rs src) (reg_at rs dst) in
  if decide (dst = src) then <[src := reg_bounds_sync s]> rs else <[dst := d]> (<[src := s]> rs).

(** Registers of (this branch, the other branch) after a comparison of scalars,
    before the registers equal to them are updated. *)
Definition refine_scalars (op : jmp_op) (is_jmp32 : bool) (i : insn) (rs : list bpf_reg_state)
    : list bpf_reg_state * list bpf_reg_state :=
  let dst := reg_at rs (dst_reg i) in
  let src := reg_at rs (src_reg i) in
  let put n '(other, this) := (<[n := this]> rs, <[n := other]> rs) in
  if src_is_k i then put (dst_reg i) (reg_set_min_max dst dst (u64 (i_imm i)) (u32 (i_imm i)) op is_jmp32)
  else if cmp_const is_jmp32 src then
    put (dst_reg i) (reg_set_min_max dst dst (value (var_off src)) (value (tnum_subreg (var_off src))) op is_jmp32)
  else if cmp_const is_jmp32 dst then
    put (src_reg i) (reg_set_min_max_inv src src (value (var_off dst)) (value (tnum_subreg (var_off dst))) op is_jmp32)
  else if is_jmp32 then (rs, rs)
  else match op with
  | BPF_JEQ => (rs, combine_into rs (dst_reg i) (src_reg i))
  | BPF_JNE => (combine_into rs (dst_reg i) (src_reg i), rs)
  | _ => (rs, rs)
  end.

(** The registers that carry the id of register [n] follow it. *)
Definition propagate (n : nat) (b : list bpf_reg_state * list bpf_reg_state)
    : list bpf_reg_state * list bpf_reg_state :=
  let '(this, other) := b in
  if nonzero (reg_id (reg_at this n)) && (reg_id (reg_at this n) =? reg_id (reg_at other n))
  then (find_equal_scalars (reg_at this n) this, find_equal_scalars (reg_at other n) other)
  else (this, other).

Definition branch_regs (op : jmp_op) (is_jmp32 : bool) (i : insn) (rs : list bpf_reg_state)
    : list bpf_reg_state * list bpf_reg_state :=
  let dst_scalar := reg_type (reg_at rs (dst_reg i)) =? SCALAR_VALUE in
  let src_scalar := reg_type (reg_at rs (src_reg i)) =? SCALAR_VALUE in
  if negb dst_scalar then (rs, rs)
  else
    propagate (dst_reg i)
      (if src_is_k i then refine_scalars op is_jmp32 i rs
       else if src_scalar then propagate (src_reg i) (refine_scalars op is_jmp32 i rs)
       else (rs, rs)).

(** Pointers to packets, and pointers whose NULL check is being made. *)
Definition outside_pointer (r : bpf_reg_state) : bool := reg_is_pkt_pointer_any r || type_may_be_null (reg_type r).

(** The walk goes on in the branch that is predicted, with the other one under
    speculation, or in this branch, with the other one on the stack. *)
Definition follow (w : walk) (i : insn) (pred : Z) (branches : list bpf_reg_state * list bpf_reg_state) : res walk :=
  let speculate idx := if bypass_spec_v1 env then Some w else sanitize_speculative_path w i idx in
  if pred =? 1 then
    match speculate (insn_idx w + 1) with
    | None => Reject (- EFAULT)
    | Some w => Ok (w <| insn_idx := u32 (insn_idx w + i_off i) |>)
    end
  else if pred =? 0 then
    match speculate (insn_idx w + i_off i + 1) with None => Reject (- EFAULT) | Some w => Ok w end
  else
    let '(this, other) := branches in
    match push_stack w (insn_idx w + i_off i + 1) (mk_vstate other (speculative (cur w))) with
    | None => Reject (- EFAULT)
    | Some w => if is_pointer_value this (dst_reg i) then Reject (- EACCES) else Ok (set_regs this w)
    end.

Definition check_cond_jmp_op (w : walk) (i : insn) : res walk :=
  match jmp_op_of (BPF_OP (code i)) with
  | None => Reject (- EINVAL)
  | Some op =>
      let is_jmp32 := BPF_CLASS (code i) =? BPF_JMP32 in
      rs ← check_reg_arg (regs (cur w)) (dst_reg i) SRC_OP;
      if (if src_is_k i then negb (src_reg i =? 0)%nat else nonzero (i_imm i)) then Reject (- EINVAL)
      else
        rs ← (if src_is_k i then Ok rs else check_reg_arg rs (src_reg i) SRC_OP);
        let dst := reg_at rs (dst_reg i) in
        let src := reg_at rs (src_reg i) in
        if negb (src_is_k i) && negb (reg_is_pkt_pointer_any dst && reg_is_pkt_pointer_any src) &&
           is_pointer_value rs (src_reg i) then Reject (- EACCES)
        else if outside_pointer dst || (negb (src_is_k i) && outside_pointer src) then Outside
        else
          follow w i (predict op is_jmp32 i dst src) (branch_regs op is_jmp32 i rs)
  end.

(** ** Immediates and returns *)

(** [BPF_LD | BPF_IMM]: only the plain 64-bit immediate is modelled. *)
Definition check_ld_imm (prog : list insn) (w : walk) (i : insn) : res walk :=
  if negb (BPF_SIZE (code i) =? BPF_DW) then Reject (- EINVAL)
  else if nonzero (i_off i) then Reject (- EINVAL)
  else
    rs ← check_reg_arg (regs (cur w)) (dst_reg i) DST_OP;
    match src_reg i, fetch prog (insn_idx w + 1) with
    | O, Some next =>
        let imm := Z.lor (u64 (Z.shiftl (u64 (i_imm next)) 32)) (u32 (i_imm i)) in
        Ok (set_regs (<[dst_reg i := __mark_reg_known (set_type SCALAR_VALUE (reg_at rs (dst_reg i))) imm]> rs) w)
    | _, _ => Outside
    end.

(** What the type of a program asks of its return value: nothing at all, that
    R0 be readable and no pointer, or a range as well (with the range that sets
    [enforce_expected_attach_type]); or the type is refused. *)
Inductive ret_rule := NoReturn | AnyValue | InRange (range enforce : tnum) | BadKind.

Definition return_rule (k : prog_kind) : ret_rule :=
  let bool_range := tnum_range 0 1 in
  match prog_type k with
  | STRUCT_OPS => if attach_func_void k then NoReturn else AnyValue
  | CGROUP_SOCK_ADDR =>
      InRange (if bool_decide (expected_attach_type k ∈ [UDP4_RECVMSG; UDP6_RECVMSG; INET4_GETPEERNAME;
                   INET6_GETPEERNAME; INET4_GETSOCKNAME; INET6_GETSOCKNAME]) then tnum_range 1 1
               else if bool_decide (expected_attach_type k ∈ [INET4_BIND; INET6_BIND]) then tnum_range 0 3
               else bool_range) tnum_unknown
  | CGROUP_SKB =>
      match expected_attach_type k with
      | INET_EGRESS => InRange (tnum_range 0 3) (tnum_range 2 3)
      | _ => InRange bool_range tnum_unknown
      end
  | CGROUP_SOCK | SOCK_OPS | CGROUP_DEVICE | CGROUP_SYSCTL | CGROUP_SOCKOPT => InRange bool_range tnum_unknown
  | RAW_TRACEPOINT => if has_attach_btf_id k then InRange (tnum_const 0) tnum_unknown else AnyValue
  | TRACING =>
      match expected_attach_type k with
      | TRACE_FENTRY | TRACE_FEXIT => InRange (tnum_const 0) tnum_unknown
      | TRACE_RAW_TP | MODIFY_RETURN => AnyValue
      | TRACE_ITER => InRange bool_range tnum_unknown
      | _ => BadKind
      end
  | SK_LOOKUP => InRange (tnum_range 0 1) tnum_unknown
  | LSM =>
      match expected_attach_type k with
      | LSM_CGROUP => InRange (if attach_func_void k then tnum_range 1 1 else bool_range) tnum_unknown
      | _ => if attach_func_void k then NoReturn else AnyValue
      end
  | NETFILTER => InRange (tnum_range 0 1) tnum_unknown
  | OTHER_TYPE => AnyValue
  end.

Definition check_return_code (k : prog_kind) (w : walk) : res walk :=
  match return_rule k with
  | NoReturn => Ok w
  | rule =>
      rs ← check_reg_arg (regs (cur w)) 0 SRC_OP;
      if is_pointer_value rs 0 then Reject (- EACCES)
      else match rule with
      | BadKind => Reject (- ENOTSUPP)
      | InRange range enforce =>
          let r0 := reg_at rs 0 in
          if negb (reg_type r0 =? SCALAR_VALUE) then Reject (- EINVAL)
          else if negb (tnum_in range (var_off r0)) then Reject (- EINVAL)
          else Ok (if negb (tnum_is_unknown enforce) && tnum_in enforce (var_off r0)
                   then w <| enforce_expected_attach_type := true |> else w)
      | _ => Ok w
      end
  end.

(** ** The loop *)

(** Reserved fields of [BPF_JA] and [BPF_EXIT]. *)
Definition ja_reserved (i : insn) : bool :=
  negb (src_is_k i) || negb (src_reg i =? 0)%nat || negb (dst_reg i =? 0)%nat ||
  nonzero (if BPF_CLASS (code i) =? BPF_JMP then i_imm i else i_off i).
Definition exit_reserved (i : insn) : bool :=
  negb (src_is_k i) || nonzero (i_imm i) || negb (src_reg i =? 0)%nat || negb (dst_reg i =? 0)%nat ||
  (BPF_CLASS (code i) =? BPF_JMP32).

(** One turn goes on or ends the walk. *)
Inductive turn := More (w : walk) | Finished (w : walk).

Definition next_insn (w : walk) : walk := w <| insn_idx := u32 (insn_idx w + 1) |>.

Definition check_insn (prog : list insn) (k : prog_kind) (w : walk) (i : insn) : res turn :=
  let class := BPF_CLASS (code i) in
  if (class =? BPF_ALU) || (class =? BPF_ALU64) then w ← check_alu_op w i; Ok (More (next_insn w))
  else if (class =? BPF_JMP) || (class =? BPF_JMP32) then
    if BPF_OP (code i) =? BPF_CALL then Outside
    else if BPF_OP (code i) =? BPF_JA then
      if ja_reserved i then Reject (- EINVAL)
      else Ok (More (w <| insn_idx := u32 (insn_idx w + (if class =? BPF_JMP then i_off i else i_imm i) + 1) |>))
    else if BPF_OP (code i) =? BPF_EXIT then
      if exit_reserved i then Reject (- EINVAL)
      else
        w ← check_return_code k w;
        Ok (match pop_stack w with Some w => More w | None => Finished w end)
    else w ← check_cond_jmp_op w i; Ok (More (next_insn w))
  else if (class =? BPF_LD) && (BPF_MODE (code i) =? 0) then
    w ← check_ld_imm prog w i;
    let w := next_insn w in
    Ok (More (next_insn (if speculative (cur w) then w else w <| seen := insn_idx w :: seen w |>)))
  else Outside.

(** What [is_prune_point] and [is_state_visited] give while the given number of
    instructions has been processed: 1 prunes the state, a negative number is an
    error (theirs, or that of [push_jmp_history] after them), and with anything
    else (0 where there is no prune point) the walk goes on. *)
Context (is_state_visited : Z -> Z).

Definition do_check_turn (prog : list insn) (k : prog_kind) (w : walk) : res turn :=
  if Z.of_nat (length prog) <=? insn_idx w then Reject (- EFAULT)
  else match fetch prog (insn_idx w) with
  | None => Reject (- EFAULT)
  | Some i =>
      let w := w <| insn_processed := insn_processed w + 1 |> in
      if BPF_COMPLEXITY_LIMIT_INSNS <? insn_processed w then Reject (- E2BIG)
      else if is_state_visited (insn_processed w) <? 0 then Reject (is_state_visited (insn_processed w))
      else if is_state_visited (insn_processed w) =? 1 then
        Ok (match pop_stack w with Some w => More w | None => Finished w end)
      else if signal_pending (insn_processed w) then Reject (- EAGAIN)
      else check_insn prog k (if speculative (cur w) then w else w <| seen := insn_idx w :: seen w |>) i
  end.

(** [None]: the fuel was not enough. *)
Fixpoint do_check (n : nat) (prog : list insn) (k : prog_kind) (w : walk) : option (res walk) :=
  match n with
  | O => None
  | S n =>
      match do_check_turn prog k w with
      | Ok (More w) => do_check n prog k w
      | Ok (Finished w) => Some (Ok w)
      | Reject e => Some (Reject e)
      | Outside => Some Outside
      end
  end.

(** ** The start *)

Definition init_reg_state : list bpf_reg_state :=
  let fp := __mark_reg_known_zero (set_type PTR_TO_STACK (__mark_reg_not_init env reg_zero)) in
  replicate BPF_REG_FP (__mark_reg_not_init env reg_zero) ++ [fp].

(** [do_check_common] for the main program. *)
Definition init_walk (prog : list insn) : walk :=
  let rs := init_reg_state in
  let rs := <[1%nat := __mark_reg_known_zero (set_type PTR_TO_CTX (reg_at rs 1))]> rs in
  mk_walk (mk_vstate rs false) 0 [] 0 0 0 (replicate (length prog) (mk_aux 0 0)) [] false.

(** The limit on processed instructions bounds the turns. *)
Definition do_check_main (prog : list insn) (k : prog_kind) : option (res walk) :=
  do_check (Z.to_nat BPF_COMPLEXITY_LIMIT_INSNS + 1) prog k (init_walk prog).
End Check.
