(* ===== verification/BpfRewrite.v ===== *)
(** * From the walk to the program that runs ([kernel/bpf/verifier.c], [core.c])

    [bpf_check] looks at the form of the 64-bit immediates first
    ([resolve_pseudo_ldimm64]), walks over the program, and then rewrites it: of
    a privileged user it hard-wires the branches of which one side was never
    seen, removes the instructions that were never seen and the jumps that go
    nowhere; of others it replaces what was never seen with a trap.  The
    divisions, patched last, are handled by the interpreter of [BpfProg].

    The passes between that only refuse programs ([check_subprogs], [check_cfg],
    the BTF checks) or touch instructions that are not modelled (loops of
    helpers, context accesses) are left out. *)
From S2P Require Import Prelude Bits Tnum BpfReg BpfAlu BpfJmp BpfProg BpfCheck.

#[global] Instance insn_eq_dec : EqDecision insn.
Proof. solve_decision. Defined.

Definition BPF_LDX : Z := 1.
Definition BPF_ST : Z := 2.
Definition BPF_STX : Z := 3.
Definition BPF_MEM : Z := 96.
Definition BPF_MEMSX : Z := 128.
Definition BPF_PSEUDO_CALL : nat := 1.
Definition BPF_PSEUDO_FUNC : nat := 4.

(** ** Opcodes of the interface *)

Definition BPF_INSN_MAP : list Z :=
  let binary := [0; 16; 80; 64; 96; 112; 160; 32; 176; 192; 48; 144] in
  let jumps := [16; 80; 32; 160; 48; 176; 96; 192; 112; 208; 64] in
  let reg (class : Z) (ops : list Z) := (fun op => Z.lor class (Z.lor op 8)) <$> ops in
  let imm (class : Z) (ops : list Z) := (fun op => Z.lor class op) <$> ops in
  reg BPF_ALU binary ++ [132; 220; 212] ++ imm BPF_ALU binary ++
  reg BPF_ALU64 binary ++ [135; 215] ++ imm BPF_ALU64 binary ++
  [133; 149] ++
  reg BPF_JMP32 jumps ++ imm BPF_JMP32 jumps ++ reg BPF_JMP jumps ++ imm BPF_JMP jumps ++ [5; 6] ++
  [115; 107; 99; 123; 195; 219] ++ [114; 106; 98; 122] ++ [113; 105; 97; 121] ++ [145; 137; 129] ++ [24].

Definition bpf_opcode_in_insntable (c : Z) : bool :=
  bool_decide (c ∈ BPF_INSN_MAP ++ [48; 40; 32; 80; 72; 64]).

(** The second half of an immediate is empty but for its number.  Maps, BTF
    objects and functions as immediates are not modelled. *)
Fixpoint resolve_pseudo_ldimm64 (prog : list insn) : res unit :=
  match prog with
  | [] => Ok tt
  | i :: rest =>
      if (BPF_CLASS (code i) =? BPF_LDX) &&
         (negb (BPF_MODE (code i) =? BPF_MEM) && negb (BPF_MODE (code i) =? BPF_MEMSX) || nonzero (i_imm i))
      then Reject (- EINVAL)
      else if code i =? Z.lor BPF_LD BPF_DW then
        match rest with
        | [] => Reject (- EINVAL)
        | next :: rest =>
            if nonzero (code next) || negb (dst_reg next =? 0)%nat || negb (src_reg next =? 0)%nat || nonzero (i_off next)
            then Reject (- EINVAL)
            else if (src_reg i =? 0)%nat then resolve_pseudo_ldimm64 rest else Outside
        end
      else if bpf_opcode_in_insntable (code i) then resolve_pseudo_ldimm64 rest
      else Reject (- EINVAL)
  end.

(** ** Dead code *)

(** A loop over the positions of a list, from [p]. *)
Fixpoint imapZ {A B} (f : Z -> A -> B) (p : Z) (l : list A) : list B :=
  match l with [] => [] | x :: l => f p x :: imapZ f (p + 1) l end.

(** [insn_aux_data[p].seen] for each position, and a look-up. *)
Definition seen_flags (prog : list insn) (sn : list Z) : list bool :=
  imapZ (fun p _ => bool_decide (p ∈ sn)) 0 prog.
Definition flag (fl : list bool) (p : Z) : bool := if 0 <=? p then default false (fl !! Z.to_nat p) else false.

Definition ja_insn (o : Z) : insn := mk_raw (Z.lor BPF_JMP BPF_JA) 0 0 o 0.

(** The trap is a jump to itself. *)
Definition sanitize_dead_code (prog : list insn) (fl : list bool) : list insn :=
  zip_with (fun i (s : bool) => if s then i else ja_insn (-1)) prog fl.

Definition insn_is_cond_jump (c : Z) : bool :=
  if BPF_CLASS c =? BPF_JMP32 then negb (BPF_OP c =? BPF_JA)
  else if negb (BPF_CLASS c =? BPF_JMP) then false
  else negb (BPF_OP c =? BPF_JA) && negb (BPF_OP c =? BPF_EXIT) && negb (BPF_OP c =? BPF_CALL).

Definition hard_wire (fl : list bool) (p : Z) (i : insn) : insn :=
  if negb (insn_is_cond_jump (code i)) then i
  else if negb (flag fl (p + 1)) then ja_insn (i_off i)
  else if negb (flag fl (p + 1 + i_off i)) then ja_insn 0
  else i.
Definition opt_hard_wire_dead_code_branches (prog : list insn) (fl : list bool) : list insn :=
  imapZ (hard_wire fl) 0 prog.

(** ** Removal *)

(** A distance [o] from position [curr], when what was at [pos .. end_old] is now
    at [pos .. end_new]. *)
Definition adj_delta (pos end_old end_new curr o : Z) : Z :=
  let delta := end_new - end_old in
  if (curr <? pos) && (end_old <=? curr + o + 1) then o + delta
  else if (end_new <=? curr) && (curr + o + 1 <? end_new) then o - delta
  else o.

(** [None]: [-ERANGE]. *)
Definition bpf_adj_delta_to_imm (pos end_old end_new curr : Z) (i : insn) : option insn :=
  let imm := adj_delta pos end_old end_new curr (i_imm i) in
  if (imm <? S32_MIN) || (S32_MAX <? imm) then None
  else Some (mk_raw (code i) (dst_reg i) (src_reg i) (i_off i) imm).

Definition bpf_adj_delta_to_off (pos end_old end_new curr : Z) (i : insn) : option insn :=
  if code i =? Z.lor BPF_JMP32 BPF_JA then bpf_adj_delta_to_imm pos end_old end_new curr i
  else
    let o := adj_delta pos end_old end_new curr (i_off i) in
    if (o <? - 2 ^ 15) || (2 ^ 15 - 1 <? o) then None
    else Some (mk_raw (code i) (dst_reg i) (src_reg i) o (i_imm i)).

Definition bpf_pseudo_func (i : insn) : bool :=
  (code i =? Z.lor BPF_LD BPF_DW) && (src_reg i =? BPF_PSEUDO_FUNC)%nat.

Definition adj_insn (pos end_old end_new curr : Z) (i : insn) : option insn :=
  if bpf_pseudo_func i then bpf_adj_delta_to_imm pos end_old end_new curr i
  else if negb (BPF_CLASS (code i) =? BPF_JMP) && negb (BPF_CLASS (code i) =? BPF_JMP32) ||
          (BPF_OP (code i) =? BPF_EXIT) then Some i
  else if BPF_OP (code i) =? BPF_CALL then
    if (src_reg i =? BPF_PSEUDO_CALL)%nat then bpf_adj_delta_to_imm pos end_old end_new curr i else Some i
  else bpf_adj_delta_to_off pos end_old end_new curr i.

(** The pass that changes the program (not the one that probes). *)
Definition bpf_adj_branches (prog : list insn) (pos end_old end_new : Z) : option (list insn) :=
  mapM (fun o => o) (imapZ (adj_insn pos end_old end_new) 0 prog).

(** [cnt] elements are taken out at [off]. *)
Definition cut {A} (off cnt : nat) (l : list A) : list A := take off l ++ drop (off + cnt) l.

Definition bpf_remove_insns (prog : list insn) (off cnt : nat) : option (list insn) :=
  bpf_adj_branches (cut off cnt prog) (Z.of_nat off) (Z.of_nat (off + cnt)) (Z.of_nat off).

(** The marks go with the instructions.  The starts of subprograms and the line
    information are adjusted as well; there is one program and no such
    information here. *)
Definition verifier_remove_insns (p : list insn * list bool) (off cnt : nat) : option (list insn * list bool) :=
  prog ← bpf_remove_insns p.1 off cnt; Some (prog, cut off cnt p.2).

(** How many instructions in a row were not seen. *)
Fixpoint dead_run (fl : list bool) : nat :=
  match fl with false :: fl => S (dead_run fl) | _ => O end.

(** The loops over the program, [n] turns from position [i]; each turn moves on
    or shortens the program, so its length is enough. *)
Fixpoint opt_remove_dead_code (n i : nat) (p : list insn * list bool) : option (list insn * list bool) :=
  match n with
  | O => Some p
  | S n =>
      if (i <? length p.1)%nat then
        match dead_run (drop i p.2) with
        | O => opt_remove_dead_code n (S i) p
        | j => p ← verifier_remove_insns p i j; opt_remove_dead_code n (S i) p
        end
      else Some p
  end.

Fixpoint opt_remove_nops (n i : nat) (p : list insn * list bool) : option (list insn * list bool) :=
  match n with
  | O => Some p
  | S n =>
      match p.1 !! i with
      | None => Some p
      | Some insn =>
          if decide (insn = ja_insn 0) then p ← verifier_remove_insns p i 1; opt_remove_nops n i p
          else opt_remove_nops n (S i) p
      end
  end.

(** What is done to a program that the walk accepted. *)
Definition rewrite_prog (is_priv : bool) (prog : list insn) (sn : list Z) : option (list insn) :=
  let fl := seen_flags prog sn in
  if is_priv then
    p ← opt_remove_dead_code (length prog) 0 (opt_hard_wire_dead_code_branches prog fl, fl);
    p ← opt_remove_nops (length p.1) 0 p;
    Some p.1
  else Some (sanitize_dead_code prog fl).

(** ** [bpf_check]

    The walk that was made and the program that is left.  A removal that fails
    makes [bpf_check] return 1, the value of its [WARN_ON_ONCE]. *)
Definition bpf_check (env : bpf_verifier_env) (kzalloc_ok signal_pending : Z -> bool) (visited : Z -> Z)
    (prog : list insn) (k : prog_kind) : option (res (walk * list insn)) :=
  match resolve_pseudo_ldimm64 prog with
  | Reject e => Some (Reject e)
  | Outside => Some Outside
  | Ok _ =>
      match do_check_main env kzalloc_ok signal_pending visited prog k with
      | None => None
      | Some (Reject e) => Some (Reject e)
      | Some Outside => Some Outside
      | Some (Ok w) =>
          Some match rewrite_prog (bpf_capable env) prog (seen w) with
               | Some prog' => Ok (w, prog')
               | None => Reject 1
               end
      end
  end.
