(* ===== verification/BpfMeta.v ===== *)
(** * What the range operations leave alone

    Bounds are refined and resized without touching a register's type and id:
    the facts about [meta] that the walk over a program needs. *)
From S2P Require Import Prelude Bits Tnum BpfReg BpfAlu BpfJmp BpfProg BpfCheck.

Section meta.
Implicit Types r d s : bpf_reg_state.

Lemma meta_deduce32 r : meta (__reg32_deduce_bounds r) = meta r.
Proof. unfold __reg32_deduce_bounds. cbv zeta. by repeat case_match. Qed.
Lemma meta_deduce64 r : meta (__reg64_deduce_bounds r) = meta r.
Proof. unfold __reg64_deduce_bounds. cbv zeta. by repeat case_match. Qed.
Lemma meta_sync r : meta (reg_bounds_sync r) = meta r.
Proof.
  unfold reg_bounds_sync, __update_reg_bounds, __update_reg32_bounds, __update_reg64_bounds, __reg_bound_offset,
    __reg_deduce_bounds. cbn [meta set_u64 set_s64 set_u32 set_s32 set_var_off].
  by rewrite meta_deduce64, meta_deduce32.
Qed.

Lemma meta_assign r : meta (__reg_assign_32_into_64 r) = meta r.
Proof. unfold __reg_assign_32_into_64. by case_match. Qed.
Lemma meta_zext r : meta (zext_32_to_64 r) = meta r.
Proof. unfold zext_32_to_64. by rewrite meta_assign. Qed.
Lemma meta_subreg_sx r size : meta (coerce_subreg_to_size_sx r size) = meta r.
Proof.
  unfold coerce_subreg_to_size_sx, set_sext32_default_val. cbv zeta.
  repeat case_match; try done; repeat match goal with H : context [_ =? 1] |- _ => clear H end; by repeat case_match.
Qed.

Lemma meta_combine64 r : meta (__reg_combine_64_into_32 r) = meta r.
Proof. unfold __reg_combine_64_into_32. rewrite meta_sync. by repeat case_match. Qed.
Lemma meta_combine32 r : meta (__reg_combine_32_into_64 r) = meta r.
Proof. unfold __reg_combine_32_into_64. rewrite meta_sync. case_match; [by rewrite meta_assign|done]. Qed.

Lemma meta_set_min_max t f val val32 op is32 :
  meta (reg_set_min_max t f val val32 op is32).1 = meta t /\ meta (reg_set_min_max t f val val32 op is32).2 = meta f.
Proof.
  unfold reg_set_min_max. case_match; [done|]. case_match.
  - unfold reg_set_min_max32, finish32. cbv zeta. destruct op; cbn [fst snd]; rewrite !meta_combine32; done.
  - unfold reg_set_min_max64, finish64. cbv zeta. destruct op; cbn [fst snd]; rewrite !meta_combine64; done.
Qed.

Lemma meta_combine_min_max s d :
  meta (__reg_combine_min_max s d).1 = meta s /\ meta (__reg_combine_min_max s d).2 = meta d.
Proof. unfold __reg_combine_min_max. cbv zeta. cbn [fst snd]. by rewrite !meta_sync. Qed.

(** A scalar without id. *)
Definition plain_scalar r : Prop := reg_type r = SCALAR_VALUE /\ reg_id r = 0.

Lemma plain_meta r r' : meta r' = meta r -> plain_scalar r -> plain_scalar r'.
Proof. unfold plain_scalar, reg_type, reg_id. by intros ->. Qed.
Lemma plain_unknown env r : plain_scalar (__mark_reg_unknown env r).
Proof. done. Qed.

Ltac plain H := cbv zeta; repeat case_match; first [exact H|split; [exact (proj1 H)|reflexivity]].

Lemma plain_add32 d s : plain_scalar d -> plain_scalar (scalar32_min_max_add d s).
Proof. intros H. unfold scalar32_min_max_add. plain H. Qed.
Lemma plain_add d s : plain_scalar d -> plain_scalar (scalar_min_max_add d s).
Proof. intros H. unfold scalar_min_max_add. plain H. Qed.
Lemma plain_sub32 d s : plain_scalar d -> plain_scalar (scalar32_min_max_sub d s).
Proof. intros H. unfold scalar32_min_max_sub. plain H. Qed.
Lemma plain_sub d s : plain_scalar d -> plain_scalar (scalar_min_max_sub d s).
Proof. intros H. unfold scalar_min_max_sub. plain H. Qed.
Lemma plain_mul32 d s : plain_scalar d -> plain_scalar (scalar32_min_max_mul d s).
Proof. intros H. unfold scalar32_min_max_mul. plain H. Qed.
Lemma plain_mul d s : plain_scalar d -> plain_scalar (scalar_min_max_mul d s).
Proof. intros H. unfold scalar_min_max_mul. plain H. Qed.
Lemma plain_and32 d s : plain_scalar d -> plain_scalar (scalar32_min_max_and d s).
Proof. intros H. unfold scalar32_min_max_and, bitwise_s32. plain H. Qed.
Lemma plain_and d s : plain_scalar d -> plain_scalar (scalar_min_max_and d s).
Proof. intros H. unfold scalar_min_max_and, bitwise_s64. plain H. Qed.
Lemma plain_or32 d s : plain_scalar d -> plain_scalar (scalar32_min_max_or d s).
Proof. intros H. unfold scalar32_min_max_or, bitwise_s32. plain H. Qed.
Lemma plain_or d s : plain_scalar d -> plain_scalar (scalar_min_max_or d s).
Proof. intros H. unfold scalar_min_max_or, bitwise_s64. plain H. Qed.
Lemma plain_xor32 d s : plain_scalar d -> plain_scalar (scalar32_min_max_xor d s).
Proof. intros H. unfold scalar32_min_max_xor. plain H. Qed.
Lemma plain_xor d s : plain_scalar d -> plain_scalar (scalar_min_max_xor d s).
Proof. intros H. unfold scalar_min_max_xor. plain H. Qed.
Lemma plain_lsh32 d lo hi : plain_scalar d -> plain_scalar (__scalar32_min_max_lsh d lo hi).
Proof. intros H. unfold __scalar32_min_max_lsh. plain H. Qed.
Lemma plain_lsh64 d lo hi : plain_scalar d -> plain_scalar (__scalar64_min_max_lsh d lo hi).
Proof. intros H. unfold __scalar64_min_max_lsh. plain H. Qed.

Lemma plain_switch env insn d s : plain_scalar d -> plain_scalar (scalar_switch env insn d s).
Proof.
  intros H. unfold scalar_switch. cbv zeta. destruct (opcode insn); try (by apply plain_unknown).
  - apply (plain_meta (scalar_min_max_add (scalar32_min_max_add d s) s)); [done|]. by apply plain_add, plain_add32.
  - apply (plain_meta (scalar_min_max_sub (scalar32_min_max_sub d s) s)); [done|]. by apply plain_sub, plain_sub32.
  - by apply plain_mul, plain_mul32.
  - by apply plain_or, plain_or32.
  - by apply plain_and, plain_and32.
  - destruct (_ <=? _); [by apply plain_unknown|]. destruct (negb _).
    + unfold scalar32_min_max_lsh. cbv zeta. exact (plain_lsh32 d _ _ H).
    + unfold scalar_min_max_lsh. cbv zeta. exact (plain_lsh32 _ _ _ (plain_lsh64 d _ _ H)).
  - destruct (_ <=? _); [by apply plain_unknown|]. destruct (negb _); exact H.
  - by apply plain_xor, plain_xor32.
  - destruct (_ <=? _); [by apply plain_unknown|]. destruct (negb _); exact H.
Qed.

Lemma plain_adjust env aux insn d s d' aux' err :
  plain_scalar d -> adjust_scalar_min_max_vals env aux insn d s = (d', aux', err) -> plain_scalar d'.
Proof.
  intros Hd. unfold adjust_scalar_min_max_vals. cbv zeta. do 2 (case_match; [by intros [= <- <- <-]|]).
  destruct (if sanitize_needed _ then _ else _) as [aux1 ret]. destruct (ret <? 0); [by intros [= <- <- <-]|].
  intros [= <- <- <-]. eapply plain_meta; [apply meta_sync|].
  case_match; [by apply plain_switch|]. eapply plain_meta; [apply meta_zext|]. by apply plain_switch.
Qed.
End meta.
