(* ===== verification/BpfStands.v ===== *)
(** * What a state of the verifier says about the registers

    The relation between the verifier's register states and a register file of
    the interpreter, and how it survives the updates the checks make. *)
From S2P Require Import Prelude Bits Tnum TnumThms BpfReg BpfRegThms BpfAlu BpfJmp BpfProg BpfCheck BpfMeta.

(** A register state and what the register holds.  The pointers of the modelled
    programs (to the context and to the stack) are none of those that
    [reg_not_null] knows not to be NULL. *)
Definition reg_holds (r : bpf_reg_state) (v : option Z) : Prop :=
  reg_type r = NOT_INIT \/
  exists x, v = Some x /\ is_u64 x /\ (reg_type r = SCALAR_VALUE -> x ∈ r /\ reg_ok r) /\ reg_not_null r = false.

(** Registers with the same id hold the same value; no id is above [g]. *)
Record stands (g : Z) (rs : list bpf_reg_state) (rf : reg_file) : Prop := mk_stands {
  st_len : length rs = MAX_BPF_REG;
  st_file : length rf = MAX_BPF_REG;
  st_holds : forall n r, rs !! n = Some r -> reg_holds r (read rf n);
  st_ids : forall n r, rs !! n = Some r -> 0 <= reg_id r <= g;
  st_eqs : forall n m r r', rs !! n = Some r -> rs !! m = Some r' ->
    reg_type r = SCALAR_VALUE -> reg_type r' = SCALAR_VALUE -> reg_id r = reg_id r' -> reg_id r <> 0 ->
    read rf n = read rf m
}.

Lemma read_insert_eq rf n v : (n < length rf)%nat -> read (<[n := Some v]> rf) n = Some v.
Proof. intros Hn. unfold read. by rewrite list_lookup_insert_eq. Qed.
Lemma read_insert_ne rf n m v : n <> m -> read (<[n := Some v]> rf) m = read rf m.
Proof. intros Hn. unfold read. by rewrite list_lookup_insert_ne. Qed.

Section stands.
Implicit Types (g : Z) (rs : list bpf_reg_state) (rf : reg_file) (r : bpf_reg_state).

Lemma reg_at_lookup rs n r : rs !! n = Some r -> reg_at rs n = r.
Proof. intros H. unfold reg_at. by rewrite H. Qed.
Lemma reg_at_in rs n : (n < length rs)%nat -> rs !! n = Some (reg_at rs n).
Proof. intros [r Hr]%lookup_lt_is_Some_2. by rewrite (reg_at_lookup _ _ _ Hr). Qed.
Lemma reg_at_insert rs n r : (n < length rs)%nat -> reg_at (<[n := r]> rs) n = r.
Proof. intros Hn. apply reg_at_lookup. by apply list_lookup_insert_eq. Qed.

Lemma stands_mono g g' rs rf : g <= g' -> stands g rs rf -> stands g' rs rf.
Proof. intros Hg [H1 H2 H3 H4 H5]. split; [done..| |done]. intros n r Hr. specialize (H4 n r Hr). lia. Qed.

(** A register gets a new state and a new value. *)
Lemma stands_write g rs rf n r v :
  stands g rs rf -> (n < MAX_BPF_REG)%nat -> reg_holds r (Some v) -> 0 <= reg_id r <= g ->
  (reg_type r = SCALAR_VALUE -> reg_id r <> 0 -> forall m r', m <> n -> rs !! m = Some r' ->
     reg_type r' = SCALAR_VALUE -> reg_id r' = reg_id r -> read rf m = Some v) ->
  stands g (<[n := r]> rs) (<[n := Some v]> rf).
Proof.
  intros [Hl Hf Hh Hi He] Hn Hr Hid Heq.
  split; [by rewrite length_insert|by rewrite length_insert|..].
  - intros m r'. rewrite list_lookup_insert_Some. intros [(<- & <- & _)|[Hne Hm]].
    + by rewrite read_insert_eq by lia.
    + rewrite read_insert_ne by done. by apply Hh.
  - intros m r'. rewrite list_lookup_insert_Some. intros [(<- & <- & _)|[Hne Hm]]; [done|]. by apply (Hi m).
  - intros m1 m2 r1 r2. rewrite !list_lookup_insert_Some.
    intros [(<- & <- & _)|[Hne1 Hm1]] [(<- & <- & _)|[Hne2 Hm2]] T1 T2 Eid Hz; [done|..];
      rewrite ?read_insert_eq, ?read_insert_ne by (done || lia).
    + symmetry. by apply (Heq T1 Hz m2 r2).
    + apply (Heq T2 ltac:(congruence) m1 r1); done.
    + by apply (He m1 m2 r1 r2).
Qed.

(** A register gets a new value and a state that carries no id. *)
Lemma stands_fresh g rs rf n r v :
  stands g rs rf -> (n < MAX_BPF_REG)%nat -> reg_holds r (Some v) -> reg_id r = 0 ->
  stands g (<[n := r]> rs) (<[n := Some v]> rf).
Proof.
  intros Hs Hn Hr Hid. assert (0 <= g).
  { pose proof (st_len _ _ _ Hs). destruct (st_ids _ _ _ Hs n (reg_at rs n)); [apply reg_at_in; lia|lia]. }
  apply stands_write; [done..|lia|done].
Qed.

(** A register gets another state for the value it has. *)
Lemma stands_refine g rs rf n r r' :
  stands g rs rf -> rs !! n = Some r -> reg_type r' = reg_type r -> reg_id r' = reg_id r -> reg_holds r' (read rf n) ->
  stands g (<[n := r']> rs) rf.
Proof.
  intros [Hl Hf Hh Hi He] Hn Ht Hid Hr. split; [by rewrite length_insert|done|..].
  - intros m q. rewrite list_lookup_insert_Some. intros [(<- & <- & _)|[Hne Hm]]; [done|]. by apply Hh.
  - intros m q. rewrite list_lookup_insert_Some. intros [(<- & <- & _)|[Hne Hm]]; [|by apply (Hi m)].
    rewrite Hid. by apply (Hi n).
  - intros m1 m2 r1 r2. rewrite !list_lookup_insert_Some.
    intros [(<- & <- & _)|[Hne1 Hm1]] [(<- & <- & _)|[Hne2 Hm2]] T1 T2 Eid Hz; [done|..].
    + apply (He n m2 r r2); congruence.
    + apply (He m1 n r1 r); congruence.
    + by apply (He m1 m2 r1 r2).
Qed.

(** A state without id for the value a register has. *)
Lemma stands_forget g rs rf n r r' :
  stands g rs rf -> rs !! n = Some r -> reg_id r' = 0 -> reg_holds r' (read rf n) -> stands g (<[n := r']> rs) rf.
Proof.
  intros [Hl Hf Hh Hi He] Hn Hid Hr. split; [by rewrite length_insert|done|..].
  - intros m q. rewrite list_lookup_insert_Some. intros [(<- & <- & _)|[Hne Hm]]; [done|]. by apply Hh.
  - intros m q. rewrite list_lookup_insert_Some. intros [(<- & <- & _)|[Hne Hm]]; [|by apply (Hi m)].
    destruct (Hi n r Hn). lia.
  - intros m1 m2 r1 r2. rewrite !list_lookup_insert_Some.
    intros [(<- & <- & _)|[Hne1 Hm1]] [(<- & <- & _)|[Hne2 Hm2]] T1 T2 Eid Hz; [done|congruence..|].
    by apply (He m1 m2 r1 r2).
Qed.

(** Registers with the id of [n] take over its state. *)
Lemma stands_propagate g rs rf n known :
  stands g rs rf -> rs !! n = Some known -> reg_type known = SCALAR_VALUE -> reg_id known <> 0 ->
  stands g (find_equal_scalars known rs) rf.
Proof.
  intros [Hl Hf Hh Hi He] Hn Ht Hid. unfold find_equal_scalars.
  assert (Hget : forall m r', (fun r => if (reg_type r =? SCALAR_VALUE) && (reg_id r =? reg_id known) then known else r) <$> rs !! m
    = Some r' -> exists r, rs !! m = Some r /\ reg_id r' = reg_id r /\ reg_type r' = reg_type r /\ reg_holds r' (read rf m)).
  { intros m r'. destruct (rs !! m) as [r|] eqn:Hm; [|done]. cbn [fmap option_fmap option_map]. intros [= <-]. exists r. split; [done|].
    destruct (Z.eqb_spec (reg_type r) SCALAR_VALUE) as [Et|]; [|by eauto].
    destruct (Z.eqb_spec (reg_id r) (reg_id known)) as [Ei|]; [|by eauto].
    cbn [andb]. split; [done|]. split; [congruence|]. rewrite <- (He n m known r) by congruence. by apply Hh. }
  split; [by rewrite length_fmap|done|..].
  - intros m r'. rewrite list_lookup_fmap. intros (r & _ & _ & _ & H)%Hget. done.
  - intros m r'. rewrite list_lookup_fmap. intros (r & Hm & -> & _ & H)%Hget. by apply (Hi m).
  - intros m1 m2 r1 r2. rewrite !list_lookup_fmap. intros (q1 & H1 & E1 & T1 & _)%Hget (q2 & H2 & E2 & T2 & _)%Hget.
    rewrite E1, E2, T1, T2. by apply He.
Qed.

(** ** Reading an operand *)

Lemma stands_read g rs rf n :
  stands g rs rf -> (n < MAX_BPF_REG)%nat -> reg_type (reg_at rs n) <> NOT_INIT ->
  exists x, read rf n = Some x /\ is_u64 x /\ (reg_type (reg_at rs n) = SCALAR_VALUE -> x ∈ reg_at rs n /\ reg_ok (reg_at rs n)) /\
    reg_not_null (reg_at rs n) = false.
Proof.
  intros Hs Hn Ht. pose proof (st_len _ _ _ Hs). destruct (st_holds _ _ _ Hs n (reg_at rs n)) as [|]; [apply reg_at_in; lia|done..].
Qed.

Lemma scalar_holds r x : reg_type r = SCALAR_VALUE -> x ∈ r -> reg_ok r -> reg_holds r (Some x).
Proof.
  intros Ht Hx Hok. right. exists x. split; [done|]. split; [by eapply elem_of_u64, Hx|]. split; [done|].
  unfold reg_not_null. unfold reg_type in Ht. rewrite Ht. done.
Qed.

Lemma unknown_reg_holds env r x : is_u64 x -> reg_holds (__mark_reg_unknown env r) (Some x).
Proof. intros Hx. destruct (mark_unknown_sound env r x Hx). by apply scalar_holds. Qed.

Lemma plain_holds r x : plain_scalar r -> x ∈ r /\ reg_ok r -> reg_holds r (Some x).
Proof. intros [Ht _] [Hx Hok]. by apply scalar_holds. Qed.

(** Register [d] becomes a copy of register [s], which may be cut to a value
    [v] that differs when the state carries no id. *)
Lemma stands_copy g rs rf s d r r' y v :
  stands g rs rf -> (d < MAX_BPF_REG)%nat -> rs !! s = Some r -> read rf s = Some y ->
  reg_type r' = reg_type r -> reg_id r' = reg_id r -> reg_holds r' (Some v) ->
  (reg_type r = SCALAR_VALUE -> reg_id r <> 0 -> v = y) ->
  stands g (<[d := r']> rs) (<[d := Some v]> rf).
Proof.
  intros Hst Hd Hs Hy Ht Hi Hr Hv. apply stands_write; [done..| |].
  - rewrite Hi. by apply (st_ids _ _ _ Hst s).
  - rewrite Ht, Hi. intros Hsc Hne m q Hm Hq Tq Eq. rewrite (Hv Hsc Hne), <- Hy.
    by apply (st_eqs _ _ _ Hst m s q r); congruence.
Qed.

(** A scalar gets an id that no register has. *)
Lemma stands_new_id g rs rf s r :
  stands g rs rf -> rs !! s = Some r -> stands (g + 1) (<[s := set_id (g + 1) r]> rs) rf.
Proof.
  intros [Hl Hf Hh Hi He] Hs. pose proof (Hi s r Hs) as Hg. split; [by rewrite length_insert|done|..].
  - intros m q. rewrite list_lookup_insert_Some. intros [(<- & <- & _)|[Hne Hm]]; [|by apply Hh]. exact (Hh s r Hs).
  - intros m q. rewrite list_lookup_insert_Some. intros [(<- & <- & _)|[Hne Hm]].
    + cbn. lia.
    + specialize (Hi m q Hm). lia.
  - intros m1 m2 r1 r2. rewrite !list_lookup_insert_Some.
    intros [(<- & <- & _)|[Hne1 Hm1]] [(<- & <- & _)|[Hne2 Hm2]] T1 T2 Eid Hz; [done|..].
    + specialize (Hi m2 r2 Hm2). cbn in Eid. lia.
    + specialize (Hi m1 r1 Hm1). cbn in Eid. lia.
    + by apply (He m1 m2 r1 r2).
Qed.

(** ** The checks of operands *)

Lemma src_arg env rs n rs' : check_reg_arg env rs n SRC_OP = Ok rs' ->
  rs' = rs /\ (n < MAX_BPF_REG)%nat /\ reg_type (reg_at rs n) <> NOT_INIT.
Proof.
  unfold check_reg_arg. case_decide; [done|]. destruct (Z.eqb_spec (reg_type (reg_at rs n)) NOT_INIT); [done|].
  intros [= ->]. split; [done|]. split; [lia|done].
Qed.

Lemma dst_arg env rs n rs' : check_reg_arg env rs n DST_OP_NO_MARK = Ok rs' -> rs' = rs /\ (n < MAX_BPF_REG)%nat.
Proof. unfold check_reg_arg. case_decide; [done|]. case_decide; [done|]. intros [= ->]. split; [done|lia]. Qed.

Lemma dst_mark_arg env rs n rs' : check_reg_arg env rs n DST_OP = Ok rs' ->
  rs' = <[n := __mark_reg_unknown env (reg_at rs n)]> rs /\ (n < MAX_BPF_REG)%nat.
Proof.
  unfold check_reg_arg, mark_reg_unknown. case_decide; [done|]. case_decide; [done|]. rewrite decide_True by lia.
  intros [= <-]. split; [done|lia].
Qed.

Lemma mark_unknown_eq env rs n : (n < MAX_BPF_REG)%nat ->
  mark_reg_unknown env rs n = <[n := __mark_reg_unknown env (reg_at rs n)]> rs.
Proof. intros Hn. unfold mark_reg_unknown. by rewrite decide_True. Qed.
End stands.
