(* ===== verification/BpfCheckAlu.v ===== *)
(** * Soundness of the checks of arithmetic instructions

    When [check_alu_op] accepts an instruction in a state that stands for the
    registers, the interpreter executes it and the new state stands for the new
    registers. *)
From S2P Require Import Prelude Bits Tnum TnumThms BpfReg BpfRegThms BpfCoerce BpfAlu BpfAluThms BpfAluSound BpfJmp BpfProg BpfCheck BpfMeta BpfStands.

(** Three forms that the verifier accepts and treats wrongly: signed 64-bit
    division, which overflows at [S64_MIN / -1]; 32-bit division with a negative
    offset, which the interpreter skips; and sign extension to 64 bits. *)
Definition pitfall (i : insn) : bool :=
  let is64 := BPF_CLASS (code i) =? BPF_ALU64 in
  ((BPF_CLASS (code i) =? BPF_ALU) || is64) &&
  match alu_op_of (BPF_OP (code i)) with
  | Some BPF_DIV | Some BPF_MOD => if is64 then i_off i =? 1 else i_off i <? 0
  | Some BPF_MOV => is64 && negb (src_is_k i) && nonzero (i_off i)
  | _ => false
  end.

(** ** Codes *)

Lemma code_split c : 0 <= c < 256 -> c = BPF_CLASS c + BPF_SRC c + BPF_OP c /\ (BPF_SRC c = 0 \/ BPF_SRC c = 8).
Proof.
  intros Hc.
  assert (forallb (fun c => (c =? BPF_CLASS c + BPF_SRC c + BPF_OP c) && ((BPF_SRC c =? 0) || (BPF_SRC c =? 8)))
    (seqZ 0 256) = true) as H by (vm_compute; reflexivity).
  rewrite forallb_forall in H. specialize (H c). rewrite <- list_elem_of_In, elem_of_seqZ in H.
  specialize (H ltac:(lia)). lia.
Qed.

(** The four divisions by a register are the instructions that are patched. *)
Lemma needs_patch_op i : needs_patch i = true ->
  (alu_op_of (BPF_OP (code i)) = Some BPF_DIV \/ alu_op_of (BPF_OP (code i)) = Some BPF_MOD) /\ src_is_k i = false.
Proof.
  unfold needs_patch, src_is_k. rewrite bool_decide_eq_true, !elem_of_cons, elem_of_nil.
  intros [E|[E|[E|[E|[]]]]]; rewrite E; vm_compute; auto.
Qed.

Lemma division_op c : alu_op_of (BPF_OP c) = Some BPF_DIV -> BPF_OP c = 48.
Proof. unfold alu_op_of. repeat case_match; congruence. Qed.
Lemma modulo_op c : alu_op_of (BPF_OP c) = Some BPF_MOD -> BPF_OP c = 144.
Proof. unfold alu_op_of. repeat case_match; congruence. Qed.

Definition is_alu (i : insn) : Prop := BPF_CLASS (code i) = BPF_ALU \/ BPF_CLASS (code i) = BPF_ALU64.
Lemma needs_patch_class i : needs_patch i = true -> is_alu i.
Proof.
  unfold needs_patch, is_alu. rewrite bool_decide_eq_true, !elem_of_cons, elem_of_nil.
  intros [E|[E|[E|[E|[]]]]]; rewrite E; vm_compute; auto.
Qed.
(** Jumps are not patched. *)
Lemma jmp_not_patched i : BPF_CLASS (code i) = BPF_JMP \/ BPF_CLASS (code i) = BPF_JMP32 -> needs_patch i = false.
Proof.
  intros Hcl. destruct (needs_patch i) eqn:Hp; [|done].
  destruct (needs_patch_class i Hp) as [E|E], Hcl as [E'|E']; by rewrite E in E'.
Qed.

Definition is_division (op : alu_op) : Prop := op = BPF_DIV \/ op = BPF_MOD.

Lemma patched_division i op : 0 <= code i < 256 -> is_alu i -> alu_op_of (BPF_OP (code i)) = Some op ->
  is_division op -> src_is_k i = false -> needs_patch i = true.
Proof.
  intros Hc Hcl Hop Hdiv Hk. destruct (code_split _ Hc) as [E Hs]. unfold src_is_k in Hk.
  assert (BPF_SRC (code i) = 8) as Es by lia. apply bool_decide_eq_true.
  assert (BPF_OP (code i) = 48 \/ BPF_OP (code i) = 144) as Eo.
  { destruct Hdiv as [-> | ->]; [left; by apply division_op|right; by apply modulo_op]. }
  rewrite E, Es. destruct Hcl as [-> | ->], Eo as [-> | ->]; vm_compute; set_solver.
Qed.

(** ** One step *)

Lemma step_alu prog pc rf i v :
  fetch prog pc = Some i -> is_alu i -> needs_patch i = false -> exec_alu i rf = Some v ->
  (dst_reg i < length rf)%nat -> step_insn prog pc rf = Next (pc + 1) (<[dst_reg i := Some v]> rf).
Proof.
  intros Hf Hcl Hp He Hd. unfold step_insn, exec_insn. rewrite Hf, Hp. cbn [mbind option_bind].
  assert ((BPF_CLASS (code i) =? BPF_ALU) || (BPF_CLASS (code i) =? BPF_ALU64) = true) as ->.
  { destruct Hcl as [-> | ->]; done. }
  rewrite He. cbn [mbind option_bind]. unfold write. by rewrite decide_True.
Qed.

(** The value of a patched division. *)
Definition safe_division (op : alu_op) (i : insn) (x y : Z) : option Z :=
  let is64 := BPF_CLASS (code i) =? BPF_ALU64 in
  if (if is64 then y else u32 y) =? 0 then
    Some (match op with BPF_DIV => 0 | _ => if is64 then x else u32 x end)
  else alu_exec (alu_insn op i) x y.

(** A step inside a patch. *)
Lemma run_patch_next n p pc rf pc' rf' :
  pc <> Z.of_nat (length p) -> exec_insn p pc rf = Next pc' rf' ->
  run_patch (S n) p pc rf = run_patch n p pc' rf'.
Proof. intros Hne He. cbn [run_patch]. rewrite He. by destruct (Z.eqb_spec pc (Z.of_nat (length p))). Qed.

Lemma run_patch_done n p rf : run_patch n p (Z.of_nat (length p)) rf = Some rf.
Proof. destruct n; cbn; by rewrite Z.eqb_refl. Qed.

(** The division itself, wherever it stands. *)
Lemma exec_division p pc i op rf x y z :
  fetch p pc = Some i -> is_alu i -> alu_op_of (BPF_OP (code i)) = Some op -> is_division op -> src_is_k i = false ->
  read rf (dst_reg i) = Some x -> read rf (src_reg i) = Some y -> (dst_reg i < length rf)%nat ->
  alu_exec (alu_insn op i) x y = Some z -> exec_insn p pc rf = Next (pc + 1) (<[dst_reg i := Some z]> rf).
Proof.
  intros Hf Hcl Hop Hdiv Hk Hx Hy Hd He. unfold exec_insn. rewrite Hf. cbn [mbind option_bind].
  assert ((BPF_CLASS (code i) =? BPF_ALU) || (BPF_CLASS (code i) =? BPF_ALU64) = true) as ->.
  { destruct Hcl as [-> | ->]; done. }
  assert (exec_alu i rf = Some z) as ->.
  { unfold exec_alu. rewrite Hop. cbn [mbind option_bind]. unfold shift_undefined.
    destruct Hdiv as [-> | ->]; rewrite Hx, Hk, Hy; cbn [mbind option_bind]; done. }
  cbn [mbind option_bind]. unfold write. by rewrite decide_True.
Qed.

(** The guard of a patch compares the divisor with zero. *)
Lemma guard_ne is32 y : cond_jmp BPF_JNE is32 y (u64 0) = negb ((if is32 then u32 y else y) =? 0).
Proof. by destruct is32. Qed.
Lemma guard_eq is32 y : cond_jmp BPF_JEQ is32 y (u64 0) = ((if is32 then u32 y else y) =? 0).
Proof. by destruct is32. Qed.

Lemma insert_read rf n x : read rf n = Some x -> <[n := Some x]> rf = rf.
Proof. unfold read. intros H. apply list_insert_id. destruct (rf !! n) as [[v|]|]; cbn in H; congruence. Qed.

(** Evaluates a patch of a known opcode, and executes its next instruction. *)
Ltac eval_patchlet := match goal with |- context [patchlet ?i] =>
  let p := eval vm_compute in (patchlet i) in change (patchlet i) with p end; cbn [length].
Ltac patch_pc :=
  match goal with |- run_patch _ _ ?pc _ = _ => let v := eval vm_compute in pc in change pc with v end.
Ltac patch_step tac :=
  patch_pc; erewrite run_patch_next; [|done|lazy -[cond_jmp u64 u32 read write alu32_exec Z.add]; tac; reflexivity].

Lemma run_patchlet i op rf x y z :
  needs_patch i = true -> alu_op_of (BPF_OP (code i)) = Some op ->
  read rf (dst_reg i) = Some x -> read rf (src_reg i) = Some y -> (dst_reg i < length rf)%nat ->
  safe_division op i x y = Some z ->
  run_patch (length (patchlet i)) (patchlet i) 0 rf = Some (<[dst_reg i := Some z]> rf).
Proof.
  intros Hp Hop Hx Hy Hd Hz.
  assert (Hdiv : (if (if BPF_CLASS (code i) =? BPF_ALU64 then y else u32 y) =? 0 then False else True) ->
    forall p pc, fetch p pc = Some i -> exec_insn p pc rf = Next (pc + 1) (<[dst_reg i := Some z]> rf)).
  { intros Hne p pc Hf. destruct (needs_patch_op i Hp) as [Hdiv Hk]. eapply exec_division; try done.
    - by apply needs_patch_class.
    - unfold is_division. destruct Hdiv; [left|right]; congruence.
    - unfold safe_division in Hz. by case_match. }
  unfold needs_patch in Hp. rewrite bool_decide_eq_true, !elem_of_cons, elem_of_nil in Hp.
  destruct i as [c d s o m]. cbn [code dst_reg src_reg] in *. unfold safe_division in Hz.
  destruct Hp as [-> | [-> | [-> | [-> | []]]]]; injection Hop as <-; eval_patchlet;
    repeat match goal with H : context [BPF_CLASS ?c =? BPF_ALU64] |- _ =>
      let b := eval vm_compute in (BPF_CLASS c =? BPF_ALU64) in
      change (BPF_CLASS c =? BPF_ALU64) with b in H; cbv iota in H end.
  - patch_step ltac:(rewrite Hy). rewrite guard_eq. destruct (y =? 0).
    + injection Hz as <-. rewrite insert_read by done. reflexivity.
    + patch_pc; erewrite run_patch_next; [|done|by apply Hdiv]. reflexivity.
  - patch_step ltac:(rewrite Hy). rewrite guard_ne. destruct (y =? 0).
    + injection Hz as <-.
      patch_step ltac:(rewrite Hx; cbn [alu32_exec]; rewrite Z.lxor_nilpotent; unfold write; rewrite decide_True by done).
      patch_step idtac. reflexivity.
    + patch_pc; erewrite run_patch_next; [|done|by apply Hdiv]. reflexivity.
  - patch_step ltac:(rewrite Hy). rewrite guard_eq. destruct (u32 y =? 0).
    + injection Hz as <-. patch_step ltac:(rewrite Hx; unfold write; rewrite decide_True by done). reflexivity.
    + patch_pc; erewrite run_patch_next; [|done|by apply Hdiv]. patch_step idtac. reflexivity.
  - patch_step ltac:(rewrite Hy). rewrite guard_ne. destruct (u32 y =? 0).
    + injection Hz as <-.
      patch_step ltac:(rewrite Hx; cbn [alu32_exec]; rewrite Z.lxor_nilpotent; unfold write; rewrite decide_True by done).
      patch_step idtac. reflexivity.
    + patch_pc; erewrite run_patch_next; [|done|by apply Hdiv]. reflexivity.
Qed.

(** ** Results *)

Lemma swab_range n x : 0 <= swab n x < 2 ^ (8 * Z.of_nat n).
Proof.
  revert x. induction n as [|n IH]; intros x; cbn [swab]; [cbn; lia|].
  specialize (IH (x / 256)). replace (8 * Z.of_nat (S n)) with (8 + 8 * Z.of_nat n) by lia.
  rewrite Z.pow_add_r by lia. pose proof (Z.mod_pos_bound x 256). nia.
Qed.

Lemma exec_end_range i x v : is_u64 x -> exec_end i x = Some v -> is_u64 v.
Proof.
  intros Hx. unfold exec_end. case_match; [done|].
  assert (H16 : is_u64 (u16 x)) by (unfold is_u64, u16; pose proof (Z.mod_pos_bound x (2 ^ 16)); lia).
  pose proof (swab_range 2 x) as S2. pose proof (swab_range 4 x) as S4. pose proof (swab_range 8 x) as S8. cbn in S2, S4, S8.
  pose proof (is_u32_is_u64 _ (u32_range x)).
  repeat case_match; intros [= <-]; try done; unfold is_u64; lia.
Qed.

(** Arithmetic other than division always has a result; division by a constant
    that is not zero has one, except the signed 64-bit one. *)
Lemma alu_exec_total op i x y :
  bool_decide (op ∈ [BPF_NEG; BPF_END; BPF_MOV]) = false ->
  (is_division op -> if BPF_CLASS (code i) =? BPF_ALU64 then i_off i <> 1 /\ y <> 0 else u32 y <> 0) ->
  exists z, alu_exec (alu_insn op i) x y = Some z.
Proof.
  intros Hop Hdiv. unfold alu_exec, alu_insn. cbn [alu64 opcode insn_off].
  assert (Hsw : forall (o : Z) (a b : option Z), is_Some a -> (o <> 1 \/ is_Some b) -> is_Some (switch_off o a b x)).
  { intros o a b Ha Hb. unfold switch_off. destruct (Z.eqb_spec o 0); [done|]. destruct (Z.eqb_spec o 1); [|by eauto]. by destruct Hb. }
  assert (Hu : forall v, v <> 0 -> is_Some (udiv x v) /\ is_Some (umod x v) /\ is_Some (udiv (u32 x) v) /\ is_Some (umod (u32 x) v)).
  { intros v Hv. unfold udiv, umod. destruct (Z.eqb_spec v 0); [done|]. by repeat split; eauto. }
  assert (Hs : u32 y <> 0 -> is_Some (sdiv32 x y) /\ is_Some (smod32 x y)).
  { intros Hy. assert (u32 (abs32 y) <> 0) as Ha by (revert Hy; unfold abs32; clear; cint).
    unfold sdiv32, smod32, udiv, umod. destruct (Z.eqb_spec (u32 (abs32 y)) 0); [done|]. cbn. by split; eauto. }
  destruct op; try done; destruct (BPF_CLASS (code i) =? BPF_ALU64) eqn:E; cbn [alu64_exec alu32_exec]; try (by eexists).
  - destruct (Hdiv (or_introl eq_refl)) as [Ho Hy]. by apply Hsw; [apply Hu|left].
  - pose proof (Hdiv (or_introl eq_refl)) as Hy. by apply Hsw; [apply Hu|right; apply Hs].
  - destruct (Hdiv (or_intror eq_refl)) as [Ho Hy]. by apply Hsw; [apply Hu|left].
  - pose proof (Hdiv (or_intror eq_refl)) as Hy. by apply Hsw; [apply Hu|right; apply Hs].
Qed.

(** ** Instructions with two operands *)

(** What the accepted instruction leaves alone. *)
Record kept (w w' : walk) : Prop := mk_kept {
  k_idx : insn_idx w' = insn_idx w;
  k_head : head w' = head w;
  k_size : stack_size w' = stack_size w;
  k_processed : insn_processed w' = insn_processed w;
  k_seen : seen w' = seen w;
  k_spec : speculative (cur w') = speculative (cur w);
  k_gen : id_gen w <= id_gen w' <= id_gen w + 1
}.

Section alu.
Context (env : bpf_verifier_env) (prog : list insn) (pc : Z) (i : insn).
Context (Hf : fetch prog pc = Some i) (Hcl : is_alu i) (Hfields : insn_fields i) (Hplain : pitfall i = false).

Definition alu_done (w : walk) (rf : reg_file) (w' : walk) : Prop := exists v,
  step_insn prog pc rf = Next (pc + 1) (<[dst_reg i := Some v]> rf) /\
  stands (id_gen w') (regs (cur w')) (<[dst_reg i := Some v]> rf) /\ kept w w'.

(** The interpreter's result of a binary operation. *)
Lemma exec_binary op rf x y :
  alu_op_of (BPF_OP (code i)) = Some op -> bool_decide (op ∈ [BPF_NEG; BPF_END; BPF_MOV]) = false ->
  alu_reserved op i = false -> shift_undefined op i = false ->
  bool_decide (op ∈ [BPF_MOD; BPF_DIV]) && src_is_k i && (i_imm i =? 0) = false ->
  read rf (dst_reg i) = Some x -> (dst_reg i < length rf)%nat -> is_u64 x -> is_u64 y ->
  (if src_is_k i then y = u64 (i_imm i) else read rf (src_reg i) = Some y) ->
  exists v, step_insn prog pc rf = Next (pc + 1) (<[dst_reg i := Some v]> rf) /\
    (alu_exec (alu_insn op i) x y = Some v \/
     is_division op /\ is_u64 v /\ (alu64 (alu_insn op i) = false -> is_u32 v)).
Proof.
  intros Hop Hbin Hres Hsh Hz Hx Hd Ux Uy Hy. destruct (needs_patch i) eqn:Hp.
  - destruct (needs_patch_op i Hp) as [Hdiv Hk]. rewrite Hk in Hy.
    assert (is_division op) as Hdo by (unfold is_division; destruct Hdiv; [left|right]; congruence).
    destruct (safe_division op i x y) as [v|] eqn:Hv.
    + exists v. split. { unfold step_insn. rewrite Hf, Hp. by rewrite (run_patchlet i op rf x y v). }
      unfold safe_division in Hv. case_match eqn:Ez; [right|by left]. injection Hv as <-. split; [done|].
      unfold alu_insn. cbn [alu64]. destruct Hdo as [-> | ->]; case_match; (split; [|intros; try discriminate]);
        first [done|apply is_u32_0|apply u32_range|apply is_u32_is_u64, is_u32_0|apply is_u32_is_u64, u32_range].
    + unfold safe_division in Hv. case_match eqn:Ez; [done|]. exfalso.
      destruct (alu_exec_total op i x y Hbin) as [v Hv']; [|congruence].
      intros _. unfold pitfall in Hplain. rewrite Hop in Hplain.
      destruct (BPF_CLASS (code i) =? BPF_ALU64) eqn:E64; [|lia]. rewrite orb_true_r in Hplain.
      split; [|lia]. destruct Hdo as [-> | ->]; lia.
  - assert (Hexec : forall z, alu_exec (alu_insn op i) x y = Some z -> exec_alu i rf = Some z).
    { intros z Hz'. unfold exec_alu. rewrite Hop. cbn [mbind option_bind].
      assert ((if src_is_k i then Some (u64 (i_imm i)) else read rf (src_reg i)) = Some y) as Ey
        by (destruct (src_is_k i); congruence).
      destruct op; try done; rewrite Hx, Ey; cbn [mbind option_bind]; by rewrite Hsh. }
    destruct (alu_exec_total op i x y Hbin) as [v Hv].
    { intros Hdiv. destruct (src_is_k i) eqn:Ek; [|by rewrite (patched_division i op (proj1 Hfields)) in Hp].
      assert (i_imm i <> 0) as Hne.
      { intros E. rewrite E in Hz. by destruct Hdiv as [-> | ->]. }
      destruct Hfields as (_ & _ & Hi). assert (u64 (i_imm i) <> 0 /\ u32 (u64 (i_imm i)) <> 0) as [N1 N2].
      { rewrite u32_u64. clear -Hne Hi. split; cint. }
      subst y. unfold pitfall in Hplain. rewrite Hop in Hplain.
      destruct (BPF_CLASS (code i) =? BPF_ALU64) eqn:E64; [|done]. rewrite orb_true_r in Hplain.
      split; [|done]. destruct Hdiv as [-> | ->]; lia. }
    exists v. split; [|by left]. by eapply step_alu; eauto.
Qed.

Lemma binary_off_ok op : alu_op_of (BPF_OP (code i)) = Some op -> alu_reserved op i = false -> off_ok (alu_insn op i).
Proof.
  intros Hop Hres. unfold off_ok, alu_insn. cbn [alu64 opcode insn_off]. intros E64 Hdiv.
  unfold pitfall in Hplain. rewrite Hop, E64 in Hplain. unfold alu_reserved in Hres.
  assert ((BPF_CLASS (code i) =? BPF_ALU) = true) as Ecl by (destruct Hcl as [E|E]; rewrite E in *; done).
  rewrite Ecl in Hplain. destruct Hdiv as [-> | ->]; cbn in Hplain; lia.
Qed.

(** The operands of a state that stands for the registers. *)
Context (g : Z) (rf : reg_file) (w : walk) (Hst : stands g (regs (cur w)) rf) (Hgen : id_gen w = g) (Hbound : g < U32_MAX).

Lemma kept_set_regs rs : kept w (set_regs rs w).
Proof. split; cbn; first [done|lia]. Qed.

Lemma done_fresh rs w' v :
  step_insn prog pc rf = Next (pc + 1) (<[dst_reg i := Some v]> rf) -> stands g rs rf -> (dst_reg i < MAX_BPF_REG)%nat ->
  kept w w' -> (exists r, regs (cur w') = <[dst_reg i := r]> rs /\ plain_scalar r /\ v ∈ r /\ reg_ok r) ->
  alu_done w rf w'.
Proof.
  intros Hs Hrs Hd Hk (r & Er & Hp & Hr). exists v. split; [done|]. split; [|done].
  rewrite Er. apply (stands_mono g); [destruct Hk; lia|]. by apply stands_fresh; [..|apply plain_holds|apply Hp].
Qed.

(** ** Negation and byte order *)
Lemma unary_sound reserved w' :
  check_unary env w i reserved = Ok w' ->
  (reserved = false -> forall x, read rf (dst_reg i) = Some x -> is_u64 x -> exists v, exec_alu i rf = Some v /\ is_u64 v) ->
  needs_patch i = false -> alu_done w rf w'.
Proof.
  unfold check_unary. destruct reserved; [done|]. intros Hc He Hp.
  destruct (check_reg_arg env _ _ SRC_OP) as [rs| |] eqn:E1; [|done..]. apply src_arg in E1 as (-> & Hn & Ht).
  cbn [mbind res_bind] in Hc. case_match; [done|].
  destruct (check_reg_arg env _ _ DST_OP) as [rs| |] eqn:E2; [|done..]. apply dst_mark_arg in E2 as (-> & _).
  injection Hc as <-. destruct (stands_read _ _ _ _ Hst Hn Ht) as (x & Hx & Ux & _).
  destruct (He eq_refl x Hx Ux) as (v & Hv & Uv). pose proof (st_file _ _ _ Hst).
  apply (done_fresh (regs (cur w)) _ v); [by eapply step_alu; [..|lia]|done..|apply kept_set_regs|].
  eexists. split; [done|]. split; [done|]. by apply mark_unknown_sound.
Qed.

(** ** Two operands *)

(** The destination without its id. *)
Local Abbreviation rs := (regs (cur w)).
Local Abbreviation dst := (reg_at rs (dst_reg i)).
Definition cleared : bpf_reg_state := if negb (reg_type dst =? SCALAR_VALUE) then dst else set_id 0 dst.
Local Abbreviation rs1 := (<[dst_reg i := cleared]> rs).

Lemma stands_cleared : (dst_reg i < MAX_BPF_REG)%nat -> stands g rs1 rf.
Proof using Hst.
  intros Hd. pose proof (st_len _ _ _ Hst) as Hl. pose proof (reg_at_in rs (dst_reg i) ltac:(lia)) as Hr.
  unfold cleared. destruct (Z.eqb_spec (reg_type dst) SCALAR_VALUE) as [Ht|]; cbn [negb]; [|by rewrite list_insert_id].
  exact (stands_forget _ _ _ _ _ (set_id 0 dst) Hst Hr eq_refl (st_holds _ _ _ Hst _ _ Hr)).
Qed.

Lemma cleared_type n : (dst_reg i < MAX_BPF_REG)%nat -> reg_type (reg_at rs1 n) = reg_type (reg_at rs n).
Proof using Hst.
  intros Hd. pose proof (st_len _ _ _ Hst) as Hl. destruct (decide (n = dst_reg i)) as [->|Hne].
  - rewrite reg_at_insert by lia. unfold cleared. by case_match.
  - unfold reg_at. by rewrite list_lookup_insert_ne.
Qed.

(** The source operand: its state and its value. *)
Local Abbreviation src := (if src_is_k i then off_reg (i_imm i) else reg_at rs1 (src_reg i)).
Lemma source_operand :
  (dst_reg i < MAX_BPF_REG)%nat ->
  (src_is_k i = false -> (src_reg i < MAX_BPF_REG)%nat /\ reg_type (reg_at rs (src_reg i)) <> NOT_INIT) ->
  exists y, is_u64 y /\ (if src_is_k i then y = u64 (i_imm i) else read rf (src_reg i) = Some y) /\
    (reg_type src = SCALAR_VALUE -> y ∈ src /\ reg_ok src).
Proof using Hst.
  intros Hd Hs. destruct (src_is_k i).
  - exists (u64 (i_imm i)). split; [apply u64_range|]. split; [done|]. intros _.
    apply mark_known_sound; [apply u64_range|]. vm_compute. repeat split; congruence.
  - destruct (Hs eq_refl) as [Hn Ht]. rewrite <- (cleared_type _ Hd) in Ht.
    destruct (stands_read _ _ _ _ (stands_cleared Hd) Hn Ht) as (y & Hy & Uy & Hsc & _). by exists y.
Qed.

Lemma alu_exec_range op x y z : off_ok (alu_insn op i) -> is_u64 x -> is_u64 y -> alu_exec (alu_insn op i) x y = Some z -> is_u64 z.
Proof.
  intros Ho Hx Hy. unfold alu_exec. destruct (alu64 _) eqn:E; [by apply alu64_range|].
  intros Hz. by eapply is_u32_is_u64, alu32_range; [apply Ho|].
Qed.

Lemma adjust_sound op w' :
  adjust_reg_min_max_vals env (set_regs rs w) op i = Ok w' ->
  alu_op_of (BPF_OP (code i)) = Some op -> bool_decide (op ∈ [BPF_NEG; BPF_END; BPF_MOV]) = false ->
  alu_reserved op i = false -> shift_undefined op i = false ->
  bool_decide (op ∈ [BPF_MOD; BPF_DIV]) && src_is_k i && (i_imm i =? 0) = false ->
  (dst_reg i < MAX_BPF_REG)%nat -> reg_type dst <> NOT_INIT ->
  (src_is_k i = false -> (src_reg i < MAX_BPF_REG)%nat /\ reg_type (reg_at rs (src_reg i)) <> NOT_INIT) ->
  alu_done w rf w'.
Proof using All.
  intros Ha Hop Hbin Hres Hsh Hz Hd Hdt Hs.
  pose proof (stands_cleared Hd) as Hst1. pose proof (st_file _ _ _ Hst) as Hlf. pose proof (st_len _ _ _ Hst) as Hl.
  destruct (source_operand Hd Hs) as (y & Uy & Hy & Hsrc).
  destruct (stands_read _ _ _ _ Hst Hd Hdt) as (x & Hx & Ux & Hdst & _).
  destruct (exec_binary op rf x y Hop Hbin Hres Hsh Hz Hx ltac:(lia) Ux Uy Hy) as (v & Hstep & Hv).
  pose proof (binary_off_ok op Hop Hres) as Hoff.
  unfold adjust_reg_min_max_vals in Ha. cbn [cur set_regs regs upd] in Ha. fold cleared in Ha.
  destruct (Z.eqb_spec (reg_type dst) SCALAR_VALUE) as [Ed|Nd];
    destruct (Z.eqb_spec (reg_type src) SCALAR_VALUE) as [Es|Ns]; cbn [negb andb orb] in Ha; [|done|done|].
  - assert (cleared = set_id 0 dst) as Ec by (unfold cleared; by rewrite Ed).
    destruct (adjust_scalar_min_max_vals _ _ _ _ _) as [[d' aux] err] eqn:Had.
    destruct (Z.eqb_spec err 0) as [->|]; [|done]. injection Ha as <-.
    apply (done_fresh rs1 _ v Hstep Hst1 Hd); [split; cbn; first [done|lia]|]. exists d'. split; [done|].
    split; [eapply plain_adjust, Had; rewrite Ec; by split|].
    destruct Hv as [Hv|(Hdv & Uv & V32)]; [|by eapply adjust_division_sound, Had].
    refine (adjust_scalar_sound env (alu_insn op i) cleared _ x y _ _ d' aux v Hoff Had Hv).
    destruct (Hdst Ed), (Hsrc Es). split; [rewrite Ec|]; split; assumption.
  - assert (op = BPF_SUB) as -> by (by destruct op). destruct (allow_ptr_leaks env); [|done]. injection Ha as <-.
    apply (done_fresh rs1 _ v Hstep Hst1 Hd); [split; cbn; first [done|lia]|].
    eexists. split; [cbn; by rewrite mark_unknown_eq|]. split; [done|]. apply mark_unknown_sound.
    destruct Hv as [Hv|([|] & _)]; [|done..]. by eapply alu_exec_range, Hv.
Qed.

Lemma binary_sound op w' :
  check_binary env w op i = Ok w' -> alu_op_of (BPF_OP (code i)) = Some op ->
  bool_decide (op ∈ [BPF_NEG; BPF_END; BPF_MOV]) = false -> alu_done w rf w'.
Proof using All.
  unfold check_binary. intros Hc Hop Hbin. destruct (alu_reserved op i) eqn:Hres; [done|].
  assert (exists rs', (if src_is_k i then Ok rs else check_reg_arg env rs (src_reg i) SRC_OP) = Ok rs') as [rs' Ers].
  { destruct (if src_is_k i then _ else _) as [rs'| |]; [by eauto|done..]. }
  rewrite Ers in Hc. cbn [mbind res_bind] in Hc.
  assert (rs' = rs /\ (src_is_k i = false -> (src_reg i < MAX_BPF_REG)%nat /\ reg_type (reg_at rs (src_reg i)) <> NOT_INIT)) as [-> Hs].
  { destruct (src_is_k i); [by injection Ers as <-|]. apply src_arg in Ers as (-> & H). by split. }
  destruct (check_reg_arg env rs (dst_reg i) SRC_OP) as [rs'| |] eqn:E1; [|done..]. apply src_arg in E1 as (-> & Hd & Hdt).
  cbn [mbind res_bind] in Hc. destruct (_ && _ && _) eqn:Hz; [done|]. destruct (shift_undefined op i) eqn:Hsh; [done|].
  destruct (check_reg_arg env rs (dst_reg i) DST_OP_NO_MARK) as [rs'| |] eqn:E2; [|done..]. apply dst_arg in E2 as (-> & _).
  cbn [mbind res_bind] in Hc. by eapply adjust_sound.
Qed.

(** ** Moves *)

(** The source of a move and the id that it may get. *)
Local Abbreviation srcr := (reg_at rs (src_reg i)).
Local Abbreviation need_id := ((reg_type srcr =? SCALAR_VALUE) && (reg_id srcr =? 0) && negb (tnum_is_const (var_off srcr))).
Local Abbreviation gen := (u32 (id_gen w + 1)).
Definition src_id (same : bool) : bpf_reg_state := if same && need_id then set_id gen srcr else srcr.
Definition copied (same : bool) : bpf_reg_state := if same then src_id same else set_id 0 (src_id same).
Definition copy_walk (same : bool) (r : bpf_reg_state) (w0 : walk) : walk :=
  set_regs (<[dst_reg i := r]> (<[src_reg i := src_id same]> rs)) (if same && need_id then w0 <| id_gen := gen |> else w0).

Lemma copy_sound same r v y :
  step_insn prog pc rf = Next (pc + 1) (<[dst_reg i := Some v]> rf) ->
  (dst_reg i < MAX_BPF_REG)%nat -> (src_reg i < MAX_BPF_REG)%nat -> read rf (src_reg i) = Some y ->
  meta r = meta (copied same) -> reg_holds r (Some v) -> (same = true -> reg_type srcr = SCALAR_VALUE -> v = y) ->
  alu_done w rf (copy_walk same r (set_regs rs w)).
Proof using Hst Hgen Hbound.
  intros Hstep Hd Hs Hy Hm Hr Hv. exists v. split; [done|].
  pose proof (st_len _ _ _ Hst) as Hl. pose proof (reg_at_in rs (src_reg i) ltac:(lia)) as Hlk.
  pose proof (st_ids _ _ _ Hst _ _ Hlk) as Hg.
  assert (gen = g + 1) as Eg by (rewrite Hgen; apply u32_id; unfold is_u32, U32_MAX in *; lia).
  unfold copied, src_id in Hm. unfold copy_walk, src_id. destruct (same && need_id) eqn:En.
  - apply andb_true_iff in En as [-> En]. rewrite Eg in *. split; [|split; cbn; try done; lia].
    apply (stands_copy (g + 1) (<[src_reg i := set_id (g + 1) srcr]> rs) rf (src_reg i) (dst_reg i)
      (set_id (g + 1) srcr) r y v); unfold reg_type, reg_id; rewrite ?Hm; try done.
    + by apply stands_new_id.
    + apply list_lookup_insert_eq. lia.
    + intros Ht _. by apply Hv.
  - rewrite (list_insert_id rs (src_reg i) srcr) by done. split; [|split; cbn; try done; lia]. cbn [cur set_regs regs upd id_gen]. rewrite Hgen.
    destruct same.
    + apply (stands_copy g rs rf (src_reg i) (dst_reg i) srcr r y v); unfold reg_type, reg_id; rewrite ?Hm; try done.
      intros Ht _. by apply Hv.
    + apply stands_fresh; try done. unfold reg_id. by rewrite Hm.
Qed.

Lemma step_mov y : alu_op_of (BPF_OP (code i)) = Some BPF_MOV -> src_is_k i = false -> read rf (src_reg i) = Some y ->
  (dst_reg i < MAX_BPF_REG)%nat ->
  step_insn prog pc rf = Next (pc + 1) (<[dst_reg i :=
    Some (exec_mov (BPF_CLASS (code i) =? BPF_ALU64) (i_off i) (default 0 (read rf (dst_reg i))) y)]> rf).
Proof using Hst Hf Hcl.
  intros Hop Hk Hy Hd. pose proof (st_file _ _ _ Hst). apply step_alu; try done; [|..|lia].
  - destruct (needs_patch i) eqn:Hp; [|done]. destruct (needs_patch_op i Hp) as [[H'|H'] _]; congruence.
  - unfold exec_alu. rewrite Hop. cbn [mbind option_bind]. by rewrite Hk, Hy.
Qed.

(** A value whose sign bit is known to be clear is not changed by sign extension. *)
Lemma no_sext_id size y : (size = 1 \/ size = 2) -> is_u64 y -> y < shl64 1 (size * 8 - 1) -> u32 (sext_size32 size y) = y.
Proof.
  intros [-> | ->] Hy Hlt; [change (shl64 1 _) with (2 ^ 7) in Hlt|change (shl64 1 _) with (2 ^ 15) in Hlt];
    unfold sext_size32; cbn [Z.eqb Pos.eqb]; clear -Hy Hlt; cint.
Qed.

Lemma mov_x_eq :
  let zext r := reg_bounds_sync (zext_32_to_64 r) in
  let no_sext := umax_value srcr <? shl64 1 (i_off i - 1) in
  let fits := umax_value srcr <=? U32_MAX in
  let size := Z.shiftr (i_off i) 3 in
  let w0 := set_regs rs w in
  mov_x env w0 i =
    if BPF_CLASS (code i) =? BPF_ALU64 then
      if i_off i =? 0 then Ok (copy_walk true (copied true) w0)
      else if is_pointer_value env rs (src_reg i) then Reject (- EACCES)
      else if reg_type srcr =? SCALAR_VALUE then Ok (copy_walk no_sext (coerce_reg_to_size_sx (copied no_sext) size) w0)
      else Ok (set_regs (mark_reg_unknown env rs (dst_reg i)) w0)
    else if is_pointer_value env rs (src_reg i) then Reject (- EACCES)
    else if reg_type srcr =? SCALAR_VALUE then
      if i_off i =? 0 then Ok (copy_walk fits (zext (copied fits)) w0)
      else Ok (copy_walk no_sext (zext (coerce_subreg_to_size_sx (copied no_sext) size)) w0)
    else Ok (set_regs (<[dst_reg i := zext (reg_at (mark_reg_unknown env rs (dst_reg i)) (dst_reg i))]> rs) w0).
Proof. reflexivity. Qed.

Lemma copied_scalar same y : reg_type srcr = SCALAR_VALUE -> holds srcr y ->
  reg_type (copied same) = SCALAR_VALUE /\ holds (copied same) y.
Proof. intros Ht Hh. unfold copied, src_id. destruct same; [destruct (true && need_id)|]; exact (conj Ht Hh). Qed.

(** A 32-bit move of a scalar. *)
Lemma mov32_sound same r z y :
  step_insn prog pc rf = Next (pc + 1) (<[dst_reg i := Some (u32 z)]> rf) ->
  (dst_reg i < MAX_BPF_REG)%nat -> (src_reg i < MAX_BPF_REG)%nat -> read rf (src_reg i) = Some y ->
  reg_type srcr = SCALAR_VALUE -> meta r = meta (copied same) -> u32 z ∈ r /\ reg_ok r -> (same = true -> u32 z = y) ->
  alu_done w rf (copy_walk same r (set_regs rs w)).
Proof using Hst Hgen Hbound.
  intros Hstep Hd Hs Hy Ht Hm [Hz Hok] Hsame. apply (copy_sound same r (u32 z) y); try done; [|auto].
  apply scalar_holds; [|done..]. unfold reg_type. rewrite Hm. unfold copied, src_id.
  destruct same; [destruct (true && need_id)|]; exact Ht.
Qed.

Lemma mov_x_sound w' :
  mov_x env (set_regs rs w) i = Ok w' -> alu_op_of (BPF_OP (code i)) = Some BPF_MOV -> src_is_k i = false ->
  mov_reserved i = false -> (dst_reg i < MAX_BPF_REG)%nat ->
  (src_reg i < MAX_BPF_REG)%nat -> reg_type srcr <> NOT_INIT -> alu_done w rf w'.
Proof using All.
  intros Hm Hop Hk Hres Hd Hs Ht. destruct (stands_read _ _ _ _ Hst Hs Ht) as (y & Hy & Uy & Hsc & Hnn).
  pose proof (step_mov y Hop Hk Hy Hd) as Hstep. pose proof (st_len _ _ _ Hst) as Hl.
  pose proof (reg_at_in rs (src_reg i) ltac:(lia)) as Hlk.
  assert (Hcopy : reg_holds srcr (Some y)) by (rewrite <- Hy; by apply (st_holds _ _ _ Hst)).
  rewrite mov_x_eq in Hm. cbv zeta in Hm. unfold mov_reserved in Hres. rewrite Hk in Hres.
  destruct (BPF_CLASS (code i) =? BPF_ALU64) eqn:E64.
  { assert (i_off i = 0) as E0.
    { unfold pitfall in Hplain. rewrite Hop, E64, Hk, orb_true_r in Hplain. unfold nonzero in Hplain. lia. }
    rewrite E0 in *. cbn [Z.eqb] in Hm. injection Hm as <-.
    refine (copy_sound true _ y y Hstep Hd Hs Hy eq_refl _ (fun _ _ => eq_refl)).
    unfold copied, src_id. destruct (true && need_id); exact Hcopy. }
  assert (i_off i = 0 \/ i_off i = 8 \/ i_off i = 16) as Hoff.
  { assert ((BPF_CLASS (code i) =? BPF_ALU) = true) as Ec by (destruct Hcl as [E|E]; rewrite E in *; done).
    rewrite Ec in Hres. apply orb_false_iff in Hres as [_ Hres%negb_false_iff%bool_decide_eq_true]. set_solver. }
  destruct (is_pointer_value env rs (src_reg i)); [done|]. destruct (Z.eqb_spec (reg_type srcr) SCALAR_VALUE) as [Es|Ns].
  - destruct (Hsc Es) as [Hin Hok]. pose proof (reg_ok_holds _ _ Hok Hin) as Hh.
    assert (y <= umax_value srcr) as Humax by (destruct Hin as (_ & [_ ?] & _); lia).
    assert (Hsx : forall size, size = 1 \/ size = 2 -> i_off i = size * 8 ->
      exec_mov false (i_off i) (default 0 (read rf (dst_reg i))) y = u32 (sext_size32 size y) -> alu_done w rf w').
    { intros size Hsz Eo Ev. rewrite Ev in Hstep. rewrite Eo in Hm. clear Ev Hoff. rewrite (proj2 (Z.eqb_neq (size * 8) 0)) in Hm by lia.
      rewrite Z.shiftr_div_pow2, Z.div_mul in Hm by lia. injection Hm as <-.
      apply (mov32_sound _ _ (sext_size32 size y) y); try done.
      - by rewrite meta_sync, meta_zext, meta_subreg_sx.
      - apply sync_sound, coerce_subreg_sx_holds; [done|]. by apply copied_scalar.
      - intros Hlt. apply no_sext_id; [done..|lia]. }
    destruct Hoff as [E0|[E8|E16]]; [|apply (Hsx 1); [by left|done|by rewrite E8]|apply (Hsx 2); [by right|done|by rewrite E16]].
    rewrite E0 in *. cbn [Z.eqb] in Hm. injection Hm as <-. apply (mov32_sound _ _ y y); try done.
    + by rewrite meta_sync, meta_zext.
    + apply sync_sound, zext_sound, holds_32. by apply copied_scalar.
    + intros Hle. apply u32_id. unfold is_u32, is_u64, U32_MAX in *. lia.
  - injection Hm as <-.
    assert (exists z, exec_mov false (i_off i) (default 0 (read rf (dst_reg i))) y = u32 z) as [z Ez].
    { destruct Hoff as [-> | [-> | ->]]; by eexists. }
    rewrite Ez in Hstep. apply (done_fresh rs _ _ Hstep Hst Hd); [apply kept_set_regs|].
    eexists. split; [done|]. rewrite mark_unknown_eq, reg_at_insert by lia. split.
    + eapply plain_meta; [by rewrite meta_sync, meta_zext|]. done.
    + rewrite <- (u32_id (u32 z)) by apply u32_range. apply sync_sound, zext_sound, holds_32.
      by apply unknown_holds, is_u32_is_u64, u32_range.
Qed.

Lemma mov_sound w' :
  check_mov env w i = Ok w' -> alu_op_of (BPF_OP (code i)) = Some BPF_MOV -> alu_done w rf w'.
Proof using All.
  unfold check_mov. intros Hc Hop. destruct (mov_reserved i) eqn:Hres; [done|].
  destruct (src_is_k i) eqn:Hk; cbn [mbind res_bind] in Hc.
  - destruct (check_reg_arg env rs (dst_reg i) DST_OP_NO_MARK) as [rs'| |] eqn:E2; [|done..]. apply dst_arg in E2 as (-> & Hd).
    injection Hc as <-. pose proof (st_file _ _ _ Hst). pose proof (st_len _ _ _ Hst).
    set (v := if BPF_CLASS (code i) =? BPF_ALU64 then u64 (i_imm i) else u32 (i_imm i)).
    assert (is_u64 v) as Uv by (unfold v; case_match; [apply u64_range|apply is_u32_is_u64, u32_range]).
    apply (done_fresh rs _ v); [|done..|apply kept_set_regs|].
    + apply step_alu; try done; [|..|lia].
      * destruct (needs_patch i) eqn:Hp; [|done]. destruct (needs_patch_op i Hp) as [_ H']; congruence.
      * unfold exec_alu. rewrite Hop. cbn [mbind option_bind]. by rewrite Hk.
    + eexists. split; [done|]. split; [done|]. rewrite mark_unknown_eq, reg_at_insert by lia.
      apply mark_known_sound; [done|]. exact (proj1 (proj2 (mark_unknown_sound env dst v Uv))).
  - destruct (check_reg_arg env rs (src_reg i) SRC_OP) as [rs'| |] eqn:E1; [|done..]. apply src_arg in E1 as (-> & Hs & Ht).
    cbn [mbind res_bind] in Hc.
    destruct (check_reg_arg env rs (dst_reg i) DST_OP_NO_MARK) as [rs'| |] eqn:E2; [|done..]. apply dst_arg in E2 as (-> & Hd).
    by apply mov_x_sound.
Qed.

Lemma not_patched op : alu_op_of (BPF_OP (code i)) = Some op -> ~ is_division op -> needs_patch i = false.
Proof.
  intros Hop Hn. destruct (needs_patch i) eqn:Hp; [|done]. destruct (needs_patch_op i Hp) as [[E|E] _];
    rewrite Hop in E; injection E as ->; destruct Hn; [by left|by right].
Qed.

(** The whole of [check_alu_op]. *)
Lemma alu_sound w' : check_alu_op env w i = Ok w' -> alu_done w rf w'.
Proof using All.
  unfold check_alu_op. destruct (alu_op_of (BPF_OP (code i))) as [op|] eqn:Hop; [|done]. intros Hc.
  destruct op; try (by apply (binary_sound _ w' Hc)).
  - apply (unary_sound (neg_reserved i) w' Hc); [|by eapply not_patched; [|intros [|]]].
    intros Hr x Hx _. unfold exec_alu. rewrite Hop. cbn [mbind option_bind].
    assert (src_is_k i = true) as -> by (unfold neg_reserved in Hr; destruct (src_is_k i); done).
    rewrite Hx. cbn [mbind option_bind]. eexists. split; [done|].
    case_match; [apply u64_range|apply is_u32_is_u64, u32_range].
  - by apply mov_sound.
  - apply (unary_sound (end_reserved i) w' Hc); [|by eapply not_patched; [|intros [|]]].
    intros Hr x Hx Ux. unfold exec_alu. rewrite Hop, Hx. cbn [mbind option_bind].
    destruct (exec_end i x) as [v|] eqn:Hv; [exists v; split; [done|by eapply exec_end_range]|].
    exfalso. unfold exec_end in Hv. unfold end_reserved in Hr. apply orb_false_iff in Hr as [_ Hr].
    rewrite Hr in Hv. by repeat case_match.
Qed.
End alu.
