(* ===== verification/BpfCheckJmp.v ===== *)
(** * Soundness of the checks of conditional jumps

    When [check_cond_jmp_op] accepts a jump, the interpreter takes one of the
    branches that the verifier goes on to explore, and the state of that branch
    stands for the registers. *)
From S2P Require Import Prelude Bits Tnum TnumThms BpfReg BpfRegThms BpfCoerce BpfAlu BpfJmp BpfJmpThms BpfProg BpfCheck BpfMeta BpfStands BpfCheckAlu.

(** ** Operands *)

Lemma cond_jmp_low op x y : cond_jmp op true x (u32 y) = cond_jmp op true x y.
Proof. unfold cond_jmp. by rewrite s32_u32, (u32_id (u32 y)) by apply u32_range. Qed.
Lemma cond_jmp_low_l op x y : cond_jmp op true (u32 x) y = cond_jmp op true x y.
Proof. unfold cond_jmp. by rewrite s32_u32, (u32_id (u32 x)) by apply u32_range. Qed.

Lemma subreg_const a : tnum_is_const a = true -> tnum_is_const (tnum_subreg a) = true.
Proof.
  unfold tnum_is_const. rewrite !Z.eqb_eq. intros Hm. apply Z.bits_inj'. intros j Hj.
  rewrite mask_subreg, Hm, Z.bits_0 by done. apply andb_false_r.
Qed.

(** The value of a known register, at the width of the comparison. *)
Lemma cmp_value_sound is32 r v y : cmp_value is32 r = Some v -> y ∈ r ->
  reg_type r = SCALAR_VALUE /\ v = if is32 then u32 y else y.
Proof.
  unfold cmp_value. destruct (Z.eqb_spec (reg_type r) SCALAR_VALUE) as [Ht|]; [|done]. cbn [andb].
  case_match eqn:Hc; [|done]. intros [= <-] (Hy & _). split; [done|].
  destruct is32; [|by apply const_member]. apply const_member; [by apply tnum_subreg_sound|done].
Qed.

Lemma cmp_const_sound is32 r y : cmp_const is32 r = true -> y ∈ r ->
  is_u64 (value (var_off r)) /\ is_u32 (value (tnum_subreg (var_off r))) /\
  (if is32 then value (tnum_subreg (var_off r)) = u32 y else value (var_off r) = y).
Proof.
  intros Hc (Hy & _). pose proof (tnum_subreg_sound _ _ Hy) as Hs.
  destruct (elem_of_wf _ _ Hy) as (Hv & _). split; [done|].
  assert (tnum_is_const (tnum_subreg (var_off r)) = true \/ is32 = false) as Hsub.
  { unfold cmp_const in Hc. destruct is32; [left|by right]. apply orb_true_iff in Hc as [Hc|Hc]; [by apply subreg_const|done]. }
  assert (is_u32 (value (tnum_subreg (var_off r)))) as H32.
  { change (is_u32 (Z.land (value (var_off r)) (Z.ones 32))). rewrite Z.land_ones by lia. apply u32_range. }
  split; [done|]. unfold cmp_const in Hc. destruct is32.
  - destruct Hsub as [Hsub|]; [|done]. by apply const_member.
  - rewrite orb_false_r in Hc. by apply const_member.
Qed.

Section jmp.
Context (env : bpf_verifier_env) (kzalloc_ok : Z -> bool) (prog : list insn) (pc : Z) (i : insn) (op : jmp_op).
Context (Hf : fetch prog pc = Some i) (Hcl : BPF_CLASS (code i) = BPF_JMP \/ BPF_CLASS (code i) = BPF_JMP32).
Context (Hop : jmp_op_of (BPF_OP (code i)) = Some op).
Context (g : Z) (rs : list bpf_reg_state) (rf : reg_file) (Hst : stands g rs rf).
Local Abbreviation is32 := (BPF_CLASS (code i) =? BPF_JMP32).
Local Abbreviation dst := (reg_at rs (dst_reg i)).
Local Abbreviation src := (reg_at rs (src_reg i)).

(** The values that are compared. *)
Context (x y : Z) (Hd : (dst_reg i < MAX_BPF_REG)%nat) (Hx : read rf (dst_reg i) = Some x).
Context (Hdx : reg_type dst = SCALAR_VALUE -> x ∈ dst /\ reg_ok dst) (Hdn : reg_not_null dst = false).
Context (Hs : src_is_k i = false -> (src_reg i < MAX_BPF_REG)%nat /\ reg_not_null src = false).
Context (Hsy : src_is_k i = false -> reg_type src = SCALAR_VALUE -> y ∈ src /\ reg_ok src).
Context (Hy : if src_is_k i then y = u64 (i_imm i) else read rf (src_reg i) = Some y).
Local Abbreviation taken := (cond_jmp op is32 x y).

(** The interpreter. *)
Lemma step_jmp : step_insn prog pc rf = Next (pc + (if taken then i_off i else 0) + 1) rf.
Proof using Hf Hcl Hop Hx Hy.
  unfold step_insn. rewrite Hf, (jmp_not_patched i Hcl).
  unfold exec_insn. rewrite Hf. cbn [mbind option_bind].
  assert ((BPF_CLASS (code i) =? BPF_ALU) || (BPF_CLASS (code i) =? BPF_ALU64) = false) as -> by (by destruct Hcl as [-> | ->]).
  assert ((BPF_CLASS (code i) =? BPF_JMP) || (BPF_CLASS (code i) =? BPF_JMP32) = true) as -> by (by destruct Hcl as [-> | ->]).
  unfold exec_jmp.
  destruct (Z.eqb_spec (BPF_OP (code i)) BPF_JA) as [E|_]; [by rewrite E in Hop|].
  destruct (Z.eqb_spec (BPF_OP (code i)) BPF_EXIT) as [E|_]; [by rewrite E in Hop|].
  rewrite Hop, Hx. cbn [mbind option_bind].
  assert ((if src_is_k i then Some (u64 (i_imm i)) else read rf (src_reg i)) = Some y) as ->
    by (clear Hs Hsy; destruct (src_is_k i); congruence).
  done.
Qed.

(** ** Predictions *)

Lemma pointer_unpredicted r v o b : reg_type r <> SCALAR_VALUE -> reg_not_null r = false -> is_branch_taken r v o b = -1.
Proof.
  unfold reg_type. intros Ht Hn. unfold is_branch_taken, __is_pointer_value.
  destruct (Z.eqb_spec (type (meta r)) SCALAR_VALUE); [done|]. by rewrite Hn.
Qed.

Lemma predict_sound : agrees (predict op is32 i dst src) taken.
Proof using Hdx Hdn Hs Hsy Hy.
  assert (Hun : forall b, agrees (-1) b) by (intros b; by split).
  assert (Hdst : forall v, (if is32 then u32 v = u32 y else v = y) -> agrees (is_branch_taken dst v op is32) taken).
  { intros v Ev. destruct (decide (reg_type dst = SCALAR_VALUE)) as [Ht|Ht]; [|by rewrite pointer_unpredicted].
    pose proof (branch_sound dst x v op is32 Ht (proj1 (Hdx Ht))) as H. destruct is32; [|by subst v].
    by rewrite <- cond_jmp_low, Ev, cond_jmp_low in H. }
  unfold predict. destruct (src_is_k i) eqn:Hk; [apply Hdst; rewrite Hy; by case_match|].
  destruct (Hs eq_refl) as [_ Hsn].
  destruct (cmp_value is32 src) as [v|] eqn:Hv.
  { assert (reg_type src = SCALAR_VALUE) as Ht by (unfold cmp_value in Hv; by destruct (Z.eqb_spec (reg_type src) SCALAR_VALUE)).
    destruct (cmp_value_sound _ _ _ y Hv (proj1 (Hsy eq_refl Ht))) as [_ ->].
    apply Hdst. destruct is32; [apply u32_id, u32_range|done]. }
  destruct (cmp_value is32 dst) as [v|] eqn:Hv'; [|apply Hun].
  assert (reg_type dst = SCALAR_VALUE) as Ht by (unfold cmp_value in Hv'; by destruct (Z.eqb_spec (reg_type dst) SCALAR_VALUE)).
  destruct (cmp_value_sound _ _ _ x Hv' (proj1 (Hdx Ht))) as [_ ->].
  destruct (decide (reg_type src = SCALAR_VALUE)) as [Hts|Hts]; [|by rewrite pointer_unpredicted].
  pose proof (branch_sound src y (if is32 then u32 x else x) (flip_opcode op) is32 Hts (proj1 (Hsy eq_refl Hts))) as H.
  rewrite flip_sound in H. destruct is32; [by rewrite cond_jmp_low_l in H|done].
Qed.

(** ** Refinement *)

(** The registers of the branch taken, of (this branch, the other branch). *)
Definition branch_stands (b : bool) (p : list bpf_reg_state * list bpf_reg_state) : Prop :=
  let rs' := if b then p.2 else p.1 in
  stands g rs' rf /\ forall n, reg_type (reg_at rs' n) = reg_type (reg_at rs n).

Lemma branch_same b : branch_stands b (rs, rs).
Proof using Hst. by destruct b. Qed.

Lemma refined_in n r rs0 z : stands g rs0 rf -> (n < MAX_BPF_REG)%nat -> reg_type (reg_at rs0 n) = SCALAR_VALUE ->
  meta r = meta (reg_at rs0 n) -> read rf n = Some z -> z ∈ r -> reg_ok r ->
  stands g (<[n := r]> rs0) rf /\ forall m, reg_type (reg_at (<[n := r]> rs0) m) = reg_type (reg_at rs0 m).
Proof.
  intros Hst0 Hn Ht Hm Hz Hin Hok. pose proof (st_len _ _ _ Hst0) as Hl. split.
  - apply (stands_refine g rs0 rf n (reg_at rs0 n) r); unfold reg_type, reg_id in *; rewrite ?Hm; try done.
    + apply reg_at_in. by rewrite Hl.
    + rewrite Hz. apply scalar_holds; [|done..]. unfold reg_type. by rewrite Hm.
  - intros m. destruct (decide (m = n)) as [->|Hne].
    + rewrite reg_at_insert by (by rewrite Hl). unfold reg_type. by rewrite Hm.
    + unfold reg_at. by rewrite list_lookup_insert_ne.
Qed.

(** One register compared with a constant. *)
Lemma refine_one n r z o val val32 (b : bool) :
  reg_at rs n = r -> (n < MAX_BPF_REG)%nat -> reg_type r = SCALAR_VALUE -> read rf n = Some z -> z ∈ r -> reg_ok r ->
  is_u64 val -> is_u32 val32 -> b = cond_jmp o is32 z (if is32 then val32 else val) ->
  let p := reg_set_min_max r r val val32 o is32 in branch_stands b (<[n := p.2]> rs, <[n := p.1]> rs).
Proof using Hst.
  intros <- Hn Ht Hz Hin Hok Hv Hv32 Eb p.
  destruct (meta_set_min_max (reg_at rs n) (reg_at rs n) val val32 o is32) as [M1 M2].
  destruct (refine_const_sound (reg_at rs n) z val val32 o is32 p.1 p.2 Ht Hok Hin Hv Hv32 (surjective_pairing p)) as [R1 R2].
  rewrite <- Eb in R1, R2. unfold branch_stands. cbn [fst snd]. destruct b; by apply (refined_in _ _ _ z).
Qed.

Lemma combine_into_sound : x = y -> src_is_k i = false -> reg_type dst = SCALAR_VALUE -> reg_type src = SCALAR_VALUE ->
  let rs' := combine_into rs (dst_reg i) (src_reg i) in
  stands g rs' rf /\ forall n, reg_type (reg_at rs' n) = reg_type (reg_at rs n).
Proof using Hst Hdx Hsy Hd Hs Hx Hy.
  intros Exy Hk Htd Hts. destruct (Hs Hk) as [Hsl _]. destruct (Hdx Htd) as [Dx Dok]. destruct (Hsy Hk Hts) as [Sy Sok].
  rewrite Hk in Hy. subst y. pose proof (combine_sound src dst x (proj1 Sok) (proj1 Dok) Sy Dx) as Hc.
  destruct (meta_combine_min_max src dst) as [Ms Md]. unfold combine_into.
  destruct (__reg_combine_min_max src dst) as [s d] eqn:E. cbn [fst snd] in Ms, Md. destruct Hc as [[C1 C2] [C3 C4]].
  cbv zeta. case_decide as Eds.
  - destruct (sync_sound s x (reg_ok_holds _ _ C2 C1)). apply (refined_in _ _ _ x); try done. by rewrite meta_sync.
  - destruct (refined_in (src_reg i) s rs x Hst Hsl Hts Ms Hy C1 C2) as [Hst' Ht'].
    assert (reg_at (<[src_reg i := s]> rs) (dst_reg i) = dst) as Ed by (unfold reg_at; by rewrite list_lookup_insert_ne).
    destruct (refined_in (dst_reg i) d (<[src_reg i := s]> rs) x) as [H1 H2]; rewrite ?Ed; try done.
    split; [done|]. intros n. by rewrite H2, Ht'.
Qed.

Lemma refine_scalars_sound :
  reg_type dst = SCALAR_VALUE -> (src_is_k i = false -> reg_type src = SCALAR_VALUE) ->
  branch_stands taken (refine_scalars op is32 i rs).
Proof using Hst Hdx Hsy Hd Hs Hx Hy.
  intros Htd Hts. pose proof combine_into_sound as Hc. destruct (Hdx Htd) as [Dx Dok]. unfold refine_scalars. cbv zeta.
  destruct (src_is_k i) eqn:Hk.
  - assert (taken = cond_jmp op is32 x (if is32 then u32 (i_imm i) else u64 (i_imm i))) as Et.
    { rewrite Hy. destruct is32; [|done]. by rewrite <- cond_jmp_low, u32_u64. }
    pose proof (refine_one (dst_reg i) dst x op (u64 (i_imm i)) (u32 (i_imm i)) taken eq_refl Hd Htd Hx Dx Dok
      (u64_range _) (u32_range _) Et) as H. by destruct (reg_set_min_max _ _ _ _ _ _).
  - specialize (Hts eq_refl). destruct (Hsy eq_refl Hts) as [Sy Sok]. destruct (Hs eq_refl) as [Hsl _].
    destruct (cmp_const is32 src) eqn:Hcs; [|destruct (cmp_const is32 dst) eqn:Hcd].
    + destruct (cmp_const_sound is32 src y Hcs Sy) as (V1 & V2 & V3).
      assert (taken = cond_jmp op is32 x (if is32 then value (tnum_subreg (var_off src)) else value (var_off src))) as Et.
      { destruct is32; rewrite V3; [|done]. by rewrite cond_jmp_low. }
      pose proof (refine_one (dst_reg i) dst x op _ _ taken eq_refl Hd Htd Hx Dx Dok V1 V2 Et) as H.
      by destruct (reg_set_min_max _ _ _ _ _ _).
    + destruct (cmp_const_sound is32 dst x Hcd Dx) as (V1 & V2 & V3).
      assert (taken = cond_jmp (flip_opcode op) is32 y
        (if is32 then value (tnum_subreg (var_off dst)) else value (var_off dst))) as Et.
      { rewrite flip_sound. destruct is32; rewrite V3; [|done]. by rewrite cond_jmp_low_l. }
      pose proof (refine_one (src_reg i) src y _ _ _ taken eq_refl Hsl Hts Hy Sy Sok V1 V2 Et) as H.
      unfold reg_set_min_max_inv. by destruct (reg_set_min_max _ _ _ _ _ _).
    + destruct is32 eqn:E32; [apply branch_same|].
      clear Hop. destruct op; cbn [cond_jmp]; try apply branch_same; destruct (Z.eqb_spec x y); cbn [negb];
        try (by apply (branch_same true)); by apply Hc.
Qed.

Lemma find_equal_type known l m : reg_type known = SCALAR_VALUE ->
  reg_type (reg_at (find_equal_scalars known l) m) = reg_type (reg_at l m).
Proof.
  intros Ht. unfold reg_at, find_equal_scalars. rewrite list_lookup_fmap. destruct (l !! m) as [r|]; [|done].
  change (reg_type (if (reg_type r =? SCALAR_VALUE) && (reg_id r =? reg_id known) then known else r) = reg_type r).
  destruct (Z.eqb_spec (reg_type r) SCALAR_VALUE); [|done]. cbn [andb]. destruct (reg_id r =? reg_id known); congruence.
Qed.

Lemma propagate_sound n b p : (n < MAX_BPF_REG)%nat -> reg_type (reg_at rs n) = SCALAR_VALUE ->
  branch_stands b p -> branch_stands b (propagate n p).
Proof.
  intros Hn Ht. destruct p as [this other]. unfold branch_stands, propagate. cbn [fst snd]. intros [Hst' Ht'].
  destruct (nonzero _ && _) eqn:E; [|done]. cbn [fst snd]. unfold nonzero in E.
  apply andb_true_iff in E as [E1%negb_true_iff%Z.eqb_neq E2%Z.eqb_eq].
  pose proof (st_len _ _ _ Hst') as Hl. assert (reg_type (reg_at (if b then other else this) n) = SCALAR_VALUE) as Hk by congruence.
  pose proof (reg_at_in (if b then other else this) n ltac:(by rewrite Hl)) as Hlk.
  destruct b; (split; [eapply stands_propagate; [done..|congruence]|]);
    intros m; rewrite find_equal_type by done; apply Ht'.
Qed.

Lemma branch_regs_sound : branch_stands taken (branch_regs op is32 i rs).
Proof using Hst Hdx Hsy Hd Hs Hx Hy.
  pose proof refine_scalars_sound as Hr. unfold branch_regs.
  destruct (Z.eqb_spec (reg_type dst) SCALAR_VALUE) as [Htd|]; cbn [negb]; [|apply branch_same].
  apply propagate_sound; [done..|]. destruct (src_is_k i) eqn:Hk; [by apply Hr|].
  destruct (Z.eqb_spec (reg_type src) SCALAR_VALUE) as [Hts|]; [|apply branch_same].
  apply propagate_sound; [by apply Hs|done|]. by apply Hr.
Qed.
End jmp.

(** ** The check *)

(** What an accepted jump leaves alone; the states to explore are still there. *)
Record jmp_kept (w w' : walk) : Prop := mk_jmp_kept {
  jk_gen : id_gen w' = id_gen w;
  jk_processed : insn_processed w' = insn_processed w;
  jk_seen : seen w' = seen w;
  jk_spec : speculative (cur w') = speculative (cur w);
  jk_head : forall e, e ∈ head w -> e ∈ head w'
}.

Lemma push_kept kzalloc_ok w idx v w' : push_stack kzalloc_ok w idx v = Some w' ->
  w' = w <| head := mk_elem v (u32 idx) :: head w |> <| stack_size := stack_size w + 1 |>.
Proof. unfold push_stack. case_match; [done|]. cbv zeta. case_match; [done|]. by intros [= <-]. Qed.

Section check.
Context (env : bpf_verifier_env) (kzalloc_ok : Z -> bool) (prog : list insn) (pc : Z) (i : insn).
Context (Hf : fetch prog pc = Some i) (Hcl : BPF_CLASS (code i) = BPF_JMP \/ BPF_CLASS (code i) = BPF_JMP32).

Lemma speculate_kept w j idx w' :
  (if bypass_spec_v1 env then Some w else sanitize_speculative_path env kzalloc_ok w j idx) = Some w' ->
  jmp_kept w w' /\ insn_idx w' = insn_idx w /\ cur w' = cur w.
Proof.
  case_match; [by intros [= <-]|]. unfold sanitize_speculative_path. cbv zeta. intros ->%push_kept.
  split; [|done]. split; try done. intros e He. by right.
Qed.

Lemma follow_kept w j pred branches w' : follow env kzalloc_ok w j pred branches = Ok w' -> jmp_kept w w'.
Proof.
  unfold follow. cbv zeta. destruct (pred =? 1); [|destruct (pred =? 0)].
  - destruct (if bypass_spec_v1 env then _ else _) as [w1|] eqn:Hs; [|done].
    apply speculate_kept in Hs as ([K1 K2 K3 K4 K5] & _). by intros [= <-].
  - destruct (if bypass_spec_v1 env then _ else _) as [w1|] eqn:Hs; [|done].
    apply speculate_kept in Hs as [Hk _]. by intros [= <-].
  - destruct branches as [this other]. destruct (push_stack _ _ _ _) as [w1|] eqn:Hs; [|done]. apply push_kept in Hs as ->.
    destruct (is_pointer_value env this (dst_reg j)); [done|]. intros [= <-]. split; try done. intros e He. by right.
Qed.

(** The branch that is taken is explored. *)
Definition explored g rf (w w' : walk) (taken : bool) : Prop :=
  u32 (insn_idx w' + 1) = u32 (insn_idx w + (if taken then i_off i else 0) + 1) /\ stands g (regs (cur w')) rf \/
  taken = true /\ exists e, e ∈ head w' /\ elem_idx e = u32 (insn_idx w + i_off i + 1) /\
    speculative (st e) = speculative (cur w) /\ stands g (regs (st e)) rf.

Lemma follow_sound g rf w w' pred taken branches :
  follow env kzalloc_ok w i pred branches = Ok w' -> stands g (regs (cur w)) rf -> agrees pred taken ->
  branch_stands g (regs (cur w)) rf taken branches -> explored g rf w w' taken.
Proof.
  unfold follow. intros Hc Hst [Hp1 Hp0] Hb. cbv zeta in Hc.
  destruct (Z.eqb_spec pred 1) as [E|_].
  { rewrite (Hp1 E). destruct (if bypass_spec_v1 env then _ else _) as [w1|] eqn:Hs; [|done].
    apply speculate_kept in Hs as (_ & Hi & Hcu). injection Hc as <-.
    left. cbn. rewrite Hi, Hcu. split; [|done]. clear. cint. }
  destruct (Z.eqb_spec pred 0) as [E|_].
  { rewrite (Hp0 E). destruct (if bypass_spec_v1 env then _ else _) as [w1|] eqn:Hs; [|done].
    apply speculate_kept in Hs as (_ & Hi & Hcu). injection Hc as <-. left. by rewrite Hi, Hcu, Z.add_0_r. }
  destruct branches as [this other]. destruct (push_stack _ _ _ _) as [w1|] eqn:Hs; [|done]. apply push_kept in Hs as ->.
  destruct (is_pointer_value env this (dst_reg i)); [done|]. injection Hc as <-.
  destruct taken; destruct Hb as [Hb _]; [right|left].
  - split; [done|]. eexists. split; [left|]. done.
  - split; [by rewrite Z.add_0_r|done].
Qed.

Lemma cond_jmp_sound g rf w w' :
  check_cond_jmp_op env kzalloc_ok w i = Ok w' -> stands g (regs (cur w)) rf ->
  exists taken : bool, step_insn prog pc rf = Next (pc + (if taken then i_off i else 0) + 1) rf /\
    explored g rf w w' taken.
Proof using Hf Hcl.
  unfold check_cond_jmp_op. intros Hc Hst. destruct (jmp_op_of _) as [op|] eqn:Hop; [|done]. cbv zeta in Hc.
  set (rs := regs (cur w)) in *.
  destruct (check_reg_arg env rs (dst_reg i) SRC_OP) as [rs'| |] eqn:E1; [|done..]. apply src_arg in E1 as (-> & Hd & Hdt).
  cbn [mbind res_bind] in Hc. case_match eqn:Hres; [done|]. clear Hres.
  assert (exists rs', (if src_is_k i then Ok rs else check_reg_arg env rs (src_reg i) SRC_OP) = Ok rs') as [rs' Ers].
  { destruct (if src_is_k i then _ else _) as [rs'| |]; [by eauto|done..]. }
  rewrite Ers in Hc. cbn [mbind res_bind] in Hc.
  assert (rs' = rs /\ (src_is_k i = false -> (src_reg i < MAX_BPF_REG)%nat /\ reg_type (reg_at rs (src_reg i)) <> NOT_INIT)) as [-> Hs].
  { destruct (src_is_k i); [by injection Ers as <-|]. apply src_arg in Ers as (-> & H). by split. }
  destruct (negb _ && negb _ && _); [done|]. destruct (outside_pointer _ || _); [done|].
  destruct (stands_read _ _ _ _ Hst Hd Hdt) as (x & Hx & _ & Hdx & Hdn).
  assert (exists y, (if src_is_k i then y = u64 (i_imm i) else read rf (src_reg i) = Some y) /\
    (src_is_k i = false -> (src_reg i < MAX_BPF_REG)%nat /\ reg_not_null (reg_at rs (src_reg i)) = false) /\
    (src_is_k i = false -> reg_type (reg_at rs (src_reg i)) = SCALAR_VALUE ->
       y ∈ reg_at rs (src_reg i) /\ reg_ok (reg_at rs (src_reg i)))) as (y & Hy & Hsn & Hsy).
  { destruct (src_is_k i); [by eexists|]. destruct (Hs eq_refl) as [Hl Ht].
    destruct (stands_read _ _ _ _ Hst Hl Ht) as (y & Hy & _ & H1 & H2). exists y. eauto. }
  pose proof (step_jmp prog pc i op Hf Hcl Hop rf x y Hx Hy) as Hstep.
  pose proof (predict_sound i op rs rf x y Hdx Hdn Hsn Hsy Hy) as Hp.
  pose proof (branch_regs_sound i op g rs rf Hst x y Hd Hx Hdx Hsn Hsy Hy) as Hb.
  eexists. split; [exact Hstep|]. by eapply follow_sound.
Qed.
End check.
