(* ===== verification/BpfCheckWalk.v ===== *)
(** * Soundness of the walk

    When no state is pruned, every state on the verifier's stack is explored, so an
    accepted program runs to its [exit]: from each register file that a state stands for, the
    interpreter makes a step to one that a state of the next turn stands for. *)
From S2P Require Import Prelude Bits Tnum TnumThms BpfReg BpfRegThms BpfCoerce BpfAlu BpfAluSound BpfJmp BpfJmpThms BpfProg BpfCheck BpfMeta BpfStands BpfCheckAlu BpfCheckJmp.

(** ** 64-bit immediates *)

Lemma ld_imm_code c : 0 <= c < 256 -> BPF_CLASS c = BPF_LD -> BPF_MODE c = 0 -> BPF_SIZE c = BPF_DW ->
  c = Z.lor BPF_LD BPF_DW.
Proof.
  intros Hc. assert (forallb (fun c => negb ((BPF_CLASS c =? BPF_LD) && (BPF_MODE c =? 0) && (BPF_SIZE c =? BPF_DW)) ||
    (c =? Z.lor BPF_LD BPF_DW)) (seqZ 0 256) = true) as H by (vm_compute; reflexivity).
  rewrite forallb_forall in H. specialize (H c). rewrite <- list_elem_of_In, elem_of_seqZ in H.
  specialize (H ltac:(lia)). lia.
Qed.

Lemma imm64_eq i next : Z.lor (u64 (Z.shiftl (u64 (i_imm next)) 32)) (u32 (i_imm i)) = imm64 i next.
Proof.
  unfold imm64. rewrite Z.lor_comm, !Z.shiftl_mul_pow2 by lia. f_equal. generalize (i_imm next). intros v. cint.
Qed.
Lemma imm64_range i next : is_u64 (imm64 i next).
Proof. unfold imm64. pose proof (is_u32_is_u64 _ (u32_range (i_imm i))). eauto with cint. Qed.

Section ld_imm.
Context (env : bpf_verifier_env) (prog : list insn) (pc : Z) (i : insn).
Context (Hf : fetch prog pc = Some i) (Hfields : insn_fields i).

Lemma ld_imm_sound g rf w w' :
  BPF_CLASS (code i) = BPF_LD -> BPF_MODE (code i) = 0 -> insn_idx w = pc -> id_gen w = g ->
  check_ld_imm env prog w i = Ok w' -> stands g (regs (cur w)) rf ->
  exists rf', step_insn prog pc rf = Next (pc + 2) rf' /\ stands g (regs (cur w')) rf' /\ kept w w'.
Proof using Hf Hfields.
  unfold check_ld_imm. intros Hcl Hmo Hidx Hgen Hc Hst.
  destruct (Z.eqb_spec (BPF_SIZE (code i)) BPF_DW) as [Hsz|]; [|done]. cbn [negb] in Hc. destruct (nonzero (i_off i)); [done|].
  destruct (check_reg_arg env _ _ DST_OP) as [rs| |] eqn:E; [|done..]. apply dst_mark_arg in E as (-> & Hd).
  cbn [mbind res_bind] in Hc. destruct (src_reg i); [|done]. rewrite Hidx in Hc.
  destruct (fetch prog (pc + 1)) as [next|] eqn:Hn; [|done]. injection Hc as <-.
  pose proof (st_len _ _ _ Hst) as Hl. pose proof (st_file _ _ _ Hst) as Hlf.
  pose proof (ld_imm_code _ (proj1 Hfields) Hcl Hmo Hsz) as Hcode.
  exists (<[dst_reg i := Some (imm64 i next)]> rf). split; [|split].
  - unfold step_insn, exec_insn. rewrite Hf. cbn [mbind option_bind].
    assert (needs_patch i = false) as -> by (unfold needs_patch; by rewrite Hcode).
    rewrite Hcode, Hn. cbn [mbind option_bind]. unfold write. by rewrite decide_True by lia.
  - cbn [cur set_regs regs upd]. rewrite list_insert_insert_eq, reg_at_insert, imm64_eq by lia.
    apply stands_fresh; [done..| |done]. apply plain_holds; [done|].
    apply mark_known_sound; [apply imm64_range|]. 
    exact (proj1 (proj2 (mark_unknown_sound env (reg_at (regs (cur w)) (dst_reg i)) 0 (is_u32_is_u64 _ is_u32_0)))).
  - split; cbn; first [done|lia].
Qed.
End ld_imm.

(** ** Returns *)

(** What the type of a program promises of the value in R0. *)
Definition returned (k : prog_kind) (r0 : option Z) : Prop :=
  match return_rule k with
  | NoReturn => True
  | InRange range _ => exists x, r0 = Some x /\ x ∈ range
  | _ => exists x, r0 = Some x /\ is_u64 x
  end.

(** The ranges are those of well-formed tracked numbers. *)
Definition rule_mask (rule : ret_rule) : bool :=
  match rule with InRange range _ => (0 <=? mask range) && (mask range <? 2 ^ 64) | _ => true end.
Lemma return_rule_mask k : rule_mask (return_rule k) = true.
Proof. destruct k as [t a [] []]; destruct t, a; vm_compute; reflexivity. Qed.
Lemma return_range_mask k range enforce : return_rule k = InRange range enforce -> is_u64 (mask range).
Proof. intros E. pose proof (return_rule_mask k) as H. rewrite E in H. cbn [rule_mask] in H. unfold is_u64. lia. Qed.

Lemma return_sound env k g rf w w' :
  check_return_code env k w = Ok w' -> stands g (regs (cur w)) rf -> returned k (read rf 0).
Proof.
  unfold check_return_code, returned. intros Hc Hst. destruct (return_rule k) as [| |range enforce|] eqn:Er; [by injection Hc as <-|..].
  all: destruct (check_reg_arg env _ 0 SRC_OP) as [rs| |] eqn:E; [|done..]; apply src_arg in E as (-> & Hd & Ht);
    cbn [mbind res_bind] in Hc; destruct (is_pointer_value _ _ _); [done|];
    destruct (stands_read _ _ _ _ Hst Hd Ht) as (x & Hx & Ux & Hsc & _).
  - by exists x.
  - destruct (Z.eqb_spec (reg_type (reg_at (regs (cur w)) 0)) SCALAR_VALUE) as [Es|]; [|done]. cbn [negb] in Hc.
    destruct (tnum_in range _) eqn:Hin; [|done]. cbn [negb] in Hc. destruct (Hsc Es) as [(Hv & _) _].
    exists x. split; [done|].
    apply (tnum_in_spec range (var_off (reg_at (regs (cur w)) 0))); [by eapply return_range_mask|by eapply elem_of_wf|done..].
  - done.
Qed.

(** ** What the checks leave alone, whatever the registers are *)

Section frames.
Context (env : bpf_verifier_env) (kzalloc_ok : Z -> bool).
Implicit Types (w : walk) (i : insn).

(** The results of the checks are built with these. *)
Lemma kept_refl w : kept w w.
Proof. split; first [done|lia]. Qed.
Lemma kept_trans w1 w2 w3 : id_gen w2 = id_gen w1 -> kept w1 w2 -> kept w2 w3 -> kept w1 w3.
Proof. intros E [A1 A2 A3 A4 A5 A6 _] [B1 B2 B3 B4 B5 B6 B7]. split; congruence || lia. Qed.
Lemma kept_regs rs w : kept w (set_regs rs w).
Proof. split; cbn; first [done|lia]. Qed.
Lemma kept_copy rs w (b : bool) : 0 <= id_gen w < U32_MAX ->
  kept w (set_regs rs (if b then w <| id_gen := u32 (id_gen w + 1) |> else w)).
Proof.
  intros Hg. rewrite (u32_id (id_gen w + 1)) by (unfold is_u32, U32_MAX in *; lia).
  destruct b; split; cbn; first [done|lia].
Qed.

Lemma unary_kept w i reserved w' : check_unary env w i reserved = Ok w' -> kept w w'.
Proof.
  unfold check_unary. destruct reserved; [done|]. destruct (check_reg_arg _ _ _ SRC_OP); [|done..]. cbn [mbind res_bind].
  destruct (is_pointer_value _ _ _); [done|]. destruct (check_reg_arg _ _ _ DST_OP); [|done..]. intros [= <-]. apply kept_regs.
Qed.

Lemma mov_x_kept w i w' : 0 <= id_gen w < U32_MAX -> mov_x env w i = Ok w' -> kept w w'.
Proof.
  intros Hg. unfold mov_x. cbv zeta. destruct (BPF_CLASS _ =? _); [destruct (i_off i =? 0)|].
  - intros [= <-]. by apply kept_copy.
  - destruct (is_pointer_value _ _ _); [done|]. destruct (reg_type _ =? SCALAR_VALUE); intros [= <-]; [by apply kept_copy|apply kept_regs].
  - destruct (is_pointer_value _ _ _); [done|]. destruct (reg_type _ =? SCALAR_VALUE); [|intros [= <-]; apply kept_regs].
    destruct (i_off i =? 0); intros [= <-]; by apply kept_copy.
Qed.

Lemma adjust_kept w op i w' : adjust_reg_min_max_vals env w op i = Ok w' -> kept w w'.
Proof.
  unfold adjust_reg_min_max_vals. cbv zeta. destruct (negb _ && negb _).
  { destruct op; try done. destruct (allow_ptr_leaks env); [|done]. intros [= <-]. apply kept_regs. }
  destruct (negb _ || negb _); [done|]. destruct (adjust_scalar_min_max_vals _ _ _ _ _) as [[d a] e].
  destruct (e =? 0); [|done]. intros [= <-]. split; cbn; first [done|lia].
Qed.

Lemma alu_kept w i w' : 0 <= id_gen w < U32_MAX -> check_alu_op env w i = Ok w' -> kept w w'.
Proof.
  intros Hg. unfold check_alu_op.
  assert (Hbin : forall op, check_binary env w op i = Ok w' -> kept w w').
  { intros op. unfold check_binary. destruct (alu_reserved op i); [done|].
    destruct (if src_is_k i then _ else _); [|done..]. cbn [mbind res_bind].
    destruct (check_reg_arg _ _ _ SRC_OP); [|done..]. cbn [mbind res_bind]. destruct (_ && _ && _); [done|].
    destruct (shift_undefined op i); [done|]. destruct (check_reg_arg _ _ _ DST_OP_NO_MARK); [|done..]. cbn [mbind res_bind].
    intros H%adjust_kept. eapply kept_trans; [|apply kept_regs|done]. done. }
  destruct (alu_op_of _) as [[]|]; try apply Hbin; try done; try apply unary_kept.
  unfold check_mov. destruct (mov_reserved i); [done|]. destruct (if src_is_k i then _ else _); [|done..].
  cbn [mbind res_bind]. destruct (check_reg_arg _ _ _ DST_OP_NO_MARK); [|done..]. cbn [mbind res_bind].
  destruct (src_is_k i); [intros [= <-]; apply kept_regs|].
  intros H%mov_x_kept; [|done]. eapply kept_trans; [|apply kept_regs|done]. done.
Qed.

Lemma cond_jmp_kept w i w' : check_cond_jmp_op env kzalloc_ok w i = Ok w' -> jmp_kept w w'.
Proof.
  unfold check_cond_jmp_op. destruct (jmp_op_of _); [|done]. cbv zeta. destruct (check_reg_arg _ _ _ SRC_OP); [|done..].
  cbn [mbind res_bind]. destruct (if src_is_k i then negb _ else _); [done|]. destruct (if src_is_k i then _ else _); [|done..].
  cbn [mbind res_bind]. destruct (negb _ && negb _ && _); [done|]. destruct (outside_pointer _ || _); [done|]. apply follow_kept.
Qed.

Lemma ld_imm_kept prog w i w' : check_ld_imm env prog w i = Ok w' -> kept w w'.
Proof.
  unfold check_ld_imm. destruct (negb _); [done|]. destruct (nonzero _); [done|]. destruct (check_reg_arg _ _ _ DST_OP); [|done..].
  cbn [mbind res_bind]. destruct (src_reg i); [|done]. destruct (fetch _ _); [|done]. intros [= <-]. apply kept_regs.
Qed.

(** A return changes at most a flag. *)
Definition same_walk (w w' : walk) : Prop :=
  cur w' = cur w /\ insn_idx w' = insn_idx w /\ head w' = head w /\ id_gen w' = id_gen w /\
  insn_processed w' = insn_processed w /\ seen w' = seen w.
Lemma return_kept k w w' : check_return_code env k w = Ok w' -> same_walk w w'.
Proof.
  unfold check_return_code. destruct (return_rule k) as [| |range enforce|]; [by intros [= <-]|..];
    (destruct (check_reg_arg _ _ _ SRC_OP); [|done..]); cbn [mbind res_bind]; (destruct (is_pointer_value _ _ _); [done|]).
  - by intros [= <-].
  - destruct (negb _); [done|]. destruct (negb _); [done|]. intros [= <-]. by destruct (_ && _).
  - done.
Qed.
End frames.

(** ** One turn *)

(** The instruction at a position, with the second half of an immediate, has
    been marked. *)
Definition marked (prog : list insn) (sn : list Z) (p : Z) : Prop :=
  p ∈ sn /\ forall i, fetch prog p = Some i -> code i = Z.lor BPF_LD BPF_DW -> p + 1 ∈ sn.

Lemma marked_mono prog sn sn' p : (forall q, q ∈ sn -> q ∈ sn') -> marked prog sn p -> marked prog sn' p.
Proof. intros H [H1 H2]. split; eauto. Qed.

(** Some state of the walk that is not speculative stands for the registers at
    a position; positions are kept in 32 bits. *)
Definition covers (w : walk) (pc : Z) (rf : reg_file) : Prop :=
  - 2 ^ 31 <= pc < 2 ^ 32 /\
  ((insn_idx w = u32 pc /\ speculative (cur w) = false /\ stands (id_gen w) (regs (cur w)) rf) \/
   exists e, e ∈ head w /\ elem_idx e = u32 pc /\ speculative (st e) = false /\ stands (id_gen w) (regs (st e)) rf).

(** The states to explore are kept until the walk comes to them; [n]
    instructions have been processed. *)
Record progress (n : Z) (w w' : walk) : Prop := mk_progress {
  p_head : forall e, e ∈ head w -> e ∈ head w' \/ cur w' = st e /\ insn_idx w' = elem_idx e;
  p_seen : forall p, p ∈ seen w -> p ∈ seen w';
  p_gen : id_gen w <= id_gen w' <= id_gen w + 1;
  p_processed : insn_processed w' = insn_processed w + n
}.
Definition turn_progress (n : Z) (w : walk) (t : turn) : Prop :=
  match t with
  | More w' => progress n w w'
  | Finished w' =>
      head w = [] /\ (forall p, p ∈ seen w -> p ∈ seen w') /\ insn_processed w' = insn_processed w + n
  end.

Lemma kept_progress w w' f : kept w w' ->
  head (f w') = head w' -> (forall p, p ∈ seen w' -> p ∈ seen (f w')) -> id_gen (f w') = id_gen w' ->
  insn_processed (f w') = insn_processed w' -> progress 0 w (f w').
Proof.
  intros [K1 K2 K3 K4 K5 K6 K7] H1 H2 H3 H4. split.
  - intros e He. left. congruence.
  - intros p Hp. apply H2. congruence.
  - lia.
  - lia.
Qed.

Lemma insn_progress env kzalloc_ok prog k w i t : 0 <= id_gen w < U32_MAX ->
  check_insn env kzalloc_ok prog k w i = Ok t -> turn_progress 0 w t.
Proof.
  intros Hg. unfold check_insn. cbv zeta. destruct ((_ =? BPF_ALU) || _).
  { destruct (check_alu_op env w i) as [w1| |] eqn:E; [|done..]. intros [= <-].
    apply (kept_progress w w1 next_insn); [by eapply alu_kept|done..]. }
  destruct ((_ =? BPF_JMP) || _).
  { destruct (_ =? BPF_CALL); [done|]. destruct (_ =? BPF_JA).
    { destruct (ja_reserved i); [done|]. intros [= <-]. split; cbn; [by left|done|lia|lia]. }
    destruct (_ =? BPF_EXIT).
    - destruct (exit_reserved i); [done|]. destruct (check_return_code env k w) as [w1| |] eqn:E; [|done..].
      apply return_kept in E as (E1 & E2 & E3 & E4 & E5 & E6). intros [= <-]. unfold pop_stack. rewrite E3.
      destruct (head w) as [|e l] eqn:Eh; cbn; [split; [done|]; rewrite E5, E6; split; [done|lia]|].
      split; cbn; rewrite ?E4, ?E5, ?E6; try done; try lia. intros e'. rewrite Eh, elem_of_cons. intros [->|]; auto.
    - destruct (check_cond_jmp_op env kzalloc_ok w i) as [w1| |] eqn:E; [|done..].
      apply cond_jmp_kept in E as [J1 J2 J3 J4 J5]. intros [= <-]. split; cbn; rewrite ?J1, ?J2, ?J3; try done; try lia. auto. }
  destruct ((_ =? BPF_LD) && _); [|done].
  destruct (check_ld_imm env prog w i) as [w1| |] eqn:E; [|done..]. intros [= <-]. apply ld_imm_kept in E.
  apply (kept_progress w w1 (fun w1 => next_insn (if speculative (cur (next_insn w1)) then next_insn w1
    else (next_insn w1) <| seen := insn_idx (next_insn w1) :: seen (next_insn w1) |>))); [done|..];
    destruct (speculative (cur (next_insn w1))); cbn; try done. intros p Hp. by right.
Qed.

Section turns.
Context (env : bpf_verifier_env) (kzalloc_ok signal_pending : Z -> bool) (visited : Z -> Z).
Context (prog : list insn) (k : prog_kind).
Context (Hlen : Z.of_nat (length prog) <= BPF_COMPLEXITY_LIMIT_INSNS).
Context (Hfields : Forall insn_fields prog) (Hplain : Forall (fun i => pitfall i = false) prog).

Lemma fetch_in pc i : fetch prog pc = Some i -> 0 <= pc < Z.of_nat (length prog) /\ insn_fields i /\ pitfall i = false.
Proof using Hfields Hplain.
  unfold fetch. destruct (Z.leb_spec 0 pc); [|done]. intros Hi. pose proof (lookup_lt_Some _ _ _ Hi).
  rewrite Forall_lookup in Hfields, Hplain. split; [lia|]. by split; [apply (Hfields _ _ Hi)|apply (Hplain _ _ Hi)].
Qed.

(** The walk after the instruction has been counted and marked. *)
Definition counted (w : walk) : walk :=
  let w := w <| insn_processed := insn_processed w + 1 |> in
  if speculative (cur w) then w else w <| seen := insn_idx w :: seen w |>.

(** What one instruction does, when the current state stands for the registers. *)
Definition turn_done (pc : Z) (rf : reg_file) (t : turn) : Prop :=
  match t with
  | More w' =>
      (exists pc' rf', step_insn prog pc rf = Next pc' rf' /\ covers w' pc' rf') \/
      (exists r, step_insn prog pc rf = Return r /\ returned k r)
  | Finished w' => exists r, step_insn prog pc rf = Return r /\ returned k r
  end.

Lemma covers_next w rf pc o :
  stands (id_gen w) (regs (cur w)) rf -> speculative (cur w) = false -> insn_idx w = u32 (pc + o) ->
  0 <= pc < Z.of_nat (length prog) -> - 2 ^ 31 <= o <= 2 ^ 31 -> covers w (pc + o) rf.
Proof using Hlen.
  intros Hst Hsp Hi Hpc Ho. unfold BPF_COMPLEXITY_LIMIT_INSNS in *. split; [lia|]. by left.
Qed.

Lemma step_exit pc i rf : fetch prog pc = Some i -> exit_reserved i = false ->
  BPF_CLASS (code i) = BPF_JMP \/ BPF_CLASS (code i) = BPF_JMP32 -> BPF_OP (code i) = BPF_EXIT ->
  step_insn prog pc rf = Return (read rf 0).
Proof.
  intros Hf Hr Hcl Hop. unfold step_insn, exec_insn, exec_jmp. rewrite Hf, (jmp_not_patched i Hcl).
  unfold exit_reserved in Hr. assert (src_is_k i = true /\ (BPF_CLASS (code i) =? BPF_JMP32) = false) as [Hk H32] by
    (destruct (src_is_k i), (BPF_CLASS (code i) =? BPF_JMP32); rewrite ?orb_true_r in Hr; done).
  cbn [mbind option_bind]. rewrite Hop, Hk, H32. destruct Hcl as [Hcl|Hcl]; rewrite Hcl in *; done.
Qed.

Lemma step_ja pc i rf : fetch prog pc = Some i -> ja_reserved i = false ->
  BPF_CLASS (code i) = BPF_JMP \/ BPF_CLASS (code i) = BPF_JMP32 -> BPF_OP (code i) = BPF_JA ->
  step_insn prog pc rf = Next (pc + ((if BPF_CLASS (code i) =? BPF_JMP then i_off i else i_imm i) + 1)) rf.
Proof.
  intros Hf Hr Hcl Hop. unfold step_insn, exec_insn, exec_jmp. rewrite Hf, (jmp_not_patched i Hcl).
  unfold ja_reserved in Hr. assert (src_is_k i = true) as Hk by (by destruct (src_is_k i)).
  cbn [mbind option_bind]. rewrite Hop, Hk. rewrite Z.add_assoc. destruct Hcl as [Hcl|Hcl]; rewrite Hcl; done.
Qed.

(** ** The instruction at the current position *)
Section insn.
Context (w : walk) (i : insn) (rf : reg_file).
Context (Hf : fetch prog (insn_idx w) = Some i) (Hsp : speculative (cur w) = false).
Context (Hst : stands (id_gen w) (regs (cur w)) rf) (Hg : 0 <= id_gen w < U32_MAX).
Local Abbreviation pc := (insn_idx w).

Lemma alu_turn w1 : is_alu i -> check_alu_op env w i = Ok w1 -> turn_done pc rf (More (next_insn w1)).
Proof using Hlen Hfields Hplain Hf Hsp Hst Hg.
  intros Hcl E. destruct (fetch_in _ _ Hf) as (Hpc & Hif & Hip).
  destruct (alu_sound env prog _ i Hf Hcl Hif Hip _ rf w Hst eq_refl (proj2 Hg) w1 E) as (v & Hs & Hst1 & K).
  left. eexists _, _. split; [exact Hs|]. apply covers_next; [done|by rewrite <- Hsp; apply K| |lia..].
  cbn. by rewrite (k_idx _ _ K).
Qed.

Lemma cond_jmp_turn w1 : BPF_CLASS (code i) = BPF_JMP \/ BPF_CLASS (code i) = BPF_JMP32 ->
  check_cond_jmp_op env kzalloc_ok w i = Ok w1 -> turn_done pc rf (More (next_insn w1)).
Proof using Hlen Hfields Hplain Hf Hsp Hst.
  intros Hcl E. destruct (fetch_in _ _ Hf) as (Hpc & (_ & Ho & _) & _).
  destruct (cond_jmp_sound env kzalloc_ok prog _ i Hf Hcl _ rf w w1 E Hst) as (taken & Hs & Hex).
  pose proof (cond_jmp_kept _ _ _ _ _ E) as K. rewrite <- (jk_gen _ _ K) in Hex. left. eexists _, _. split; [exact Hs|].
  rewrite <- Z.add_assoc. destruct Hex as [[Hi Hst1]|[-> (e & He & Hi & Hse & Hst1)]].
  - apply covers_next; [done|by rewrite <- Hsp; apply K|cbn; by rewrite Hi, Z.add_assoc|done|case_match; lia].
  - unfold BPF_COMPLEXITY_LIMIT_INSNS in *. split; [lia|]. right. exists e. split; [done|]. by rewrite Hse, Z.add_assoc.
Qed.

Lemma ld_imm_turn w1 : BPF_CLASS (code i) = BPF_LD -> BPF_MODE (code i) = 0 -> check_ld_imm env prog w i = Ok w1 ->
  let w2 := next_insn w1 in
  turn_done pc rf (More (next_insn (if speculative (cur w2) then w2 else w2 <| seen := insn_idx w2 :: seen w2 |>))).
Proof using Hlen Hfields Hplain Hf Hsp Hst.
  intros Hcl Hmo E w2. destruct (fetch_in _ _ Hf) as (Hpc & Hif & _).
  destruct (ld_imm_sound env prog _ i Hf Hif _ rf w w1 Hcl Hmo eq_refl eq_refl E Hst) as (rf' & Hs & Hst1 & K).
  assert (speculative (cur w2) = false) as -> by (rewrite <- Hsp; apply K).
  left. eexists _, _. split; [exact Hs|]. apply covers_next; [|by rewrite <- Hsp; apply K| |lia..].
  - eapply stands_mono; [apply K|done].
  - cbn. rewrite (k_idx _ _ K). clear. cint.
Qed.

Lemma jmp_turn t : BPF_CLASS (code i) = BPF_JMP \/ BPF_CLASS (code i) = BPF_JMP32 ->
  check_insn env kzalloc_ok prog k w i = Ok t -> turn_done pc rf t.
Proof using Hlen Hfields Hplain Hf Hsp Hst.
  intros Hcl Hc. destruct (fetch_in _ _ Hf) as (Hpc & (_ & Ho & Hm) & _). unfold is_s32 in Hm.
  unfold check_insn in Hc. cbv zeta in Hc.
  replace ((_ =? BPF_ALU) || _) with false in Hc by (by destruct Hcl as [-> | ->]).
  replace ((_ =? BPF_JMP) || _) with true in Hc by (by destruct Hcl as [-> | ->]).
  destruct (BPF_OP (code i) =? BPF_CALL); [done|].
  destruct (Z.eqb_spec (BPF_OP (code i)) BPF_JA) as [Eja|_].
  { destruct (ja_reserved i) eqn:Hr; [done|]. injection Hc as <-. left. eexists _, _.
    split; [by apply step_ja|]. apply covers_next; [done|done|cbn; by rewrite Z.add_assoc|done|case_match; lia]. }
  destruct (Z.eqb_spec (BPF_OP (code i)) BPF_EXIT) as [Eex|_].
  { destruct (exit_reserved i) eqn:Hr; [done|]. destruct (check_return_code env k w) as [w1| |] eqn:E; [|done..].
    injection Hc as <-. pose proof (return_sound _ _ _ _ _ _ E Hst). pose proof (step_exit _ _ rf Hf Hr Hcl Eex).
    destruct (pop_stack w1); cbn; eauto. }
  destruct (check_cond_jmp_op env kzalloc_ok w i) as [w1| |] eqn:E; [|done..]. injection Hc as <-. by apply cond_jmp_turn.
Qed.

Lemma insn_turn t : check_insn env kzalloc_ok prog k w i = Ok t -> turn_done pc rf t.
Proof using Hlen Hfields Hplain Hf Hsp Hst Hg.
  intros Hc. destruct ((BPF_CLASS (code i) =? BPF_JMP) || (BPF_CLASS (code i) =? BPF_JMP32)) eqn:Ejmp;
    [apply jmp_turn; [lia|done]|].
  unfold check_insn in Hc. cbv zeta in Hc. rewrite Ejmp in Hc. destruct ((_ =? BPF_ALU) || _) eqn:Ealu.
  - destruct (check_alu_op env w i) as [w1| |] eqn:E; [|done..]. injection Hc as <-. apply alu_turn; [unfold is_alu; lia|done].
  - destruct ((_ =? BPF_LD) && _) eqn:Eld; [|done]. destruct (check_ld_imm env prog w i) as [w1| |] eqn:E; [|done..].
    injection Hc as <-. apply ld_imm_turn; [lia|lia|done].
Qed.
End insn.

(** ** The walk *)
Local Abbreviation do_turn := (do_check_turn env kzalloc_ok signal_pending visited prog k).
Local Abbreviation do_walk := (fun n => do_check env kzalloc_ok signal_pending visited n prog k).

(** The state is pruned, or its instruction checked. *)
Definition pruned (w : walk) : turn :=
  match pop_stack (w <| insn_processed := insn_processed w + 1 |>) with
  | Some w => More w
  | None => Finished (w <| insn_processed := insn_processed w + 1 |>)
  end.

Lemma turn_inv w t : do_turn w = Ok t -> insn_processed w + 1 <= BPF_COMPLEXITY_LIMIT_INSNS /\
  exists i, fetch prog (insn_idx w) = Some i /\
  (check_insn env kzalloc_ok prog k (counted w) i = Ok t \/ visited (insn_processed w + 1) = 1 /\ t = pruned w).
Proof.
  unfold do_check_turn. destruct (_ <=? insn_idx w); [done|]. destruct (fetch prog (insn_idx w)) as [i|]; [|done].
  cbv zeta. destruct (Z.ltb_spec BPF_COMPLEXITY_LIMIT_INSNS (insn_processed (w <| insn_processed := insn_processed w + 1 |>)));
    [done|]. cbn [insn_processed upd] in *. destruct (visited _ <? 0); [done|].
  destruct (Z.eqb_spec (visited (insn_processed w + 1)) 1) as [E|].
  { intros [= <-]. split; [done|]. exists i. split; [done|]. by right. }
  destruct (signal_pending _); [done|]. intros Hc. split; [done|]. exists i. split; [done|]. by left.
Qed.

Lemma counted_eq w : cur (counted w) = cur w /\ insn_idx (counted w) = insn_idx w /\ head (counted w) = head w /\
  id_gen (counted w) = id_gen w /\ insn_processed (counted w) = insn_processed w + 1 /\
  (forall p, p ∈ seen w -> p ∈ seen (counted w)).
Proof. unfold counted. cbn. destruct (speculative (cur w)); cbn; repeat split; try done. intros p Hp. by right. Qed.

Lemma walk_progress w t : do_turn w = Ok t -> 0 <= id_gen w <= insn_processed w -> turn_progress 1 w t.
Proof.
  intros (Hlim & i & _ & [Hc|[_ ->]])%turn_inv Hg.
  - destruct (counted_eq w) as (E1 & E2 & E3 & E4 & E5 & E6).
    apply insn_progress in Hc; [|unfold BPF_COMPLEXITY_LIMIT_INSNS, U32_MAX in *; lia].
    destruct t as [w'|w']; cbn in Hc |- *.
    + destruct Hc as [P1 P2 P3 P4]. rewrite E3 in P1. split; [done|auto|lia|lia].
    + destruct Hc as (P1 & P2 & P3). rewrite E3 in P1. split; [done|]. split; [auto|lia].
  - unfold pruned, pop_stack. cbn [head upd]. destruct (head w) as [|e l] eqn:Eh; cbn; [done|].
    split; cbn; try done; try lia. intros e'. rewrite Eh, elem_of_cons. intros [->|]; auto.
Qed.

Lemma run_prog_mono n m pc rf x : run_prog n prog pc rf = Some x -> (n <= m)%nat -> run_prog m prog pc rf = Some x.
Proof.
  revert m pc rf x. induction n as [|n IH]; intros [|m] pc rf x Hr Hm; cbn in *; try done; [lia|].
  destruct (step_insn prog pc rf) as [pc' rf'| |]; [|done..].
  destruct (run_prog n prog pc' rf') as [x'|] eqn:E; [|done]. by rewrite (IH m _ _ _ E) by lia.
Qed.

(** Nothing that was marked is forgotten. *)
Lemma walk_seen n w w' : do_walk n w = Some (Ok w') -> 0 <= id_gen w <= insn_processed w ->
  (forall p, p ∈ seen w -> p ∈ seen w') /\ insn_processed w + 1 <= insn_processed w'.
Proof.
  revert w. induction n as [|n IH]; intros w Hd Hg; [done|]. cbn in Hd.
  destruct (do_turn w) as [t| |] eqn:Et; [|done..]. apply walk_progress in Et; [|done]. destruct t as [w1|w1].
  - destruct Et as [P1 P2 P3 P4]. destruct (IH w1 Hd ltac:(lia)) as [I1 I2]. split; [auto|lia].
  - destruct Et as (_ & P2 & P3). injection Hd as <-. split; [auto|lia].
Qed.

(** A position that the current state covers, in a turn that is accepted. *)
Lemma current_pc w t pc : do_turn w = Ok t -> insn_idx w = u32 pc -> - 2 ^ 31 <= pc < 2 ^ 32 -> insn_idx w = pc.
Proof using Hlen Hfields Hplain.
  intros (_ & i & Hf & _)%turn_inv Hi Hpc. destruct (fetch_in _ _ Hf) as [Hlt _].
  unfold BPF_COMPLEXITY_LIMIT_INSNS in Hlen. rewrite Hi in *. clear -Hlen Hpc Hlt. cint.
Qed.

Definition turn_walk (t : turn) : walk := match t with More w | Finished w => w end.

(** A 64-bit immediate marks its second half too. *)
Lemma ld_marks w i t : fetch prog (insn_idx w) = Some i -> speculative (cur w) = false ->
  check_insn env kzalloc_ok prog k w i = Ok t -> code i = Z.lor BPF_LD BPF_DW -> insn_idx w + 1 ∈ seen (turn_walk t).
Proof using Hlen Hfields Hplain.
  intros Hf Hsp Hc Hcode. destruct (fetch_in _ _ Hf) as [Hlt _]. unfold check_insn in Hc. rewrite Hcode in Hc.
  change ((BPF_CLASS (Z.lor BPF_LD BPF_DW) =? BPF_ALU) || _) with false in Hc.
  change ((BPF_CLASS (Z.lor BPF_LD BPF_DW) =? BPF_JMP) || _) with false in Hc.
  change ((BPF_CLASS (Z.lor BPF_LD BPF_DW) =? BPF_LD) && _) with true in Hc. cbv zeta iota in Hc.
  destruct (check_ld_imm env prog w i) as [w1| |] eqn:E; [|done..]. cbn [mbind res_bind] in Hc. injection Hc as <-.
  apply ld_imm_kept in E. assert (speculative (cur w1) = false) as Hs1 by (rewrite <- Hsp; apply E).
  cbn. rewrite Hs1. cbn. rewrite (k_idx _ _ E), u32_id by (unfold is_u32, BPF_COMPLEXITY_LIMIT_INSNS in *; lia). left.
Qed.

(** From here on, no state is pruned. *)
Context (Hnoprune : forall n, visited n <> 1).


Lemma current_turn w t pc rf : do_turn w = Ok t -> 0 <= id_gen w <= insn_processed w ->
  - 2 ^ 31 <= pc < 2 ^ 32 -> insn_idx w = u32 pc -> speculative (cur w) = false ->
  stands (id_gen w) (regs (cur w)) rf -> turn_done pc rf t /\ marked prog (seen (turn_walk t)) pc.
Proof using Hlen Hfields Hplain Hnoprune.
  intros Et Hg Hpc Hi Hsp Hst. pose proof (current_pc _ _ _ Et Hi Hpc) as Ei.
  destruct (turn_inv _ _ Et) as (Hlim & i & Hf & [Hc|[Hv _]]); [|by destruct (Hnoprune _ Hv)]. destruct (counted_eq w) as (E1 & E2 & E3 & E4 & E5 & E6).
  assert (0 <= id_gen (counted w) < U32_MAX) as Hgc by (unfold BPF_COMPLEXITY_LIMIT_INSNS, U32_MAX in *; lia).
  split.
  - rewrite <- Ei, <- E2. apply (insn_turn _ i); rewrite ?E1, ?E2, ?E4 in *; done.
  - assert (pc ∈ seen (counted w)) as Hseen by (unfold counted; cbn; rewrite Hsp; cbn; rewrite Ei; left). split.
    + apply insn_progress in Hc; [|done]. destruct t; [by apply (p_seen _ _ _ Hc)|by apply Hc].
    + intros i' Hi' Hcode. rewrite <- Ei, Hf in Hi'. injection Hi' as <-. rewrite <- Ei, <- E2.
      apply (ld_marks _ i); [by rewrite E2|by rewrite E1|done|done].
Qed.

(** Each register file that a state of the walk stands for is run to a return,
    through instructions that were marked, in no more steps than the walk takes
    from there. *)
Lemma walk_sound n w w' : do_walk n w = Some (Ok w') -> 0 <= id_gen w <= insn_processed w ->
  forall pc rf, covers w pc rf -> exists tr r, run_prog n prog pc rf = Some (tr, Return r) /\ returned k r /\
    Forall (marked prog (seen w')) tr /\ Z.of_nat (length tr) <= insn_processed w' - insn_processed w.
Proof using Hlen Hfields Hplain Hnoprune.
  revert w. induction n as [|n IH]; intros w Hd Hg pc rf Hcov; [done|].
  destruct (walk_seen _ _ _ Hd Hg) as [_ Hcount]. cbn in Hd.
  destruct (do_turn w) as [t| |] eqn:Et; [|done..]. pose proof (walk_progress _ _ Et Hg) as Hp.
  destruct Hcov as [Hpc [(Hi & Hsp & Hst)|(e & He & Hi & Hsp & Hst)]].
  - destruct (current_turn _ _ _ _ Et Hg Hpc Hi Hsp Hst) as [Hdone Hseen]. cbn [run_prog].
    assert (Hret : forall r, step_insn prog pc rf = Return r -> returned k r -> marked prog (seen w') pc -> exists tr r',
      match step_insn prog pc rf with
      | Next pc' rf' => '(tr, o) ← run_prog n prog pc' rf'; Some (pc :: tr, o) | o => Some ([pc], o) end = Some (tr, Return r') /\
      returned k r' /\ Forall (marked prog (seen w')) tr /\ Z.of_nat (length tr) <= insn_processed w' - insn_processed w).
    { intros r -> Hr Hin. exists [pc], r. split; [done|]. split; [done|]. split; [|cbn; lia].
      by apply Forall_singleton. }
    destruct t as [w1|w1].
    + destruct Hp as [P1 P2 P3 P4]. destruct (walk_seen _ _ _ Hd ltac:(lia)) as [W1 W2].
      destruct Hdone as [(pc' & rf' & Hs & Hcov)|(r & Hs & Hr)]; [|by apply (Hret r); [..|eapply marked_mono; eauto]].
      rewrite Hs. destruct (IH w1 Hd ltac:(lia) pc' rf' Hcov) as (tr & r & Hrun & Hr & Htr & Hl). rewrite Hrun.
      exists (pc :: tr), r. split; [done|]. split; [done|]. split; [|cbn; lia].
      constructor; [by eapply marked_mono|done].
    + injection Hd as <-. destruct Hdone as (r & Hs & Hr). by apply (Hret r).
  - destruct t as [w1|w1]; [|by destruct Hp as (E & _); rewrite E in He; apply not_elem_of_nil in He].
    destruct Hp as [P1 P2 P3 P4]. assert (covers w1 pc rf) as Hc1.
    { split; [done|]. apply (stands_mono _ (id_gen w1)) in Hst; [|lia].
      destruct (P1 e He) as [He1|[E1 E2]]; [right; eauto|left; rewrite E1, E2; done]. }
    destruct (IH w1 Hd ltac:(lia) pc rf Hc1) as (tr & r & Hrun & Hr & Htr & Hl). exists tr, r.
    split; [apply (run_prog_mono n (S n)); [done|lia]|]. split; [done|]. split; [done|lia].
Qed.

(** The walk ends: every turn counts an instruction. *)
Lemma walk_ends n w : BPF_COMPLEXITY_LIMIT_INSNS - insn_processed w < Z.of_nat n -> insn_processed w <= BPF_COMPLEXITY_LIMIT_INSNS ->
  0 <= id_gen w <= insn_processed w -> exists r, do_walk n w = Some r.
Proof.
  revert w. induction n as [|n IH]; intros w Hn Hlim Hg; [lia|]. cbn.
  destruct (do_turn w) as [[w1|w1]| |] eqn:Et; [|by eauto..].
  destruct (turn_inv _ _ Et) as (Hl & _). destruct (walk_progress _ _ Et Hg) as [_ _ P3 P4]. apply IH; lia.
Qed.

Lemma walk_limit n w w' : do_walk n w = Some (Ok w') -> insn_processed w <= BPF_COMPLEXITY_LIMIT_INSNS ->
  0 <= id_gen w <= insn_processed w -> insn_processed w' <= BPF_COMPLEXITY_LIMIT_INSNS.
Proof.
  revert w. induction n as [|n IH]; intros w Hd Hlim Hg; [done|]. cbn in Hd.
  destruct (do_turn w) as [t| |] eqn:Et; [|done..]. destruct (turn_inv _ _ Et) as (Hl & _).
  pose proof (walk_progress _ _ Et Hg) as Hp. destruct t as [w1|w1]; cbn in Hp.
  - destruct Hp as [_ _ P3 P4]. apply (IH w1 Hd); lia.
  - injection Hd as <-. lia.
Qed.

(** ** The start *)

Lemma init_stands ctx fp : is_u64 ctx -> is_u64 fp -> stands 0 (regs (cur (init_walk env prog))) (init_regs ctx fp).
Proof.
  intros Hc Hp. assert (Hno : forall v, reg_holds (__mark_reg_not_init env reg_zero) v) by (intros v; by left).
  assert (Hptr : forall r x, reg_type r <> SCALAR_VALUE -> reg_not_null r = false -> is_u64 x -> reg_holds r (Some x)).
  { intros r x Ht Hn Hx. right. exists x. split; [done|]. split; [done|]. by split. }
  split; [done|done|..].
  - intros n r Hr. do 11 (destruct n as [|n]; [injection Hr as <-; first [apply Hno|by apply Hptr]|]). done.
  - intros n r Hr. do 11 (destruct n as [|n]; [by injection Hr as <-|]). done.
  - intros n m r r' Hr _ Ht _ _ _. do 11 (destruct n as [|n]; [by injection Hr as <-|]). done.
Qed.
End turns.
