(* ===== verification/BpfRewriteThms.v ===== *)
(** * The rewritten program runs like the one that was verified

    A run that only goes through instructions marked as seen survives the
    hard-wiring of branches, the removal of dead code and of empty jumps, and the
    traps; and the rewriting of a program of at most [2^15] instructions does not
    fail. *)
From S2P Require Import Prelude Bits Tnum BpfReg BpfAlu BpfJmp BpfProg BpfCheck BpfMeta BpfStands BpfCheckAlu BpfCheckJmp BpfCheckWalk BpfRewrite.

(** ** Lists *)

Lemma length_imapZ {A B} (f : Z -> A -> B) l : forall p, length (imapZ f p l) = length l.
Proof. induction l as [|x l IH]; intros p; cbn; [done|]. by rewrite IH. Qed.

Lemma lookup_imapZ {A B} (f : Z -> A -> B) l : forall p j, imapZ f p l !! j = f (p + Z.of_nat j) <$> l !! j.
Proof.
  induction l as [|x l IH]; intros p [|j]; cbn; try done; [by rewrite Z.add_0_r|].
  rewrite IH. by replace (p + 1 + Z.of_nat j) with (p + Z.of_nat (S j)) by lia.
Qed.

Lemma length_cut {A} off cnt (l : list A) : (off + cnt <= length l)%nat -> length (cut off cnt l) = (length l - cnt)%nat.
Proof. intros H. unfold cut. rewrite length_app, length_take, length_drop. lia. Qed.

Lemma lookup_cut {A} off cnt (l : list A) j : (off + cnt <= length l)%nat ->
  cut off cnt l !! j = if decide (j < off)%nat then l !! j else l !! (j + cnt)%nat.
Proof.
  intros H. unfold cut. assert (length (take off l) = off) as Ht by (rewrite length_take; lia). case_decide.
  - rewrite lookup_app_l by lia. apply lookup_take_lt. lia.
  - rewrite lookup_app_r, lookup_drop, Ht by lia. f_equal. lia.
Qed.

(** ** One step, as a function of the instruction *)

Definition step_at (i : insn) (next : option insn) (pc : Z) (rf : reg_file) : outcome :=
  if needs_patch i then
    match run_patch (length (patchlet i)) (patchlet i) 0 rf with Some rf => Next (pc + 1) rf | None => Stuck end
  else or_stuck (
    let class := BPF_CLASS (code i) in
    if (class =? BPF_ALU) || (class =? BPF_ALU64) then v ← exec_alu i rf; Some (write rf (dst_reg i) v (pc + 1))
    else if (class =? BPF_JMP) || (class =? BPF_JMP32) then exec_jmp i pc rf
    else if code i =? Z.lor BPF_LD BPF_DW then
      next ← next; Some (write rf (dst_reg i) (imm64 i next) (pc + 2))
    else None).

Lemma step_insn_at prog pc rf :
  step_insn prog pc rf = match fetch prog pc with None => Stuck | Some i => step_at i (fetch prog (pc + 1)) pc rf end.
Proof. unfold step_insn, exec_insn, step_at. by destruct (fetch prog pc). Qed.

Definition is_jump (i : insn) : bool := (BPF_CLASS (code i) =? BPF_JMP) || (BPF_CLASS (code i) =? BPF_JMP32).
Definition is_ld (i : insn) : Prop := code i = Z.lor BPF_LD BPF_DW.

(** Other instructions go on by one or, for a 64-bit immediate, by two. *)
Lemma straight_step i next pc rf q rf' : is_jump i = false -> step_at i next pc rf = Next q rf' ->
  (exists d, q = pc + d /\ (d = 1 \/ d = 2 /\ is_ld i) /\ forall pc', step_at i next pc' rf = Next (pc' + d) rf') /\
  (~ is_ld i -> forall next', step_at i next' pc rf = Next q rf').
Proof.
  intros Hj. unfold step_at, is_jump in *. destruct (needs_patch i).
  { destruct (run_patch _ _ _ _) as [rf1|]; [|done]. intros [= <- <-]. split; [|done]. exists 1. auto. }
  rewrite Hj. destruct ((_ =? BPF_ALU) || _).
  { destruct (exec_alu i rf) as [v|]; [|done]. cbn. unfold write. case_decide; [|done]. intros [= <- <-].
    split; [|done]. exists 1. auto. }
  destruct (Z.eqb_spec (code i) (Z.lor BPF_LD BPF_DW)) as [E|]; [|done].
  destruct next as [n|]; [|done]. cbn. unfold write. case_decide; [|done]. intros [= <- <-].
  split; [|intros Hn; by destruct (Hn E)]. exists 2. auto.
Qed.

Lemma straight_no_return i next pc rf r : is_jump i = false -> step_at i next pc rf <> Return r.
Proof.
  intros Hj. unfold step_at, is_jump in *. destruct (needs_patch i); [by destruct (run_patch _ _ _ _)|]. rewrite Hj.
  destruct ((_ =? BPF_ALU) || _).
  { destruct (exec_alu i rf); [|done]. cbn. unfold write. by case_decide. }
  destruct (code i =? _); [|done]. destruct next; [|done]. cbn. unfold write. by case_decide.
Qed.

(** ** Jumps *)

(** The distance of a jump, and a jump that only differs in it. *)
Definition dist (i : insn) : Z := if code i =? Z.lor BPF_JMP32 BPF_JA then i_imm i else i_off i.
Definition redirect (o : Z) (i : insn) : insn :=
  if code i =? Z.lor BPF_JMP32 BPF_JA then mk_raw (code i) (dst_reg i) (src_reg i) (i_off i) o
  else mk_raw (code i) (dst_reg i) (src_reg i) o (i_imm i).

Lemma jump_no_patch i : is_jump i = true -> needs_patch i = false.
Proof.
  unfold is_jump, needs_patch. intros H. apply bool_decide_eq_false_2. intros Hc.
  repeat (apply elem_of_cons in Hc as [Hc|Hc]; [rewrite Hc in H; vm_compute in H; discriminate|]).
  by apply not_elem_of_nil in Hc.
Qed.

(** The code of an unconditional jump with an immediate source is one of two. *)
Lemma ja_code i : is_jump i = true -> BPF_OP (code i) = BPF_JA -> src_is_k i = true -> 0 <= code i < 256 ->
  code i = Z.lor BPF_JMP BPF_JA \/ code i = Z.lor BPF_JMP32 BPF_JA.
Proof.
  unfold is_jump, src_is_k. intros Hj Hop Hk Hc.
  assert (forallb (fun c => negb (((BPF_CLASS c =? BPF_JMP) || (BPF_CLASS c =? BPF_JMP32)) && (BPF_OP c =? BPF_JA) &&
    (BPF_SRC c =? 0)) || ((c =? Z.lor BPF_JMP BPF_JA) || (c =? Z.lor BPF_JMP32 BPF_JA))) (seqZ 0 256) = true) as H
    by (vm_compute; reflexivity).
  rewrite forallb_forall in H. specialize (H (code i)). rewrite <- list_elem_of_In, elem_of_seqZ in H.
  specialize (H ltac:(lia)). rewrite Hj, Hop, Hk in H. cbn in H. lia.
Qed.

Lemma jump_self i : redirect (dist i) i = i.
Proof. unfold redirect, dist. destruct i; cbn. by case_match. Qed.

(** A jump goes on to the next instruction or over its distance, whatever the
    distance is. *)
Lemma jump_step i next pc rf q rf' : is_jump i = true -> 0 <= code i < 256 -> step_at i next pc rf = Next q rf' ->
  rf' = rf /\ exists taken : bool, (BPF_OP (code i) = BPF_JA -> taken = true) /\
    BPF_OP (code i) <> BPF_EXIT /\ BPF_OP (code i) <> BPF_CALL /\
    forall o pc' next', step_at (redirect o i) next' pc' rf = Next (pc' + (if taken then o else 0) + 1) rf.
Proof.
  intros Hj Hc Hs. assert (forall o, is_jump (redirect o i) = true /\ needs_patch (redirect o i) = false) as Hr.
  { intros o. assert (is_jump (redirect o i) = true) by (unfold is_jump, redirect in *; by case_match).
    split; [done|]. by apply jump_no_patch. }
  assert (forall o pc' next', step_at (redirect o i) next' pc' rf = or_stuck (exec_jmp (redirect o i) pc' rf)) as Hex.
  { intros o pc' next'. unfold step_at. destruct (Hr o) as [H1 H2]. rewrite H2. unfold is_jump in H1.
    assert (((BPF_CLASS (code (redirect o i)) =? BPF_ALU) || (BPF_CLASS (code (redirect o i)) =? BPF_ALU64)) = false) as ->
      by (unfold BPF_ALU, BPF_ALU64, BPF_JMP, BPF_JMP32 in *; lia).
    by rewrite H1. }
  rewrite <- (jump_self i), Hex, jump_self in Hs. unfold exec_jmp in Hs.
  destruct (Z.eqb_spec (BPF_OP (code i)) BPF_JA) as [Hop|Hop].
  - destruct (src_is_k i) eqn:Hk; [|done]. cbn in Hs. injection Hs as <- <-. split; [done|]. exists true.
    rewrite Hop. split; [done|]. split; [done|]. split; [done|]. intros o pc' next'. rewrite Hex. unfold exec_jmp, redirect, src_is_k in *.
    destruct (ja_code i Hj Hop Hk Hc) as [E|E]; rewrite E; cbn; done.
  - destruct (Z.eqb_spec (BPF_OP (code i)) BPF_EXIT) as [He|He].
    { by destruct (src_is_k i && negb _). }
    destruct (jmp_op_of (BPF_OP (code i))) as [op|] eqn:Eop; [|done]. cbn in Hs.
    destruct (read rf (dst_reg i)) as [x|] eqn:Ex; [|done]. cbn in Hs.
    destruct (if src_is_k i then Some (u64 (i_imm i)) else read rf (src_reg i)) as [y|] eqn:Ey; [|done]. cbn in Hs.
    injection Hs as <- <-. split; [done|]. exists (cond_jmp op (BPF_CLASS (code i) =? BPF_JMP32) x y). split; [done|].
    split; [done|]. split; [intros Hcall; by rewrite Hcall in Eop|]. intros o pc' next'. rewrite Hex.
    assert ((code i =? Z.lor BPF_JMP32 BPF_JA) = false) as E6.
    { apply Z.eqb_neq. intros E. rewrite E in Hop. by apply Hop. }
    unfold exec_jmp, redirect. rewrite E6. unfold src_is_k in *. cbn.
    by rewrite (proj2 (Z.eqb_neq _ _) Hop), (proj2 (Z.eqb_neq _ _) He), Eop, Ex, Ey.
Qed.

Lemma jump_target i next pc rf q rf' : is_jump i = true -> 0 <= code i < 256 -> step_at i next pc rf = Next q rf' ->
  rf' = rf /\ exists taken : bool, q = pc + (if taken then dist i else 0) + 1 /\
    (BPF_OP (code i) <> BPF_EXIT /\ BPF_OP (code i) <> BPF_CALL) /\
    forall o pc' next', step_at (redirect o i) next' pc' rf = Next (pc' + (if taken then o else 0) + 1) rf.
Proof.
  intros Hj Hc Hs. destruct (jump_step _ _ _ _ _ _ Hj Hc Hs) as [-> (taken & _ & H1 & H2 & Hall)].
  split; [done|]. exists taken. pose proof (Hall (dist i) pc next) as E. rewrite jump_self, Hs in E.
  injection E as Eq. auto.
Qed.

Lemma jump_return i next pc rf r : is_jump i = true -> step_at i next pc rf = Return r ->
  insn_is_cond_jump (code i) = false /\ BPF_OP (code i) = BPF_EXIT /\ forall pc' next', step_at i next' pc' rf = Return r.
Proof.
  intros Hj. unfold step_at. rewrite jump_no_patch by done. unfold is_jump in Hj.
  assert (((BPF_CLASS (code i) =? BPF_ALU) || (BPF_CLASS (code i) =? BPF_ALU64)) = false) as ->
    by (unfold BPF_ALU, BPF_ALU64, BPF_JMP, BPF_JMP32 in *; lia).
  rewrite Hj. unfold exec_jmp. destruct (_ =? BPF_JA); [by destruct (src_is_k i)|].
  destruct (Z.eqb_spec (BPF_OP (code i)) BPF_EXIT) as [He|].
  { destruct (src_is_k i); [|done]. destruct (Z.eqb_spec (BPF_CLASS (code i)) BPF_JMP32) as [|Hn]; [done|].
    intros Hr. split; [|done]. unfold insn_is_cond_jump. rewrite He, (proj2 (Z.eqb_neq _ _) Hn). by destruct (_ =? BPF_JMP). }
  destruct (jmp_op_of _); [|done]. cbn. destruct (read rf (dst_reg i)); [|done]. cbn.
  by destruct (if src_is_k i then _ else _).
Qed.

(** ** Runs that survive a rewriting *)

(** A program with a mark for each instruction. *)
Definition marks := (list insn * list bool)%type.

(** The instruction at [p] is marked; of a 64-bit immediate both halves are, and
    the second one is empty. *)
Definition alive (P : marks) (p : Z) : Prop :=
  flag P.2 p = true /\ forall i, fetch P.1 p = Some i -> is_ld i ->
    src_reg i = 0%nat /\ flag P.2 (p + 1) = true /\ exists n, fetch P.1 (p + 1) = Some n /\ code n = 0.

(** The steps of [P] are steps of [Q], with the positions moved by [m]; some
    vanish. *)
Definition step_kept (m : Z -> Z) (P Q : marks) : Prop := forall p rf, alive P p ->
  (forall r, step_insn P.1 p rf = Return r -> step_insn Q.1 (m p) rf = Return r /\ alive Q (m p)) /\
  (forall q rf', step_insn P.1 p rf = Next q rf' -> flag P.2 q = true ->
     step_insn Q.1 (m p) rf = Next (m q) rf' /\ alive Q (m p) \/ m p = m q /\ rf' = rf).

(** Runs through marked instructions are kept. *)
Definition runs_kept (P Q : marks) : Prop := forall n rf tr r,
  run_prog n P.1 0 rf = Some (tr, Return r) -> Forall (alive P) tr ->
  exists tr', run_prog n Q.1 0 rf = Some (tr', Return r) /\ Forall (alive Q) tr' /\ (length tr' <= length tr)%nat.

Lemma runs_kept_refl P : runs_kept P P.
Proof. intros n rf tr r H1 H2. by exists tr. Qed.

Lemma runs_kept_trans P Q R : runs_kept P Q -> runs_kept Q R -> runs_kept P R.
Proof.
  intros H1 H2 n rf tr r Hr Ha. destruct (H1 _ _ _ _ Hr Ha) as (tr1 & Hr1 & Ha1 & Hl1).
  destruct (H2 _ _ _ _ Hr1 Ha1) as (tr2 & Hr2 & Ha2 & Hl2). exists tr2. split; [done|]. split; [done|lia].
Qed.

(** A trace begins where the run does. *)
Lemma run_head n prog p rf tr o : run_prog n prog p rf = Some (tr, o) -> exists tr', tr = p :: tr'.
Proof.
  destruct n as [|n]; [done|]. cbn. destruct (step_insn prog p rf) as [q rf'| |].
  - destruct (run_prog n prog q rf') as [[tr1 o1]|]; [|done]. intros [= <- _]. eauto.
  - intros [= <- _]. eauto.
  - intros [= <- _]. eauto.
Qed.

Lemma steps_runs m P Q : m 0 = 0 -> step_kept m P Q -> runs_kept P Q.
Proof.
  intros Hm Hk n rf tr r Hr0 Ha0.
  enough (forall rf tr p, run_prog n P.1 p rf = Some (tr, Return r) -> Forall (alive P) tr ->
    exists tr', run_prog n Q.1 (m p) rf = Some (tr', Return r) /\ Forall (alive Q) tr' /\ (length tr' <= length tr)%nat)
    as Hall by (rewrite <- Hm; eauto).
  clear rf tr Hm Hr0 Ha0. induction n as [|n IH]; intros rf tr p Hr Ha; [done|]. destruct (run_head _ _ _ _ _ _ Hr) as [tr' ->].
  apply Forall_cons in Ha as [Hp Ha]. destruct (Hk p rf Hp) as [K1 K2]. cbn in Hr.
  destruct (step_insn P.1 p rf) as [q rf'|r'|] eqn:Es.
  - destruct (run_prog n P.1 q rf') as [[tr1 o1]|] eqn:E1; [|done]. injection Hr as -> ->.
    destruct (run_head _ _ _ _ _ _ E1) as [tr2 ->]. assert (alive P q) as Hq by by apply Forall_cons in Ha as [Hq _].
    destruct (IH rf' (q :: tr2) q E1 Ha) as (tr3 & R3 & A3 & L3).
    destruct (K2 q rf' eq_refl (proj1 Hq)) as [[S1 S2]|[S1 ->]].
    + exists (m p :: tr3). cbn. rewrite S1, R3. split; [done|]. split; [by constructor|]. cbn in *. lia.
    + exists tr3. rewrite S1. split; [apply (run_prog_mono Q.1 n); [done|lia]|]. split; [done|]. cbn in *. lia.
  - injection Hr as <- ->. destruct (K1 r eq_refl) as [S1 S2]. exists [m p]. cbn. rewrite S1.
    split; [done|]. split; [by apply Forall_singleton|]. done.
  - done.
Qed.

(** ** The same instruction at the same place *)

Lemma fetch_imapZ f prog p : fetch (imapZ f 0 prog) p = f p <$> fetch prog p.
Proof.
  unfold fetch. destruct (Z.leb_spec 0 p); [|done]. rewrite lookup_imapZ.
  by replace (0 + Z.of_nat (Z.to_nat p)) with p by lia.
Qed.

(** An instruction that is kept, with its immediate, makes the same step. *)
Lemma same_insn P Q (m : Z -> Z) p i : alive P p -> fetch P.1 p = Some i -> fetch Q.1 (m p) = Some i ->
  flag Q.2 (m p) = flag P.2 p -> m (p + 1) = m p + 1 ->
  (is_ld i -> fetch Q.1 (m p + 1) = fetch P.1 (p + 1) /\ flag Q.2 (m p + 1) = flag P.2 (p + 1) /\ m (p + 2) = m p + 2) ->
  alive Q (m p) /\
  forall rf, (forall r, step_insn P.1 p rf = Return r -> step_insn Q.1 (m p) rf = Return r) /\
    (is_jump i = false -> forall q rf', step_insn P.1 p rf = Next q rf' -> step_insn Q.1 (m p) rf = Next (m q) rf').
Proof.
  intros [A1 A2] Hp Hq Hfl Hm1 Hld. split.
  - split; [congruence|]. intros i' Hi' Hl. rewrite Hq in Hi'. injection Hi' as <-.
    destruct (Hld Hl) as (E1 & E2 & E3). rewrite E1, E2. by apply A2.
  - intros rf. rewrite !step_insn_at, Hp, Hq. split.
    + intros r Hr. destruct (is_jump i) eqn:Hj; [|by apply straight_no_return in Hr].
      by apply (jump_return i _ _ _ _ Hj) in Hr as (_ & _ & Hr).
    + intros Hj q rf' Hs. destruct (straight_step _ _ _ _ _ _ Hj Hs) as [(d & -> & Hd & Hs1) Hs2].
      destruct (decide (is_ld i)) as [Hl|Hl].
      * destruct (Hld Hl) as (E1 & E2 & E3). rewrite E1, Hs1. f_equal. destruct Hd as [-> | [-> _]]; lia.
      * destruct Hd as [-> | [-> Hl']]; [|done]. rewrite Hm1.
        destruct (straight_step _ _ _ _ _ _ Hj (Hs2 Hl (fetch Q.1 (m p + 1)))) as [(d & Ed & _ & Hs3) _].
        replace d with 1 in Hs3 by lia. apply Hs3.
Qed.

Lemma next_unused i next next' pc rf : ~ is_ld i -> step_at i next pc rf = step_at i next' pc rf.
Proof. intros Hl%Z.eqb_neq. unfold step_at. by rewrite Hl. Qed.

(** The same, where nothing moves. *)
Lemma same_place P Q p i : alive P p -> fetch P.1 p = Some i -> fetch Q.1 p = Some i -> P.2 = Q.2 ->
  (is_ld i -> fetch Q.1 (p + 1) = fetch P.1 (p + 1)) ->
  alive Q p /\ forall rf, step_insn Q.1 p rf = step_insn P.1 p rf.
Proof.
  intros [A1 A2] Hp Hq Hfl Hld. split.
  - unfold alive. rewrite <- Hfl. split; [done|]. intros i' Hi' Hl. rewrite Hq in Hi'. injection Hi' as <-.
    rewrite (Hld Hl). by apply A2.
  - intros rf. rewrite !step_insn_at, Hp, Hq. destruct (decide (is_ld i)) as [Hl|Hl]; [by rewrite Hld|].
    by apply next_unused.
Qed.

(** ** Hard-wired branches *)

Lemma cond_jump_is_jump i : insn_is_cond_jump (code i) = true ->
  is_jump i = true /\ BPF_OP (code i) <> BPF_JA /\ dist i = i_off i /\
  forall o, redirect o i = mk_raw (code i) (dst_reg i) (src_reg i) o (i_imm i).
Proof.
  unfold insn_is_cond_jump, is_jump. intros H.
  assert (BPF_OP (code i) <> BPF_JA) as Hop by (repeat case_match; lia).
  split; [repeat case_match; lia|]. split; [done|].
  assert ((code i =? Z.lor BPF_JMP32 BPF_JA) = false) as E by (apply Z.eqb_neq; intros E; rewrite E in Hop; by apply Hop).
  unfold dist, redirect. by rewrite E.
Qed.

Lemma ja_step o next pc rf : step_at (ja_insn o) next pc rf = Next (pc + o + 1) rf.
Proof. done. Qed.

(** A branch that goes to a marked instruction is kept. *)
Lemma branch_hard_wire fl p i next next' rf q rf' : 0 <= code i < 256 -> insn_is_cond_jump (code i) = true ->
  step_at i next p rf = Next q rf' -> flag fl q = true -> step_at (hard_wire fl p i) next' p rf = Next q rf'.
Proof.
  intros Hc Hj Hs Hq. destruct (cond_jump_is_jump i Hj) as (Hj1 & _ & Hd & _).
  destruct (jump_target _ _ _ _ _ _ Hj1 Hc Hs) as [-> (taken & Eq & _ & Hall)]. rewrite Hd in Eq.
  unfold hard_wire. rewrite Hj. cbn. destruct (flag fl (p + 1)) eqn:E1; cbn.
  - destruct (flag fl (p + 1 + i_off i)) eqn:E2; cbn; [by rewrite <- (jump_self i), Hall, Hd, Eq|].
    rewrite ja_step. f_equal. destruct taken; [|lia]. subst q.
    by replace (p + i_off i + 1) with (p + 1 + i_off i) in Hq by lia; rewrite Hq in E2.
  - rewrite ja_step. f_equal. destruct taken; [lia|]. subst q.
    by replace (p + 0 + 1) with (p + 1) in Hq by lia; rewrite Hq in E1.
Qed.

Lemma code_0_kept fl p n : code n = 0 -> hard_wire fl p n = n.
Proof. intros H. unfold hard_wire. by rewrite H. Qed.

Lemma hard_wire_kept prog fl : Forall insn_fields prog ->
  runs_kept (prog, fl) (opt_hard_wire_dead_code_branches prog fl, fl).
Proof.
  intros Hf. apply (steps_runs (fun p => p)); [done|]. intros p rf Ha. cbn [fst snd]. unfold opt_hard_wire_dead_code_branches.
  destruct (fetch prog p) as [i|] eqn:Hi; [|by rewrite step_insn_at, Hi].
  assert (0 <= code i < 256) as Hc.
  { unfold fetch in Hi. destruct (0 <=? p); [|done]. eapply Forall_lookup_1 in Hf as (Hc & _); [exact Hc|done]. }
  destruct (insn_is_cond_jump (code i)) eqn:Hj.
  - destruct (cond_jump_is_jump i Hj) as (Hj1 & Hop & _).
    assert (alive (imapZ (hard_wire fl) 0 prog, fl) p) as Ha'.
    { split; [apply Ha|]. intros i' Hi' Hl. cbn in Hi'. rewrite fetch_imapZ, Hi in Hi'. cbn in Hi'. injection Hi' as <-.
      unfold hard_wire in Hl. rewrite Hj in Hl. cbn in Hl. destruct (flag fl (p + 1)); [|done].
      destruct (flag fl (p + 1 + i_off i)); [|done]. cbn in Hl. unfold is_ld in Hl. by rewrite Hl in Hj. }
    split.
    + intros r Hr. rewrite step_insn_at, Hi in Hr. apply (jump_return _ _ _ _ _ Hj1) in Hr as [He _]. congruence.
    + intros q rf' Hs Hq. left. split; [|done]. rewrite !step_insn_at, Hi in *. rewrite fetch_imapZ, Hi. cbn.
      by eapply branch_hard_wire.
  - assert (fetch (imapZ (hard_wire fl) 0 prog) p = Some i) as Hq.
    { rewrite fetch_imapZ, Hi. cbn. unfold hard_wire. by rewrite Hj. }
    destruct (same_place (prog, fl) (imapZ (hard_wire fl) 0 prog, fl) p i Ha Hi Hq) as [Ha' Hs]; [done| |].
    { intros Hl. destruct (proj2 Ha i Hi Hl) as (_ & _ & n & Hn & Hc0). cbn [fst] in *.
      rewrite fetch_imapZ, Hn. cbn. by rewrite code_0_kept. }
    cbn [fst] in Hs. rewrite Hs. auto.
Qed.

(** ** Adjusted jumps *)

Lemma adj_straight pos eo en c i : is_jump i = false -> (is_ld i -> src_reg i = 0%nat) -> adj_insn pos eo en c i = Some i.
Proof.
  unfold is_jump, adj_insn, bpf_pseudo_func, is_ld. intros Hj Hl.
  destruct (Z.eqb_spec (code i) (Z.lor BPF_LD BPF_DW)) as [E|]; [rewrite (Hl E)|].
  all: apply orb_false_elim in Hj as [-> ->]; done.
Qed.

Lemma adj_exit pos eo en c i : is_jump i = true -> BPF_OP (code i) = BPF_EXIT -> adj_insn pos eo en c i = Some i.
Proof.
  unfold adj_insn, bpf_pseudo_func. intros Hj ->. rewrite orb_true_r.
  destruct (Z.eqb_spec (code i) (Z.lor BPF_LD BPF_DW)) as [E|]; [|done]. unfold is_jump in Hj. by rewrite E in Hj.
Qed.

Lemma adj_jump pos eo en c i i' : is_jump i = true -> BPF_OP (code i) <> BPF_EXIT -> BPF_OP (code i) <> BPF_CALL ->
  adj_insn pos eo en c i = Some i' -> i' = redirect (adj_delta pos eo en c (dist i)) i.
Proof.
  unfold adj_insn, bpf_pseudo_func. intros Hj He%Z.eqb_neq Hc%Z.eqb_neq.
  destruct (Z.eqb_spec (code i) (Z.lor BPF_LD BPF_DW)) as [E|_]; [unfold is_jump in Hj; by rewrite E in Hj|].
  cbn [andb]. rewrite He, Hc. unfold is_jump in Hj.
  replace (negb _ && _ || false) with false by (destruct (_ =? BPF_JMP), (_ =? BPF_JMP32); done).
  unfold bpf_adj_delta_to_off, bpf_adj_delta_to_imm, redirect, dist. intros H.
  destruct (code i =? _); case_match; try done; by injection H as <-.
Qed.

(** What an adjustment can change. *)
Lemma adj_cases pos eo en c i :
  adj_insn pos eo en c i = Some i \/ adj_insn pos eo en c i = bpf_adj_delta_to_imm pos eo en c i \/
  adj_insn pos eo en c i = bpf_adj_delta_to_off pos eo en c i.
Proof. unfold adj_insn. repeat case_match; auto. Qed.

Lemma adj_fields pos eo en c i i' : adj_insn pos eo en c i = Some i' -> insn_fields i -> insn_fields i'.
Proof.
  assert (forall i', bpf_adj_delta_to_imm pos eo en c i = Some i' -> insn_fields i -> insn_fields i') as Himm.
  { unfold bpf_adj_delta_to_imm, insn_fields. intros j H. case_match; [done|]. injection H as <-. cbn. unfold is_s32, S32_MIN, S32_MAX in *. lia. }
  destruct (adj_cases pos eo en c i) as [-> | [-> | ->]]; [congruence|auto|].
  unfold bpf_adj_delta_to_off. case_match; [auto|]. case_match; [done|].
  intros [= <-] Hi. unfold insn_fields, is_s32 in *. cbn. lia.
Qed.

(** A jump over a removed block gets shorter, and one that goes back to the
    block from behind ends before it. *)
Lemma adj_delta_range pos cnt c o : 0 <= cnt -> Z.min o 0 <= adj_delta pos (pos + cnt) pos c o < Z.max (o + 1) cnt.
Proof. intros H. unfold adj_delta. repeat case_match; lia. Qed.

Lemma adj_ok pos cnt c i : 0 <= cnt <= 2 ^ 15 -> insn_fields i -> is_Some (adj_insn pos (pos + cnt) pos c i).
Proof.
  intros Hc (H1 & H2 & H3). assert (is_Some (bpf_adj_delta_to_imm pos (pos + cnt) pos c i)) as Himm.
  { unfold bpf_adj_delta_to_imm. pose proof (adj_delta_range pos cnt c (i_imm i) ltac:(lia)). unfold is_s32 in H3.
    case_match; [unfold S32_MIN, S32_MAX in *; lia|done]. }
  destruct (adj_cases pos (pos + cnt) pos c i) as [-> | [-> | ->]]; [done|done|].
  unfold bpf_adj_delta_to_off. case_match; [done|].
  pose proof (adj_delta_range pos cnt c (i_off i) ltac:(lia)). case_match; [lia|done].
Qed.

(** ** A removal *)

Definition wf_marks (P : marks) : Prop := length P.1 = length P.2 /\ Forall insn_fields P.1.

(** What may go: instructions that are not marked, or one empty jump. *)
Definition removable (P : marks) (off cnt : nat) : Prop :=
  (0 < cnt)%nat /\ (off + cnt <= length P.1)%nat /\
  ((forall j, (off <= j < off + cnt)%nat -> P.2 !! j = Some false) \/ cnt = 1%nat /\ P.1 !! off = Some (ja_insn 0)).

(** Where a position is afterwards. *)
Definition moved_pos (off cnt : nat) (p : Z) : Z :=
  if p <? Z.of_nat off then p else if p <? Z.of_nat (off + cnt) then Z.of_nat off else p - Z.of_nat cnt.
Definition outside_block (off cnt : nat) (p : Z) : Prop := p < Z.of_nat off \/ Z.of_nat (off + cnt) <= p.

(** Comparisons in the goal, one by one. *)
Ltac compare_all :=
  repeat match goal with
  | |- context [?a <? ?b] => destruct (Z.ltb_spec a b)
  | |- context [?a <=? ?b] => destruct (Z.leb_spec a b)
  end; cbn [andb orb].

Lemma moved_next off cnt p : outside_block off cnt p -> moved_pos off cnt (p + 1) = moved_pos off cnt p + 1.
Proof. unfold outside_block, moved_pos. intros H. compare_all; lia. Qed.

Lemma fetch_lookup prog p i : fetch prog p = Some i -> 0 <= p /\ prog !! Z.to_nat p = Some i.
Proof. unfold fetch. destruct (Z.leb_spec 0 p); [done|discriminate]. Qed.

Lemma lookup_moved {A} (l : list A) off cnt p : (off + cnt <= length l)%nat -> outside_block off cnt p -> 0 <= p ->
  0 <= moved_pos off cnt p /\ cut off cnt l !! Z.to_nat (moved_pos off cnt p) = l !! Z.to_nat p.
Proof.
  intros Hl Ho Hp. assert (0 <= moved_pos off cnt p) as Hm by (unfold moved_pos; compare_all; lia). split; [done|].
  rewrite lookup_cut by done. unfold outside_block, moved_pos in *.
  case_decide as Hd; [f_equal|f_equal]; revert Hd; compare_all; lia.
Qed.

Lemma adj_branches_lookup prog pos eo en prog' : bpf_adj_branches prog pos eo en = Some prog' ->
  length prog' = length prog /\
  forall j i, prog !! j = Some i -> exists i', prog' !! j = Some i' /\ adj_insn pos eo en (Z.of_nat j) i = Some i'.
Proof.
  unfold bpf_adj_branches. intros H%mapM_Some. pose proof (Forall2_length _ _ _ H) as Hl. rewrite length_imapZ in Hl.
  split; [done|]. intros j i Hj. assert (imapZ (adj_insn pos eo en) 0 prog !! j = Some (adj_insn pos eo en (Z.of_nat j) i)) as Hi
    by (by rewrite lookup_imapZ, Hj).
  destruct (Forall2_lookup_l _ _ _ _ _ H Hi) as (i' & Hi' & E). eauto.
Qed.

Section removal.
Context (P Q : marks) (off cnt : nat).
Context (Hwf : wf_marks P) (Hrem : removable P off cnt) (HQ : verifier_remove_insns P off cnt = Some Q).
Local Abbreviation mv := (moved_pos off cnt).
Local Abbreviation adj := (adj_insn (Z.of_nat off) (Z.of_nat (off + cnt)) (Z.of_nat off)).

Lemma removed_program : bpf_adj_branches (cut off cnt P.1) (Z.of_nat off) (Z.of_nat (off + cnt)) (Z.of_nat off) = Some Q.1 /\
  Q.2 = cut off cnt P.2.
Proof using HQ.
  unfold verifier_remove_insns, bpf_remove_insns in HQ. destruct (bpf_adj_branches _ _ _ _) as [q|]; [|done].
  by injection HQ as <-.
Qed.

Lemma removed_wf : wf_marks Q /\ length Q.1 = (length P.1 - cnt)%nat.
Proof using Hwf Hrem HQ.
  destruct Hwf as [Hl Hf], Hrem as (_ & Hoc & _), removed_program as [E1 E2].
  destruct (adj_branches_lookup _ _ _ _ _ E1) as [El Ea].
  assert (length Q.1 = (length P.1 - cnt)%nat) as HlQ by (by rewrite El, length_cut).
  split; [|done]. split; [rewrite E2, length_cut; lia|].
  apply Forall_lookup. intros j i' Hj. destruct (lookup_lt_is_Some_2 (cut off cnt P.1) j) as [i Hi].
  { apply lookup_lt_Some in Hj. lia. }
  destruct (Ea j i Hi) as (i2 & E & Hadj). rewrite Hj in E. injection E as <-. eapply adj_fields; [done|].
  rewrite lookup_cut in Hi by done. rewrite Forall_lookup in Hf. case_decide; eauto.
Qed.

Lemma removed_flag p : outside_block off cnt p -> flag Q.2 (mv p) = flag P.2 p.
Proof using Hwf Hrem HQ.
  intros Ho. destruct Hwf as [Hl Hf], Hrem as (_ & Hoc & _), removed_program as [_ ->]. unfold flag.
  destruct (Z.leb_spec 0 p).
  - destruct (lookup_moved P.2 off cnt p) as [Hm E]; [lia|done..|]. rewrite E. by destruct (Z.leb_spec 0 (mv p)); [|lia].
  - unfold moved_pos. destruct (Z.ltb_spec p (Z.of_nat off)); [|lia]. by destruct (Z.leb_spec 0 p); [lia|].
Qed.

Lemma removed_fetch p i : outside_block off cnt p -> fetch P.1 p = Some i ->
  exists i', fetch Q.1 (mv p) = Some i' /\ adj (mv p) i = Some i'.
Proof using Hrem HQ.
  intros Ho [Hp Hi]%fetch_lookup. destruct Hrem as (_ & Hoc & _), removed_program as [E _].
  destruct (lookup_moved P.1 off cnt p Hoc Ho Hp) as [Hm El]. rewrite Hi in El.
  destruct (proj2 (adj_branches_lookup _ _ _ _ _ E) _ _ El) as (i' & Hi' & Ha). exists i'.
  rewrite Z2Nat.id in Ha by done. split; [|done]. unfold fetch. by destruct (Z.leb_spec 0 (mv p)); [|lia].
Qed.

(** What is marked stays, but for an empty jump. *)
Lemma flagged_outside p : flag P.2 p = true -> outside_block off cnt p \/
  cnt = 1%nat /\ p = Z.of_nat off /\ fetch P.1 p = Some (ja_insn 0).
Proof using Hwf Hrem HQ.
  intros Hfl. destruct Hrem as (_ & Hoc & Hdead). destruct (decide (Z.of_nat off <= p < Z.of_nat (off + cnt))) as [Hin|Hout].
  - destruct Hdead as [Hdead|[-> Hja]].
    + unfold flag in Hfl. destruct (Z.leb_spec 0 p); [|lia]. by rewrite Hdead in Hfl by lia.
    + right. assert (p = Z.of_nat off) as -> by lia. split; [done|]. split; [done|]. unfold fetch.
      destruct (Z.leb_spec 0 (Z.of_nat off)); [by rewrite Nat2Z.id|lia].
  - left. unfold outside_block. lia.
Qed.

(** The target of an adjusted jump is where its target went. *)
Lemma adj_target p o : outside_block off cnt p -> outside_block off cnt (p + o + 1) \/ p + o + 1 = Z.of_nat off ->
  mv p + adj_delta (Z.of_nat off) (Z.of_nat (off + cnt)) (Z.of_nat off) (mv p) o + 1 = mv (p + o + 1).
Proof using Hrem. destruct Hrem as (Hc & _). unfold outside_block, adj_delta, moved_pos. intros H1 H2. compare_all; lia. Qed.

(** An instruction that needs no adjustment. *)
Lemma removal_same p i : alive P p -> fetch P.1 p = Some i -> outside_block off cnt p -> adj (mv p) i = Some i ->
  alive Q (mv p) /\
  forall rf, (forall r, step_insn P.1 p rf = Return r -> step_insn Q.1 (mv p) rf = Return r) /\
    (is_jump i = false -> forall q rf', step_insn P.1 p rf = Next q rf' -> step_insn Q.1 (mv p) rf = Next (mv q) rf').
Proof using Hwf Hrem HQ.
  intros Ha Hi Ho Hadj. destruct (removed_fetch p i Ho Hi) as (i' & Hi' & E). rewrite Hadj in E. injection E as <-.
  apply (same_insn P Q mv p i Ha Hi Hi'); [by apply removed_flag|by apply moved_next|].
  intros Hl. destruct (proj2 Ha i Hi Hl) as (_ & Hfl & n & Hn & Hc).
  destruct (flagged_outside _ Hfl) as [Ho1|(_ & _ & Hja)]; [|rewrite Hn in Hja; by injection Hja as ->].
  rewrite <- moved_next by done. destruct (removed_fetch _ _ Ho1 Hn) as (n' & Hn' & En).
  rewrite adj_straight in En; [|unfold is_jump; by rewrite Hc|unfold is_ld; by rewrite Hc]. injection En as <-.
  rewrite Hn, Hn', removed_flag by done. split; [done|]. split; [done|].
  replace (p + 2) with (p + 1 + 1) by lia. rewrite !moved_next by done. lia.
Qed.

(** A jump that is taken or not. *)
Lemma removal_jump p i rf q rf' : alive P p -> fetch P.1 p = Some i -> outside_block off cnt p -> is_jump i = true ->
  step_insn P.1 p rf = Next q rf' -> flag P.2 q = true -> step_insn Q.1 (mv p) rf = Next (mv q) rf' /\ alive Q (mv p).
Proof using Hwf Hrem HQ.
  intros Ha Hi Ho Hj Hs Hq. rewrite step_insn_at, Hi in Hs. destruct (removed_fetch p i Ho Hi) as (i' & Hi' & Hadj).
  assert (0 <= code i < 256) as Hc.
  { apply fetch_lookup in Hi as [_ Hi]. by destruct (Forall_lookup_1 _ _ _ _ (proj2 Hwf) Hi). }
  destruct (jump_target _ _ _ _ _ _ Hj Hc Hs) as [-> (taken & -> & [He Hcall] & Hall)].
  apply adj_jump in Hadj as ->; [|done..]. split.
  - rewrite step_insn_at, Hi', Hall. f_equal. destruct taken.
    + apply adj_target; [done|]. destruct (flagged_outside _ Hq) as [|(_ & -> & _)]; auto.
    + rewrite !Z.add_0_r. by rewrite moved_next.
  - split; [rewrite removed_flag by done; apply Ha|]. intros j E Hl. rewrite Hi' in E. injection E as <-.
    assert (code (redirect (adj_delta (Z.of_nat off) (Z.of_nat (off + cnt)) (Z.of_nat off) (mv p) (dist i)) i) = code i) as E
      by (unfold redirect; by destruct (code i =? _)).
    unfold is_ld, is_jump in *. rewrite E in Hl. by rewrite Hl in Hj.
Qed.

Lemma removal_steps : step_kept mv P Q.
Proof using Hwf Hrem HQ.
  intros p rf Ha. destruct (fetch P.1 p) as [i|] eqn:Hi; [|by rewrite step_insn_at, Hi].
  destruct (flagged_outside p (proj1 Ha)) as [Ho|(Hc & Hp & Hja)].
  - destruct (is_jump i) eqn:Hj.
    + split; [|by left; eapply removal_jump]. intros r Hr. pose proof Hr as Hr0. rewrite step_insn_at, Hi in Hr.
      destruct (jump_return _ _ _ _ _ Hj Hr) as (_ & He & _).
      destruct (removal_same p i Ha Hi Ho) as [Ha' Hs]; [by apply adj_exit|]. split; [by apply Hs|done].
    + destruct (removal_same p i Ha Hi Ho) as [Ha' Hs].
      { apply adj_straight; [done|]. intros Hl. by apply (proj2 Ha i Hi). }
      split; [intros r Hr|intros q rf' Hst _; left]; (split; [by apply Hs|done]).
  - rewrite Hi in Hja. injection Hja as ->. rewrite step_insn_at, Hi. split; [done|].
    intros q rf' Hs _. right. rewrite ja_step in Hs. injection Hs as <- <-. split; [|done].
    unfold moved_pos. compare_all; lia.
Qed.

Lemma removal_kept : wf_marks Q /\ runs_kept P Q /\ length Q.1 = (length P.1 - cnt)%nat.
Proof using Hwf Hrem HQ.
  destruct removed_wf as [Hw Hl]. split; [done|]. split; [|done]. apply (steps_runs mv); [|apply removal_steps].
  destruct Hrem as (Hc & _). unfold moved_pos. compare_all; lia.
Qed.
End removal.

(** The removal succeeds when jumps over the block fit in their fields. *)
Lemma removal_ok P off cnt : wf_marks P -> (off + cnt <= length P.1)%nat -> Z.of_nat cnt <= 2 ^ 15 ->
  is_Some (verifier_remove_insns P off cnt).
Proof.
  intros [_ Hf] Hl Hc. unfold verifier_remove_insns, bpf_remove_insns, bpf_adj_branches.
  destruct (mapM (fun o => o) _) as [q|] eqn:E; [done|]. exfalso. revert E. apply not_eq_None_Some.
  apply mapM_is_Some, Forall_lookup. intros j o. rewrite lookup_imapZ, lookup_cut by done.
  intros (i & Hi & ->)%fmap_Some. replace (Z.of_nat (off + cnt)) with (Z.of_nat off + Z.of_nat cnt) by lia.
  apply adj_ok; [lia|]. rewrite Forall_lookup in Hf. case_decide; eauto.
Qed.

(** ** The loops *)

Definition kept_by (P Q : marks) : Prop := wf_marks Q /\ runs_kept P Q /\ (length Q.1 <= length P.1)%nat.

(** A result that keeps the runs, and is there for programs that are not too
    long. *)
Definition rewritten (P : marks) (o : option marks) : Prop :=
  (forall Q, o = Some Q -> kept_by P Q) /\ (Z.of_nat (length P.1) <= 2 ^ 15 -> is_Some o).

Lemma rewritten_self P : wf_marks P -> rewritten P (Some P).
Proof. intros Hw. split; [|done]. intros Q [= <-]. split; [done|]. split; [apply runs_kept_refl|done]. Qed.

Lemma rewritten_then P o (f : marks -> option marks) : rewritten P o ->
  (forall Q, wf_marks Q -> rewritten Q (f Q)) -> rewritten P (Q ← o; f Q).
Proof.
  intros [H1 H2] Hf. split.
  - intros R HR. destruct o as [Q|]; [|done]. cbn in HR. destruct (H1 Q eq_refl) as (W1 & K1 & L1).
    destruct (proj1 (Hf Q W1) R HR) as (W2 & K2 & L2). split; [done|]. split; [|lia]. by eapply runs_kept_trans.
  - intros Hl. destruct (H2 Hl) as [Q ->]. cbn. destruct (H1 Q eq_refl) as (W1 & _ & L1). apply Hf; [done|lia].
Qed.

Lemma rewritten_removal P off cnt : wf_marks P -> removable P off cnt -> rewritten P (verifier_remove_insns P off cnt).
Proof.
  intros Hw Hr. split.
  - intros Q HQ. destruct (removal_kept P Q off cnt Hw Hr HQ) as (W & K & L). split; [done|]. split; [done|lia].
  - destruct Hr as (_ & Hoc & _). intros Hl. apply removal_ok; [done|done|lia].
Qed.

Lemma dead_run_false l k : (k < dead_run l)%nat -> l !! k = Some false.
Proof. revert k. induction l as [|[] l IH]; intros [|k] H; cbn in *; try lia; [done|]. apply IH. lia. Qed.

Lemma dead_code_rewritten n : forall i P, wf_marks P -> rewritten P (opt_remove_dead_code n i P).
Proof.
  induction n as [|n IH]; intros i P Hw; [by apply rewritten_self|]. cbn [opt_remove_dead_code].
  destruct (i <? length P.1)%nat; [|by apply rewritten_self].
  destruct (dead_run (drop i P.2)) as [|j] eqn:Ed; [by apply IH|]. apply rewritten_then; [|eauto].
  assert (forall k, (k < S j)%nat -> P.2 !! (i + k)%nat = Some false) as Hdead.
  { intros k Hk. rewrite <- lookup_drop. apply dead_run_false. lia. }
  apply rewritten_removal; [done|]. split; [lia|]. destruct Hw as [Hl _]. split.
  - pose proof (lookup_lt_Some _ _ _ (Hdead j ltac:(lia))). lia.
  - left. intros k Hk. replace k with (i + (k - i))%nat by lia. apply Hdead. lia.
Qed.

Lemma nops_rewritten n : forall i P, wf_marks P -> rewritten P (opt_remove_nops n i P).
Proof.
  induction n as [|n IH]; intros i P Hw; [by apply rewritten_self|]. cbn [opt_remove_nops].
  destruct (P.1 !! i) as [x|] eqn:Ex; [|by apply rewritten_self]. case_decide as Hx; [|by apply IH]. subst x.
  apply rewritten_then; [|eauto]. apply rewritten_removal; [done|]. split; [lia|]. split; [|by right].
  apply lookup_lt_Some in Ex. lia.
Qed.

(** As many turns as the program has instructions are enough for both loops:
    more change nothing. *)
Lemma removal_length P off cnt Q : (off + cnt <= length P.1)%nat -> verifier_remove_insns P off cnt = Some Q ->
  length Q.1 = (length P.1 - cnt)%nat.
Proof.
  intros Hl HQ. destruct (removed_program P Q off cnt HQ) as [E _].
  by rewrite (proj1 (adj_branches_lookup _ _ _ _ _ E)), length_cut.
Qed.

Lemma dead_code_enough n : forall m i P, length P.1 = length P.2 -> (length P.1 <= i + n)%nat -> (n <= m)%nat ->
  opt_remove_dead_code m i P = opt_remove_dead_code n i P.
Proof.
  induction n as [|n IH]; intros m i P Hw Hl Hm; cbn [opt_remove_dead_code].
  - destruct m; [done|]. cbn [opt_remove_dead_code]. by destruct (Nat.ltb_spec i (length P.1)); [lia|].
  - destruct m as [|m]; [lia|]. cbn [opt_remove_dead_code]. destruct (Nat.ltb_spec i (length P.1)); [|done].
    destruct (dead_run (drop i P.2)) as [|j] eqn:Ed; [apply IH; [done|lia..]|].
    assert (i + S j <= length P.1)%nat as Hj.
    { rewrite Hw. assert (P.2 !! (i + j)%nat = Some false) as E%lookup_lt_Some; [|lia].
      rewrite <- lookup_drop. apply dead_run_false. lia. }
    destruct (verifier_remove_insns P i (S j)) as [Q|] eqn:EQ; [|done]. cbn.
    pose proof (removal_length _ _ _ _ Hj EQ). apply IH; [|lia..].
    rewrite (proj2 (removed_program _ _ _ _ EQ)), length_cut; lia.
Qed.

Lemma nops_enough n : forall m i P, (length P.1 <= i + n)%nat -> (n <= m)%nat ->
  opt_remove_nops m i P = opt_remove_nops n i P.
Proof.
  induction n as [|n IH]; intros m i P Hl Hm; cbn [opt_remove_nops].
  - destruct m; [done|]. cbn. by rewrite lookup_ge_None_2 by lia.
  - destruct m as [|m]; [lia|]. cbn. destruct (P.1 !! i) as [x|] eqn:Ex; [|done]. apply lookup_lt_Some in Ex.
    case_decide; [|apply IH; lia]. destruct (verifier_remove_insns P i 1) as [Q|] eqn:EQ; [|done]. cbn.
    pose proof (removal_length P i 1 Q ltac:(lia) EQ). apply IH; lia.
Qed.

(** ** Traps *)

Lemma fetch_sanitized prog fl p i : fetch prog p = Some i -> flag fl p = true -> fetch (sanitize_dead_code prog fl) p = Some i.
Proof.
  unfold flag. intros [Hp Hi]%fetch_lookup. unfold fetch. destruct (Z.leb_spec 0 p); [|done]. intros Hfl.
  unfold sanitize_dead_code. rewrite lookup_zip_with, Hi. by destruct (fl !! Z.to_nat p) as [[]|].
Qed.

Lemma sanitized_kept prog fl : runs_kept (prog, fl) (sanitize_dead_code prog fl, fl).
Proof.
  apply (steps_runs (fun p => p)); [done|]. intros p rf Ha. cbn [fst snd].
  destruct (fetch prog p) as [i|] eqn:Hi; [|by rewrite step_insn_at, Hi].
  pose proof (fetch_sanitized _ _ _ _ Hi (proj1 Ha)) as Hq.
  destruct (same_place (prog, fl) (sanitize_dead_code prog fl, fl) p i Ha Hi Hq) as [Ha' Hs]; [done| |].
  { intros Hl. destruct (proj2 Ha i Hi Hl) as (_ & Hf1 & n & Hn & _). cbn [fst snd] in *.
    rewrite Hn. by apply fetch_sanitized. }
  cbn [fst] in Hs. rewrite Hs. auto.
Qed.

(** ** The whole rewriting *)

(** The first pass leaves only complete immediates. *)
Lemma resolved_ld prog : resolve_pseudo_ldimm64 prog = Ok tt -> forall j i, prog !! j = Some i -> is_ld i ->
  src_reg i = 0%nat /\ exists n, prog !! S j = Some n /\ code n = 0.
Proof.
  assert (forall len prog, (length prog <= len)%nat -> resolve_pseudo_ldimm64 prog = Ok tt -> forall j i, prog !! j = Some i ->
    is_ld i -> src_reg i = 0%nat /\ exists n, prog !! S j = Some n /\ code n = 0) as Hall; [|by eapply (Hall (length prog))].
  clear prog. induction len as [|len IH]; intros [|i0 rest] Hlen Hr j i Hj Hl; cbn in Hlen; try done; [lia|].
  cbn [resolve_pseudo_ldimm64] in Hr. destruct ((BPF_CLASS (code i0) =? BPF_LDX) && _); [done|].
  destruct (Z.eqb_spec (code i0) (Z.lor BPF_LD BPF_DW)) as [E|E].
  - destruct rest as [|n rest]; [done|]. destruct (_ || _ || _ || _) eqn:En; [done|].
    destruct (Nat.eqb_spec (src_reg i0) 0) as [Hsrc|]; [|done]. assert (code n = 0) as Hn by (unfold nonzero in En; lia).
    destruct j as [|[|j]].
    + injection Hj as <-. split; [done|]. by exists n.
    + injection Hj as <-. unfold is_ld in Hl. by rewrite Hn in Hl.
    + cbn in Hlen. by apply (IH rest ltac:(lia) Hr j).
  - destruct (bpf_opcode_in_insntable _); [|done]. destruct j as [|j]; [by injection Hj as <-|].
    by apply (IH rest ltac:(lia) Hr j).
Qed.

Lemma flag_seen prog sn p i : fetch prog p = Some i -> flag (seen_flags prog sn) p = bool_decide (p ∈ sn).
Proof.
  intros [Hp Hi]%fetch_lookup. unfold flag. destruct (Z.leb_spec 0 p); [|lia]. unfold seen_flags.
  rewrite lookup_imapZ, Hi. cbn. by replace (0 + Z.of_nat (Z.to_nat p)) with p by lia.
Qed.

Lemma marked_alive prog sn p : resolve_pseudo_ldimm64 prog = Ok tt -> is_Some (fetch prog p) -> marked prog sn p ->
  alive (prog, seen_flags prog sn) p.
Proof.
  intros Hr [i Hi] [Hm1 Hm2]. split; [cbn; by rewrite (flag_seen _ _ _ _ Hi), bool_decide_eq_true_2|].
  cbn [fst snd]. intros i' Hi' Hl. rewrite Hi in Hi'. injection Hi' as <-. pose proof (Hm2 i Hi Hl) as Hin.
  apply fetch_lookup in Hi as [Hp Hi]. destruct (resolved_ld prog Hr _ _ Hi Hl) as (Hs & n & Hn & Hc). split; [done|].
  assert (fetch prog (p + 1) = Some n) as Hf.
  { unfold fetch. destruct (Z.leb_spec 0 (p + 1)); [|lia]. by replace (Z.to_nat (p + 1)) with (S (Z.to_nat p)) by lia. }
  rewrite (flag_seen _ _ _ _ Hf), bool_decide_eq_true_2 by done. split; [done|]. by exists n.
Qed.

(** A run that returns has an instruction at each of its positions. *)
Lemma run_fetches prog r : forall n p rf tr, run_prog n prog p rf = Some (tr, Return r) -> Forall (fun p => is_Some (fetch prog p)) tr.
Proof.
  induction n as [|n IH]; intros p rf tr Hr; [done|]. cbn in Hr. rewrite step_insn_at in Hr.
  destruct (fetch prog p) as [i|] eqn:Hi; [|done]. destruct (step_at i _ p rf) as [q rf'|r'|]; [| |done].
  - destruct (run_prog n prog q rf') as [[tr1 o1]|] eqn:E1; [|done]. injection Hr as <- ->. constructor; eauto.
  - injection Hr as <- _. apply Forall_singleton. by rewrite Hi.
Qed.

Lemma hard_wire_wf prog fl : length fl = length prog -> Forall insn_fields prog ->
  wf_marks (opt_hard_wire_dead_code_branches prog fl, fl).
Proof.
  intros Hl Hf. split; cbn; unfold opt_hard_wire_dead_code_branches; [by rewrite length_imapZ|].
  apply Forall_lookup. intros j i. rewrite lookup_imapZ. intros (i0 & Hi0 & ->)%fmap_Some.
  pose proof (Forall_lookup_1 _ _ _ _ Hf Hi0) as Hi. destruct Hi as (H1 & H2 & H3).
  unfold hard_wire. repeat case_match; try done; unfold insn_fields, is_s32; cbn; lia.
Qed.

Lemma privileged_rewrite prog sn : rewrite_prog true prog sn = fst <$>
  (p ← opt_remove_dead_code (length prog) 0 (opt_hard_wire_dead_code_branches prog (seen_flags prog sn), seen_flags prog sn);
   opt_remove_nops (length p.1) 0 p).
Proof.
  unfold rewrite_prog. destruct (opt_remove_dead_code _ _ _) as [p|]; [|done]. cbn. by destruct (opt_remove_nops _ _ _).
Qed.

Lemma rewrite_sound is_priv prog sn : Forall insn_fields prog ->
  (Z.of_nat (length prog) <= 2 ^ 15 -> is_Some (rewrite_prog is_priv prog sn)) /\
  forall prog' n rf tr r, rewrite_prog is_priv prog sn = Some prog' -> resolve_pseudo_ldimm64 prog = Ok tt ->
    run_prog n prog 0 rf = Some (tr, Return r) -> Forall (marked prog sn) tr ->
    exists tr', run_prog n prog' 0 rf = Some (tr', Return r) /\ (length tr' <= length tr)%nat.
Proof.
  intros Hf. set (fl := seen_flags prog sn). assert (length fl = length prog) as Hlen by apply length_imapZ.
  pose proof (hard_wire_wf prog fl Hlen Hf) as Hw. pose proof (dead_code_rewritten (length prog) 0 _ Hw) as Hd.
  pose proof (rewritten_then _ _ (fun p => opt_remove_nops (length p.1) 0 p) Hd (fun Q W => nops_rewritten _ _ Q W)) as [R1 R2].
  cbn [fst] in R2. unfold opt_hard_wire_dead_code_branches in R2 at 1. rewrite length_imapZ in R2. split.
  - intros Hl. destruct is_priv; [|done]. rewrite privileged_rewrite. by apply fmap_is_Some, R2.
  - intros prog' n rf tr r Hp Hres Hrun Hm.
    assert (exists Q, runs_kept (prog, fl) Q /\ Q.1 = prog') as (Q & HQ & <-).
    { destruct is_priv.
      - rewrite privileged_rewrite in Hp. apply fmap_Some in Hp as (Q & HQ & ->). exists Q. split; [|done].
        destruct (R1 Q HQ) as (_ & K & _). eapply runs_kept_trans; [by apply hard_wire_kept|done].
      - injection Hp as <-. exists (sanitize_dead_code prog fl, fl). split; [apply sanitized_kept|done]. }
    destruct (HQ n rf tr r Hrun) as (tr' & H1 & _ & H2); [|by exists tr'].
    pose proof (run_fetches _ _ _ _ _ _ Hrun) as Hfe. rewrite Forall_forall in Hm, Hfe |- *.
    intros p Hin. by apply marked_alive; auto.
Qed.

(** ** [bpf_check] *)

Lemma check_ends env kzalloc_ok signal_pending visited prog k :
  exists r, bpf_check env kzalloc_ok signal_pending visited prog k = Some r.
Proof.
  unfold bpf_check. destruct (resolve_pseudo_ldimm64 prog); [|eauto..].
  destruct (walk_ends env kzalloc_ok signal_pending visited prog k (Z.to_nat BPF_COMPLEXITY_LIMIT_INSNS + 1) (init_walk env prog))
    as [r Hr]; [by vm_compute..|].
  unfold do_check_main. rewrite Hr. destruct r; eauto.
Qed.

Lemma check_inv env kzalloc_ok signal_pending visited prog k w prog' :
  bpf_check env kzalloc_ok signal_pending visited prog k = Some (Ok (w, prog')) ->
  resolve_pseudo_ldimm64 prog = Ok tt /\ do_check_main env kzalloc_ok signal_pending visited prog k = Some (Ok w) /\
  rewrite_prog (bpf_capable env) prog (seen w) = Some prog'.
Proof.
  unfold bpf_check. destruct (resolve_pseudo_ldimm64 prog) as [[]| |]; [|done..].
  destruct (do_check_main _ _ _ _ _ _) as [[w1| |]|]; [|done..].
  destruct (rewrite_prog _ prog (seen w1)) as [p1|] eqn:E; [|done]. by intros [= <- <-].
Qed.

(** The run of the program that was walked over. *)
Lemma main_sound env kzalloc_ok signal_pending visited prog k :
  Z.of_nat (length prog) <= BPF_COMPLEXITY_LIMIT_INSNS -> Forall insn_fields prog ->
  Forall (fun i => pitfall i = false) prog -> (forall n, visited n <> 1) ->
  forall w ctx fp, do_check_main env kzalloc_ok signal_pending visited prog k = Some (Ok w) -> is_u64 ctx -> is_u64 fp ->
  exists tr r, run_prog (Z.to_nat BPF_COMPLEXITY_LIMIT_INSNS + 1) prog 0 (init_regs ctx fp) = Some (tr, Return r) /\
    returned k r /\ Forall (marked prog (seen w)) tr /\
    Z.of_nat (length tr) <= insn_processed w <= BPF_COMPLEXITY_LIMIT_INSNS.
Proof.
  intros Hlen Hfields Hplain Hv w ctx fp Hw Hc Hf.
  destruct (walk_sound env kzalloc_ok signal_pending visited prog k Hlen Hfields Hplain Hv _ _ w Hw ltac:(cbn; lia) 0 (init_regs ctx fp))
    as (tr & r & Hrun & Hr & Htr & Hl).
  { split; [lia|]. left. split; [done|]. split; [done|]. by apply init_stands. }
  exists tr, r. split; [done|]. split; [done|]. split; [done|]. cbn in Hl. split; [lia|].
  apply (walk_limit env kzalloc_ok signal_pending visited prog k _ _ _ Hw); by vm_compute.
Qed.
