(* ===== verification/BpfClaims.v ===== *)
(** * Properties of the BPF verifier's scalar tracking *)
From S2P Require Import Prelude Bits Tnum TnumThms BpfReg BpfRegThms BpfCoerce BpfAlu BpfAluThms BpfShift BpfAluSound BpfJmp BpfJmpThms.

(** ** Example states *)

Definition env0 : bpf_verifier_env := mk_env true false true.
Definition scalar_meta : reg_meta := mk_meta SCALAR_VALUE 0 0 0 0 0 false.

(** A scalar about which nothing is known. *)
Definition any_scalar : bpf_reg_state :=
  __mark_reg_unknown env0 (mk_reg scalar_meta tnum_unknown 0 0 0 0 0 0 0 0).
(** A scalar with the value [k]. *)
Definition known (k : Z) : bpf_reg_state := __mark_reg_known any_scalar k.
(** A scalar in the signed range [lo, hi], as a comparison leaves it. *)
Definition srange (lo hi : Z) : bpf_reg_state := reg_bounds_sync (__mark_reg32_unbounded (set_s64 lo hi any_scalar)).

Lemma any_ok x : is_u64 x -> x ∈ any_scalar /\ reg_ok any_scalar.
Proof. apply mark_unknown_sound. Qed.
Lemma known_ok k : is_u64 k -> k ∈ known k /\ reg_ok (known k).
Proof. intros Hk. apply (mark_known_sound (set_meta _ any_scalar)); [done|]. by apply (any_ok 0). Qed.
Lemma srange_ok lo hi x : is_s64 lo -> is_s64 hi -> is_u64 x -> lo <= s64 x <= hi -> x ∈ srange lo hi /\ reg_ok (srange lo hi).
Proof.
  intros Hlo Hhi Hx Hb. apply sync_sound, unbounded32_sound. split; [repeat split; cbn; clia|].
  split; [by apply elem_of_unknown|]. split; cbn; clia.
Qed.

(** ** Branches and sign extension *)

(** The comparison the truncated bounds get wrong. *)
Lemma sx_truncated_misjudged reg size x :
  is_size size -> reg_ok reg -> x ∈ reg -> sx_truncates reg size = true ->
  let reg' := coerce_reg_to_size_sx reg size in
  let x' := u64 (sext_size size x) in
  umax_value reg' < x' /\ is_branch64_taken reg' U32_MAX BPF_JGT = 0 /\ cond_jmp BPF_JGT false x' U32_MAX = true.
Proof.
  intros Hsz Hok Hx Htr. pose proof (coerce_sx_truncated reg size x Hsz Hok Hx Htr) as Hlt. split; [done|].
  pose proof (sx_truncated_bounds reg size x Hsz Hok Hx Htr) as (Hmin & Hmax & Hbig).
  cbn [is_branch64_taken cond_jmp]. split; [|apply Z.ltb_lt; lia]. unfold decide_branch.
  destruct (Z.ltb_spec U32_MAX (umin_value (coerce_reg_to_size_sx reg size))); [lia|].
  by destruct (Z.leb_spec (umax_value (coerce_reg_to_size_sx reg size)) U32_MAX); [|lia].
Qed.

(** ** Tracked numbers *)

(** C19: the sum, the difference and the product of tracked numbers stand for
    every sum, difference and product of their values, modulo 2^64; the loop of
    the product has stopped by itself when the model's 64 turns are over.
    [tnum_in a b] decides inclusion: it is true exactly when every value of [b]
    is a value of [a]; and [tnum_range] contains its whole range. *)
Theorem tnum_operations_sound a b x y :
  x ∈ a -> y ∈ b ->
  u64 (x + y) ∈ tnum_add a b /\ u64 (x - y) ∈ tnum_sub a b /\ u64 (x * y) ∈ tnum_mul a b /\
  (tnum_mul_loop 64 a b (TNUM 0 0)).1.1 = TNUM 0 0 /\
  (tnum_in a b = true <-> forall z, z ∈ b -> z ∈ a) /\
  (forall z, Z.min x y <= z <= Z.max x y -> z ∈ tnum_range (Z.min x y) (Z.max x y)).
Proof.
  intros Ha Hb. pose proof (elem_of_wf _ _ Ha) as (Hv & Hm & _). pose proof (elem_of_u64 _ _ Ha). pose proof (elem_of_u64 _ _ Hb).
  split; [by apply tnum_add_sound|]. split; [by apply tnum_sub_sound|]. split; [by apply tnum_mul_sound|].
  split; [by apply mul_loop_ends|]. split; [apply tnum_in_spec; [done|by eapply elem_of_wf]|].
  intros z Hz. apply tnum_range_sound; [by apply is_u64_Zmin|by apply is_u64_Zmax|done].
Qed.

Lemma tnum_operations_sound_witness :
  3 ∈ TNUM 1 2 /\ u64 (3 * 5) ∈ tnum_mul (TNUM 1 2) (TNUM 4 1) /\ 4 ∈ tnum_range (Z.min 3 5) (Z.max 3 5).
Proof.
  assert (H1 : 3 ∈ TNUM 1 2) by (split; [split; vm_compute; congruence|split; [split; vm_compute; congruence|reflexivity]]).
  assert (H2 : 5 ∈ TNUM 4 1) by (split; [split; vm_compute; congruence|split; [split; vm_compute; congruence|reflexivity]]).
  pose proof (tnum_operations_sound (TNUM 1 2) (TNUM 4 1) 3 5 H1 H2) as (_ & _ & Hmul & _ & _ & Hrange).
  split; [exact H1|]. split; [exact Hmul|]. apply Hrange. split; vm_compute; congruence.
Defined.

(** [tnum_sbin] with a buffer of [size > 0] bytes writes the most
    significant bits, one character each (['x'], ['1'], ['0']), as many as fit,
    and a terminating NUL; it leaves the rest of the buffer alone.  With
    [size = 0], although the header promises at most [size] bytes, it writes
    byte 64: outside any buffer of 64 bytes or fewer. *)
Lemma tnum_sbin_writes_bits str size a :
  0 < size <= Z.of_nat (length str) -> size <= U64_MAX ->
  (exists str', tnum_sbin str size a = Some (str', 64) /\ length str' = length str /\
    forall j : nat, str' !! j =
      (if decide (Z.of_nat j < Z.min (size - 1) 64) then Some (bit_char a (63 - Z.of_nat j))
       else if decide (Z.of_nat j = Z.min (size - 1) 64) then Some 0 else str !! j)) /\
  ((length str <= 64)%nat -> tnum_sbin str 0 a = None).
Proof.
  intros Hs Hmax. split.
  - destruct (sbin_loop_spec 64 str size a ltac:(lia)) as (s1 & Hl & Hlen & Hj). unfold tnum_sbin. rewrite Hl. cbn [mbind option_bind].
    rewrite (u64_id (size - 1)) by (unfold is_u64, U64_MAX in *; lia).
    set (n := Z.to_nat (Z.min (size - 1) 64)). assert (Hn : Z.min (size - 1) 64 = Z.of_nat n) by lia. rewrite Hn.
    rewrite store_spec by lia. cbn [mbind option_bind]. eexists. split; [done|]. split; [by rewrite length_insert|].
    intros j. destruct (decide (j = n)) as [->|Hne].
    + rewrite list_lookup_insert_eq by lia. by repeat case_decide; try lia.
    + rewrite list_lookup_insert_ne by done. rewrite Hj. repeat case_decide; try lia; try done.
      do 2 f_equal. lia.
  - intros H64. destruct (sbin_loop_spec 64 str 0 a ltac:(lia)) as (s1 & Hl & Hlen & _). unfold tnum_sbin. rewrite Hl.
    cbn [mbind option_bind]. change (Z.min (u64 (0 - 1)) 64) with 64. unfold store. case_decide; [lia|done].
Qed.

(** ** Registers *)

(** C20: synchronising the bounds of a register never loses the register's
    value, and whatever the fields were it establishes the invariant: a
    register known not to be negative has an unsigned maximum and tracked bits
    that agree. *)
Theorem bounds_sync_sound r x :
  reg_fields r -> x ∈ r -> x ∈ reg_bounds_sync r /\ reg_ok (reg_bounds_sync r).
Proof. intros Hf Hx. by apply sync_sound. Qed.

Lemma bounds_sync_sound_witness : 5 ∈ reg_bounds_sync (set_u64 0 10 any_scalar).
Proof.
  refine (proj1 (bounds_sync_sound (set_u64 0 10 any_scalar) 5 _ _)); repeat split; vm_compute; congruence.
Defined.

(** C21: soundness of the verifier's arithmetic.  When
    [adjust_scalar_min_max_vals] accepts an instruction on two scalars, the
    value that the interpreter computes lies in the new state of the
    destination, and the invariant holds again.  It covers the 64-bit and
    32-bit forms of every operation, on the condition [off_ok]: the offset of a
    32-bit division or remainder is 0 (unsigned) or 1 (signed).  The verifier
    lets other offsets through, and then the result can be outside. *)
Theorem scalar_alu_sound env aux insn dst src x y dst' aux' z :
  reg_ok dst -> x ∈ dst -> reg_ok src -> y ∈ src ->
  off_ok insn -> adjust_scalar_min_max_vals env aux insn dst src = (dst', aux', 0) ->
  alu_exec insn x y = Some z -> z ∈ dst' /\ reg_ok dst'.
Proof. intros Hd Hx Hs Hy. apply adjust_scalar_sound. by split. Qed.

(** Adding 3 to a scalar in [-5, 10], in 32 bits. *)
Definition demo_insn : bpf_insn := mk_insn BPF_ADD false false 0 0.
Definition demo_dst : bpf_reg_state := Eval vm_compute in srange (-5) 10.
Definition demo_src : bpf_reg_state := Eval vm_compute in known 3.
Definition demo_out : bpf_reg_state :=
  Eval vm_compute in (adjust_scalar_min_max_vals env0 (mk_aux 0 0) demo_insn demo_dst demo_src).1.1.

Lemma scalar_alu_sound_witness : 2 ∈ demo_out /\ reg_ok demo_out.
Proof.
  assert (H1 : u64 (-1) ∈ demo_dst /\ reg_ok demo_dst).
  { change demo_dst with (srange (-5) 10). apply srange_ok; vm_compute; repeat split; congruence. }
  assert (H2 : 3 ∈ demo_src /\ reg_ok demo_src) by (change demo_src with (known 3); apply known_ok; split; vm_compute; congruence).
  refine (scalar_alu_sound env0 (mk_aux 0 0) demo_insn demo_dst demo_src (u64 (-1)) 3 demo_out (mk_aux 0 0) 2
    (proj2 H1) (proj1 H1) (proj2 H2) (proj1 H2) (fun _ _ => or_introl eq_refl) _ _); vm_compute; reflexivity.
Defined.

(** C22: conditional jumps.  When the verifier decides a comparison of a scalar
    with a value (1 or 0), the interpreter goes that way for every value the
    register may hold, and the flipped operator is the comparison with its
    operands exchanged.  Refining registers is sound in the branch the
    interpreter takes: after a comparison with a constant, 64-bit or 32-bit, the
    value is in the refined state and the invariant holds; after a comparison of
    two registers for equality, both values are in both refined registers (the
    branch in which they are equal gives them what is known of either). *)
Theorem conditional_jump_sound reg x op :
  type (meta reg) = SCALAR_VALUE -> reg_ok reg -> x ∈ reg ->
  (forall val is_jmp32,
     (is_branch_taken reg val op is_jmp32 = 1 -> cond_jmp op is_jmp32 x val = true) /\
     (is_branch_taken reg val op is_jmp32 = 0 -> cond_jmp op is_jmp32 x val = false) /\
     cond_jmp (flip_opcode op) is_jmp32 val x = cond_jmp op is_jmp32 x val) /\
  (forall val val32 is_jmp32 true_reg false_reg, is_u64 val -> is_u32 val32 ->
     reg_set_min_max reg reg val val32 op is_jmp32 = (true_reg, false_reg) ->
     let r := if cond_jmp op is_jmp32 x (if is_jmp32 then val32 else val) then true_reg else false_reg in
     x ∈ r /\ reg_ok r) /\
  (forall src y s1 d1 s0 d0, reg_ok src -> y ∈ src ->
     reg_combine_min_max src reg src reg op = ((s1, d1), (s0, d0)) ->
     let '(s', d') := if cond_jmp op false x y then (s1, d1) else (s0, d0) in
     y ∈ s' /\ reg_ok s' /\ x ∈ d' /\ reg_ok d').
Proof.
  intros Hty Hok Hx. split; [|split].
  - intros val is_jmp32. destruct (branch_sound reg x val op is_jmp32 Hty Hx) as [H1 H0].
    split; [done|]. split; [done|]. apply flip_sound.
  - intros val val32 is_jmp32 t f Hv Hv32 Hset. by apply (refine_const_sound reg x val val32 op is_jmp32 t f).
  - intros src y s1 d1 s0 d0 Hs Hy Hc. by apply (refine_equal_sound src reg x y op s1 d1 s0 d0).
Qed.

Definition demo_branches : bpf_reg_state * bpf_reg_state :=
  Eval vm_compute in reg_set_min_max demo_dst demo_dst 4 4 BPF_JSGT false.

Lemma conditional_jump_sound_witness :
  cond_jmp BPF_JSGT false 7 20 = false /\ 7 ∈ demo_branches.1 /\ reg_ok demo_branches.1.
Proof.
  assert (H1 : 7 ∈ demo_dst /\ reg_ok demo_dst).
  { change demo_dst with (srange (-5) 10). apply srange_ok; vm_compute; repeat split; congruence. }
  destruct (conditional_jump_sound demo_dst 7 BPF_JSGT eq_refl (proj2 H1) (proj1 H1)) as (Hd & Hr & _). split.
  - refine (proj1 (proj2 (Hd 20 false)) _). vm_compute. reflexivity.
  - refine (Hr 4 4 false demo_branches.1 demo_branches.2 _ _ _); [split; vm_compute; congruence..|vm_compute; reflexivity].
Defined.

(** ** Resizing *)

(** A scalar in [-100, -1]. *)
Definition demo_negative : bpf_reg_state := Eval vm_compute in srange (-100) (-1).

(** C23: changing the size of a register.  Truncating it to 1, 2 or 4 bytes, and
    the 32-bit sign extension followed by the zero extension of its result, keep
    the value the interpreter computes inside the state and the invariant.  The
    64-bit sign extension does so when the extended range is not negative, or the
    register is constant, or the range does not fit.  For a negative range it is
    wrong: the chained assignment [umin_value = u32_min_value = s64_min] stores
    the bounds truncated to 32 bits, the value is above the maximum, and the
    verifier decides [reg > 0xffffffff] as never taken while the interpreter
    always takes it. *)
Theorem resized_register_is_sound reg size x :
  reg_ok reg -> x ∈ reg ->
  (size = 1 \/ size = 2 ->
    let r := reg_bounds_sync (zext_32_to_64 (coerce_subreg_to_size_sx reg size)) in
    u32 (sext_size32 size x) ∈ r /\ reg_ok r) /\
  (is_size size -> x mod 2 ^ (size * 8) ∈ coerce_reg_to_size reg size /\ reg_ok (coerce_reg_to_size reg size)) /\
  (is_size size ->
    let reg' := coerce_reg_to_size_sx reg size in
    let x' := u64 (sext_size size x) in
    (sx_truncates reg size = false -> x' ∈ reg' /\ reg_ok reg') /\
    (sx_truncates reg size = true ->
       umax_value reg' < x' /\ is_branch64_taken reg' U32_MAX BPF_JGT = 0 /\ cond_jmp BPF_JGT false x' U32_MAX = true)).
Proof.
  intros Hok Hx. split_and!; intros Hsz.
  - apply sync_sound, coerce_subreg_sx_holds; [done|]. by apply reg_ok_holds.
  - by apply (coerce_sound size Hsz).
  - intros reg' x'. split; intros Htr; [by apply coerce_sx_sound | by apply sx_truncated_misjudged].
Qed.

Lemma resized_register_is_sound_witness :
  (u64 (-1) mod 2 ^ (1 * 8) ∈ coerce_reg_to_size demo_dst 1 /\ reg_ok (coerce_reg_to_size demo_dst 1)) /\
  umax_value (coerce_reg_to_size_sx demo_negative 1) < u64 (sext_size 1 (u64 (-5))).
Proof.
  assert (H1 : u64 (-1) ∈ demo_dst /\ reg_ok demo_dst).
  { change demo_dst with (srange (-5) 10). apply srange_ok; vm_compute; repeat split; congruence. }
  assert (H2 : u64 (-5) ∈ demo_negative /\ reg_ok demo_negative).
  { change demo_negative with (srange (-100) (-1)). apply srange_ok; vm_compute; repeat split; congruence. }
  split.
  - exact (proj1 (proj2 (resized_register_is_sound demo_dst 1 (u64 (-1)) (proj2 H1) (proj1 H1))) (or_introl eq_refl)).
  - exact (proj1 (proj2 (proj2 (proj2 (resized_register_is_sound demo_negative 1 (u64 (-5)) (proj2 H2) (proj1 H2)))
      (or_introl eq_refl)) eq_refl)).
Defined.

(** ** The interpreter's 32-bit signed division *)

Lemma abs32_abs x : s32 x <> S32_MIN -> abs32 x = Z.abs (s32 x).
Proof. intros H. unfold abs32. apply s32_id. pose proof (s32_range x). clia. Qed.

(** Division of absolute values and sign. *)
Lemma quot_abs a b : b <> 0 -> Z.quot a b = (if Bool.eqb (a <? 0) (b <? 0) then Z.abs a / Z.abs b else - (Z.abs a / Z.abs b)).
Proof.
  intros Hb. rewrite (Z.quot_div a b Hb).
  destruct (Z.ltb_spec a 0), (Z.ltb_spec b 0); cbn [Bool.eqb]; destruct (decide (a = 0)) as [->|];
    rewrite ?Z.sgn_neg, ?Z.sgn_pos by lia; cbn [Z.sgn Z.abs]; rewrite ?Z.div_0_l by lia; lia.
Qed.

Lemma rem_abs a b : b <> 0 -> Z.rem a b = (if a <? 0 then - (Z.abs a mod Z.abs b) else Z.abs a mod Z.abs b).
Proof.
  intros Hb. rewrite (Z.rem_mod a b Hb).
  destruct (Z.ltb_spec a 0); destruct (decide (a = 0)) as [->|]; rewrite ?Z.sgn_neg, ?Z.sgn_pos by lia;
    cbn [Z.sgn Z.abs]; rewrite ?Z.mod_0_l by lia; lia.
Qed.

(** The widened [abs(INT_MIN)] is [2^64 - 2^31]: what a division by [b] of it
    has in common with one of [2^31]. *)
Lemma int_min_mod b : 0 < b -> (2 ^ 64 - 2 ^ 31) mod b = 2 ^ 31 mod b <-> (b | 2 ^ 32 * (2 ^ 32 - 1)).
Proof.
  intros Hb. replace (2 ^ 32 * (2 ^ 32 - 1)) with ((2 ^ 64 - 2 ^ 31) - 2 ^ 31) by lia.
  rewrite <- Z.mod_divide by lia. split; intros H.
  - by rewrite Zminus_mod, H, Z.sub_diag, Z.mod_0_l by lia.
  - apply Z.mod_divide in H as [k Hk]; [|lia].
    replace (2 ^ 64 - 2 ^ 31) with (2 ^ 31 + k * b) by lia. apply Z_mod_plus_full.
Qed.

Lemma int_min_div b : 0 < b <= 2 ^ 31 ->
  u32 ((2 ^ 64 - 2 ^ 31) / b) = u32 (2 ^ 31 / b) <-> (b | 2 ^ 32 - 1).
Proof.
  intros Hb. pose proof (Z.div_mod (2 ^ 64 - 2 ^ 31) b ltac:(lia)) as H1. pose proof (Z.div_mod (2 ^ 31) b ltac:(lia)) as H2.
  pose proof (Z.mod_pos_bound (2 ^ 64 - 2 ^ 31) b ltac:(lia)). pose proof (Z.mod_pos_bound (2 ^ 31) b ltac:(lia)).
  revert H1 H2. generalize dependent ((2 ^ 64 - 2 ^ 31) mod b). generalize dependent (2 ^ 31 mod b).
  generalize ((2 ^ 64 - 2 ^ 31) / b). generalize (2 ^ 31 / b). intros q' q r' Hr' r Hr H1 H2. unfold u32. split.
  - intros He. assert ((q - q') mod 2 ^ 32 = 0) as Hd by (by rewrite Zminus_mod, He, Z.sub_diag).
    apply Z.mod_divide in Hd as [t Ht]; [|lia]. exists t. assert (2 ^ 32 * (2 ^ 32 - 1 - b * t) = r - r') by nia. nia.
  - intros [t Ht]. assert (q = q' + t * 2 ^ 32) as -> by nia. apply Z_mod_plus_full.
Qed.

Lemma u32_opp_inj a b : u32 (- a) = u32 (- b) <-> u32 a = u32 b.
Proof.
  unfold u32. split; intros H.
  - rewrite <- (Z.opp_involutive a), <- (Z.opp_involutive b), <- !(Z.sub_0_l (- _)).
    by rewrite Zminus_mod, H, <- Zminus_mod.
  - rewrite <- !(Z.sub_0_l). by rewrite Zminus_mod, H, <- Zminus_mod.
Qed.

(** The divisor [do_div] gets. *)
Lemma u32_abs32 y : u32 (abs32 y) = Z.abs (s32 y).
Proof.
  pose proof (s32_range y) as Ry.
  destruct (decide (s32 y = S32_MIN)) as [E|]; [unfold abs32; rewrite E; reflexivity|].
  rewrite abs32_abs by done. apply u32_id. clia.
Qed.

(** The dividend [INT_MIN]. *)
Lemma sdiv32_int_min x y : s32 x = S32_MIN -> s32 y <> 0 ->
  (sdiv32 x y = Some (u32 (Z.quot S32_MIN (s32 y))) <-> (Z.abs (s32 y) | 2 ^ 32 - 1)) /\
  (smod32 x y = Some (u32 (Z.rem S32_MIN (s32 y))) <-> (Z.abs (s32 y) | 2 ^ 32 * (2 ^ 32 - 1))).
Proof.
  intros Hx Hy. pose proof (s32_range y) as Ry. set (b := Z.abs (s32 y)).
  assert (0 < b <= 2 ^ 31) as Hb by (unfold b; clia).
  assert (u64 (abs32 x) = 2 ^ 64 - 2 ^ 31) as Ex by (unfold abs32; rewrite Hx; reflexivity).
  unfold sdiv32, smod32, udiv, umod. rewrite Ex, u32_abs32, Hx. fold b.
  destruct (Z.eqb_spec b 0); [lia|]. cbn [mbind option_bind].
  change (S32_MIN <? 0) with true. rewrite <- int_min_div, <- int_min_mod by lia.
  rewrite quot_abs, rem_abs by done. change (Z.abs S32_MIN) with (2 ^ 31). fold b.
  change (S32_MIN <? 0) with true. cbn [Bool.eqb]. split.
  - destruct (s32 y <? 0); rewrite (inj_iff Some); [done|]. apply u32_opp_inj.
  - rewrite (inj_iff Some), u32_opp_inj. pose proof (Z.mod_pos_bound (2 ^ 64 - 2 ^ 31) b ltac:(lia)).
    pose proof (Z.mod_pos_bound (2 ^ 31) b ltac:(lia)). by rewrite !u32_id by cint.
Qed.

(** C24: the 32-bit signed division and remainder of the interpreter are those of
    C (truncated), for every dividend but [INT_MIN].  The absolute value of
    [INT_MIN] wraps and is then widened to 64 bits, so that dividend gives the
    right quotient exactly when the absolute value of the divisor divides
    [2^32 - 1], and the right remainder exactly when it divides
    [2^32 * (2^32 - 1)]: by 1 both are right, by 2 only the remainder, by 7
    neither. *)
Theorem interpreter_sdiv32 x y : s32 y <> 0 ->
  (s32 x <> S32_MIN ->
   sdiv32 x y = Some (u32 (Z.quot (s32 x) (s32 y))) /\ smod32 x y = Some (u32 (Z.rem (s32 x) (s32 y)))) /\
  (s32 x = S32_MIN ->
   (sdiv32 x y = Some (u32 (Z.quot S32_MIN (s32 y))) <-> (Z.abs (s32 y) | 2 ^ 32 - 1)) /\
   (smod32 x y = Some (u32 (Z.rem S32_MIN (s32 y))) <-> (Z.abs (s32 y) | 2 ^ 32 * (2 ^ 32 - 1)))).
Proof.
  intros Hy. split; [|intros Hx; by apply sdiv32_int_min].
  intros Hx. pose proof (s32_range x) as Rx. pose proof (s32_range y) as Ry.
  assert (Ex : u64 (abs32 x) = Z.abs (s32 x)) by (rewrite abs32_abs by done; apply u64_id; clia).
  unfold sdiv32, smod32, udiv, umod. rewrite Ex, u32_abs32. destruct (Z.eqb_spec (Z.abs (s32 y)) 0); [lia|].
  cbn [mbind option_bind]. rewrite quot_abs, rem_abs by done. split; f_equal; by repeat case_match.
Qed.

Lemma interpreter_sdiv32_witness :
  sdiv32 (u32 (-7)) 2 = Some (u32 (Z.quot (-7) 2)) /\
  sdiv32 (u32 S32_MIN) 7 <> Some (u32 (Z.quot S32_MIN 7)) /\ smod32 (u32 S32_MIN) 7 <> Some (u32 (Z.rem S32_MIN 7)).
Proof.
  split; [|split].
  - exact (proj1 (proj1 (interpreter_sdiv32 (u32 (-7)) 2 ltac:(vm_compute; congruence)) ltac:(vm_compute; congruence))).
  - intros H. apply (proj1 (proj2 (interpreter_sdiv32 (u32 S32_MIN) 7 ltac:(vm_compute; congruence)) eq_refl)) in H.
    apply Z.mod_divide in H; [|discriminate]. discriminate H.
  - intros H. apply (proj2 (proj2 (interpreter_sdiv32 (u32 S32_MIN) 7 ltac:(vm_compute; congruence)) eq_refl)) in H.
    apply Z.mod_divide in H; [|discriminate]. discriminate H.
Defined.
