(* ===== verification/BpfProgClaims.v ===== *)
(** * Properties of verified BPF programs *)
From S2P Require Import Prelude Bits Tnum BpfReg BpfRegThms BpfAlu BpfJmp BpfProg BpfCheck BpfMeta BpfStands BpfCheckAlu BpfCheckJmp BpfCheckWalk BpfRewrite BpfRewriteThms.

(** C17: the verifier's promise.  [bpf_check] comes to an end on every program,
    whatever it is made of and whatever the comparison of states answers.  A
    program of at most [2^15] instructions that passes the first pass and the walk
    is rewritten without an error.  And when [bpf_check] accepts a program whose
    fields have their C types, which has none of the three misjudged forms
    ([pitfall]) and of which no state was pruned, the interpreter runs what is
    left of the program, after dead branches were hard-wired and dead code removed
    (or replaced by traps), from every context to a return: it never reads a
    register that was not written, divides by zero, shifts out of range, falls
    into a trap or leaves the program, takes no more steps than the verifier has
    processed instructions (at most a million), and returns a value in the range
    that the type of the program asks for. *)
Theorem accepted_program_runs env kzalloc_ok signal_pending visited prog k :
  (exists r, bpf_check env kzalloc_ok signal_pending visited prog k = Some r) /\
  (Z.of_nat (length prog) <= 2 ^ 15 -> Forall insn_fields prog -> resolve_pseudo_ldimm64 prog = Ok tt ->
   forall w, do_check_main env kzalloc_ok signal_pending visited prog k = Some (Ok w) ->
   exists prog', bpf_check env kzalloc_ok signal_pending visited prog k = Some (Ok (w, prog'))) /\
  (Z.of_nat (length prog) <= BPF_COMPLEXITY_LIMIT_INSNS -> Forall insn_fields prog ->
   Forall (fun i => pitfall i = false) prog -> (forall n, visited n <> 1) ->
   forall w prog' ctx fp, bpf_check env kzalloc_ok signal_pending visited prog k = Some (Ok (w, prog')) ->
   is_u64 ctx -> is_u64 fp ->
   exists tr r0, run_prog (Z.to_nat BPF_COMPLEXITY_LIMIT_INSNS + 1) prog' 0 (init_regs ctx fp) = Some (tr, Return r0) /\
     returned k r0 /\ Z.of_nat (length tr) <= insn_processed w <= BPF_COMPLEXITY_LIMIT_INSNS).
Proof.
  split; [|split].
  - apply check_ends.
  - intros Hl Hf Hr w Hw. destruct (proj1 (rewrite_sound (bpf_capable env) prog (seen w) Hf) Hl) as [prog' E].
    exists prog'. unfold bpf_check. by rewrite Hr, Hw, E.
  - intros Hl Hf Hp Hv w prog' ctx fp Hb Hc Hfp. destruct (check_inv _ _ _ _ _ _ _ _ Hb) as (Hres & Hw & Hrw).
    destruct (main_sound env kzalloc_ok signal_pending visited prog k Hl Hf Hp Hv w ctx fp Hw Hc Hfp)
      as (tr & r & Hrun & Hr & Htr & Hn).
    destruct (proj2 (rewrite_sound _ prog _ Hf) _ _ _ _ _ Hrw Hres Hrun Htr) as (tr' & Hrun' & Hlen).
    exists tr', r. split; [done|]. split; [done|lia].
Qed.

(** ** Example programs *)
Module Programs.
Definition always (_ : Z) : bool := true.
Definition never (_ : Z) : bool := false.
Definition filter : prog_kind := mk_kind OTHER_TYPE OTHER_ATTACH false false.
Definition skb : prog_kind := mk_kind CGROUP_SKB OTHER_ATTACH false false.
Definition root : bpf_verifier_env := mk_env true false true.

(** [r2 = 7; r0 = 3; r0 %= r2; r0 &= 5; if r0 > 1 goto +2; r3 = r0; exit; r0 = 1; exit] *)
Definition good : list insn :=
  [mk_raw 183 2 0 0 7; mk_raw 183 0 0 0 3; mk_raw 159 0 2 0 0; mk_raw 87 0 0 0 5; mk_raw 37 0 0 2 1;
   mk_raw 191 3 0 0 0; mk_raw 149 0 0 0 0; mk_raw 183 0 0 0 1; mk_raw 149 0 0 0 0].

(** [r0 = S64_MIN; r1 = -1; r0 s/= r1; exit] *)
Definition overflow : list insn :=
  [mk_raw 24 0 0 0 0; mk_raw 0 0 0 0 (- 2 ^ 31); mk_raw 183 1 0 0 (-1); mk_raw 63 0 1 1 0; mk_raw 149 0 0 0 0].

(** [r0 = 0x500000001; w0 /= 1 (offset -1); r0 >>= 32; exit] *)
Definition skipped : list insn :=
  [mk_raw 24 0 0 0 1; mk_raw 0 0 0 0 5; mk_raw 52 0 0 (-1) 1; mk_raw 119 0 0 0 32; mk_raw 149 0 0 0 0].

(** [r2 = 1; r0 = 1; r0 /= r2; r0 &= 7; r0 -= 100; r0 = (s8) r0; r3 = 0; w3 /= r2;
    r0 += r3; r0 >>= 33; exit] *)
Definition extended : list insn :=
  [mk_raw 183 2 0 0 1; mk_raw 183 0 0 0 1; mk_raw 63 0 2 0 0; mk_raw 87 0 0 0 7; mk_raw 23 0 0 0 100;
   mk_raw 191 0 0 8 0; mk_raw 183 3 0 0 0; mk_raw 60 3 2 0 0; mk_raw 15 0 3 0 0; mk_raw 119 0 0 0 33;
   mk_raw 149 0 0 0 0].

(** [r0 = 1; if r0 == 1 goto +2; r0 = 2; goto -3; exit]: two instructions are
    never reached, and are removed with the jump over them. *)
Definition with_dead_code : list insn :=
  [mk_raw 183 0 0 0 1; mk_raw 21 0 0 2 1; mk_raw 183 0 0 0 2; mk_raw 5 0 0 (-3) 0; mk_raw 149 0 0 0 0].

(** No state is pruned. *)
Definition nothing_pruned (_ : Z) : Z := 0.

(** What [bpf_check] leaves of a program that it accepts. *)
Definition loaded (env : bpf_verifier_env) (k : prog_kind) (prog : list insn) : option (list insn) :=
  match bpf_check env always never nothing_pruned prog k with Some (Ok (_, prog')) => Some prog' | _ => None end.

Definition walk_of (prog : list insn) : walk :=
  match do_check_main root always never nothing_pruned prog skb with Some (Ok w) => w | _ => init_walk root prog end.
Definition good_walk : walk := Eval vm_compute in walk_of good.
Definition dead_walk : walk := Eval vm_compute in walk_of with_dead_code.
End Programs.
Import Programs.

Lemma accepted_program_runs_witness :
  (exists prog', bpf_check root always never nothing_pruned with_dead_code skb = Some (Ok (dead_walk, prog'))) /\
  loaded root skb with_dead_code = Some [mk_raw 183 0 0 0 1; mk_raw 149 0 0 0 0] /\
  exists tr r0, run_prog (Z.to_nat BPF_COMPLEXITY_LIMIT_INSNS + 1) good 0 (init_regs 5 9) = Some (tr, Return r0) /\
    returned skb r0 /\ Z.of_nat (length tr) <= insn_processed good_walk <= BPF_COMPLEXITY_LIMIT_INSNS.
Proof.
  split; [|split].
  - apply (proj1 (proj2 (accepted_program_runs root always never nothing_pruned with_dead_code skb))).
    + vm_compute. congruence.
    + repeat constructor; vm_compute; congruence.
    + vm_compute. reflexivity.
    + vm_compute. reflexivity.
  - vm_compute. reflexivity.
  - refine (proj2 (proj2 (accepted_program_runs root always never nothing_pruned good skb)) _ _ _ _ good_walk good 5 9 _ _ _).
    + vm_compute. congruence.
    + repeat constructor; vm_compute; congruence.
    + repeat constructor.
    + intros n. vm_compute. congruence.
    + vm_compute. reflexivity.
    + split; vm_compute; congruence.
    + split; vm_compute; congruence.
Defined.

(** C18: why the three forms are left out: the verifier accepts programs, without
    a jump in them and left as they are by the rewriting, that then go wrong from
    every context, whatever the privileges of the user.  A signed division of the
    smallest 64-bit number by -1 has no result (the machine traps).  A 32-bit
    division whose offset is negative passes the test [insn->off > 1], and the
    interpreter skips it: the verifier believes that the upper half of the
    register is gone, and a program of a type that may return 0 or 1 returns 5.
    After a sign extension to 64 bits of a negative range the verifier keeps
    unsigned bounds cut to 32 bits, and the program returns [2^31 - 1] in the
    same way. *)
Theorem accepted_programs_that_fail capable leaks v1 ctx fp :
  let env := mk_env capable leaks v1 in
  (loaded env filter overflow = Some overflow /\
   run_prog 10 overflow 0 (init_regs ctx fp) = Some ([0; 2; 3], Stuck)) /\
  (loaded env skb skipped = Some skipped /\ ~ returned skb (Some 5) /\
   run_prog 10 skipped 0 (init_regs ctx fp) = Some ([0; 2; 3; 4], Return (Some 5))) /\
  (loaded env skb extended = Some extended /\ ~ returned skb (Some (2 ^ 31 - 1)) /\
   exists tr, run_prog 20 extended 0 (init_regs ctx fp) = Some (tr, Return (Some (2 ^ 31 - 1)))).
Proof.
  split; [|split].
  - split; [destruct capable, leaks, v1|]; vm_compute; reflexivity.
  - split; [destruct capable, leaks, v1; vm_compute; reflexivity|].
    split; [|vm_compute; reflexivity]. intros (x & [= <-] & _ & _ & Hx). by vm_compute in Hx.
  - split; [destruct capable, leaks, v1; vm_compute; reflexivity|].
    split; [|eexists; vm_compute; reflexivity]. intros (x & [= <-] & _ & _ & Hx). by vm_compute in Hx.
Qed.
