(* ===== verification/LpmTrie.v ===== *)
(** * The longest-prefix-match map ([kernel/bpf/lpm_trie.c])

    A BPF map from prefixes (of IP addresses, say) to values: a binary trie
    whose nodes hold a prefix each, with intermediate nodes where two prefixes
    part.  Every operation is modelled: creation, lookup, update, deletion,
    iteration and freeing.

    A node that is reachable has one pointer to it, so a subtree is a value and
    the address of a pointer ([slot], [trim] in the source) is the list of nodes
    above it, each with the child that was taken and the other child; the same
    list is the array [node_stack] of the iteration.  Comparisons of a node with
    [child[0]] of its parent ask which child was taken.  Writers hold the lock
    of the trie, so an operation is one step.  [None] as a result of an
    operation is an access outside an array or through NULL. *)
From S2P Require Import Prelude Bits.

Definition ENOSPC : Z := 28.

(** ** Find last set in 32 bits ([include/asm-generic/bitops/fls.h]) *)

Definition fls32_step (k : Z) (s : Z * Z) : Z * Z :=
  let '(r, x) := s in
  if Z.land x (u32 (Z.shiftl U32_MAX (32 - k))) =? 0 then (r - k, u32 (Z.shiftl x k)) else (r, x).
Definition fls (x : Z) : Z :=
  if x =? 0 then 0
  else (fls32_step 1 (fls32_step 2 (fls32_step 4 (fls32_step 8 (fls32_step 16 (32, x)))))).1.

(** ** Data *)

(** [struct bpf_lpm_trie_key]. *)
Record lpm_key := mk_key { k_prefixlen : Z; k_data : list Z }.

Section Values.
Context {V : Type}.

(** [struct lpm_trie_node] without its children; intermediate nodes are
    allocated without room for a value. *)
Record lpm_node := mk_node { prefixlen : Z; flags : Z; data : list Z; nvalue : option V }.
Inductive tree := Null | Node (n : lpm_node) (child0 child1 : tree).

Definition LPM_TREE_NODE_FLAG_IM : Z := 1.
Definition is_im (n : lpm_node) : bool := negb (Z.land (flags n) LPM_TREE_NODE_FLAG_IM =? 0).

(** [struct lpm_trie], with what it reads of [struct bpf_map]. *)
Record lpm_trie := mk_trie {
  root : tree;
  n_entries : Z;
  max_prefixlen : Z;
  data_size : Z;
  max_entries : Z;
  value_size : Z
}.
(** The trie with another count and another root. *)
Definition set_trie (t : lpm_trie) (count : Z) (r : tree) : lpm_trie :=
  mk_trie r count (max_prefixlen t) (data_size t) (max_entries t) (value_size t).

(** ** Bits of keys *)

Definition extract_bit (d : list Z) (index : Z) : option bool :=
  b ← d !! Z.to_nat (index / 8); Some (negb (Z.land b (Z.shiftl 1 (7 - index mod 8)) =? 0)).

(** A word of [n] bytes at [i], on a little-endian machine. *)
Fixpoint le_load (l : list Z) : Z := match l with [] => 0 | b :: l => b + 256 * le_load l end.
Definition word_at (d : list Z) (n i : nat) : Z := le_load (take n (drop i d)).

(** [be64_to_cpu], [be32_to_cpu] and [be16_to_cpu] of the difference. *)
Definition diff_at (a b : list Z) (n i : nat) : Z := swab n (Z.lxor (word_at a n i) (word_at b n i)).

(** After one comparison the function returns or goes on. *)
Inductive compared := Ret (len : Z) | Cont (len : Z).

Definition compare_word (a b : list Z) (limit : Z) (n i : nat) (len : Z) : compared :=
  let diff := diff_at a b n i in
  let len := u32 (len + (8 * Z.of_nat n - (if (n =? 8)%nat then fls64 diff else fls diff))) in
  if limit <=? len then Ret limit else if nonzero diff then Ret len else Cont len.

(** The loop over words of four bytes, from byte [i]; [fuel] bounds the turns. *)
Fixpoint compare_words (fuel : nat) (size : Z) (a b : list Z) (limit : Z) (i : nat) (len : Z) : compared * nat :=
  match fuel with
  | O => (Cont len, i)
  | S fuel =>
      if Z.of_nat i + 4 <=? size then
        match compare_word a b limit 4 i len with
        | Ret r => (Ret r, i)
        | Cont len => compare_words fuel size a b limit (i + 4) len
        end
      else (Cont len, i)
  end.

(** [efficient]: [CONFIG_HAVE_EFFICIENT_UNALIGNED_ACCESS] and [CONFIG_64BIT]. *)
Definition longest_prefix_match (efficient : bool) (t : lpm_trie) (node : lpm_node) (key : lpm_key) : Z :=
  let a := data node in
  let b := k_data key in
  let size := data_size t in
  let limit := Z.min (prefixlen node) (k_prefixlen key) in
  let start := if efficient && (8 <=? size) then (compare_word a b limit 8 0 0, 8%nat) else (Cont 0, 0%nat) in
  match start with
  | (Ret r, _) => r
  | (Cont len, i) =>
      match compare_words (Z.to_nat size) size a b limit i len with
      | (Ret r, _) => r
      | (Cont len, i) =>
          let half := if Z.of_nat i + 2 <=? size then (compare_word a b limit 2 i len, (i + 2)%nat) else (Cont len, i) in
          match half with
          | (Ret r, _) => r
          | (Cont len, i) =>
              if Z.of_nat i + 1 <=? size then
                let len := u32 (len + (8 - fls (Z.lxor (default 0 (a !! i)) (default 0 (b !! i))))) in
                if limit <=? len then limit else len
              else len
          end
      end
  end.

Section Ops.
Context (efficient : bool).

(** ** Lookup *)

Fixpoint lookup_walk (t : lpm_trie) (key : lpm_key) (node : tree) (found : option lpm_node) : option (option lpm_node) :=
  match node with
  | Null => Some found
  | Node n child0 child1 =>
      let matchlen := longest_prefix_match efficient t n key in
      if matchlen =? max_prefixlen t then Some (Some n)
      else if matchlen <? prefixlen n then Some found
      else
        let found := if is_im n then found else Some n in
        next_bit ← extract_bit (k_data key) (prefixlen n);
        lookup_walk t key (if next_bit : bool then child1 else child0) found
  end.

(** The value that the returned pointer points to; NULL is [Some None]. *)
Definition trie_lookup_elem (t : lpm_trie) (key : lpm_key) : option (option V) :=
  if max_prefixlen t <? k_prefixlen key then Some None
  else
    found ← lookup_walk t key (root t) None;
    match found with None => Some None | Some n => Some <$> nvalue n end.

(** ** Slots *)

(** A node above a slot, whether its [child[1]] was taken, and the other child. *)
Definition frame : Type := lpm_node * bool * tree.
Definition refill (f : frame) (child : tree) : tree :=
  let '(n, taken1, other) := f in if (taken1 : bool) then Node n other child else Node n child other.
(** [*slot = x], seen from the root. *)
Definition assign (slot : list frame) (x : tree) : tree := fold_left (fun x f => refill f x) slot x.

(** The walk that update, deletion and iteration make: down to an empty slot or
    to the first node at which [stop] holds.  The result is the slot, what it
    holds and the last [matchlen]. *)
Fixpoint walk_to (stop : lpm_node -> Z -> bool) (t : lpm_trie) (key : lpm_key) (node : tree) (slot : list frame)
    (matchlen : Z) : option (list frame * tree * Z) :=
  match node with
  | Null => Some (slot, Null, matchlen)
  | Node n child0 child1 =>
      let matchlen := longest_prefix_match efficient t n key in
      if stop n matchlen then Some (slot, node, matchlen)
      else
        next_bit ← extract_bit (k_data key) (prefixlen n);
        if (next_bit : bool) then walk_to stop t key child1 ((n, true, child0) :: slot) matchlen
        else walk_to stop t key child0 ((n, false, child1) :: slot) matchlen
  end.

(** ** Update *)

Definition stop_update (t : lpm_trie) (key : lpm_key) (n : lpm_node) (matchlen : Z) : bool :=
  negb (prefixlen n =? matchlen) || (prefixlen n =? k_prefixlen key) || (prefixlen n =? max_prefixlen t).

Definition BPF_NOEXIST : Z := 1.
Definition BPF_EXIST : Z := 2.

(** What the slot [node] becomes, with the change of [n_entries] for a node that
    is replaced; an error when the intermediate node cannot be allocated. *)
Definition place (key : lpm_key) (new : lpm_node) (node : tree) (matchlen : Z) (alloc_im : bool)
    : option (Z + tree * Z) :=
  match node with
  | Null => Some (inr (Node new Null Null, 0))
  | Node n child0 child1 =>
      if prefixlen n =? matchlen then Some (inr (Node new child0 child1, if is_im n then 0 else -1))
      else if matchlen =? k_prefixlen key then
        next_bit ← extract_bit (data n) matchlen;
        Some (inr (if (next_bit : bool) then Node new Null node else Node new node Null, 0))
      else if negb alloc_im then Some (inl (- ENOMEM))
      else
        let im := mk_node matchlen LPM_TREE_NODE_FLAG_IM (data n) None in
        bit ← extract_bit (k_data key) matchlen;
        Some (inr (if (bit : bool) then Node im node (Node new Null Null) else Node im (Node new Null Null) node, 0))
  end.

(** [alloc_new] and [alloc_im]: whether the two allocations succeed. *)
Definition trie_update_elem (t : lpm_trie) (key : lpm_key) (v : V) (fl : Z) (alloc_new alloc_im : bool)
    : option (Z * lpm_trie) :=
  if BPF_EXIST <? fl then Some (- EINVAL, t)
  else if max_prefixlen t <? k_prefixlen key then Some (- EINVAL, t)
  else if n_entries t =? max_entries t then Some (- ENOSPC, t)
  else if negb alloc_new then Some (- ENOMEM, t)
  else
    let count := u64 (n_entries t + 1) in
    let new := mk_node (k_prefixlen key) 0 (k_data key) (Some v) in
    '(slot, node, matchlen) ← walk_to (stop_update t key) t key (root t) [] 0;
    r ← place key new node matchlen alloc_im;
    match r with
    | inl err => Some (err, set_trie t (u64 (count - 1)) (root t))
    | inr (x, d) => Some (0, set_trie t (u64 (count + d)) (assign slot x))
    end.

(** ** Deletion *)

Definition stop_exact (key : lpm_key) (n : lpm_node) (matchlen : Z) : bool :=
  negb (prefixlen n =? matchlen) || (prefixlen n =? k_prefixlen key).

Definition is_null (x : tree) : bool := match x with Null => true | _ => false end.

Definition set_im (n : lpm_node) : lpm_node :=
  mk_node (prefixlen n) (Z.lor (flags n) LPM_TREE_NODE_FLAG_IM) (data n) (nvalue n).

(** The root after the node in [slot] was removed. *)
Definition unlink (slot : list frame) (n : lpm_node) (child0 child1 : tree) : tree :=
  if negb (is_null child0) && negb (is_null child1) then assign slot (Node (set_im n) child0 child1)
  else match slot with
  | (parent, _, other) :: trim2 =>
      if is_im parent && is_null child0 && is_null child1 then assign trim2 other
      else assign slot (if is_null child0 then child1 else child0)
  | [] => assign slot (if is_null child0 then child1 else child0)
  end.

Definition trie_delete_elem (t : lpm_trie) (key : lpm_key) : option (Z * lpm_trie) :=
  if max_prefixlen t <? k_prefixlen key then Some (- EINVAL, t)
  else
    '(trim, node, matchlen) ← walk_to (stop_exact key) t key (root t) [] 0;
    match node with
    | Null => Some (- ENOENT, t)
    | Node n child0 child1 =>
        if negb (prefixlen n =? k_prefixlen key) || negb (prefixlen n =? matchlen) || is_im n then Some (- ENOENT, t)
        else Some (0, set_trie t (u64 (n_entries t - 1)) (unlink trim n child0 child1))
    end.

(** ** Iteration *)

(** The walk that stores every node it meets in [node_stack], an array of
    [max_prefixlen] pointers; the index of a node is the number above it. *)
Fixpoint stack_walk (t : lpm_trie) (key : lpm_key) (node : tree) (stack : list frame) : option (list frame * tree) :=
  match node with
  | Null => Some (stack, Null)
  | Node n child0 child1 =>
      if max_prefixlen t <=? Z.of_nat (length stack) then None
      else
        let matchlen := longest_prefix_match efficient t n key in
        if stop_exact key n matchlen then Some (stack, node)
        else
          next_bit ← extract_bit (k_data key) (prefixlen n);
          if (next_bit : bool) then stack_walk t key child1 ((n, true, child0) :: stack)
          else stack_walk t key child0 ((n, false, child1) :: stack)
  end.

(** The last node that is not intermediate on the way down to the left. *)
Fixpoint find_leftmost (node : tree) (next_node : option lpm_node) : option lpm_node :=
  match node with
  | Null => next_node
  | Node n child0 child1 =>
      if is_im n then find_leftmost child0 next_node
      else find_leftmost (match child0 with Null => child1 | Node _ _ _ => child0 end) (Some n)
  end.

(** Where the search up the stack ends. *)
Inductive climbed := Leftmost (search_root : tree) | Copy (n : lpm_node) | NotFound.

Fixpoint climb (stack : list frame) : climbed :=
  match stack with
  | [] => NotFound
  | (parent, taken1, other) :: stack =>
      if negb taken1 && negb (is_null other) then Leftmost other
      else if is_im parent then climb stack
      else Copy parent
  end.

Definition key_of (n : lpm_node) : lpm_key := mk_key (prefixlen n) (data n).

(** The copy of [next_node], which must not be NULL. *)
Definition copy_next (n : option lpm_node) : option (Z + lpm_key) := n ← n; Some (inr (key_of n)).

Definition trie_get_next_key (t : lpm_trie) (key : option lpm_key) (alloc_stack : bool) : option (Z + lpm_key) :=
  let leftmost x := copy_next (find_leftmost x None) in
  match root t, key with
  | Null, _ => Some (inl (- ENOENT))
  | _, None => leftmost (root t)
  | _, Some key =>
      if max_prefixlen t <? k_prefixlen key then leftmost (root t)
      else if negb alloc_stack then Some (inl (- ENOMEM))
      else
        '(stack, node) ← stack_walk t key (root t) [];
        match node with
        | Null => leftmost (root t)
        | Node n _ _ =>
            if negb (prefixlen n =? k_prefixlen key) || is_im n then leftmost (root t)
            else match climb stack with
            | Leftmost x => leftmost x
            | Copy p => copy_next (Some p)
            | NotFound => Some (inl (- ENOENT))
            end
        end
  end.

(** ** Creation and freeing *)

Definition LPM_DATA_SIZE_MAX : Z := 256.
Definition LPM_DATA_SIZE_MIN : Z := 1.
(** [sizeof(struct lpm_trie_node)] and [sizeof(struct bpf_lpm_trie_key)]. *)
Definition sizeof_node : Z := 40.
Definition sizeof_key : Z := 4.
Definition LPM_VAL_SIZE_MIN : Z := 1.
Definition LPM_KEY_SIZE (x : Z) : Z := sizeof_key + x.

Definition BPF_F_NO_PREALLOC : Z := 1.
Definition BPF_F_RDONLY_PROG : Z := 128.
Definition BPF_F_WRONLY_PROG : Z := 256.
(** [BPF_F_NO_PREALLOC], [BPF_F_NUMA_NODE], [BPF_F_RDONLY], [BPF_F_WRONLY] and
    the two above. *)
Definition LPM_CREATE_FLAG_MASK : Z := 1 + 4 + 8 + 16 + 128 + 256.
Definition bpf_map_flags_access_ok (access_flags : Z) : bool :=
  let both := Z.lor BPF_F_RDONLY_PROG BPF_F_WRONLY_PROG in negb (Z.land access_flags both =? both).

(** What [trie_alloc] reads of [union bpf_attr]. *)
Record map_attr := mk_attr { a_max_entries : Z; a_map_flags : Z; a_key_size : Z; a_value_size : Z }.

(** [kmalloc_max]: [KMALLOC_MAX_SIZE]; [alloc]: whether the allocation succeeds. *)
Definition trie_alloc (kmalloc_max : Z) (attr : map_attr) (alloc : bool) : Z + lpm_trie :=
  if (a_max_entries attr =? 0) || (Z.land (a_map_flags attr) BPF_F_NO_PREALLOC =? 0) ||
     nonzero (Z.land (a_map_flags attr) (u32 (Z.lnot LPM_CREATE_FLAG_MASK))) ||
     negb (bpf_map_flags_access_ok (a_map_flags attr)) ||
     (a_key_size attr <? LPM_KEY_SIZE LPM_DATA_SIZE_MIN) || (LPM_KEY_SIZE LPM_DATA_SIZE_MAX <? a_key_size attr) ||
     (a_value_size attr <? LPM_VAL_SIZE_MIN) || (kmalloc_max - LPM_DATA_SIZE_MAX - sizeof_node <? a_value_size attr)
  then inl (- EINVAL)
  else if negb alloc then inl (- ENOMEM)
  else
    let size := a_key_size attr - sizeof_key in
    inr (mk_trie Null 0 (size * 8) size (a_max_entries attr) (a_value_size attr)).

(** The first node without children, on the way down to the left, is freed and
    its slot cleared; [None] when the slot is empty. *)
Fixpoint free_leaf (node : tree) : option (lpm_node * tree) :=
  match node with
  | Null => None
  | Node n child0 child1 =>
      if negb (is_null child0) then '(x, c) ← free_leaf child0; Some (x, Node n c child1)
      else if negb (is_null child1) then '(x, c) ← free_leaf child1; Some (x, Node n child0 c)
      else Some (n, Null)
  end.

(** The nodes that are freed, in order, and what is left when the fuel ends. *)
Fixpoint trie_free (fuel : nat) (node : tree) : list lpm_node * tree :=
  match fuel with
  | O => ([], node)
  | S fuel =>
      match free_leaf node with
      | None => ([], node)
      | Some (x, node) => let '(freed, rest) := trie_free fuel node in (x :: freed, rest)
      end
  end.

Definition trie_mem_usage (t : lpm_trie) : Z := u64 (u64 (sizeof_node + data_size t + value_size t) * n_entries t).

(** [key_type->info]; keys must be structures. *)
Definition BTF_INFO_KIND (info : Z) : Z := Z.land (Z.shiftr info 24) 31.
Definition BTF_KIND_STRUCT : Z := 4.
Definition trie_check_btf (info : Z) : Z := if negb (BTF_INFO_KIND info =? BTF_KIND_STRUCT) then - EINVAL else 0.
End Ops.
End Values.
Arguments lpm_node : clear implicits.
Arguments tree : clear implicits.
Arguments lpm_trie : clear implicits.
