(* ===== verification/LpmMatch.v ===== *)
(** * The longest common prefix of two keys

    [longest_prefix_match] compares words of eight, four and two bytes and a
    last byte.  It computes the length of the longest common prefix of two lists
    of bits, cut at the lengths of the prefixes. *)
From S2P Require Import Prelude Bits LpmTrie.

(** ** Bits of bytes, most significant first *)

Definition byte_bits (b : Z) : list bool := Z.testbit b <$> [7; 6; 5; 4; 3; 2; 1; 0].
Definition bits (d : list Z) : list bool := d ≫= byte_bits.

(** The length of the longest common prefix. *)
Fixpoint lcp (a b : list bool) : nat :=
  match a, b with
  | x :: a, y :: b => if Bool.eqb x y then S (lcp a b) else 0
  | _, _ => 0
  end.

Definition bytes (d : list Z) : Prop := Forall (fun b => 0 <= b < 256) d.

Lemma bits_cons b d : bits (b :: d) = byte_bits b ++ bits d.
Proof. done. Qed.

Lemma length_bits d : length (bits d) = (8 * length d)%nat.
Proof. induction d as [|b d IH]; [done|]. rewrite bits_cons, length_app, IH. cbn. lia. Qed.

Lemma bits_app d d' : bits (d ++ d') = bits d ++ bits d'.
Proof. apply bind_app. Qed.

Lemma bytes_take n d : bytes d -> bytes (take n d).
Proof. apply Forall_take. Qed.
Lemma bytes_drop n d : bytes d -> bytes (drop n d).
Proof. apply Forall_drop. Qed.
#[export] Hint Resolve bytes_take bytes_drop : core.

Lemma extract_bit_spec d i : 0 <= i -> extract_bit d i = bits d !! Z.to_nat i.
Proof.
  intros Hi. revert i Hi. induction d as [|b d IH]; intros i Hi; [done|].
  unfold extract_bit. rewrite bits_cons. destruct (decide (i < 8)) as [L|L].
  - rewrite lookup_app_l by (cbn; lia). rewrite (Z.div_small i 8), (Z.mod_small i 8) by lia.
    change ((b :: d) !! Z.to_nat 0) with (Some b). cbn [mbind option_bind].
    assert (E : negb (Z.land b (Z.shiftl 1 (7 - i)) =? 0) = Z.testbit b (7 - i)).
    { rewrite Z.shiftl_1_l. destruct (Z.testbit b (7 - i)) eqn:T.
      - apply negb_true_iff, Z.eqb_neq. intros H. apply (f_equal (fun z => Z.testbit z (7 - i))) in H.
        rewrite Z.land_spec, T, Z.pow2_bits_true, Z.bits_0 in H by lia. done.
      - apply negb_false_iff, Z.eqb_eq, Z.bits_inj'. intros n Hn. rewrite Z.land_spec, Z.bits_0, Z.pow2_bits_eqb by lia.
        destruct (Z.eqb_spec (7 - i) n) as [<-|]; [by rewrite T | by rewrite andb_false_r]. }
    rewrite E. clear E. assert (i = 0 \/ i = 1 \/ i = 2 \/ i = 3 \/ i = 4 \/ i = 5 \/ i = 6 \/ i = 7) as Hc by lia.
    by repeat destruct Hc as [-> | Hc]; [.. | subst i].
  - rewrite lookup_app_r by (cbn; lia). specialize (IH (i - 8) ltac:(lia)). unfold extract_bit in IH.
    assert (Ed : i / 8 = (i - 8) / 8 + 1) by (rewrite <- Z.div_add by lia; f_equal; lia).
    assert (Em : i mod 8 = (i - 8) mod 8) by (rewrite <- (Z.mod_add (i - 8) 1) by lia; f_equal; lia).
    assert (0 <= (i - 8) / 8) by (apply Z.div_pos; lia).
    rewrite Ed, Em, Z2Nat.inj_add, Nat.add_1_r by lia. change ((b :: d) !! S ?k) with (d !! k).
    rewrite IH. f_equal. cbn. lia.
Qed.

(** ** Values of bit lists *)

Fixpoint bval (l : list bool) : Z :=
  match l with [] => 0 | x :: l => (if x then 2 ^ Z.of_nat (length l) else 0) + bval l end.

Lemma bval_range l : 0 <= bval l < 2 ^ Z.of_nat (length l).
Proof.
  induction l as [|x l IH]; cbn [bval length]; [lia|].
  rewrite Nat2Z.inj_succ, Z.pow_succ_r by lia. destruct x; lia.
Qed.

Lemma bval_app l l' : bval (l ++ l') = bval l * 2 ^ Z.of_nat (length l') + bval l'.
Proof.
  induction l as [|x l IH]; cbn [bval app]; [lia|].
  rewrite IH, length_app, Nat2Z.inj_add, Z.pow_add_r by lia. destruct x; lia.
Qed.

(** The number of the highest bit set, counted from one. *)
Definition top (x : Z) : Z := if x =? 0 then 0 else Z.log2 x + 1.

(** Of the difference of two lists of bits, the leading zeros are the common
    prefix. *)
Lemma lcp_top a b : length a = length b ->
  Z.of_nat (length a) - top (bval (zip_with xorb a b)) = Z.of_nat (lcp a b).
Proof.
  revert b. induction a as [|x a IH]; intros [|y b] L; try done. cbn [zip_with lcp length bval].
  injection L as L. specialize (IH b L). pose proof (bval_range (zip_with xorb a b)) as R.
  rewrite length_zip_with, <- L, Nat.min_id in *. rewrite Nat2Z.inj_succ. unfold top in *.
  assert (Z.of_nat (length a) < 2 ^ Z.of_nat (length a)) by (apply Z.pow_gt_lin_r; lia).
  assert (E : Bool.eqb x y = negb (xorb x y)) by (by destruct x, y). rewrite E.
  destruct (xorb x y); cbn [negb].
  - destruct (Z.eqb_spec (2 ^ Z.of_nat (length a) + bval (zip_with xorb a b)) 0); [lia|].
    rewrite (Z.log2_unique _ (Z.of_nat (length a))); [lia | lia |].
    rewrite Z.pow_succ_r by lia. lia.
  - rewrite Z.add_0_l. lia.
Qed.

Lemma lcp_le a b : (lcp a b <= length a)%nat /\ (lcp a b <= length b)%nat.
Proof.
  revert b. induction a as [|x a IH]; intros [|y b]; cbn [lcp length]; [lia..|].
  specialize (IH b). destruct (Bool.eqb x y); lia.
Qed.

Lemma lcp_app a a' b b' : length a = length b ->
  lcp (a ++ a') (b ++ b') = if (lcp a b =? length a)%nat then (length a + lcp a' b')%nat else lcp a b.
Proof.
  revert b. induction a as [|x a IH]; intros [|y b] L; try done. injection L as L. specialize (IH b L).
  cbn [lcp app length]. destruct (Bool.eqb x y); [|done]. rewrite IH. cbn [Nat.eqb]. by destruct (_ =? _)%nat.
Qed.

Lemma lcp_take a b i j : lcp (take i a) (take j b) = (Nat.min (Nat.min i j) (lcp a b))%nat.
Proof.
  revert b i j. induction a as [|x a IH]; intros [|y b] [|i] [|j]; cbn [lcp take]; try lia.
  rewrite IH. destruct (Bool.eqb x y); lia.
Qed.

(** A list is a prefix of another when it is common to both. *)
Lemma lcp_prefix a b : lcp a b = length a <-> a `prefix_of` b.
Proof.
  split.
  - revert b. induction a as [|x a IH]; intros [|y b] H; cbn in H; try done; [apply prefix_nil..|].
    destruct (Bool.eqb x y) eqn:E; [|done]. apply Bool.eqb_prop in E. subst. injection H as H. apply prefix_cons. auto.
  - intros [c ->]. induction a as [|x a IH]; [done|]. cbn. rewrite Bool.eqb_reflx. by f_equal.
Qed.

Lemma lcp_comm a b : lcp a b = lcp b a.
Proof.
  revert b. induction a as [|x a IH]; intros [|y b]; cbn; try done.
  rewrite IH. by replace (Bool.eqb y x) with (Bool.eqb x y) by (by destruct x, y).
Qed.

(** Where two lists part. *)
Lemma lcp_split a b : (lcp a b < length a)%nat -> (lcp a b < length b)%nat ->
  take (lcp a b) a = take (lcp a b) b /\
  exists x, a !! lcp a b = Some x /\ b !! lcp a b = Some (negb x).
Proof.
  revert b. induction a as [|x a IH]; intros [|y b]; cbn [lcp length]; try lia.
  destruct (Bool.eqb x y) eqn:E.
  - apply Bool.eqb_prop in E. subst y. intros H1 H2. destruct (IH b ltac:(lia) ltac:(lia)) as [E H].
    split; [cbn; by rewrite E | exact H].
  - intros _ _. split; [done|]. exists x. split; [done|]. by destruct x, y.
Qed.

(** ** Words *)

Lemma byte_bits_val b : 0 <= b < 256 -> bval (byte_bits b) = b.
Proof.
  intros Hb. assert (H : Forall (fun n => bval (byte_bits (Z.of_nat n)) = Z.of_nat n) (seq 0 256)).
  { apply (bool_decide_unpack _). vm_compute. exact I. }
  rewrite Forall_forall in H. specialize (H (Z.to_nat b)). rewrite Z2Nat.id in H by lia.
  apply H, elem_of_seq. lia.
Qed.

(** A word in network order has the bits of its bytes. *)
Lemma swab_load l : bytes l -> swab (length l) (le_load l) = bval (bits l).
Proof.
  induction 1 as [|b l Hb Hl IH]; [done|]. rewrite bits_cons, bval_app, byte_bits_val, length_bits by done.
  cbn [length swab le_load]. rewrite (Z.mul_comm 256), Z.mod_add, Z.div_add, Z.mod_small, (Z.div_small b) by lia.
  rewrite Z.add_0_l, IH. do 3 f_equal. lia.
Qed.

Lemma lxor_split a x b y : 0 <= a < 256 -> 0 <= b < 256 ->
  Z.lxor (a + 256 * x) (b + 256 * y) = Z.lxor a b + 256 * Z.lxor x y /\ 0 <= Z.lxor a b < 256.
Proof.
  intros Ha Hb. assert (R : 0 <= Z.lxor a b < 256).
  { assert (0 <= Z.lxor a b) by (apply Z.lxor_nonneg; lia). split; [done|].
    destruct (Z.eq_dec (Z.lxor a b) 0) as [->|]; [done|]. change 256 with (2 ^ 8). apply Z.log2_lt_pow2; [lia|].
    eapply Z.le_lt_trans; [apply Z.log2_lxor; lia|].
    apply Z.max_lub_lt; (destruct (Z.eq_dec a 0); destruct (Z.eq_dec b 0); subst;
      try (apply Z.log2_lt_pow2; lia); reflexivity). }
  split; [|done]. rewrite (Z.div_mod (Z.lxor (a + 256 * x) (b + 256 * y)) 256) by lia.
  change 256 with (2 ^ 8). rewrite <- Z.shiftr_div_pow2, <- Z.land_ones, Z.shiftr_lxor by lia.
  assert (E : Z.land (Z.lxor (a + 2 ^ 8 * x) (b + 2 ^ 8 * y)) (Z.ones 8) = Z.lxor a b).
  { assert (Ea : (a + 2 ^ 8 * x) mod 2 ^ 8 = a) by (rewrite (Z.mul_comm (2 ^ 8)), Z.mod_add, Z.mod_small; lia).
    assert (Eb : (b + 2 ^ 8 * y) mod 2 ^ 8 = b) by (rewrite (Z.mul_comm (2 ^ 8)), Z.mod_add, Z.mod_small; lia).
    rewrite <- Ea at 2. rewrite <- Eb at 2. apply Z.bits_inj'. intros i Hi.
    rewrite Z.land_spec, !Z.lxor_spec, !Z.testbit_mod_pow2, Z.testbit_ones_nonneg by lia.
    destruct (i <? 8); cbn [andb]; [by rewrite andb_true_r | by rewrite andb_false_r]. }
  rewrite E, !Z.shiftr_div_pow2 by lia. rewrite !(Z.mul_comm (2 ^ 8)), !Z.div_add, !Z.div_small by lia.
  rewrite !Z.add_0_l. lia.
Qed.

Lemma load_lxor a b : length a = length b -> bytes a -> bytes b ->
  Z.lxor (le_load a) (le_load b) = le_load (zip_with Z.lxor a b) /\ bytes (zip_with Z.lxor a b).
Proof.
  intros L Ha. revert b L. induction Ha as [|x a Hx Ha IH]; intros [|y b] L Hb; try done.
  injection L as L. apply Forall_cons in Hb as [Hy Hb]. destruct (IH b L Hb) as [E F].
  cbn [le_load zip_with]. destruct (lxor_split x (le_load a) y (le_load b) Hx Hy) as [-> R].
  rewrite E. split; [done | by constructor].
Qed.

Lemma bits_zip a b : length a = length b -> bits (zip_with Z.lxor a b) = zip_with xorb (bits a) (bits b).
Proof.
  revert b. induction a as [|x a IH]; intros [|y b] L; try done. injection L as L.
  cbn [zip_with]. rewrite !bits_cons, zip_with_app, IH by done. f_equal.
  unfold byte_bits. cbn [fmap list_fmap zip_with]. by rewrite !Z.lxor_spec.
Qed.

(** ** [fls] *)

Lemma high_zero32 x k : 0 <= x < 2 ^ 32 -> 0 < k <= 32 ->
  Z.land x (u32 (Z.shiftl U32_MAX (32 - k))) = 0 <-> x < 2 ^ (32 - k).
Proof.
  intros Hx Hk.
  assert (E : Z.land x (u32 (Z.shiftl U32_MAX (32 - k))) = Z.shiftl (Z.shiftr x (32 - k)) (32 - k)).
  { apply Z.bits_inj'. intros i Hi. rewrite Z.land_spec, testbit_u32, !Z.shiftl_spec by lia.
    change U32_MAX with (Z.ones 32). destruct (Z.ltb_spec i (32 - k)).
    - rewrite !(Z.testbit_neg_r _ (i - (32 - k))) by lia. by rewrite andb_false_r, andb_false_r.
    - rewrite Z.shiftr_spec, Z.testbit_ones_nonneg by lia. replace (i - (32 - k) + (32 - k)) with i by lia.
      destruct (Z.ltb_spec i 32); [destruct (Z.ltb_spec (i - (32 - k)) 32); [|lia]; by rewrite !andb_true_r|].
      cbn. rewrite andb_false_r. symmetry. destruct (Z.eq_dec x 0) as [->|]; [apply Z.bits_0|].
      apply Z.bits_above_log2; [lia|]. apply (Z.lt_le_trans _ 32); [|lia]. apply Z.log2_lt_pow2; lia. }
  assert (0 < 2 ^ (32 - k)) by (apply Z.pow_pos_nonneg; lia).
  rewrite E, Z.shiftl_eq_0_iff, Z.shiftr_div_pow2, Z.div_small_iff by lia. lia.
Qed.

(** What the search keeps: [x] has been shifted by [32 - r], and its top bit is
    among the [m] highest ones. *)
Definition fls32_inv (x m : Z) (s : Z * Z) : Prop :=
  0 < s.2 < 2 ^ 32 /\ Z.log2 s.2 = Z.log2 x + (32 - s.1) /\ 32 - m <= Z.log2 s.2.

Lemma fls32_step_inv x k s : 0 < k <= 16 -> fls32_inv x (2 * k) s -> fls32_inv x k (fls32_step k s).
Proof.
  destruct s as [r y]. intros Hk (Hy & Hlog & Hm). cbn [fst snd] in *. unfold fls32_step.
  destruct (Z.eqb_spec (Z.land y (u32 (Z.shiftl U32_MAX (32 - k)))) 0) as [Hz|Hz];
    rewrite high_zero32 in Hz by lia.
  - assert (Hp : 2 ^ 32 = 2 ^ (32 - k) * 2 ^ k) by (rewrite <- Z.pow_add_r by lia; f_equal; lia).
    assert (0 < 2 ^ k) by (apply Z.pow_pos_nonneg; lia).
    assert (Hsh : u32 (Z.shiftl y k) = y * 2 ^ k)
      by (rewrite Z.shiftl_mul_pow2 by lia; apply u32_id; unfold is_u32; nia).
    unfold fls32_inv. cbn [fst snd]. rewrite Hsh, Z.log2_mul_pow2 by lia. split; [nia | lia].
  - unfold fls32_inv. cbn [fst snd]. rewrite log2_lt_iff in Hz by lia. repeat split; lia.
Qed.

Lemma fls_top x : 0 <= x < 2 ^ 32 -> fls x = top x.
Proof.
  intros Hx. unfold fls, top. destruct (Z.eqb_spec x 0); [done|].
  assert (Hi : fls32_inv x (2 * 16) (32, x)).
  { repeat split; cbn [fst snd]; try lia. pose proof (Z.log2_nonneg x). lia. }
  pose proof (fls32_step_inv x 1 _ ltac:(lia) (fls32_step_inv x 2 _ ltac:(lia) (fls32_step_inv x 4 _ ltac:(lia)
    (fls32_step_inv x 8 _ ltac:(lia) (fls32_step_inv x 16 _ ltac:(lia) Hi))))) as (Hw & Hl & Hm).
  assert (Z.log2 (fls32_step 1 (fls32_step 2 (fls32_step 4 (fls32_step 8 (fls32_step 16 (32, x)))))).2 < 32)
    by (apply log2_lt_iff; lia). lia.
Qed.

Lemma fls64_top x : 0 <= x < 2 ^ 64 -> fls64 x = top x.
Proof. intros Hx. unfold fls64, top. destruct (Z.eqb_spec x 0); [done|]. rewrite fls_spec by lia. done. Qed.

(** ** The comparison *)

Section compare.
Context (a b : list Z) (limit : Z).
Hypothesis Ha : bytes a.
Hypothesis Hb : bytes b.
Hypothesis Hlen : length a = length b.
Hypothesis Hsize : (length a <= 256)%nat.

Abbreviation common := (Z.of_nat (lcp (bits a) (bits b))).

(** The first [i] bytes agree. *)
Definition agree (i : nat) : Prop :=
  lcp (bits a) (bits b) = (8 * i + lcp (bits (drop i a)) (bits (drop i b)))%nat.

(** The common prefix of the next [n] bytes, by the highest bit that differs. *)
Lemma diff_spec n i : (i + n <= length a)%nat ->
  let c := lcp (bits (take n (drop i a))) (bits (take n (drop i b))) in
  (c <= 8 * n)%nat /\ 0 <= diff_at a b n i < 2 ^ (8 * Z.of_nat n)
  /\ 8 * Z.of_nat n - top (diff_at a b n i) = Z.of_nat c /\ (diff_at a b n i = 0 <-> c = (8 * n)%nat).
Proof using Ha Hb Hlen Hsize.
  intros Hi. set (A := take n (drop i a)). set (B := take n (drop i b)). cbv zeta.
  assert (LA : length A = n) by (unfold A; rewrite length_take, length_drop; lia).
  assert (LB : length B = n) by (unfold B; rewrite length_take, length_drop; lia).
  destruct (load_lxor A B ltac:(lia)) as [E F]; [unfold A; auto | unfold B; auto |].
  assert (D : diff_at a b n i = bval (zip_with xorb (bits A) (bits B))).
  { unfold diff_at, word_at. fold A B. rewrite E, <- bits_zip, <- swab_load by (done || lia).
    f_equal. rewrite length_zip_with. lia. }
  rewrite D. pose proof (lcp_top (bits A) (bits B) ltac:(rewrite !length_bits; lia)) as T.
  pose proof (bval_range (zip_with xorb (bits A) (bits B))) as R.
  rewrite length_zip_with, !length_bits, LA, LB, Nat.min_id in R. rewrite length_bits, LA in T.
  pose proof (lcp_le (bits A) (bits B)) as [C _]. rewrite length_bits, LA in C.
  replace (8 * Z.of_nat n) with (Z.of_nat (8 * n)) by lia.
  split_and!; [lia | lia | lia | lia | split].
  - intros E0. rewrite E0 in T. cbn in T. lia.
  - intros Hc. unfold top in T. destruct (Z.eqb_spec (bval (zip_with xorb (bits A) (bits B))) 0); [done|].
    pose proof (Z.log2_nonneg (bval (zip_with xorb (bits A) (bits B)))). lia.
Qed.

(** What the common prefix of the next [n] bytes says about the whole. *)
Lemma agree_next n i : (i + n <= length a)%nat -> agree i ->
  let c := lcp (bits (take n (drop i a))) (bits (take n (drop i b))) in
  if (c =? 8 * n)%nat then agree (i + n) else lcp (bits a) (bits b) = (8 * i + c)%nat.
Proof using Ha Hb Hlen Hsize.
  intros Hi G. cbv zeta. unfold agree in *. rewrite G.
  pose proof (lcp_app (bits (take n (drop i a))) (bits (drop n (drop i a))) (bits (take n (drop i b)))
    (bits (drop n (drop i b))) ltac:(rewrite !length_bits, !length_take, !length_drop; lia)) as E.
  rewrite <- !bits_app, !take_drop, !drop_drop, length_bits, length_take, length_drop in E.
  replace (n `min` (length a - i))%nat with n in E by lia.
  destruct (_ =? _)%nat; lia.
Qed.

(** The state between two comparisons. *)
Definition going (i : nat) (len : Z) : Prop :=
  agree i /\ len = 8 * Z.of_nat i /\ (i <= length a)%nat /\ (i = 0%nat \/ len < limit).

Lemma compare_word_spec n i len : n ∈ [2; 4; 8]%nat -> going i len -> (i + n <= length a)%nat ->
  match compare_word a b limit n i len with
  | Ret r => r = Z.min limit common
  | Cont len => going (i + n) len
  end.
Proof using Ha Hb Hlen Hsize.
  intros Hn (G & -> & _ & _) Hi. destruct (diff_spec n i Hi) as (Hc & R & T & D).
  pose proof (agree_next n i Hi G) as N. cbv zeta in N.
  set (c := lcp (bits (take n (drop i a))) (bits (take n (drop i b)))) in *.
  assert (P : 2 ^ (8 * Z.of_nat n) <= 2 ^ 64 /\ (n <> 8%nat -> 2 ^ (8 * Z.of_nat n) <= 2 ^ 32)).
  { split; [| intros]; apply Z.pow_le_mono_r; set_unfold in Hn; lia. }
  unfold compare_word.
  replace (if (n =? 8)%nat then fls64 (diff_at a b n i) else fls (diff_at a b n i)) with (top (diff_at a b n i))
    by (destruct (Nat.eqb_spec n 8); [rewrite fls64_top | rewrite fls_top]; [done | lia | done | lia]).
  rewrite T, u32_id by (unfold is_u32; set_unfold in Hn; lia).
  destruct (Nat.eqb_spec c (8 * n)) as [Ec|Ec].
  - rewrite (proj2 D Ec). cbn [nonzero negb Z.eqb]. unfold agree in N.
    destruct (Z.leb_spec limit (8 * Z.of_nat i + Z.of_nat c)); [lia|].
    split_and!; [exact N | lia | lia | right; lia].
  - assert (nonzero (diff_at a b n i) = true) as -> by (unfold nonzero; apply negb_true_iff, Z.eqb_neq; tauto).
    destruct (Z.leb_spec limit (8 * Z.of_nat i + Z.of_nat c)); lia.
Qed.

Lemma compare_words_spec fuel i len : going i len -> (length a <= i + fuel)%nat ->
  match compare_words fuel (Z.of_nat (length a)) a b limit i len with
  | (Ret r, _) => r = Z.min limit common
  | (Cont len, j) => going j len /\ (length a < j + 4)%nat
  end.
Proof using Ha Hb Hlen Hsize.
  revert i len. induction fuel as [|fuel IH]; intros i len G Hf; cbn [compare_words]; [split; [done | lia]|].
  destruct (Z.leb_spec (Z.of_nat i + 4) (Z.of_nat (length a))); [|split; [done | lia]].
  pose proof (compare_word_spec 4 i len ltac:(set_solver) G ltac:(lia)) as C.
  destruct (compare_word a b limit 4 i len) as [r|len']; [done|]. apply IH; [done | lia].
Qed.

(** The last byte; [top] of a byte counts from the bits of the word. *)
Lemma last_byte_spec i len : going i len -> length a = S i -> limit <= 8 * Z.of_nat (length a) ->
  let len := u32 (len + (8 - fls (Z.lxor (default 0 (a !! i)) (default 0 (b !! i))))) in
  (if limit <=? len then limit else len) = Z.min limit common.
Proof using Ha Hb Hlen Hsize.
  intros (G & -> & _ & _) Hi Hl. destruct (diff_spec 1 i ltac:(lia)) as (Hc & R & T & D).
  pose proof (agree_next 1 i ltac:(lia) G) as N. cbv zeta in N.
  assert (exists x y, a !! i = Some x /\ b !! i = Some y) as (x & y & Ex & Ey).
  { destruct (lookup_lt_is_Some_2 a i) as [x ?]; [lia|]. destruct (lookup_lt_is_Some_2 b i) as [y ?]; [lia|]. eauto. }
  assert (E : diff_at a b 1 i = Z.lxor x y).
  { unfold diff_at, word_at. rewrite (drop_S a x i), (drop_S b y i) by done. cbn [take le_load swab].
    rewrite !Z.mul_0_r, !Z.add_0_r. apply (Forall_lookup_1 _ _ _ _ Ha) in Ex. apply (Forall_lookup_1 _ _ _ _ Hb) in Ey.
    destruct (lxor_split x 0 y 0 Ex Ey) as [_ Rx]. rewrite Z.mod_small by lia. cbn. lia. }
  rewrite Ex, Ey. change (Z.lxor (default 0 (Some x)) (default 0 (Some y))) with (Z.lxor x y). rewrite <- E. rewrite fls_top by lia.
  cbv zeta. change (8 - top (diff_at a b 1 i)) with (8 * Z.of_nat 1 - top (diff_at a b 1 i)).
  rewrite T, u32_id by (unfold is_u32; lia).
  set (c := lcp (bits (take 1 (drop i a))) (bits (take 1 (drop i b)))) in *.
  assert (Hd : drop (i + 1) a = [] /\ drop (i + 1) b = []) by (split; apply drop_ge; lia).
  destruct (Nat.eqb_spec c (8 * 1)) as [Ec|Ec].
  - unfold agree in N. destruct Hd as [Hd1 Hd2]. rewrite Hd1, Hd2 in N. cbn in N.
    destruct (Z.leb_spec limit (8 * Z.of_nat i + Z.of_nat c)); lia.
  - destruct (Z.leb_spec limit (8 * Z.of_nat i + Z.of_nat c)); lia.
Qed.
End compare.

(** [longest_prefix_match] is the common prefix of the two prefixes. *)
Lemma longest_prefix_match_spec {V} efficient (t : lpm_trie V) n key :
  data_size t = Z.of_nat (length (data n)) -> length (data n) = length (k_data key) ->
  (0 < length (data n) <= 256)%nat -> bytes (data n) -> bytes (k_data key) ->
  0 <= prefixlen n <= 8 * data_size t -> 0 <= k_prefixlen key <= 8 * data_size t ->
  longest_prefix_match efficient t n key =
  Z.of_nat (lcp (take (Z.to_nat (prefixlen n)) (bits (data n)))
                (take (Z.to_nat (k_prefixlen key)) (bits (k_data key)))).
Proof.
  intros Hs Hl Hz Ha Hb Hp Hk. unfold longest_prefix_match. rewrite Hs in *.
  set (limit := Z.min (prefixlen n) (k_prefixlen key)).
  rewrite lcp_take. set (goal := Z.of_nat (Nat.min _ _)).
  assert (Hg : goal = Z.min limit (Z.of_nat (lcp (bits (data n)) (bits (k_data key))))) by (unfold goal, limit; lia).
  clearbody goal. subst goal.
  assert (G0 : going (data n) (k_data key) limit 0 0).
  { split_and!; [unfold agree; by rewrite !drop_0 | done | lia | by left]. }
  set (start := if efficient && _ then _ else _).
  assert (S : match start with (Ret r, _) => r = Z.min limit (Z.of_nat (lcp (bits (data n)) (bits (k_data key))))
    | (Cont len, i) => going (data n) (k_data key) limit i len end).
  { unfold start. destruct efficient; cbn [andb]; [|done]. destruct (Z.leb_spec 8 (Z.of_nat (length (data n)))); [|done].
    pose proof (compare_word_spec _ _ limit Ha Hb Hl ltac:(lia) 8 0 0 ltac:(set_solver) G0 ltac:(lia)) as C.
    by destruct (compare_word _ _ _ _ _ _). }
  destruct start as [[r|len] i]; [done|].
  pose proof (compare_words_spec _ _ limit Ha Hb Hl ltac:(lia) (Z.to_nat (Z.of_nat (length (data n)))) i len S ltac:(lia)) as W.
  destruct (compare_words _ _ _ _ _ i len) as [[r|len'] j]; [done|]. destruct W as [W Hj].
  set (half := if _ <=? _ then _ else _).
  assert (S' : match half with (Ret r, _) => r = Z.min limit (Z.of_nat (lcp (bits (data n)) (bits (k_data key))))
    | (Cont len, i) => going (data n) (k_data key) limit i len /\ (length (data n) < i + 2)%nat end).
  { unfold half. destruct (Z.leb_spec (Z.of_nat j + 2) (Z.of_nat (length (data n)))); [|split; [done | lia]].
    pose proof (compare_word_spec _ _ limit Ha Hb Hl ltac:(lia) 2 j len' ltac:(set_solver) W ltac:(lia)) as C.
    destruct (compare_word _ _ _ _ _ _); [done|]. split; [done | lia]. }
  destruct half as [[r|len''] i']; [done|]. destruct S' as [S' Hi']. pose proof S' as (_ & E & I & L).
  destruct (Z.leb_spec (Z.of_nat i' + 1) (Z.of_nat (length (data n)))).
  - apply (last_byte_spec _ _ limit Ha Hb Hl ltac:(lia) i' len'' S'); lia.
  - lia.
Qed.
