(* ===== verification/LpmTree.v ===== *)
(** * The trie as a map from prefixes

    The invariant of the tree, the map from lists of bits to values that it
    stands for, and the slots that the operations write. *)
From S2P Require Import Prelude Bits LpmTrie LpmMatch.

Section Tree.
Context {V : Type} (size : nat).
Implicit Types (n : lpm_node V) (x y : tree V) (k pre : list bool) (key : lpm_key) (slot : list (frame (V := V))).

(** The prefix that a node or a key holds. *)
Definition node_bits n : list bool := take (Z.to_nat (prefixlen n)) (bits (data n)).
Definition key_bits key : list bool := take (Z.to_nat (k_prefixlen key)) (bits (k_data key)).

Record node_ok n : Prop := {
  no_len : 0 <= prefixlen n <= 8 * Z.of_nat size;
  no_size : length (data n) = size;
  no_bytes : bytes (data n);
  no_value : is_im n = false -> is_Some (nvalue n) }.

(** A key of the map: a buffer of [data_size] bytes and a [u32]. *)
Record key_ok key : Prop := {
  ko_len : 0 <= k_prefixlen key;
  ko_size : length (k_data key) = size;
  ko_bytes : bytes (k_data key) }.

Record trie_ok (t : lpm_trie V) : Prop := {
  to_size : data_size t = Z.of_nat size;
  to_max : max_prefixlen t = 8 * Z.of_nat size;
  to_bound : (0 < size <= 256)%nat }.

(** Every prefix below a node extends its prefix by the bit of the child;
    intermediate nodes have two children. *)
Fixpoint wf pre x : Prop :=
  match x with
  | Null => True
  | Node n c0 c1 =>
      node_ok n /\ pre `prefix_of` node_bits n /\ (is_im n = true -> c0 <> Null /\ c1 <> Null) /\
      wf (node_bits n ++ [false]) c0 /\ wf (node_bits n ++ [true]) c1
  end.

(** The value of a prefix. *)
Fixpoint get x k : option V :=
  match x with
  | Null => None
  | Node n c0 c1 =>
      if decide (k = node_bits n) then (if is_im n then None else nvalue n)
      else if decide (node_bits n ++ [false] `prefix_of` k) then get c0 k
      else if decide (node_bits n ++ [true] `prefix_of` k) then get c1 k
      else None
  end.

(** ** Prefixes *)

Lemma snoc_prefix_inj (l k : list bool) (b b' : bool) : l ++ [b] `prefix_of` k -> l ++ [b'] `prefix_of` k -> b = b'.
Proof. intros [c ->] [c' E]. rewrite <- !app_assoc in E. apply app_inv_head in E. by injection E. Qed.

Lemma snoc_prefix_ne (l k : list bool) (b : bool) : l ++ [b] `prefix_of` k -> k <> l /\ l `prefix_of` k.
Proof.
  intros [c ->]. rewrite <- app_assoc. split; [|by apply prefix_app_r].
  intros E. apply (f_equal length) in E. rewrite length_app in E. cbn in E. lia.
Qed.

Lemma prefix_cases (l k : list bool) : l `prefix_of` k -> k = l \/ exists b, l ++ [b] `prefix_of` k.
Proof.
  intros [[|b c] ->]; [left; by rewrite app_nil_r | right]. exists b, c. by rewrite <- app_assoc.
Qed.

Lemma get_own n c0 c1 : get (Node n c0 c1) (node_bits n) = if is_im n then None else nvalue n.
Proof. cbn [get]. by rewrite decide_True. Qed.

Lemma get_child n c0 c1 (b : bool) k : node_bits n ++ [b] `prefix_of` k ->
  get (Node n c0 c1) k = get (if b then c1 else c0) k.
Proof.
  intros H. destruct (snoc_prefix_ne _ _ _ H) as [Hne _]. cbn [get]. rewrite decide_False by done. destruct b.
  - rewrite decide_False by (intros H'; pose proof (snoc_prefix_inj _ _ _ _ H H'); done). by rewrite decide_True.
  - by rewrite decide_True.
Qed.

Lemma get_outside n c0 c1 k : ~ node_bits n `prefix_of` k -> get (Node n c0 c1) k = None.
Proof.
  intros H. cbn [get]. rewrite decide_False by (intros ->; by apply H).
  rewrite !decide_False; [done| |]; intros H'; by apply snoc_prefix_ne in H' as [_ ?].
Qed.

Lemma get_prefix x pre k : wf pre x -> is_Some (get x k) -> pre `prefix_of` k.
Proof.
  destruct x as [|n c0 c1]; [by intros _ []|]. intros (_ & H & _) G.
  destruct (decide (node_bits n `prefix_of` k)) as [P|P]; [by etrans|].
  rewrite get_outside in G by done. by destruct G.
Qed.

Lemma get_none x pre k : wf pre x -> ~ pre `prefix_of` k -> get x k = None.
Proof. intros W H. apply eq_None_not_Some. intros G. by eapply H, get_prefix. Qed.

Lemma length_node_bits n : node_ok n -> Z.of_nat (length (node_bits n)) = prefixlen n.
Proof. intros [L S _ _]. unfold node_bits. rewrite length_take, length_bits. lia. Qed.

Lemma wf_depth pre x : wf pre x -> x <> Null -> (length pre <= 8 * size)%nat.
Proof.
  destruct x as [|n c0 c1]; [done|]. intros (N & H & _) _. apply prefix_length in H.
  pose proof (length_node_bits n N). destruct N. lia.
Qed.

(** ** Comparing a node with a key *)

Section Key.
Context (efficient : bool) (t : lpm_trie V) (key : lpm_key).
Hypothesis Ht : trie_ok t.
Hypothesis Hkey : key_ok key.
Hypothesis Hmax : k_prefixlen key <= max_prefixlen t.

Abbreviation lpm n := (longest_prefix_match efficient t n key).

Lemma length_key_bits : Z.of_nat (length (key_bits key)) = k_prefixlen key.
Proof using Ht Hkey Hmax.
  destruct Hkey as [L S _], Ht as [_ M _]. unfold key_bits. rewrite length_take, length_bits. lia.
Qed.

Lemma lpm_lcp n : node_ok n -> lpm n = Z.of_nat (lcp (node_bits n) (key_bits key)).
Proof using Ht Hkey Hmax.
  intros [L S B _]. destruct Hkey as [L' S' B'], Ht as [D M Z].
  apply longest_prefix_match_spec; rewrite ?D, ?S, ?S'; lia || done.
Qed.

Lemma lpm_bounds n : node_ok n -> 0 <= lpm n <= prefixlen n /\ lpm n <= k_prefixlen key.
Proof using Ht Hkey Hmax.
  intros N. rewrite (lpm_lcp n N). pose proof (lcp_le (node_bits n) (key_bits key)).
  pose proof (length_node_bits n N). pose proof length_key_bits. lia.
Qed.

Lemma lpm_prefix n : node_ok n -> lpm n = prefixlen n <-> node_bits n `prefix_of` key_bits key.
Proof using Ht Hkey Hmax.
  intros N. rewrite (lpm_lcp n N), <- lcp_prefix. pose proof (length_node_bits n N). lia.
Qed.

Lemma lpm_prefix_key n : node_ok n -> lpm n = k_prefixlen key <-> key_bits key `prefix_of` node_bits n.
Proof using Ht Hkey Hmax.
  intros N. rewrite (lpm_lcp n N), lcp_comm, <- lcp_prefix. pose proof length_key_bits. lia.
Qed.

Lemma lpm_equal n : node_ok n -> lpm n = prefixlen n -> prefixlen n = k_prefixlen key -> node_bits n = key_bits key.
Proof using Ht Hkey Hmax.
  intros N E E'. apply (lpm_prefix n N) in E. pose proof (length_node_bits n N). pose proof length_key_bits.
  destruct E as [c E]. assert (length c = 0)%nat by (apply (f_equal length) in E; rewrite length_app in E; lia).
  destruct c; [|done]. by rewrite app_nil_r in E.
Qed.

(** The next bit of the key after a proper prefix of it. *)
Lemma next_bit pre : pre `prefix_of` bits (k_data key) -> (length pre < 8 * size)%nat ->
  exists b, extract_bit (k_data key) (Z.of_nat (length pre)) = Some b /\ pre ++ [b] `prefix_of` bits (k_data key) /\
    (pre `prefix_of` key_bits key -> (length pre < length (key_bits key))%nat -> pre ++ [b] `prefix_of` key_bits key).
Proof using Hkey.
  intros [c E] L. rewrite extract_bit_spec, Nat2Z.id by lia. destruct c as [|b c].
  { rewrite app_nil_r in E. apply (f_equal length) in E. rewrite length_bits in E. destruct Hkey. lia. }
  exists b. rewrite E. split_and!; [|by exists c; rewrite <- app_assoc|].
  - rewrite lookup_app_r, Nat.sub_diag by lia. done.
  - unfold key_bits. rewrite E. intros _ H. rewrite length_take in H.
    exists (take (Z.to_nat (k_prefixlen key) - length (pre ++ [b])) c).
    rewrite (app_assoc pre [b] c : pre ++ b :: c = _). rewrite take_app, take_ge by (rewrite length_app; cbn; lia). done.
Qed.
End Key.

(** ** Slots *)

(** A slot below which prefixes start with [pre]. *)
Fixpoint wf_slot pre slot : Prop :=
  match slot with
  | [] => pre = []
  | (n, b, o) :: rest =>
      pre = node_bits n ++ [b] /\ node_ok n /\ (is_im n = true -> o <> Null) /\
      wf (node_bits n ++ [negb b]) o /\ exists pre', pre' `prefix_of` node_bits n /\ wf_slot pre' rest
  end.

(** A slot of an intermediate node is not empty. *)
Definition fills slot x : Prop :=
  match slot with [] => True | (n, _, _) :: _ => is_im n = true -> x <> Null end.

Lemma refill_wf n b o x pre : node_ok n -> pre `prefix_of` node_bits n -> (is_im n = true -> o <> Null /\ x <> Null) ->
  wf (node_bits n ++ [negb b]) o -> wf (node_bits n ++ [b]) x -> wf pre (refill (n, b, o) x).
Proof. intros N P I O X. destruct b; cbn; (split_and!; [done | done | by intros H; destruct (I H) | done | done]). Qed.

Lemma refill_get n (b : bool) o x k : node_bits n ++ [b] `prefix_of` k -> get (refill (n, b, o) x) k = get x k.
Proof. intros H. destruct b; cbn [refill]; by rewrite (get_child _ _ _ _ _ H). Qed.

Lemma refill_get_other n b o x y k : ~ node_bits n ++ [b] `prefix_of` k ->
  get (refill (n, b, o) x) k = get (refill (n, b, o) y) k.
Proof.
  intros H. destruct b; cbn [refill get]; destruct (decide (k = _)); [done | | done |].
  - destruct (decide (_ ++ [false] `prefix_of` k)); [done|]. by rewrite !decide_False by done.
  - by rewrite !(decide_False (P := _ ++ [false] `prefix_of` k)) by done.
Qed.

Lemma assign_wf slot x : forall pre, wf_slot pre slot -> wf pre x -> fills slot x -> wf [] (assign slot x).
Proof.
  revert x. induction slot as [|[[n b] o] slot IH]; intros x pre; [by intros -> |].
  intros (-> & N & I & O & pre' & P & S) X F. apply (IH _ pre' S); [apply refill_wf; auto|].
  unfold fills. destruct slot as [|[[? ?] ?] ?]; [done|]. intros _. by destruct b.
Qed.

Lemma assign_in slot x k : forall pre, wf_slot pre slot -> pre `prefix_of` k -> get (assign slot x) k = get x k.
Proof.
  revert x. induction slot as [|[[n b] o] slot IH]; intros x pre; [done|].
  intros (-> & _ & _ & _ & pre' & P & S) K. change (assign _ x) with (assign slot (refill (n, b, o) x)).
  rewrite (IH _ pre' S); [by apply refill_get|]. etrans; [exact P|]. by apply snoc_prefix_ne in K as [_ ?].
Qed.

Lemma assign_out slot x y k : forall pre, wf_slot pre slot -> ~ pre `prefix_of` k ->
  get (assign slot x) k = get (assign slot y) k.
Proof.
  revert x y. induction slot as [|[[n b] o] slot IH]; intros x y pre; [intros -> H; destruct H; apply prefix_nil|].
  intros (-> & _ & _ & _ & pre' & P & S) K.
  change (get (assign slot (refill (n, b, o) x)) k = get (assign slot (refill (n, b, o) y)) k).
  destruct (decide (pre' `prefix_of` k)) as [D|D]; [|by apply (IH _ _ pre')].
  rewrite !(assign_in _ _ _ pre') by done. by apply refill_get_other.
Qed.

(** ** The walk *)

Section Walk.
Context (efficient : bool) (t : lpm_trie V) (key : lpm_key) (stop : lpm_node V -> Z -> bool).
Hypothesis Ht : trie_ok t.
Hypothesis Hkey : key_ok key.
Hypothesis Hmax : k_prefixlen key <= max_prefixlen t.
(** The walk goes on only below a proper prefix of the key. *)
Hypothesis Hstop : forall n ml, stop n ml = false -> prefixlen n = ml /\ prefixlen n <> k_prefixlen key.

(** Where the walk ends: a slot of the same tree whose prefix the key has. *)
Definition ends_at (whole : tree V) slot x ml : Prop := exists pre,
  wf_slot pre slot /\ wf pre x /\ fills slot x /\ pre `prefix_of` key_bits key /\ assign slot x = whole /\
  match x with Null => True | Node n _ _ => ml = longest_prefix_match efficient t n key /\ stop n ml = true end.

Lemma key_bits_prefix : key_bits key `prefix_of` bits (k_data key).
Proof. exists (drop (Z.to_nat (k_prefixlen key)) (bits (k_data key))). symmetry. apply take_drop. Qed.

(** The child that the next bit chooses. *)
Lemma walk_bit n : node_ok n -> node_bits n `prefix_of` key_bits key -> prefixlen n < k_prefixlen key ->
  exists b, extract_bit (k_data key) (prefixlen n) = Some b /\ node_bits n ++ [b] `prefix_of` key_bits key.
Proof using Ht Hkey Hmax.
  intros N P L. pose proof (length_node_bits n N) as Ln. pose proof (length_key_bits t key Ht Hkey Hmax) as Lk.
  destruct Ht as [_ M _]. destruct (next_bit key Hkey (node_bits n)) as (b & E & _ & H).
  - etrans; [exact P | apply key_bits_prefix].
  - lia.
  - rewrite Ln in E. exists b. split; [done|]. apply H; [done | lia].
Qed.

Lemma walk_spec x : forall slot pre ml, wf pre x -> fills slot x -> wf_slot pre slot -> pre `prefix_of` key_bits key ->
  exists slot' x' ml', walk_to efficient stop t key x slot ml = Some (slot', x', ml') /\
    ends_at (assign slot x) slot' x' ml'.
Proof using Ht Hkey Hmax Hstop.
  induction x as [|n c0 IH0 c1 IH1]; intros slot pre ml W F S P.
  { exists slot, Null, ml. split; [done|]. by exists pre. }
  pose proof W as (N & Hp & I & W0 & W1). cbn [walk_to].
  destruct (stop n (longest_prefix_match efficient t n key)) eqn:E.
  { exists slot, (Node n c0 c1), (longest_prefix_match efficient t n key). split; [done|]. by exists pre. }
  destruct (Hstop _ _ E) as [El Ne]. pose proof (lpm_bounds efficient t key Ht Hkey Hmax n N) as B.
  destruct (walk_bit n N) as (b & Eb & Pb).
  { by apply (lpm_prefix efficient t key Ht Hkey Hmax n N). } { lia. }
  rewrite Eb. cbn [mbind option_bind].
  destruct b.
  - change (assign slot (Node n c0 c1)) with (assign ((n, true, c0) :: slot) c1).
    apply (IH1 _ (node_bits n ++ [true])); [done | by intros H; destruct (I H) | | done].
    split_and!; [done | done | by intros H; destruct (I H) | done | by exists pre].
  - change (assign slot (Node n c0 c1)) with (assign ((n, false, c1) :: slot) c0).
    apply (IH0 _ (node_bits n ++ [false])); [done | by intros H; destruct (I H) | | done].
    split_and!; [done | done | by intros H; destruct (I H) | done | by exists pre].
Qed.
End Walk.
End Tree.
