(* ===== verification/LpmOps.v ===== *)
(** * The operations of the trie implement a map of prefixes

    An abstract map from lists of bits to values with the lookup of the longest
    prefix, and the simulation of its operations by the trie. *)
From S2P Require Import Prelude Bits LpmTrie LpmMatch LpmTree.

(** ** The abstract map *)

Abbreviation prefix_map V := (gmap (list bool) V).

(** The value of the longest prefix of [k], of length at most [l], in the map. *)
Fixpoint longest {V} (m : prefix_map V) (k : list bool) (l : nat) : option V :=
  match m !! take l k, l with
  | Some v, _ => Some v
  | None, O => None
  | None, S l => longest m k l
  end.

Lemma longest_spec {V} (m : prefix_map V) k l v : longest m k l = Some v <->
  exists i, (i <= l)%nat /\ m !! take i k = Some v /\ forall j, (i < j <= l)%nat -> m !! take j k = None.
Proof.
  induction l as [|l IH]; cbn [longest]; destruct (m !! take _ k) as [w|] eqn:E.
  - split; [intros [= ->]; exists 0%nat; split_and!; [lia | done | lia]|].
    intros (i & Hi & H & _). replace i with 0%nat in H by lia. congruence.
  - split; [done|]. intros (i & Hi & H & _). replace i with 0%nat in H by lia. congruence.
  - split; [intros [= ->]; exists (S l); split_and!; [lia | done | lia]|].
    intros (i & Hi & H & N). destruct (decide (i = S l)) as [->|]; [congruence|]. rewrite N in E by lia. done.
  - rewrite IH. split; intros (i & Hi & H & N); exists i.
    + split_and!; [lia | done |]. intros j Hj. destruct (decide (j = S l)) as [->|]; [done | apply N; lia].
    + destruct (decide (i = S l)) as [->|]; [congruence|]. split_and!; [lia | done |]. intros j Hj. apply N. lia.
Qed.

Lemma longest_none {V} (m : prefix_map V) k l : (forall i, (i <= l)%nat -> m !! take i k = None) -> longest m k l = None.
Proof.
  intros H. apply eq_None_not_Some. intros [v E]. apply longest_spec in E as (i & Hi & E & _).
  rewrite H in E by done. done.
Qed.

(** Operations and what they return. *)
Inductive op (V : Type) :=
| Lookup (key : lpm_key) | Update (key : lpm_key) (v : V) (fl : Z) (alloc_new alloc_im : bool) | Delete (key : lpm_key).
Arguments Lookup {V}.
Arguments Update {V}.
Arguments Delete {V}.
Inductive reply (V : Type) := Found (v : option V) | Code (err : Z).
Arguments Found {V}.
Arguments Code {V}.

(** One operation of the map, with prefixes of at most [max] bits and at most
    [entries] of them.  Only the failure of an allocation is left open. *)
Inductive map_step {V} (max entries : Z) (m : prefix_map V) : op V -> reply V -> prefix_map V -> Prop :=
| step_lookup key :
    map_step max entries m (Lookup key)
      (Found (if max <? k_prefixlen key then None else longest m (key_bits key) (length (key_bits key)))) m
| step_update_invalid key v fl a a' : 2 < fl \/ max < k_prefixlen key ->
    map_step max entries m (Update key v fl a a') (Code (- EINVAL)) m
| step_update_full key v fl a a' : fl <= 2 -> k_prefixlen key <= max -> Z.of_nat (size m) = entries ->
    map_step max entries m (Update key v fl a a') (Code (- ENOSPC)) m
| step_update_no_memory key v fl a a' : fl <= 2 -> k_prefixlen key <= max -> Z.of_nat (size m) <> entries ->
    a = false \/ (a' = false /\ m !! key_bits key = None) ->
    map_step max entries m (Update key v fl a a') (Code (- ENOMEM)) m
| step_update key v fl a a' : fl <= 2 -> k_prefixlen key <= max -> Z.of_nat (size m) <> entries -> a = true ->
    map_step max entries m (Update key v fl a a') (Code 0) (<[key_bits key := v]> m)
| step_delete_invalid key : max < k_prefixlen key -> map_step max entries m (Delete key) (Code (- EINVAL)) m
| step_delete_absent key : k_prefixlen key <= max -> m !! key_bits key = None ->
    map_step max entries m (Delete key) (Code (- ENOENT)) m
| step_delete key : k_prefixlen key <= max -> is_Some (m !! key_bits key) ->
    map_step max entries m (Delete key) (Code 0) (delete (key_bits key) m).

(** The same operation of the trie; [None] is a fault. *)
Definition trie_step {V} (efficient : bool) (t : lpm_trie V) (o : op V) : option (reply V * lpm_trie V) :=
  match o with
  | Lookup key => r ← trie_lookup_elem efficient t key; Some (Found r, t)
  | Update key v fl a a' => '(r, t) ← trie_update_elem efficient t key v fl a a'; Some (Code r, t)
  | Delete key => '(r, t) ← trie_delete_elem efficient t key; Some (Code r, t)
  end.

(** Sequences of operations, on the trie and on the map. *)
Fixpoint trie_run {V} (efficient : bool) (t : lpm_trie V) (os : list (op V)) : option (list (reply V) * lpm_trie V) :=
  match os with
  | [] => Some ([], t)
  | o :: os => '(r, t) ← trie_step efficient t o; '(rs, t) ← trie_run efficient t os; Some (r :: rs, t)
  end.
Inductive map_run {V} (max entries : Z) : prefix_map V -> list (op V) -> list (reply V) -> prefix_map V -> Prop :=
| run_nil m : map_run max entries m [] [] m
| run_cons m o r m' os rs m'' : map_step max entries m o r m' -> map_run max entries m' os rs m'' ->
    map_run max entries m (o :: os) (r :: rs) m''.

Definition op_key {V} (o : op V) : lpm_key := match o with Lookup key | Update key _ _ _ _ | Delete key => key end.

Section Ops.
Context {V : Type} (size : nat) (efficient : bool).
Implicit Types (n : lpm_node V) (x y : tree V) (k pre : list bool) (key : lpm_key) (slot : list (frame (V := V))).

(** The trie [t] stands for the map [m]. *)
Record represents (t : lpm_trie V) (m : prefix_map V) : Prop := {
  rp_ok : trie_ok size t;
  rp_wf : wf size [] (root t);
  rp_get : forall k, m !! k = get (root t) k;
  rp_count : n_entries t = Z.of_nat (base.size m);
  rp_full : Z.of_nat (base.size m) <= max_entries t < 2 ^ 32 }.

(** ** Lookup *)

Section Lookup.
Context (t : lpm_trie V) (key : lpm_key).
Hypothesis Ht : trie_ok size t.
Hypothesis Hkey : key_ok size key.
Hypothesis Hmax : k_prefixlen key <= max_prefixlen t.
Abbreviation kb := (key_bits key).

(** Along the key a node with the child of the next bit is all there is. *)
Lemma get_along n c0 c1 (b : bool) k : wf size (node_bits n ++ [false]) c0 -> wf size (node_bits n ++ [true]) c1 ->
  node_bits n ++ [b] `prefix_of` bits (k_data key) -> k `prefix_of` bits (k_data key) -> k <> node_bits n ->
  get (Node n c0 c1) k = get (if b then c1 else c0) k.
Proof.
  intros W0 W1 Pb Pk Ne. destruct (decide (node_bits n `prefix_of` k)) as [P|P].
  - destruct (prefix_cases _ _ P) as [->|[b' Pb']]; [done|].
    assert (b' = b) as -> by (eapply snoc_prefix_inj; [etrans; [exact Pb' | exact Pk] | exact Pb]).
    by apply get_child.
  - rewrite get_outside by done. symmetry. apply (get_none size _ (node_bits n ++ [b])); [by destruct b|].
    intros H. by apply snoc_prefix_ne in H as [_ ?].
Qed.

Definition best x (v : V) : Prop := exists l, (l <= length kb)%nat /\ get x (take l kb) = Some v /\
  forall j, (l < j <= length kb)%nat -> get x (take j kb) = None.
Definition nothing x : Prop := forall l, (l <= length kb)%nat -> get x (take l kb) = None.

Lemma take_along l : take l kb `prefix_of` bits (k_data key).
Proof. etrans; [apply prefix_take | apply key_bits_prefix]. Qed.

(** What the child on the way says about its parent. *)
Lemma best_child n c0 c1 (b : bool) v : wf size (node_bits n ++ [false]) c0 -> wf size (node_bits n ++ [true]) c1 ->
  node_bits n ++ [b] `prefix_of` bits (k_data key) -> best (if b then c1 else c0) v -> best (Node n c0 c1) v.
Proof.
  intros W0 W1 Pb (l & Hl & E & N). exists l.
  assert (W : wf size (node_bits n ++ [b]) (if b then c1 else c0)) by (by destruct b).
  pose proof (get_prefix size _ _ _ W (mk_is_Some _ _ E)) as P.
  assert (Hn : forall j, (l <= j)%nat -> take j kb <> node_bits n).
  { intros j Hj E'. apply prefix_length in P. apply (f_equal length) in E'.
    rewrite length_app in P. cbn in P. rewrite !length_take in *. lia. }
  split_and!; [done | rewrite (get_along n c0 c1 b) by (auto using take_along); done |].
  intros j Hj. rewrite (get_along n c0 c1 b); [apply N; lia | done | done | done | apply take_along | apply Hn; lia].
Qed.

Lemma nothing_child n c0 c1 (b : bool) : node_ok size n ->
  wf size (node_bits n ++ [false]) c0 -> wf size (node_bits n ++ [true]) c1 ->
  node_bits n ++ [b] `prefix_of` bits (k_data key) -> nothing (if b then c1 else c0) ->
  if is_im n then nothing (Node n c0 c1)
  else node_bits n `prefix_of` kb -> exists v, nvalue n = Some v /\ best (Node n c0 c1) v.
Proof.
  intros Ok W0 W1 Pb N. destruct (is_im n) eqn:Im.
  - intros l Hl. destruct (decide (take l kb = node_bits n)) as [->|]; [by rewrite get_own, Im|].
    rewrite (get_along n c0 c1 b) by (auto using take_along). by apply N.
  - intros [c E]. destruct (no_value _ _ Ok Im) as [v Hv]. exists v. split; [done|].
    assert (length (node_bits n) <= length kb)%nat by (rewrite E, length_app; lia).
    assert (Et : take (length (node_bits n)) kb = node_bits n) by (rewrite E; apply take_app_length).
    exists (length (node_bits n)). split_and!; [done | by rewrite Et, get_own, Im |].
    intros j Hj. rewrite (get_along n c0 c1 b); [apply N; lia | done.. | apply take_along |].
    intros E'. apply (f_equal length) in E'. rewrite length_take in E'. lia.
Qed.

Lemma lookup_walk_spec x : forall pre found, wf size pre x -> pre `prefix_of` bits (k_data key) ->
  exists r, lookup_walk efficient t key x found = Some r /\
    ((exists n v, r = Some n /\ nvalue n = Some v /\ best x v) \/ (r = found /\ nothing x)).
Proof using Ht Hkey Hmax.
  induction x as [|n c0 IH0 c1 IH1]; intros pre found W P; [exists found; split; [done | by right]|].
  pose proof W as (Ok & _ & I & W0 & W1). cbn [lookup_walk].
  pose proof (lpm_bounds size efficient t key Ht Hkey Hmax n Ok) as B.
  pose proof (lpm_prefix size efficient t key Ht Hkey Hmax n Ok) as Lp.
  pose proof (length_node_bits size n Ok) as Ln. pose proof (no_len _ _ Ok) as Hn. pose proof (to_max _ _ Ht) as Mx.
  destruct (Z.eqb_spec (longest_prefix_match efficient t n key) (max_prefixlen t)) as [Em|Em].
  { exists (Some n). split; [done|]. left.
    assert (Eb : node_bits n = kb) by (apply (lpm_equal size efficient t key Ht Hkey Hmax n Ok); lia).
    assert (Im : is_im n = false).
    { destruct (is_im n) eqn:Im; [|done]. destruct (I eq_refl) as [N0 _].
      pose proof (wf_depth size _ _ W0 N0) as D. rewrite length_app in D. cbn in D. lia. }
    destruct (no_value _ _ Ok Im) as [v Hv]. exists n, v. split_and!; [done | done |].
    exists (length kb). rewrite take_ge, <- Eb, get_own, Im by lia. split_and!; [lia | done | lia]. }
  destruct (Z.ltb_spec (longest_prefix_match efficient t n key) (prefixlen n)) as [L|L].
  { exists found. split; [done|]. right. split; [done|]. intros l Hl. apply get_outside. intros H.
    assert (node_bits n `prefix_of` kb) by (etrans; [exact H | apply prefix_take]). apply Lp in H0. lia. }
  assert (Pk : node_bits n `prefix_of` kb) by (apply Lp; lia).
  destruct (next_bit size key Hkey (node_bits n)) as (b & Eb & Pb & _);
    [etrans; [exact Pk | apply key_bits_prefix] | lia |].
  rewrite Ln in Eb. rewrite Eb. cbn [mbind option_bind].
  assert (IH : exists r, lookup_walk efficient t key (if b then c1 else c0) (if is_im n then found else Some n) = Some r /\
    ((exists n v, r = Some n /\ nvalue n = Some v /\ best (if b then c1 else c0) v) \/
     (r = (if is_im n then found else Some n) /\ nothing (if b then c1 else c0)))).
  { destruct b; [by apply (IH1 (node_bits n ++ [true])) | by apply (IH0 (node_bits n ++ [false]))]. }
  destruct IH as (r & Er & [(n' & v & -> & Ev & Bv)|[-> N]]); rewrite Er; eexists; (split; [done|]).
  - left. exists n', v. split_and!; [done | done | by eapply best_child].
  - pose proof (nothing_child n c0 c1 b Ok W0 W1 Pb N) as H. destruct (is_im n); [by right|].
    left. destruct (H Pk) as (v & Hv & Bv). by exists n, v.
Qed.
End Lookup.

Lemma lookup_spec t m key : represents t m -> key_ok size key ->
  trie_lookup_elem efficient t key =
  Some (if max_prefixlen t <? k_prefixlen key then None else longest m (key_bits key) (length (key_bits key))).
Proof.
  intros [Ht W G _ _] Hk. unfold trie_lookup_elem. destruct (Z.ltb_spec (max_prefixlen t) (k_prefixlen key)); [done|].
  destruct (lookup_walk_spec t key Ht Hk ltac:(lia) (root t) [] None W ltac:(apply prefix_nil)) as (r & -> & H').
  cbn [mbind option_bind]. destruct H' as [(n & v & -> & Hv & l & Hl & E & N)|[-> N]].
  - rewrite Hv. cbn. f_equal. symmetry. apply longest_spec. exists l. rewrite !G. split_and!; [done | done |].
    intros j Hj. rewrite G. by apply N.
  - f_equal. symmetry. apply longest_none. intros i Hi. rewrite G. by apply N.
Qed.
End Ops.
