(* ===== verification/LpmUpdate.v ===== *)
(** * Update and deletion of prefixes *)
From S2P Require Import Prelude Bits LpmTrie LpmMatch LpmTree LpmOps.

(** ** Prefixes of two lists *)

Lemma common_prefix (l a b : list bool) : l `prefix_of` a -> l `prefix_of` b -> l `prefix_of` take (lcp a b) a.
Proof.
  intros [a' ->] [b' ->]. rewrite lcp_app, (proj2 (lcp_prefix l l)), Nat.eqb_refl by done.
  exists (take (lcp a' b') a'). by rewrite take_app_add.
Qed.

Lemma lookup_prefix (l k : list bool) (b : bool) : l `prefix_of` k -> k !! length l = Some b -> l ++ [b] `prefix_of` k.
Proof.
  intros [c ->] E. rewrite lookup_app_r, Nat.sub_diag in E by lia. destruct c as [|b' c]; [done|].
  injection E as ->. exists c. by rewrite <- app_assoc.
Qed.

Section Update.
Context {V : Type} (size : nat) (efficient : bool).
Implicit Types (n : lpm_node V) (x y : tree V) (k pre : list bool) (key : lpm_key) (slot : list (frame (V := V))).

Lemma wf_change n c0 c1 pre pre' : wf size pre (Node n c0 c1) -> pre' `prefix_of` node_bits n ->
  wf size pre' (Node n c0 c1).
Proof. intros (N & _ & H) P. done. Qed.

Lemma wf_weaken x pre pre' : wf size pre x -> pre' `prefix_of` pre -> wf size pre' x.
Proof. destruct x as [|n c0 c1]; [done|]. intros (N & P & H) P'. split; [done|]. split; [by etrans | done]. Qed.

(** A node with one child, or with none. *)
Lemma get_two n c0 c1 k : wf size (node_bits n ++ [false]) c0 -> wf size (node_bits n ++ [true]) c1 ->
  k <> node_bits n -> get (Node n c0 c1) k = match get c0 k with Some v => Some v | None => get c1 k end.
Proof.
  intros W0 W1 Ne. destruct (decide (node_bits n `prefix_of` k)) as [P|P].
  - destruct (prefix_cases _ _ P) as [->|[b Pb]]; [done|]. rewrite (get_child _ _ _ _ _ Pb).
    assert (H : forall b', b' <> b -> ~ node_bits n ++ [b'] `prefix_of` k)
      by (intros b' Nb H; by pose proof (snoc_prefix_inj _ _ _ _ H Pb)).
    destruct b; [by rewrite (get_none size c0 _ k W0) by (by apply H)|].
    rewrite (get_none size c1 _ k W1) by (by apply H). by destruct (get c0 k).
  - assert (H : forall b, ~ node_bits n ++ [b] `prefix_of` k) by (intros b H; by apply snoc_prefix_ne in H as [_ ?]).
    by rewrite get_outside, (get_none size c0 _ k W0), (get_none size c1 _ k W1).
Qed.

Lemma get_below n (c : tree V) (b : bool) : wf size (node_bits n ++ [b]) c -> get c (node_bits n) = None.
Proof. intros W. apply (get_none size c _ _ W). intros H. by apply snoc_prefix_ne in H as [? _]. Qed.

(** A bit of the data of a node. *)
Lemma extract_node_bit n i : node_ok size n -> 0 <= i < prefixlen n ->
  exists b, extract_bit (data n) i = Some b /\ node_bits n !! Z.to_nat i = Some b.
Proof.
  intros [L S _ _] Hi. rewrite extract_bit_spec by lia.
  destruct (lookup_lt_is_Some_2 (bits (data n)) (Z.to_nat i)) as [b E]; [rewrite length_bits; lia|].
  exists b. split; [done|]. unfold node_bits. by rewrite lookup_take_lt by lia.
Qed.

Section Place.
Context (t : lpm_trie V) (key : lpm_key) (v : V).
Hypothesis Ht : trie_ok size t.
Hypothesis Hkey : key_ok size key.
Hypothesis Hmax : k_prefixlen key <= max_prefixlen t.
Abbreviation kb := (key_bits key).
Abbreviation new := (mk_node (k_prefixlen key) 0 (k_data key) (Some v)).

Lemma new_ok : node_ok size new.
Proof using Ht Hkey Hmax. destruct Hkey, Ht. split; cbn; [lia | done | done | eauto]. Qed.

(** The change of the count for the value that was there. *)
Definition replaced (old : option V) : Z := match old with Some _ => -1 | None => 0 end.

(** What [place] does to the prefixes below the slot. *)
Definition placed pre x y (d : Z) : Prop :=
  wf size pre y /\ y <> Null /\ d = replaced (get x kb) /\
  forall k, pre `prefix_of` k -> get y k = if decide (k = kb) then Some v else get x k.

Lemma get_leaf k : get (Node new Null Null) k = if decide (k = kb) then Some v else None.
Proof. cbn [get]. change (node_bits new) with kb. by repeat case_decide. Qed.

Lemma new_leaf_wf pre : pre `prefix_of` kb -> wf size pre (Node new Null Null).
Proof using Ht Hkey Hmax. intros P. by split_and!; [exact new_ok | done..]. Qed.

Lemma place_empty pre : pre `prefix_of` kb -> placed pre Null (Node new Null Null) 0.
Proof using Ht Hkey Hmax. intros P. split_and!; [by apply new_leaf_wf | done | done |]. intros k _. apply get_leaf. Qed.

(** The node holds the prefix of the key: it is replaced. *)
Lemma place_replace pre n c0 c1 : wf size pre (Node n c0 c1) -> node_bits n = kb ->
  placed pre (Node n c0 c1) (Node new c0 c1) (if is_im n then 0 else -1).
Proof using Ht Hkey Hmax.
  intros (Ok & P & I & W0 & W1) E. split_and!; [|done| |].
  - split_and!; [exact new_ok | | done | |]; change (node_bits new) with kb; by rewrite <- E.
  - rewrite <- E, get_own. destruct (is_im n) eqn:Im; [done|]. by destruct (no_value _ _ Ok Im) as [w ->].
  - intros k _. destruct (decide (k = kb)) as [->|Ne]; [apply (get_own new)|].
    rewrite !get_two; try done; [by rewrite E | change (node_bits new) with kb; by rewrite <- E..].
Qed.

(** The key is a proper prefix of the node: it goes between. *)
Lemma place_above pre n c0 c1 (b : bool) : wf size pre (Node n c0 c1) -> pre `prefix_of` kb ->
  kb ++ [b] `prefix_of` node_bits n ->
  placed pre (Node n c0 c1) (if b then Node new Null (Node n c0 c1) else Node new (Node n c0 c1) Null) 0.
Proof using Ht Hkey Hmax.
  intros W P Pb. set (x := Node n c0 c1) in *.
  assert (Wx : wf size (kb ++ [b]) x) by (by eapply wf_change).
  assert (Gk : get x kb = None) by exact (get_below new x b Wx).
  split_and!; [| by destruct b | by rewrite Gk |].
  - destruct b; (split_and!; [exact new_ok | exact P | done | done | done]).
  - intros k _. destruct (decide (k = kb)) as [->|Ne]; [destruct b; apply (get_own new)|].
    destruct b; rewrite get_two; try done; by destruct (get x k).
Qed.

(** Node and key part: an intermediate node holds what they have in common. *)
Lemma place_split pre n c0 c1 (b : bool) : let im := mk_node (longest_prefix_match efficient t n key) LPM_TREE_NODE_FLAG_IM (data n) None in
  wf size pre (Node n c0 c1) -> pre `prefix_of` node_bits im -> node_ok size im ->
  node_bits im ++ [negb b] `prefix_of` node_bits n -> node_bits im ++ [b] `prefix_of` kb ->
  placed pre (Node n c0 c1)
    (if b then Node im (Node n c0 c1) (Node new Null Null) else Node im (Node new Null Null) (Node n c0 c1)) 0.
Proof using Ht Hkey Hmax.
  intros im W P Ok Pn Pk. set (x := Node n c0 c1) in *.
  assert (Wx : wf size (node_bits im ++ [negb b]) x) by (by eapply wf_change).
  assert (Wl : wf size (node_bits im ++ [b]) (Node new Null Null)) by (by apply new_leaf_wf).
  assert (Gk : get x kb = None).
  { apply (get_none size x _ _ Wx). intros H. pose proof (snoc_prefix_inj _ _ _ _ H Pk). by destruct b. }
  assert (Ne : kb <> node_bits im) by (by apply snoc_prefix_ne in Pk as [? _]).
  split_and!; [| by destruct b | by rewrite Gk |].
  - destruct b; (split_and!; [done | done | done | done | done]).
  - intros k _. destruct (decide (k = node_bits im)) as [->|Nk].
    { rewrite decide_False by done. rewrite (get_below im x _ Wx). by destruct b; rewrite (get_own im). }
    destruct b; rewrite get_two, get_leaf by done; destruct (decide (k = kb)) as [->|]; rewrite ?Gk; try done;
      by destruct (get x k).
Qed.

Lemma place_spec pre x ml alloc_im : wf size pre x -> pre `prefix_of` kb ->
  match x with Null => True | Node n _ _ => ml = longest_prefix_match efficient t n key /\ stop_update t key n ml = true end ->
  exists r, place key new x ml alloc_im = Some r /\
    match r with inl err => err = - ENOMEM /\ alloc_im = false /\ get x kb = None | inr (y, d) => placed pre x y d end.
Proof using Ht Hkey Hmax.
  destruct x as [|n c0 c1]; intros W P S; [eexists; split; [done | by apply place_empty]|].
  destruct S as [-> S]. pose proof W as (Ok & Pn & _).
  pose proof (lpm_lcp size efficient t key Ht Hkey Hmax n Ok) as Lc.
  pose proof (lpm_bounds size efficient t key Ht Hkey Hmax n Ok) as B.
  pose proof (lpm_equal size efficient t key Ht Hkey Hmax n Ok) as Eq.
  pose proof (lpm_prefix_key size efficient t key Ht Hkey Hmax n Ok) as Pk.
  pose proof (length_node_bits size n Ok) as Ln. pose proof (length_key_bits size t key Ht Hkey Hmax) as Lk.
  pose proof (no_len _ _ Ok) as Hn. pose proof (to_max _ _ Ht) as Mx.
  cbn [place]. set (ml := longest_prefix_match efficient t n key) in *.
  destruct (Z.eqb_spec (prefixlen n) ml) as [E|E].
  { eexists. split; [done|]. apply place_replace; [done|]. apply Eq; [done|].
    unfold stop_update in S. rewrite <- E, Z.eqb_refl in S. cbn in S. lia. }
  destruct (Z.eqb_spec ml (k_prefixlen key)) as [E'|E'].
  { destruct (extract_node_bit n ml Ok ltac:(lia)) as (b & Eb & Nb). rewrite Eb. cbn [mbind option_bind].
    eexists. split; [done|]. apply (place_above pre n c0 c1 b W P). apply lookup_prefix; [by apply Pk|].
    rewrite <- Nb. f_equal. lia. }
  destruct (lcp_split (node_bits n) kb ltac:(lia) ltac:(lia)) as (Et & b & Nb & Kb).
  set (im := mk_node ml LPM_TREE_NODE_FLAG_IM (data n) None).
  assert (Ei : node_bits im = take (lcp (node_bits n) kb) (node_bits n)).
  { change (node_bits im) with (take (Z.to_nat ml) (bits (data n))). rewrite Lc, Nat2Z.id.
    unfold node_bits at 3. rewrite take_take. f_equal. lia. }
  assert (Li : length (node_bits im) = lcp (node_bits n) kb) by (rewrite Ei, length_take; lia).
  assert (Pi : node_bits im ++ [b] `prefix_of` node_bits n /\ node_bits im ++ [negb b] `prefix_of` kb).
  { split; apply lookup_prefix; rewrite ?Li; try done; rewrite Ei; [|rewrite Et]; apply prefix_take. }
  destruct Pi as [Pi Pi']. destruct alloc_im; cbn [negb].
  - assert (Eb : extract_bit (k_data key) ml = Some (negb b)).
    { rewrite extract_bit_spec, Lc, Nat2Z.id by lia.
      assert (Hi : (lcp (node_bits n) kb < Z.to_nat (k_prefixlen key))%nat) by lia.
      revert Kb Hi. generalize (lcp (node_bits n) kb) as i. intros i Kb Hi.
      unfold key_bits in Kb. by rewrite lookup_take_lt in Kb. }
    rewrite Eb. cbn [mbind option_bind]. eexists. split; [done|].
    apply (place_split pre n c0 c1 (negb b)); fold ml im; rewrite ?negb_involutive; try done;
      [rewrite Ei; by apply common_prefix|].
    destruct Ok. split; cbn; [lia | done | done | done].
  - eexists. split; [done|]. split_and!; [done | done |]. apply get_outside. intros H.
    apply lcp_prefix in H. lia.
Qed.
End Place.

Lemma stop_update_spec t key n ml : stop_update t key n ml = false -> prefixlen n = ml /\ prefixlen n <> k_prefixlen key.
Proof. unfold stop_update. lia. Qed.

Lemma stop_exact_spec key n ml : stop_exact key n ml = false -> prefixlen n = ml /\ prefixlen n <> k_prefixlen key.
Proof. unfold stop_exact. lia. Qed.

(** An update is a step of the map. *)
Lemma update_spec (t : lpm_trie V) m key v fl a a' : represents size t m -> key_ok size key ->
  exists r t' m', trie_update_elem efficient t key v fl a a' = Some (r, t') /\
    map_step (max_prefixlen t) (max_entries t) m (Update key v fl a a') (Code r) m' /\ represents size t' m' /\
    max_prefixlen t' = max_prefixlen t /\ max_entries t' = max_entries t.
Proof.
  intros R Hk. pose proof R as [Ht W G C F]. unfold trie_update_elem, BPF_EXIST.
  destruct (Z.ltb_spec 2 fl); [exists (- EINVAL), t, m; split_and!; [done | constructor; lia | done..]|].
  destruct (Z.ltb_spec (max_prefixlen t) (k_prefixlen key)) as [|Hm];
    [exists (- EINVAL), t, m; split_and!; [done | constructor; lia | done..]|].
  destruct (Z.eqb_spec (n_entries t) (max_entries t)) as [|Hn];
    [exists (- ENOSPC), t, m; split_and!; [done | constructor; lia | done..]|].
  destruct a; cbn [negb]; [|exists (- ENOMEM), t, m; split_and!; [done | constructor; auto; lia | done..]].
  destruct (walk_spec size efficient t key (stop_update t key) Ht Hk Hm (stop_update_spec t key) (root t) [] [] 0 W I eq_refl)
    as (slot & x & ml & -> & pre & S & Wx & Fx & P & Er & St); [apply prefix_nil|].
  cbn [mbind option_bind]. change (assign [] (root t)) with (root t) in Er.
  destruct (place_spec t key v Ht Hk Hm pre x ml a' Wx P St) as (r & -> & Hr).
  assert (Gx : m !! key_bits key = get x (key_bits key)) by (by rewrite G, <- Er, (assign_in size _ _ _ _ S P)).
  cbn [mbind option_bind]. destruct r as [err|[y d]].
  - destruct Hr as (-> & -> & Hg). eexists _, _, m. split_and!; [done | | | done | done].
    + apply step_update_no_memory; try lia. right. by rewrite Gx.
    + split; cbn; [destruct Ht; by split | done | done | | done]. rewrite C, (u64_id (_ + 1)), u64_id; unfold is_u64; lia.
  - destruct Hr as (Wy & Ny & -> & Gy). eexists _, _, (<[key_bits key := v]> m).
    split_and!; [done | constructor; lia || done | | done | done].
    assert (Sz : Z.of_nat (base.size (<[key_bits key := v]> m))
      = Z.of_nat (base.size m) + 1 + replaced (get x (key_bits key))).
    { rewrite map_size_insert, Gx. destruct (get x (key_bits key)); cbn; lia. }
    split; cbn [root n_entries max_entries set_trie]; [destruct Ht; by split | | | |].
    + apply (assign_wf size slot y pre S Wy). destruct slot as [|[[? ?] ?] ?]; [exact I | intros _; exact Ny].
    + intros k. destruct (decide (pre `prefix_of` k)) as [Pk|Pk].
      * rewrite (assign_in size _ _ _ _ S Pk), Gy by done.
        destruct (decide (k = key_bits key)) as [->|Ne]; [by rewrite lookup_insert_eq|].
        by rewrite lookup_insert_ne, G, <- Er, (assign_in size _ _ _ _ S Pk).
      * rewrite (assign_out size _ y x _ _ S Pk), Er, <- G. apply lookup_insert_ne. intros <-. done.
    + rewrite Sz, C. rewrite (u64_id (_ + 1)) by (unfold is_u64; lia). apply u64_id. unfold is_u64.
      destruct (get x (key_bits key)); cbn; lia.
    + rewrite Sz. destruct (get x (key_bits key)); cbn; lia.
Qed.

(** ** Deletion *)

Lemma set_im_bits n : node_bits (set_im n) = node_bits n.
Proof. done. Qed.

Lemma is_im_set n : is_im (set_im n) = true.
Proof.
  unfold is_im, set_im, LPM_TREE_NODE_FLAG_IM; cbn. rewrite Z.land_lor_distr_l. change (Z.land 1 1) with 1.
  destruct (Z.eqb_spec (Z.lor (Z.land (flags n) 1) 1) 0) as [E|]; [|done]. by apply Z.lor_eq_0_iff in E as [_ ?].
Qed.

(** What removing the prefix of [n] leaves below its slot. *)
Definition removed pre x y (k0 : list bool) : Prop :=
  wf size pre y /\ forall k, pre `prefix_of` k -> get y k = if decide (k = k0) then None else get x k.

Lemma remove_mark pre n c0 c1 : wf size pre (Node n c0 c1) -> c0 <> Null -> c1 <> Null ->
  removed pre (Node n c0 c1) (Node (set_im n) c0 c1) (node_bits n).
Proof.
  intros (Ok & P & I & W0 & W1) N0 N1. split.
  - split_and!; [| done | done | done | done]. destruct Ok. split; [done.. |]. rewrite is_im_set. done.
  - intros k _. destruct (decide (k = node_bits n)) as [->|Ne].
    + rewrite <- set_im_bits, get_own, is_im_set. done.
    + by rewrite !get_two.
Qed.

Lemma remove_promote pre n c0 c1 : wf size pre (Node n c0 c1) -> c0 = Null \/ c1 = Null ->
  removed pre (Node n c0 c1) (if is_null c0 then c1 else c0) (node_bits n).
Proof.
  intros (Ok & P & I & W0 & W1) H. set (c := if is_null c0 then c1 else c0).
  assert (Hc : exists b : bool, wf size (node_bits n ++ [b]) c) by (unfold c; destruct c0; eauto).
  destruct Hc as [b Wc]. split.
  - apply (wf_weaken c (node_bits n ++ [b])); [done|]. etrans; [exact P | by apply prefix_app_r].
  - intros k _. destruct (decide (k = node_bits n)) as [->|Ne]; [by apply (get_below n c b)|].
    rewrite get_two by done. unfold c. destruct H as [->| ->]; [done|].
    destruct c0 as [|n0 d0 d1]; [done|]. cbn [is_null]. by destruct (get (Node n0 d0 d1) k).
Qed.

(** The same seen from the root. *)
Lemma assign_removed slot pre x y k0 : wf_slot size pre slot -> removed pre x y k0 -> fills slot y -> pre `prefix_of` k0 ->
  removed [] (assign slot x) (assign slot y) k0.
Proof.
  intros S [W G] F P. split; [by apply (assign_wf size slot y pre)|]. intros k _.
  destruct (decide (pre `prefix_of` k)) as [Pk|Pk].
  - rewrite !(assign_in size _ _ _ _ S Pk). by apply G.
  - rewrite (assign_out size _ y x _ _ S Pk). rewrite decide_False; [done|]. by intros ->.
Qed.

(** A leaf goes together with the intermediate node above it. *)
Lemma remove_parent p (b : bool) (o : tree V) n pre : is_im p = true -> wf size (node_bits p ++ [b]) (Node n Null Null) ->
  wf size (node_bits p ++ [negb b]) o -> pre `prefix_of` node_bits p ->
  removed pre (refill (p, b, o) (Node n Null Null)) o (node_bits n).
Proof.
  intros Im Wl Wo P. pose proof Wl as (Ok & Pn & _). split.
  { apply (wf_weaken o _ _ Wo). etrans; [exact P | by apply prefix_app_r]. }
  intros k _. assert (Go : get o (node_bits n) = None).
  { apply (get_none size o _ _ Wo). intros H. pose proof (snoc_prefix_inj _ _ _ _ H Pn). by destruct b. }
  assert (Gl : get (Node n Null Null) k = if decide (k = node_bits n) then get (Node n Null Null) k else None).
  { case_decide; [done|]. cbn [get]. by rewrite decide_False by done; repeat case_decide. }
  destruct (decide (k = node_bits p)) as [->|Ne].
  { rewrite (get_below p o _ Wo). case_decide; [done|]. by destruct b; cbn [refill]; rewrite get_own, Im. }
  assert (E : get (refill (p, b, o) (Node n Null Null)) k
    = match get o k with Some w => Some w | None => get (Node n Null Null) k end).
  { destruct b; cbn [refill]; rewrite get_two by done; [done|]. rewrite Gl. case_decide as D; [|by destruct (get o k)].
    subst k. by rewrite Go; destruct (get (Node n Null Null) (node_bits n)). }
  rewrite E, Gl. case_decide as D; [by subst k | by destruct (get o k)].
Qed.

Lemma is_null_spec x : is_null x = true <-> x = Null.
Proof. by destruct x. Qed.

(** The three ways to unlink a node. *)
Lemma unlink_cases slot n c0 c1 :
  (c0 <> Null /\ c1 <> Null /\ unlink slot n c0 c1 = assign slot (Node (set_im n) c0 c1)) \/
  (exists p b o trim2, slot = (p, b, o) :: trim2 /\ is_im p = true /\ c0 = Null /\ c1 = Null /\
     unlink slot n c0 c1 = assign trim2 o) \/
  ((c0 = Null \/ c1 = Null) /\ fills slot (if is_null c0 then c1 else c0) /\
     unlink slot n c0 c1 = assign slot (if is_null c0 then c1 else c0)).
Proof.
  unfold unlink. destruct (is_null c0) eqn:E0, (is_null c1) eqn:E1; cbn [negb andb];
    [| right; right | right; right | left; by destruct c0, c1].
  - apply is_null_spec in E0, E1. subst. destruct slot as [|[[p b] o] trim2]; [right; right; split_and!; [by left | done | done]|].
    rewrite !andb_true_r. destruct (is_im p) eqn:Ip; [right; left; by exists p, b, o, trim2 | right; right].
    split_and!; [auto | by cbn; rewrite Ip | done].
  - apply is_null_spec in E0. split_and!; [auto | by destruct slot as [|[[? ?] ?] ?], c1|].
    destruct slot as [|[[p b] o] trim2]; [done|]. by rewrite andb_false_r.
  - apply is_null_spec in E1. split_and!; [auto | by destruct slot as [|[[? ?] ?] ?], c0|].
    destruct slot as [|[[p b] o] trim2]; [done|]. by rewrite andb_false_r.
Qed.

Lemma unlink_spec slot pre n c0 c1 : wf_slot size pre slot -> wf size pre (Node n c0 c1) ->
  removed [] (assign slot (Node n c0 c1)) (unlink slot n c0 c1) (node_bits n).
Proof.
  intros S W. pose proof W as (Ok & P & _).
  destruct (unlink_cases slot n c0 c1) as [(N0 & N1 & ->)|[(p & b & o & trim2 & -> & Ip & -> & -> & ->)|(H & F & ->)]].
  - apply (assign_removed slot pre); [done | by apply remove_mark | by destruct slot as [|[[? ?] ?] ?] | done].
  - destruct S as (-> & Op & Io & Wo & pre' & P' & S').
    change (assign ((p, b, o) :: trim2) ?x) with (assign trim2 (refill (p, b, o) x)).
    apply (assign_removed trim2 pre'); [done | by apply remove_parent | |].
    + destruct trim2 as [|[[? ?] ?] ?]; [done|]. intros _. by apply Io.
    + etrans; [exact P'|]. etrans; [|exact P]. by apply prefix_app_r.
  - apply (assign_removed slot pre); [done | by apply remove_promote | done | done].
Qed.

(** A deletion is a step of the map. *)
Lemma delete_spec (t : lpm_trie V) m key : represents size t m -> key_ok size key ->
  exists r t' m', trie_delete_elem efficient t key = Some (r, t') /\
    map_step (max_prefixlen t) (max_entries t) m (Delete key) (Code r) m' /\ represents size t' m' /\
    max_prefixlen t' = max_prefixlen t /\ max_entries t' = max_entries t.
Proof.
  intros R Hk. pose proof R as [Ht W G C F]. unfold trie_delete_elem.
  destruct (Z.ltb_spec (max_prefixlen t) (k_prefixlen key)) as [|Hm];
    [exists (- EINVAL), t, m; split_and!; [done | constructor; lia | done..]|].
  destruct (walk_spec size efficient t key (stop_exact key) Ht Hk Hm (stop_exact_spec key) (root t) [] [] 0 W I eq_refl)
    as (slot & x & ml & -> & pre & S & Wx & Fx & P & Er & St); [apply prefix_nil|].
  cbn [mbind option_bind]. change (assign [] (root t)) with (root t) in Er.
  assert (Gx : m !! key_bits key = get x (key_bits key)) by (by rewrite G, <- Er, (assign_in size _ _ _ _ S P)).
  assert (No : m !! key_bits key = None -> map_step (max_prefixlen t) (max_entries t) m (Delete key) (Code (- ENOENT)) m)
    by (intros; by constructor).
  destruct x as [|n c0 c1]; [exists (- ENOENT), t, m; split_and!; auto|]. destruct St as [-> St].
  pose proof Wx as (Ok & _). pose proof (lpm_bounds size efficient t key Ht Hk Hm n Ok) as B.
  destruct (negb (prefixlen n =? k_prefixlen key) || _) eqn:E; cbn [orb] in *.
  { exists (- ENOENT), t, m. split_and!; auto. apply No. rewrite Gx. apply get_outside. intros H.
    apply (lpm_prefix size efficient t key Ht Hk Hm n Ok) in H. unfold stop_exact in St. lia. }
  assert (Eb : node_bits n = key_bits key) by (apply (lpm_equal size efficient t key Ht Hk Hm n Ok); lia).
  rewrite <- Eb, get_own in Gx. destruct (is_im n) eqn:Im.
  { exists (- ENOENT), t, m. split_and!; auto. apply No. by rewrite <- Eb. }
  destruct (no_value _ _ Ok Im) as [v Hv]. rewrite Hv in Gx.
  destruct (unlink_spec slot pre n c0 c1 S Wx) as [Wu Gu]. rewrite Er in Gu.
  assert (Sz : Z.of_nat (base.size (delete (key_bits key) m)) = Z.of_nat (base.size m) - 1).
  { rewrite map_size_delete, <- Eb, Gx. assert (base.size m <> 0)%nat; [|lia].
    intros Z0. apply map_size_empty_iff in Z0. by rewrite Z0, lookup_empty in Gx. }
  eexists _, _, (delete (key_bits key) m). split_and!; [done | constructor; [done | by rewrite <- Eb, Gx] | | done | done].
  split; cbn [root n_entries max_entries set_trie]; [destruct Ht; by split | done | | rewrite Sz, C; apply u64_id; unfold is_u64; lia | lia].
  intros k. rewrite Gu, Eb by apply prefix_nil. destruct (decide (k = key_bits key)) as [->|Ne].
  - by rewrite lookup_delete_eq.
  - by rewrite lookup_delete_ne, G.
Qed.

(** ** The simulation *)

Lemma step_spec (t : lpm_trie V) m o : represents size t m -> key_ok size (op_key o) ->
  exists r t' m', trie_step efficient t o = Some (r, t') /\
    map_step (max_prefixlen t) (max_entries t) m o r m' /\ represents size t' m' /\
    max_prefixlen t' = max_prefixlen t /\ max_entries t' = max_entries t.
Proof.
  intros R Hk. destruct o as [key|key v fl a a'|key]; cbn [trie_step op_key] in *.
  - rewrite (lookup_spec size efficient t m key R Hk). cbn [mbind option_bind].
    eexists _, t, m. split_and!; [done | constructor | done..].
  - destruct (update_spec t m key v fl a a' R Hk) as (r & t' & m' & -> & H). by exists (Code r), t', m'.
  - destruct (delete_spec t m key R Hk) as (r & t' & m' & -> & H). by exists (Code r), t', m'.
Qed.

Lemma run_spec os : forall (t : lpm_trie V) m, represents size t m -> Forall (fun o => key_ok size (op_key o)) os ->
  exists rs t' m', trie_run efficient t os = Some (rs, t') /\
    map_run (max_prefixlen t) (max_entries t) m os rs m' /\ represents size t' m' /\
    max_prefixlen t' = max_prefixlen t /\ max_entries t' = max_entries t.
Proof.
  induction os as [|o os IH]; intros t m R F; [exists [], t, m; split_and!; [done | constructor | done..]|].
  apply Forall_cons in F as [Fo F]. destruct (step_spec t m o R Fo) as (r & t1 & m1 & E & S & R1 & M & N).
  destruct (IH t1 m1 R1 F) as (rs & t2 & m2 & E2 & S2 & R2 & M2 & N2). rewrite M, N in *.
  exists (r :: rs), t2, m2. cbn [trie_run]. rewrite E. cbn [mbind option_bind]. rewrite E2.
  split_and!; [done | by econstructor | done..].
Qed.

(** A fresh trie stands for the empty map. *)
Lemma fresh_represents kmalloc_max attr t : 0 <= a_max_entries attr < 2 ^ 32 ->
  trie_alloc (V := V) kmalloc_max attr true = inr t -> size = Z.to_nat (data_size t) ->
  represents size t ∅ /\ max_prefixlen t = 8 * Z.of_nat size /\ max_entries t = a_max_entries attr.
Proof.
  intros M E Hs. unfold trie_alloc, LPM_KEY_SIZE, LPM_DATA_SIZE_MIN, LPM_DATA_SIZE_MAX, sizeof_key in E.
  destruct (_ || _) eqn:C in E; [done|]. cbn [negb] in E. injection E as <-. cbn in Hs.
  repeat rewrite orb_false_iff in C. destruct C as [[[[_ C1] C2] _] _].
  split; [split; cbn; try done; split; cbn; lia|]. cbn. lia.
Qed.

(** What a sequence of operations leaves of a fresh trie. *)
Lemma made_represents kmalloc_max attr (t0 t : lpm_trie V) os rs : 0 <= a_max_entries attr < 2 ^ 32 ->
  trie_alloc kmalloc_max attr true = inr t0 -> size = Z.to_nat (data_size t0) ->
  Forall (fun o => key_ok size (op_key o)) os -> trie_run efficient t0 os = Some (rs, t) ->
  exists m, map_run (8 * Z.of_nat size) (a_max_entries attr) ∅ os rs m /\ represents size t m /\
    max_prefixlen t = 8 * Z.of_nat size /\ max_entries t = a_max_entries attr.
Proof.
  intros M A Hs F E. destruct (fresh_represents kmalloc_max attr t0 M A Hs) as (R & E1 & E2).
  destruct (run_spec os t0 ∅ R F) as (rs' & t' & m & E' & S & R' & M' & N'). rewrite E in E'. simplify_eq.
  exists m. rewrite M', N', E1, E2 in *. done.
Qed.
End Update.
