(* ===== verification/LpmIter.v ===== *)
(** * Iterating over and freeing the trie

    [trie_get_next_key] follows the postorder of the nodes, so that a prefix
    comes before every prefix that it extends. *)
From stdpp Require Import sorting.
From S2P Require Import Prelude Bits LpmTrie LpmMatch LpmTree LpmOps LpmUpdate.

Section Iter.
Context {V : Type} (size : nat) (efficient : bool).
Implicit Types (n : lpm_node V) (x y : tree V) (k pre : list bool) (key : lpm_key) (slot : list (frame (V := V))).

Definition own n : list (lpm_node V) := if is_im n then [] else [n].

(** The nodes with a value, children first. *)
Fixpoint postorder x : list (lpm_node V) :=
  match x with Null => [] | Node n c0 c1 => postorder c0 ++ postorder c1 ++ own n end.

(** What comes before and after a slot. *)
Fixpoint before slot : list (lpm_node V) :=
  match slot with [] => [] | (n, b, o) :: slot => before slot ++ (if (b : bool) then postorder o else []) end.
Fixpoint after slot : list (lpm_node V) :=
  match slot with [] => [] | (n, b, o) :: slot => (if (b : bool) then [] else postorder o) ++ own n ++ after slot end.

Lemma postorder_assign slot x : postorder (assign slot x) = before slot ++ postorder x ++ after slot.
Proof.
  revert x. induction slot as [|[[n b] o] slot IH]; intros x; [cbn; by rewrite app_nil_r|].
  change (assign ((n, b, o) :: slot) x) with (assign slot (refill (n, b, o) x)). rewrite IH.
  destruct b; cbn [refill postorder before after]; by rewrite ?app_nil_r, <- !app_assoc.
Qed.

(** ** Order *)

Lemma postorder_nodes x n pre : wf size pre x -> n ∈ postorder x ->
  node_ok size n /\ is_im n = false /\ pre `prefix_of` node_bits n /\ get x (node_bits n) = nvalue n.
Proof.
  revert pre. induction x as [|m c0 IH0 c1 IH1]; intros pre W H; [by apply not_elem_of_nil in H|].
  pose proof W as (Ok & P & _ & W0 & W1). cbn [postorder] in H.
  rewrite !elem_of_app in H. destruct H as [H|[H|H]].
  - destruct (IH0 _ W0 H) as (N & I & Pn & G). split_and!; [done | done | |].
    + etrans; [exact P|]. by apply snoc_prefix_ne in Pn as [_ ?].
    + by rewrite (get_child _ _ _ _ _ Pn).
  - destruct (IH1 _ W1 H) as (N & I & Pn & G). split_and!; [done | done | |].
    + etrans; [exact P|]. by apply snoc_prefix_ne in Pn as [_ ?].
    + by rewrite (get_child _ _ _ _ _ Pn).
  - unfold own in H. destruct (is_im m) eqn:I; [by apply not_elem_of_nil in H|]. apply list_elem_of_singleton in H as ->.
    by rewrite get_own, I.
Qed.

Lemma get_postorder x pre k v : wf size pre x -> get x k = Some v ->
  exists n, n ∈ postorder x /\ node_bits n = k.
Proof.
  revert pre. induction x as [|m c0 IH0 c1 IH1]; intros pre W G; [done|]. pose proof W as (Ok & P & _ & W0 & W1).
  cbn [postorder]. destruct (decide (k = node_bits m)) as [->|Ne].
  - rewrite get_own in G. exists m. split; [|done]. unfold own. destruct (is_im m); [done|].
    rewrite !elem_of_app. right. right. by apply list_elem_of_singleton.
  - rewrite (get_two size) in G by done. destruct (get c0 k) eqn:G0.
    + destruct (IH0 _ W0 G) as (n & H & E). exists n. rewrite elem_of_app. auto.
    + destruct (IH1 _ W1 G) as (n & H & E). exists n. rewrite !elem_of_app. auto.
Qed.

(** No prefix comes before one that extends it. *)
Definition specific_first (a b : lpm_node V) : Prop := ~ node_bits a `prefix_of` node_bits b.

Lemma postorder_sorted x pre : wf size pre x -> StronglySorted specific_first (postorder x).
Proof.
  revert pre. induction x as [|m c0 IH0 c1 IH1]; intros pre W; [constructor|]. pose proof W as (Ok & P & _ & W0 & W1).
  cbn [postorder]. rewrite !StronglySorted_app.
  assert (Low : forall a b c, a ∈ postorder c -> wf size (node_bits m ++ [b]) c -> b ∈ [false; true] ->
    forall n, n ∈ own m -> specific_first a n).
  { intros a b c Ha Wc _ n Hn H. destruct (postorder_nodes _ _ _ Wc Ha) as (_ & _ & Pa & _).
    unfold own in Hn. destruct (is_im m); [by apply not_elem_of_nil in Hn|]. apply list_elem_of_singleton in Hn as ->.
    apply prefix_length in Pa, H. rewrite length_app in Pa. cbn in Pa. lia. }
  split_and!; [| by eapply IH0 | | by eapply IH1 |].
  - intros a b Ha Hb. apply elem_of_app in Hb as [Hb|Hb]; [|eapply (Low a false c0); eauto; set_solver].
    destruct (postorder_nodes _ _ _ W0 Ha) as (_ & _ & Pa & _), (postorder_nodes _ _ _ W1 Hb) as (_ & _ & Pb & _).
    intros H. assert (false = true) by (eapply snoc_prefix_inj; [etrans; [exact Pa | exact H] | exact Pb]). done.
  - intros a b Ha Hb. eapply (Low a true c1); eauto. set_solver.
  - unfold own. destruct (is_im m); repeat constructor.
Qed.

(** A prefix has one place in the order. *)
Lemma sorted_unique (l1 l2 m1 m2 : list (lpm_node V)) a b : StronglySorted specific_first (l1 ++ a :: l2) ->
  l1 ++ a :: l2 = m1 ++ b :: m2 -> node_bits a = node_bits b -> l2 = m2.
Proof.
  revert m1. induction l1 as [|c l1 IH]; intros [|d m1] S E Ne; cbn in E; simplify_eq; [done | | |].
  - cbn in S. apply StronglySorted_inv in S as [_ S]. rewrite Forall_forall in S.
    exfalso. apply (S b); [set_solver | by rewrite Ne].
  - cbn in S. apply StronglySorted_inv in S as [_ S]. rewrite Forall_forall in S.
    exfalso. apply (S a); [set_solver | by rewrite Ne].
  - apply (IH m1); [by apply StronglySorted_inv in S as [? _] | done | done].
Qed.

(** ** The searches *)

Lemma postorder_nonempty x pre : wf size pre x -> x <> Null -> postorder x <> [].
Proof.
  revert pre. induction x as [|m c0 IH0 c1 IH1]; intros pre W H; [done|]. pose proof W as (Ok & P & I & W0 & W1).
  cbn [postorder]. unfold own. destruct (is_im m) eqn:Im.
  - intros E. apply app_eq_nil in E as [E _]. destruct (I eq_refl) as [N0 _]. by apply (IH0 _ W0 N0).
  - by destruct (postorder c0), (postorder c1).
Qed.

(** [find_leftmost] finds the first node of the order. *)
Lemma find_leftmost_spec x pre next : wf size pre x ->
  find_leftmost x next = match postorder x with [] => next | n :: _ => Some n end.
Proof.
  revert pre next. induction x as [|m c0 IH0 c1 IH1]; intros pre next W; [done|].
  pose proof W as (Ok & P & I & W0 & W1). cbn [find_leftmost postorder]. unfold own. destruct (is_im m) eqn:Im.
  - destruct (I eq_refl) as [N0 _]. rewrite (IH0 _ next W0). pose proof (postorder_nonempty _ _ W0 N0).
    by destruct (postorder c0).
  - destruct c0 as [|n0 d0 d1]; [rewrite (IH1 _ (Some m) W1); by destruct (postorder c1)|].
    rewrite (IH0 _ (Some m) W0). pose proof (postorder_nonempty _ _ W0 ltac:(done)).
    by destruct (postorder (Node n0 d0 d1)).
Qed.

(** [climb] finds what comes after the slot. *)
Lemma climb_spec slot pre : wf_slot size pre slot ->
  match climb slot with
  | Leftmost y => (exists pre', wf size pre' y) /\ postorder y <> [] /\ exists l, after slot = postorder y ++ l
  | Copy n => exists l, after slot = n :: l
  | NotFound => after slot = []
  end.
Proof.
  revert pre. induction slot as [|[[n b] o] slot IH]; intros pre S; [done|].
  destruct S as (-> & Ok & I & W & pre' & _ & S). specialize (IH pre' S). cbn [climb after]. unfold own.
  destruct b; cbn [negb andb].
  - destruct (is_im n); [done | by eexists].
  - destruct (is_null o) eqn:E; cbn [negb].
    + apply is_null_spec in E. subst o. destruct (is_im n); [by destruct (I eq_refl) | by eexists].
    + assert (o <> Null) by (by intros ->). split_and!; [eauto | by eapply postorder_nonempty | by eexists].
Qed.

Fixpoint height x : nat := match x with Null => 0 | Node _ c0 c1 => S (height c0 `max` height c1) end.

Lemma height_bound x pre : wf size pre x -> (height x + length pre <= 8 * size + 1)%nat \/ x = Null.
Proof.
  revert pre. induction x as [|m c0 IH0 c1 IH1]; intros pre W; [by right|]. left.
  pose proof (wf_depth size _ _ W ltac:(done)) as D. destruct W as (Ok & P & _ & W0 & W1). apply prefix_length in P.
  pose proof (length_node_bits size m Ok). pose proof (no_len _ _ Ok).
  destruct (IH0 _ W0) as [Ha| ->], (IH1 _ W1) as [Hb| ->]; cbn [height]; rewrite ?length_app in *; cbn in *; lia.
Qed.

(** With room for the nodes of every path, the array does no harm. *)
Lemma stack_walk_fits t key x : forall stack ml, Z.of_nat (length stack + height x) <= max_prefixlen t ->
  stack_walk efficient t key x stack =
  ('(s, y, _) ← walk_to efficient (stop_exact key) t key x stack ml; Some (s, y)).
Proof.
  induction x as [|m c0 IH0 c1 IH1]; intros stack ml H; [done|]. cbn [stack_walk walk_to height] in *.
  destruct (Z.leb_spec (max_prefixlen t) (Z.of_nat (length stack))); [lia|].
  destruct (stop_exact key m _); [done|]. destruct (extract_bit _ _) as [[|]|]; cbn [mbind option_bind]; [| |done];
    [apply IH1 | apply IH0]; cbn [length]; lia.
Qed.

Lemma next_key_spec (t : lpm_trie V) key n l1 l2 : trie_ok size t -> wf size [] (root t) ->
  Z.of_nat (height (root t)) <= max_prefixlen t -> key_ok size key -> k_prefixlen key <= max_prefixlen t ->
  postorder (root t) = l1 ++ n :: l2 -> node_bits n = key_bits key ->
  trie_get_next_key efficient t (Some key) true =
  Some match l2 with [] => inl (- ENOENT) | n' :: _ => inr (key_of n') end.
Proof.
  intros Ht W Hh Hk Hm Ep En. unfold trie_get_next_key.
  destruct (root t) as [|n0 d0 d1] eqn:Er; [by destruct l1|]. set (r := Node n0 d0 d1) in *.
  destruct (Z.ltb_spec (max_prefixlen t) (k_prefixlen key)); [lia|]. cbn [negb].
  rewrite (stack_walk_fits t key r [] 0) by (cbn [length]; lia).
  destruct (walk_spec size efficient t key (stop_exact key) Ht Hk Hm (stop_exact_spec key) r [] [] 0 W I eq_refl)
    as (slot & x & ml & -> & pre & S & Wx & Fx & P & Ea & St); [apply prefix_nil|].
  cbn [mbind option_bind]. change (assign [] r) with r in Ea.
  assert (Hn : n ∈ postorder r) by (rewrite Ep; set_solver).
  destruct (postorder_nodes r n [] W Hn) as (Ok & Im & _ & G). destruct (no_value _ _ Ok Im) as [v Hv].
  assert (Gx : get x (key_bits key) = Some v) by (by rewrite <- (assign_in size slot x _ pre S P), Ea, <- En, G).
  destruct x as [|m c0 c1]; [done|]. destruct St as [-> St]. pose proof Wx as (Okm & _).
  destruct (decide (node_bits m `prefix_of` key_bits key)) as [Pm|Pm]; [|by rewrite get_outside in Gx].
  apply (lpm_prefix size efficient t key Ht Hk Hm m Okm) in Pm.
  assert (St' : prefixlen m = k_prefixlen key) by (unfold stop_exact in St; lia). clear St. rename St' into St.
  assert (Em : node_bits m = key_bits key) by (by apply (lpm_equal size efficient t key Ht Hk Hm m Okm)).
  rewrite <- Em, get_own in Gx. destruct (is_im m) eqn:Imm; [done|]. rewrite St, Z.eqb_refl. cbn [negb orb].
  rewrite <- Ea, postorder_assign in Ep. cbn [postorder] in Ep. unfold own in Ep. rewrite Imm in Ep.
  assert (El : l2 = after slot).
  { pose proof (postorder_sorted r [] W) as So. rewrite <- Ea, postorder_assign in So.
    cbn [postorder] in So. unfold own in So. rewrite Imm in So.
    apply (sorted_unique l1 l2 (before slot ++ postorder c0 ++ postorder c1) (after slot) n m); [by rewrite <- Ep | | congruence].
    rewrite <- Ep, <- !app_assoc. done. }
  pose proof (climb_spec slot pre S) as C. rewrite El. destruct (climb slot) as [y|p|].
  - destruct C as ([pre' Wy] & Ny & l & ->). rewrite (find_leftmost_spec y pre' None Wy).
    by destruct (postorder y).
  - destruct C as [l ->]. done.
  - by rewrite C.
Qed.

(** ** The iteration of a user *)

(** Asks for the next key, starting without one, until an error is returned:
    the keys and the error; [None] when the fuel ends or at a fault. *)
Fixpoint iterate (fuel : nat) (t : lpm_trie V) (key : option lpm_key) : option (list lpm_key * Z) :=
  match fuel with
  | O => None
  | S fuel =>
      r ← trie_get_next_key efficient t key true;
      match r with
      | inl err => Some ([], err)
      | inr next => '(keys, err) ← iterate fuel t (Some next); Some (next :: keys, err)
      end
  end.

Section Iterate.
Context (t : lpm_trie V).
Hypothesis Ht : trie_ok size t.
Hypothesis W : wf size [] (root t).
Hypothesis Hh : Z.of_nat (height (root t)) <= max_prefixlen t.

Lemma key_of_ok n : node_ok size n -> key_ok size (key_of n) /\ k_prefixlen (key_of n) <= max_prefixlen t.
Proof using Ht. intros [L S B _]. destruct Ht. split; [split; cbn; [lia | done | done] | cbn; lia]. Qed.

Lemma iterate_from l1 n l2 fuel : postorder (root t) = l1 ++ n :: l2 -> (length l2 < fuel)%nat ->
  iterate fuel t (Some (key_of n)) = Some (key_of <$> l2, - ENOENT).
Proof using Ht W Hh.
  revert l1 n fuel. induction l2 as [|n' l2 IH]; intros l1 n fuel E Hf; (destruct fuel as [|fuel]; [lia|]); cbn [iterate];
    (assert (Hn : n ∈ postorder (root t)) by (rewrite E; set_solver));
    destruct (postorder_nodes _ _ _ W Hn) as (Ok & _); destruct (key_of_ok n Ok) as [Hk Hm];
    rewrite (next_key_spec t (key_of n) n l1 _ Ht W Hh Hk Hm E eq_refl); cbn [mbind option_bind]; [done|].
  rewrite (IH (l1 ++ [n]) n' fuel); [done | by rewrite <- app_assoc | cbn in Hf; lia].
Qed.

Lemma iterate_spec fuel : (length (postorder (root t)) < fuel)%nat ->
  iterate fuel t None = Some (key_of <$> postorder (root t), - ENOENT).
Proof using Ht W Hh.
  intros Hf. pose proof iterate_from as From. pose proof (find_leftmost_spec _ [] None W) as First.
  pose proof (postorder_nonempty _ _ W) as Ne. destruct fuel as [|fuel]; [lia|]. cbn [iterate]. unfold trie_get_next_key.
  destruct (root t) as [|n0 d0 d1] eqn:Er; [done|]. rewrite First.
  destruct (postorder (Node n0 d0 d1)) as [|n l]; [by destruct Ne|].
  cbn [copy_next mbind option_bind]. rewrite (From [] n l fuel); [done | done | cbn in Hf; lia].
Qed.
End Iterate.

(** The keys of the map, each once. *)
Lemma postorder_keys (t : lpm_trie V) m : represents size t m ->
  node_bits <$> postorder (root t) ≡ₚ (map_to_list m).*1 /\ length (postorder (root t)) = base.size m.
Proof.
  intros [_ W G _ _]. assert (P : node_bits <$> postorder (root t) ≡ₚ (map_to_list m).*1).
  { apply NoDup_Permutation; [| apply NoDup_fst_map_to_list |].
    - apply NoDup_alt. intros i j k Hi Hj. apply list_lookup_fmap_Some in Hi as (a & -> & Ha), Hj as (b & E & Hb).
      pose proof (postorder_sorted _ _ W) as So.
      destruct (Nat.lt_trichotomy i j) as [L|[->|L]]; [| done |]; exfalso.
      + rewrite <- (take_drop (S i) (postorder (root t))) in So.
        apply (StronglySorted_app_1_elem_of _ _ _ a b So); [| | by rewrite E].
        * apply list_elem_of_lookup. exists i. by rewrite lookup_take_lt by lia.
        * apply list_elem_of_lookup. exists (j - S i)%nat. rewrite lookup_drop. by replace (S i + (j - S i))%nat with j by lia.
      + rewrite <- (take_drop (S j) (postorder (root t))) in So.
        apply (StronglySorted_app_1_elem_of _ _ _ b a So); [| | by rewrite E].
        * apply list_elem_of_lookup. exists j. by rewrite lookup_take_lt by lia.
        * apply list_elem_of_lookup. exists (i - S j)%nat. rewrite lookup_drop. by replace (S j + (i - S j))%nat with i by lia.
    - intros k. rewrite list_elem_of_fmap. split.
      + intros (n & -> & Hn). destruct (postorder_nodes _ _ _ W Hn) as (Ok & Im & _ & Gn).
        destruct (no_value _ _ Ok Im) as [v Hv]. apply list_elem_of_fmap. exists (node_bits n, v). split; [done|].
        apply elem_of_map_to_list. by rewrite G, Gn.
      + intros H. apply list_elem_of_fmap in H as ([k' v] & -> & H). apply elem_of_map_to_list in H. rewrite G in H.
        destruct (get_postorder _ _ _ _ W H) as (n & Hn & E). by exists n. }
  split; [done|]. apply Permutation_length in P. rewrite !length_fmap, length_map_to_list in P. done.
Qed.

(** ** Sizes and freeing *)

Fixpoint nodes x : list (lpm_node V) := match x with Null => [] | Node n c0 c1 => n :: nodes c0 ++ nodes c1 end.

(** Intermediate nodes are fewer than nodes with a value. *)
Lemma nodes_bound x pre : wf size pre x -> (length (nodes x) < 2 * length (postorder x))%nat \/ x = Null.
Proof.
  revert pre. induction x as [|n c0 IH0 c1 IH1]; intros pre W; [by right|]. left. destruct W as (_ & _ & I & W0 & W1).
  cbn [nodes postorder length]. rewrite !length_app. unfold own.
  destruct (IH0 _ W0) as [Ha| ->], (IH1 _ W1) as [Hb| ->]; destruct (is_im n) eqn:Im; cbn in *; try lia;
    by destruct (I eq_refl).
Qed.

Lemma free_leaf_spec x : x <> Null -> exists n y, free_leaf x = Some (n, y) /\ nodes x ≡ₚ n :: nodes y.
Proof.
  induction x as [|n c0 IH0 c1 IH1]; intros Ne; [done|]; clear Ne. cbn [free_leaf].
  destruct (is_null c0) eqn:E0; cbn [negb]; [destruct (is_null c1) eqn:E1; cbn [negb]|].
  - apply is_null_spec in E0, E1. subst. exists n, Null. split; [done | reflexivity].
  - apply is_null_spec in E0. subst. destruct IH1 as (a & y & -> & P); [by intros ->|].
    exists a, (Node n Null y). split; [done|]. cbn [nodes app]. rewrite P. apply Permutation_swap.
  - destruct IH0 as (a & y & -> & P); [by intros ->|]. exists a, (Node n y c1). split; [done|].
    cbn [nodes]. rewrite P. cbn [app]. apply Permutation_swap.
Qed.

Lemma free_spec x fuel : (length (nodes x) < fuel)%nat ->
  exists freed, trie_free fuel x = (freed, Null) /\ freed ≡ₚ nodes x.
Proof.
  revert x. induction fuel as [|fuel IH]; intros x H; [lia|]. cbn [trie_free].
  destruct x as [|n c0 c1] eqn:Ex; [by exists []|]. rewrite <- Ex in *.
  destruct (free_leaf_spec x ltac:(by rewrite Ex)) as (a & y & -> & P).
  destruct (IH y) as (freed & -> & Pf); [rewrite P in H; cbn in H; lia|].
  exists (a :: freed). split; [done|]. by rewrite P, Pf.
Qed.

(** ** The array of the iteration is one too short *)

(** Below a slot at depth [length pre], if every longer prefix of the key is
    there, the walk passes one node per length. *)
Lemma stack_walk_overflows t key x : trie_ok size t -> key_ok size key -> k_prefixlen key = max_prefixlen t ->
  forall stack pre, wf size pre x -> pre `prefix_of` key_bits key -> length stack = length pre ->
  (forall l, (length pre <= l <= 8 * size)%nat -> is_Some (get x (take l (key_bits key)))) ->
  stack_walk efficient t key x stack = None.
Proof.
  intros Ht Hk Hm. assert (Hm' : k_prefixlen key <= max_prefixlen t) by lia. pose proof (to_max _ _ Ht) as Mx.
  pose proof (length_key_bits size t key Ht Hk Hm') as Lk.
  induction x as [|n c0 IH0 c1 IH1]; intros stack pre W P L A;
    (assert (Lp : (length pre <= 8 * size)%nat) by (apply prefix_length in P; lia));
    destruct (A (length pre) ltac:(lia)) as [v Hv]; [done|].
  assert (Et : take (length pre) (key_bits key) = pre) by (destruct P as [c ->]; apply take_app_length).
  rewrite Et in Hv. pose proof W as (Ok & Pn & I & W0 & W1).
  assert (En : node_bits n = pre).
  { destruct (decide (node_bits n `prefix_of` pre)) as [Q|Q]; [|by rewrite get_outside in Hv].
    by apply (anti_symm prefix). }
  cbn [stack_walk]. destruct (Z.leb_spec (max_prefixlen t) (Z.of_nat (length stack))); [done|].
  pose proof (length_node_bits size n Ok) as Ln. rewrite En in Ln.
  assert (St : stop_exact key n (longest_prefix_match efficient t n key) = false).
  { unfold stop_exact. rewrite (proj2 (lpm_prefix size efficient t key Ht Hk Hm' n Ok)) by (by rewrite En). lia. }
  rewrite St. destruct (walk_bit size t key Ht Hk Hm' n Ok) as (b & -> & Pb); [by rewrite En | lia |].
  cbn [mbind option_bind]. rewrite En in Pb.
  assert (Ac : forall l, (length (pre ++ [b]) <= l <= 8 * size)%nat ->
    is_Some (get (if b then c1 else c0) (take l (key_bits key)))).
  { intros l Hl. rewrite length_app in Hl. cbn in Hl. rewrite <- (get_child n c0 c1 b); [apply A; lia|]. rewrite En.
    destruct Pb as [c E]. rewrite E. rewrite take_app, (take_ge (pre ++ [b])) by (rewrite length_app; cbn; lia).
    by apply prefix_app_r. }
  rewrite <- En in Pb, Ac. destruct b.
  - apply (IH1 _ (node_bits n ++ [true])); [done | done | rewrite length_app, En; cbn; lia | exact Ac].
  - apply (IH0 _ (node_bits n ++ [false])); [done | done | rewrite length_app, En; cbn; lia | exact Ac].
Qed.
End Iter.
