(* ===== verification/BpfMap.v ===== *)
(** * Operations on many elements of a BPF map ([kernel/bpf/syscall.c])

    [generic_map_lookup_batch], [generic_map_update_batch] and
    [generic_map_delete_batch] work on any map through its [struct bpf_map_ops].
    The operations are a class; what iteration and lookup promise is another.

    Modelled are maps whose values are read and written through
    [map_lookup_elem] and [map_update_elem] (the last branch of
    [bpf_map_copy_value] and [bpf_map_update_value]).  An array in user memory is
    a function from byte offsets to what [copy_from_user] finds there, with
    [None] for an address that cannot be read.  The offset of an element is the
    product of two [u32], which wraps.  [None] as a result is a fault of the
    map. *)
From S2P Require Import Prelude.

(** The members of [struct bpf_map_ops] that are called. *)
Class map_ops (M K V : Type) := {
  map_get_next_key : M -> option K -> option (Z + K);
  map_lookup_elem : M -> K -> option (option V);
  map_update_elem : M -> K -> V -> Z -> option (Z * M);
  map_delete_elem : M -> K -> option (Z * M) }.

(** What iteration and lookup promise of a state: a list of elements, which
    [map_get_next_key] follows and [map_lookup_elem] finds. *)
Class map_laws {M K V : Type} (ops : map_ops M K V) := {
  map_ok : M -> Prop;
  contents : M -> list (K * V);
  first_key s : map_ok s ->
    map_get_next_key s None = Some match contents s with [] => inl (- ENOENT) | (k, _) :: _ => inr k end;
  next_key s l k v l' : map_ok s -> contents s = l ++ (k, v) :: l' ->
    map_get_next_key s (Some k) = Some match l' with [] => inl (- ENOENT) | (k, _) :: _ => inr k end;
  find_key s k v : map_ok s -> (k, v) ∈ contents s -> map_lookup_elem s k = Some (Some v) }.

Definition BPF_F_LOCK : Z := 4.
Definition MAP_LOOKUP_RETRIES : nat := 3.

Section Batch.
Context {M K V : Type} {ops : map_ops M K V}.

(** [attr->batch] with the memory it points to; of the map, whether it has a
    spin lock in its values, its [key_size] and its [bpf_map_value_size]. *)
Record batch := mk_batch {
  elem_flags : Z;
  count : Z;
  in_batch : option (option K);
  keys : Z -> option K;
  values : Z -> option V;
  has_spin_lock : bool;
  map_key_size : Z;
  map_value_size : Z
}.

(** Which accesses to user memory and which allocations succeed. *)
Record kernel_env := mk_kenv {
  put_count : bool;
  alloc1 : bool;
  alloc2 : bool;
  store_key : Z -> bool;
  store_value : Z -> bool;
  store_count : bool;
  store_batch : bool
}.

(** [cp * map->key_size] and [cp * value_size], in 32 bits. *)
Definition key_at_pos (b : batch) (cp : Z) : Z := u32 (cp * map_key_size b).
Definition value_at_pos (b : batch) (cp : Z) : Z := u32 (cp * map_value_size b).

Definition bad_flags (b : batch) : bool :=
  nonzero (Z.land (elem_flags b) (u64 (Z.lnot BPF_F_LOCK))) ||
  (nonzero (Z.land (elem_flags b) BPF_F_LOCK) && negb (has_spin_lock b)).

(** ** Deletion and update *)

(** The result, the new state of the map and the count in user memory; [None]
    there when it was not written. *)
Definition changed : Type := Z * M * option Z.

(** The end of both: the number of elements is stored. *)
Definition finish (e : kernel_env) (err cp : Z) (s : M) : changed :=
  if store_count e then (err, s, Some cp) else (- EFAULT, s, Some 0).

Fixpoint delete_loop (n : nat) (b : batch) (cp : Z) (s : M) : option (Z * Z * M) :=
  match n with
  | O => Some (0, cp, s)
  | S n =>
      match keys b (key_at_pos b cp) with
      | None => Some (- EFAULT, cp, s)
      | Some k => '(err, s) ← map_delete_elem s k; if nonzero err then Some (err, cp, s) else delete_loop n b (cp + 1) s
      end
  end.

Definition generic_map_delete_batch (s : M) (b : batch) (e : kernel_env) : option changed :=
  if bad_flags b then Some (- EINVAL, s, None)
  else if count b =? 0 then Some (0, s, None)
  else if negb (put_count e) then Some (- EFAULT, s, None)
  else if negb (alloc1 e) then Some (- ENOMEM, s, Some 0)
  else '(err, cp, s) ← delete_loop (Z.to_nat (count b)) b 0 s; Some (finish e err cp s).

Fixpoint update_loop (n : nat) (b : batch) (cp : Z) (s : M) : option (Z * Z * M) :=
  match n with
  | O => Some (0, cp, s)
  | S n =>
      match keys b (key_at_pos b cp), values b (value_at_pos b cp) with
      | Some k, Some v =>
          '(err, s) ← map_update_elem s k v (elem_flags b);
          if nonzero err then Some (err, cp, s) else update_loop n b (cp + 1) s
      | _, _ => Some (- EFAULT, cp, s)
      end
  end.

Definition generic_map_update_batch (s : M) (b : batch) (e : kernel_env) : option changed :=
  if bad_flags b then Some (- EINVAL, s, None)
  else if count b =? 0 then Some (0, s, None)
  else if negb (put_count e) then Some (- EFAULT, s, None)
  else if negb (alloc1 e) then Some (- ENOMEM, s, Some 0)
  else if negb (alloc2 e) then Some (- ENOMEM, s, Some 0)
  else '(err, cp, s) ← update_loop (Z.to_nat (count b)) b 0 s; Some (finish e err cp s).

(** ** Lookup *)

(** How the loop ends: with an error after which the count is stored, with one
    after which it is not, with a fault of the map, or without fuel. *)
Inductive looked :=
| Break (err cp : Z) (prev : option K)
| FreeBuf (err : Z)
| MapFault
| NoFuel.

(** A store of a key and one of its value, each with its offset. *)
Definition stores : Type := list ((Z * K) * (Z * V)).

(** The map may change between two calls: [at_ i] is its state at the [i]-th
    one.  Beside the end, the stores to user memory. *)
Fixpoint lookup_loop (fuel : nat) (at_ : nat -> M) (b : batch) (e : kernel_env) (max_count : Z) (i : nat)
    (prev : option K) (retry : nat) (err cp : Z) : looked * stores :=
  if cp <? max_count then
    match fuel with
    | O => (NoFuel, [])
    | S fuel =>
        match map_get_next_key (at_ i) prev with
        | None => (MapFault, [])
        | Some (inl err) => (Break err cp prev, [])
        | Some (inr k) =>
            match map_lookup_elem (at_ (i + 1)%nat) k with
            | None => (MapFault, [])
            | Some None =>
                match retry with
                | O => (Break (- EINTR) cp prev, [])
                | S retry => lookup_loop fuel at_ b e max_count (i + 2) prev retry (- ENOENT) cp
                end
            | Some (Some v) =>
                let ko := key_at_pos b cp in
                let vo := value_at_pos b cp in
                if negb (store_key e ko) then (FreeBuf (- EFAULT), [])
                else if negb (store_value e vo) then (FreeBuf (- EFAULT), [])
                else
                  let '(r, l) := lookup_loop fuel at_ b e max_count (i + 2) (Some k) MAP_LOOKUP_RETRIES 0 (cp + 1) in
                  (r, ((ko, k), (vo, v)) :: l)
            end
        end
    end
  else (Break err cp prev, []).

(** One turn per element and per retry. *)
Definition lookup_fuel (max_count : Z) : nat := (S MAP_LOOKUP_RETRIES * Z.to_nat max_count)%nat.

(** What the caller sees: the result, the stores, the count and the key to go
    on from, as far as they were stored. *)
Record lookup_result := mk_result {
  l_err : Z;
  l_stores : stores;
  l_count : option Z;
  l_out_batch : option K
}.

(** After the loop. *)
Definition finish_lookup (e : kernel_env) (r : looked * stores) : option lookup_result :=
  match r with
  | (Break err cp prev, l) =>
      if err =? - EFAULT then Some (mk_result err l (Some 0) None)
      else if negb (store_count e) then Some (mk_result (- EFAULT) l (Some 0) None)
      else if nonzero cp && negb (store_batch e) then Some (mk_result (- EFAULT) l (Some cp) None)
      else Some (mk_result err l (Some cp) (if nonzero cp then prev else None))
  | (FreeBuf err, l) => Some (mk_result err l (Some 0) None)
  | (MapFault, _) | (NoFuel, _) => None
  end.

Definition generic_map_lookup_batch (at_ : nat -> M) (b : batch) (e : kernel_env) : option lookup_result :=
  let loop prev := lookup_loop (lookup_fuel (count b)) at_ b e (count b) 0 prev MAP_LOOKUP_RETRIES (- EFAULT) 0 in
  if bad_flags b then Some (mk_result (- EINVAL) [] None None)
  else if count b =? 0 then Some (mk_result 0 [] None None)
  else if negb (put_count e) then Some (mk_result (- EFAULT) [] None None)
  else if negb (alloc1 e) then Some (mk_result (- ENOMEM) [] (Some 0) None)
  else if negb (alloc2 e) then Some (mk_result (- ENOMEM) [] (Some 0) None)
  else match in_batch b with
  | None => finish_lookup e (loop None)
  | Some None => Some (mk_result (- EFAULT) [] (Some 0) None)
  | Some (Some k) => finish_lookup e (loop (Some k))
  end.
End Batch.
Arguments batch : clear implicits.
Arguments mk_batch {K V}.
Arguments lookup_result : clear implicits.
