(* ===== verification/BpfMapThms.v ===== *)
(** * The batch operations, for every map that keeps its promises *)
From S2P Require Import Prelude BpfMap.

Section Thms.
Context {M K V : Type} {ops : map_ops M K V}.

(** The loop of the lookup ends within its fuel whatever happens to the map. *)
Lemma lookup_loop_ends at_ b e max fuel : forall i prev retry err cp,
  (retry <= MAP_LOOKUP_RETRIES)%nat -> 0 <= cp ->
  (cp < max -> 4 * (max - cp - 1) + Z.of_nat retry + 1 <= Z.of_nat fuel) ->
  (lookup_loop fuel at_ b e max i prev retry err cp).1 <> NoFuel.
Proof.
  induction fuel as [|fuel IH]; intros i prev retry err cp Hr Hc Hf; cbn [lookup_loop];
    destruct (Z.ltb_spec cp max); try done; [lia|].
  destruct (map_get_next_key (at_ i) prev) as [[er|k]|]; [done | | done].
  destruct (map_lookup_elem (at_ (i + 1)%nat) k) as [[v|]|]; [| | done].
  - destruct (store_key e _), (store_value e _); cbn [negb]; try done.
    specialize (IH (i + 2)%nat (Some k) MAP_LOOKUP_RETRIES 0 (cp + 1) ltac:(lia) ltac:(lia)).
    unfold MAP_LOOKUP_RETRIES in *. destruct (lookup_loop fuel _ _ _ _ _ _ _ _ _) as [r l]. apply IH. lia.
  - destruct retry as [|retry]; [done|]. apply IH; lia.
Qed.

(** It fails only where the map does. *)
Lemma lookup_loop_fault at_ b e max fuel : forall i prev retry err cp,
  (lookup_loop fuel at_ b e max i prev retry err cp).1 = MapFault ->
  exists j, (exists prev, map_get_next_key (at_ j) prev = None) \/ exists k, map_lookup_elem (at_ j) k = None.
Proof.
  induction fuel as [|fuel IH]; intros i prev retry err cp; cbn [lookup_loop]; destruct (cp <? max); try done.
  destruct (map_get_next_key (at_ i) prev) as [[er|k]|] eqn:G; [done | | by exists i; left; exists prev].
  destruct (map_lookup_elem (at_ (i + 1)%nat) k) as [[v|]|] eqn:E; [| | by exists (i + 1)%nat; right; exists k].
  - destruct (store_key e _), (store_value e _); cbn [negb]; try done.
    specialize (IH (i + 2)%nat (Some k) MAP_LOOKUP_RETRIES 0 (cp + 1)). destruct (lookup_loop fuel _ _ _ _ _ _ _ _ _). exact IH.
  - destruct retry as [|retry]; [done|]. apply IH.
Qed.

Lemma finish_lookup_fault b e fuel at_ max i prev retry err : (retry <= MAP_LOOKUP_RETRIES)%nat ->
  (4 * Z.to_nat max <= fuel)%nat -> finish_lookup e (lookup_loop fuel at_ b e max i prev retry err 0) = None ->
  exists j, (exists prev, map_get_next_key (at_ j) prev = None) \/ exists k, map_lookup_elem (at_ j) k = None.
Proof.
  intros Hr Hf E. pose proof (lookup_loop_ends at_ b e max fuel i prev retry err 0 Hr ltac:(lia)
    ltac:(unfold MAP_LOOKUP_RETRIES in *; lia)) as N.
  apply (lookup_loop_fault at_ b e max fuel i prev retry err 0).
  destruct (lookup_loop fuel _ _ _ _ _ _ _ _ _) as [[er c p|er| |] l]; cbn in *; try done.
  by repeat case_match.
Qed.

(** ** A map that does not change *)

Context {laws : map_laws ops}.

Definition last_key (l : list (K * V)) : option K := fst <$> last l.

Lemma next_after s l l' : map_ok s -> contents s = l ++ l' ->
  map_get_next_key s (last_key l) = Some match l' with [] => inl (- ENOENT) | (k, _) :: _ => inr k end.
Proof.
  intros O E. destruct l as [|[k v] l _] using rev_ind; [change (last_key []) with (@None K); rewrite first_key, E by done; done|].
  unfold last_key. rewrite last_snoc. cbn. apply (next_key s l k v); [done|]. rewrite E, <- app_assoc. done.
Qed.

(** Every store to user memory succeeds. *)
Definition good_env : kernel_env := mk_kenv true true true (fun _ => true) (fun _ => true) true true.

(** The stores of the elements [l], from position [cp] on. *)
Fixpoint placed (b : batch K V) (cp : Z) (l : list (K * V)) : stores :=
  match l with
  | [] => []
  | (k, v) :: l => ((key_at_pos b cp, k), (value_at_pos b cp, v)) :: placed b (cp + 1) l
  end.

Lemma lookup_loop_spec s b max l' : forall fuel i l retry err cp, map_ok s -> contents s = l ++ l' ->
  0 <= cp <= max -> max - cp <= Z.of_nat fuel ->
  lookup_loop fuel (fun _ => s) b good_env max i (last_key l) retry err cp =
  let n := Z.to_nat (max - cp) in
  (if max - cp <=? Z.of_nat (length l') then Break (if cp =? max then err else 0) max (last_key (l ++ take n l'))
   else Break (- ENOENT) (cp + Z.of_nat (length l')) (last_key (l ++ l')), placed b cp (take n l')).
Proof.
  induction l' as [|[k v] l' IH]; intros fuel i l retry err cp O E Hc Hf; cbv zeta.
  - rewrite app_nil_r. destruct (decide (cp = max)) as [->|Ne].
    + destruct fuel; cbn [lookup_loop]; rewrite Z.ltb_irrefl, Z.sub_diag, Z.eqb_refl; cbn; by rewrite app_nil_r.
    + destruct fuel as [|fuel]; [lia|]. cbn [lookup_loop]. rewrite (proj2 (Z.ltb_lt cp max)) by lia.
      rewrite (next_after s l [] O E). rewrite (proj2 (Z.leb_gt _ _)) by (cbn; lia). cbn [length].
      rewrite take_nil. do 2 f_equal. lia.
  - destruct (decide (cp = max)) as [->|Ne].
    + destruct fuel; cbn [lookup_loop]; rewrite Z.ltb_irrefl, Z.sub_diag, Z.eqb_refl; cbn; by rewrite app_nil_r.
    + destruct fuel as [|fuel]; [lia|]. cbn [lookup_loop]. rewrite (proj2 (Z.ltb_lt cp max)) by lia.
      rewrite (next_after s l _ O E), (find_key s k v O) by (rewrite E; set_solver). cbn [good_env store_key store_value negb].
      assert (El : Some k = last_key (l ++ [(k, v)])) by (unfold last_key; by rewrite last_snoc). rewrite El.
      rewrite IH by (done || lia || by rewrite <- app_assoc). cbv zeta.
      replace (Z.to_nat (max - cp)) with (S (Z.to_nat (max - (cp + 1)))) by lia. cbn [take length placed].
      rewrite <- !app_assoc. rewrite (proj2 (Z.eqb_neq cp max)) by done.
      destruct (Z.leb_spec (max - (cp + 1)) (Z.of_nat (length l'))), (Z.leb_spec (max - cp) (Z.of_nat (S (length l')))); try lia;
        cbn [app]; do 2 f_equal; [by destruct (cp + 1 =? max) | lia].
Qed.

(** A batch of [c] elements from where the last one ended, for a map with keys
    of [ksz] bytes and values of [vsz]. *)
Definition plain_batch (c ksz vsz : Z) (start : option K) : batch K V :=
  mk_batch 0 c (Some <$> start) (fun _ => None) (fun _ => None) false ksz vsz.

Lemma lookup_batch_spec s c ksz vsz l l' : map_ok s -> contents s = l ++ l' -> 0 < c ->
  generic_map_lookup_batch (fun _ => s) (plain_batch c ksz vsz (last_key l)) good_env =
  Some (mk_result (if c <=? Z.of_nat (length l') then 0 else - ENOENT)
    (placed (plain_batch c ksz vsz (last_key l)) 0 (take (Z.to_nat c) l'))
    (Some (Z.min c (Z.of_nat (length l'))))
    (match l' with [] => None | _ => last_key (l ++ take (Z.to_nat c) l') end)).
Proof.
  intros O E Hc. unfold generic_map_lookup_batch. change (bad_flags (plain_batch c ksz vsz (last_key l))) with false.
  cbn [plain_batch count in_batch good_env put_count alloc1 alloc2 negb].
  rewrite (proj2 (Z.eqb_neq c 0)) by lia. cbv zeta.
  pose proof (lookup_loop_spec s (plain_batch c ksz vsz (last_key l)) c l' (lookup_fuel c) 0 l MAP_LOOKUP_RETRIES (- EFAULT) 0 O E ltac:(lia)
    ltac:(unfold lookup_fuel, MAP_LOOKUP_RETRIES; lia)) as L. cbv zeta in L.
  rewrite Z.sub_0_r, (proj2 (Z.eqb_neq 0 c)) in L by lia.
  transitivity (finish_lookup good_env (lookup_loop (lookup_fuel c) (fun _ => s)
    (plain_batch c ksz vsz (last_key l)) good_env c 0 (last_key l) MAP_LOOKUP_RETRIES (- EFAULT) 0));
    [by destruct (last_key l)|].
  rewrite L. unfold finish_lookup, nonzero. destruct (Z.leb_spec c (Z.of_nat (length l'))) as [Lc|Lc].
  - destruct l'; [cbn in Lc; lia|]. cbn [good_env store_count store_batch negb andb Z.eqb Z.opp EFAULT].
    rewrite (proj2 (Z.eqb_neq c 0)), andb_false_r by lia. cbn [negb]. do 3 f_equal. lia.
  - rewrite (take_ge l') by lia. cbn [good_env store_count store_batch negb andb Z.eqb Z.opp EFAULT ENOENT].
    change (- ENOENT =? - EFAULT) with false. rewrite andb_false_r. cbv iota. replace (Z.min c _) with (0 + Z.of_nat (length l')) by lia.
    destruct l' as [|x l']; [done|]. rewrite (proj2 (Z.eqb_neq _ 0)) by (cbn [length]; lia). done.
Qed.

(** ** What the user finds in the arrays *)

(** Memory after some stores of [size] bytes: what is at [o] is the last object
    stored there, unless a later one overlaps it. *)
Definition read_back {A} (size : Z) (l : list (Z * A)) (o : Z) : option A :=
  foldl (fun acc '(o', a) => if o' =? o then Some a else if Z.abs (o' - o) <? size then None else acc) None l.

(** The first [n] elements of the two arrays. *)
Definition user_elems (ksz vsz : Z) (n : nat) (l : stores) : option (list (K * V)) :=
  mapM (fun i => k ← read_back ksz l.*1 (Z.of_nat i * ksz); v ← read_back vsz l.*2 (Z.of_nat i * vsz); Some (k, v))
    (seq 0 n).

(** As long as the offsets do not wrap, the array holds what was stored. *)
Lemma read_back_array {A} size (l : list A) : 0 < size -> Z.of_nat (length l) * size <= 2 ^ 32 ->
  forall i, read_back size (imap (fun i a => (u32 (Z.of_nat i * size), a)) l) (Z.of_nat i * size) = l !! i.
Proof.
  intros Hs. induction l as [|a l IH] using rev_ind; intros Hl i; [done|]. rewrite length_app in Hl. cbn in Hl.
  rewrite imap_app. unfold read_back. rewrite foldl_app. cbn. rewrite Nat.add_0_r.
  rewrite u32_id by (split; nia). fold (read_back size (imap (fun i a => (u32 (Z.of_nat i * size), a)) l) (Z.of_nat i * size)).
  destruct (Z.eqb_spec (Z.of_nat (length l) * size) (Z.of_nat i * size)) as [E|E].
  - assert (i = length l) as -> by nia. by rewrite lookup_app_r, Nat.sub_diag by lia.
  - assert (i <> length l) by (intros ->; done). rewrite (proj2 (Z.ltb_ge _ _)) by nia. rewrite IH by nia.
    destruct (decide (i < length l)%nat); [by rewrite lookup_app_l|].
    rewrite !lookup_ge_None_2; [done|rewrite length_app; cbn; lia|lia].
Qed.

Lemma placed_offsets b cp l :
  (placed b cp l).*1 = imap (fun i kv => (key_at_pos b (cp + Z.of_nat i), kv)) l.*1 /\
  (placed b cp l).*2 = imap (fun i kv => (value_at_pos b (cp + Z.of_nat i), kv)) l.*2.
Proof.
  revert cp. induction l as [|[k v] l IH]; intros cp; [done|]. cbn. rewrite Z.add_0_r.
  destruct (IH (cp + 1)) as [-> ->]. split; f_equal; apply imap_ext; intros; cbn; do 2 f_equal; lia.
Qed.

Lemma user_elems_placed c ksz vsz start l : 0 < ksz -> 0 < vsz ->
  Z.of_nat (length l) * ksz <= 2 ^ 32 -> Z.of_nat (length l) * vsz <= 2 ^ 32 ->
  user_elems ksz vsz (length l) (placed (plain_batch c ksz vsz start) 0 l) = Some l.
Proof.
  intros Hk Hv Lk Lv. unfold user_elems. destruct (placed_offsets (plain_batch c ksz vsz start) 0 l) as [-> ->].
  unfold key_at_pos, value_at_pos. cbn [map_key_size map_value_size plain_batch].
  apply mapM_Some, Forall2_same_length_lookup_2; [apply length_seq|]. intros j i [k v] Hi Hl.
  apply lookup_seq in Hi as [-> Hj]. cbn [Nat.add]. cbv beta.
  rewrite (read_back_array ksz l.*1 Hk) by (by rewrite length_fmap).
  rewrite (read_back_array vsz l.*2 Hv) by (by rewrite length_fmap). by rewrite !list_lookup_fmap, Hl.
Qed.

(** A caller that reads its arrays and goes on with [out_batch] until an error
    is returned. *)
Fixpoint lookup_all (fuel : nat) (s : M) (c ksz vsz : Z) (start : option K) : option (list (K * V) * Z) :=
  match fuel with
  | O => None
  | S fuel =>
      r ← generic_map_lookup_batch (fun _ => s) (plain_batch c ksz vsz start) good_env;
      got ← user_elems ksz vsz (Z.to_nat (default 0 (l_count r))) (l_stores r);
      if nonzero (l_err r) then Some (got, l_err r)
      else '(l, err) ← lookup_all fuel s c ksz vsz (l_out_batch r); Some (got ++ l, err)
  end.

(** Batches whose arrays have at most [2^32] bytes give the whole map, each
    element once. *)
Lemma lookup_all_spec s c ksz vsz : map_ok s -> 0 < c -> 0 < ksz -> 0 < vsz ->
  c * ksz <= 2 ^ 32 -> c * vsz <= 2 ^ 32 ->
  forall fuel l l', contents s = l ++ l' -> (length l' < fuel)%nat ->
  lookup_all fuel s c ksz vsz (last_key l) = Some (l', - ENOENT).
Proof.
  intros O Hc Hk Hv Lk Lv. induction fuel as [|fuel IH]; intros l l' E Hf; [lia|]. cbn [lookup_all].
  rewrite (lookup_batch_spec s c ksz vsz l l') by done. cbn [mbind option_bind l_err l_stores l_count l_out_batch default].
  set (got := take (Z.to_nat c) l').
  assert (Z.to_nat (Z.min c (Z.of_nat (length l'))) = length got) as Hn by (unfold got; rewrite length_take; lia).
  assert (Z.of_nat (length got) <= c) by (unfold got; rewrite length_take; lia).
  unfold id. rewrite Hn, user_elems_placed by (done || nia). cbn [mbind option_bind].
  destruct (Z.leb_spec c (Z.of_nat (length l'))) as [L|L]; cbn [nonzero negb Z.eqb].
  - replace (match l' with [] => None | _ => last_key (l ++ got) end)
      with (last_key (l ++ got)) by (destruct l'; [cbn in L; lia | done]).
    rewrite (IH (l ++ got) (drop (Z.to_nat c) l')).
    + cbn. unfold got. by rewrite take_drop.
    + unfold got. by rewrite <- app_assoc, take_drop.
    + rewrite length_drop. lia.
  - unfold got. by rewrite take_ge by lia.
Qed.

(** ** Deletion and update *)

(** Operations that succeed one after the other. *)
Inductive all_ok {A} (step : M -> A -> option (Z * M)) : M -> list A -> M -> Prop :=
| all_ok_nil s : all_ok step s [] s
| all_ok_cons s a s' l s'' : step s a = Some (0, s') -> all_ok step s' l s'' -> all_ok step s (a :: l) s''.

(** What a loop did that stopped at position [cp] with [err]. *)
Definition stopped {A} (step : M -> A -> option (Z * M)) (arg : Z -> option A) (n : nat) (s : M) (err cp : Z) (s' : M) : Prop :=
  exists done s1, all_ok step s done s1 /\ (forall i, (i < length done)%nat -> arg (Z.of_nat i) = done !! i) /\
    cp = Z.of_nat (length done) /\
    ((err = 0 /\ s' = s1 /\ length done = n) \/
     ((length done < n)%nat /\ err = - EFAULT /\ s' = s1 /\ arg cp = None) \/
     ((length done < n)%nat /\ err <> 0 /\ exists a, arg cp = Some a /\ step s1 a = Some (err, s'))).

(** The map itself failed, after operations that succeeded. *)
Definition faulted {A} (step : M -> A -> option (Z * M)) (arg : Z -> option A) (n : nat) (s : M) : Prop :=
  exists done s1 a, all_ok step s done s1 /\ (forall i, (i < length done)%nat -> arg (Z.of_nat i) = done !! i) /\
    (length done < n)%nat /\ arg (Z.of_nat (length done)) = Some a /\ step s1 a = None.

(** What a batch of [n] elements returns, whether the count can be stored or
    not. *)
Definition batch_result {A} (step : M -> A -> option (Z * M)) (arg : Z -> option A) (n : nat) (e : kernel_env) (s : M)
    (r : option changed) : Prop :=
  match r with
  | Some (err, s', n') => exists err0 cp, stopped step arg n s err0 cp s' /\
      (err, n') = if store_count e then (err0, Some cp) else (- EFAULT, Some 0)
  | None => faulted step arg n s
  end.

(** The two loops have the same shape. *)
Section Loop.
Context {A : Type} (step : M -> A -> option (Z * M)) (arg : Z -> option A).

Fixpoint loop (n : nat) (cp : Z) (s : M) : option (Z * Z * M) :=
  match n with
  | O => Some (0, cp, s)
  | S n =>
      match arg cp with
      | None => Some (- EFAULT, cp, s)
      | Some a => '(err, s) ← step s a; if nonzero err then Some (err, cp, s) else loop n (cp + 1) s
      end
  end.

Lemma all_ok_app s l s1 l' s2 : all_ok step s l s1 -> all_ok step s1 l' s2 -> all_ok step s (l ++ l') s2.
Proof. induction 1; [done|]. intros H'. econstructor; eauto. Qed.

Lemma loop_spec n : forall cp s l s0, all_ok step s0 l s ->
  (forall i, (i < length l)%nat -> arg (Z.of_nat i) = l !! i) -> cp = Z.of_nat (length l) ->
  match loop n cp s with
  | Some (err, cp', s') => stopped step arg (length l + n) s0 err cp' s'
  | None => faulted step arg (length l + n) s0
  end.
Proof.
  induction n as [|n IH]; intros cp s l s0 H Ha ->; cbn [loop].
  { exists l, s. split_and!; [done | done | done |]. left. split_and!; [done | done | lia]. }
  destruct (arg (Z.of_nat (length l))) as [a|] eqn:Ea.
  - destruct (step s a) as [[er s1]|] eqn:Es; cbn [mbind option_bind].
    + unfold nonzero. destruct (Z.eqb_spec er 0) as [->|Ne]; cbn [negb].
      * replace (length l + S n)%nat with (length (l ++ [a]) + n)%nat by (rewrite length_app; cbn; lia).
        apply IH.
        -- eapply all_ok_app; [done|]. econstructor; [done | constructor].
        -- intros i Hi. rewrite length_app in Hi. cbn in Hi. destruct (decide (i = length l)) as [->|].
           ++ by rewrite Ea, lookup_app_r, Nat.sub_diag by lia.
           ++ rewrite lookup_app_l by lia. apply Ha. lia.
        -- rewrite length_app. cbn. lia.
      * exists l, s. split_and!; [done | done | done |]. right. right. split_and!; [lia | done | by exists a].
    + exists l, s, a. split_and!; [done | done | lia | done | done].
  - exists l, s. split_and!; [done | done | done |]. right. left. split_and!; [lia | done | done | done].
Qed.

(** The same from the start. *)
Lemma loop_start n s :
  match loop n 0 s with Some (err, cp, s') => stopped step arg n s err cp s' | None => faulted step arg n s end.
Proof. apply (loop_spec n 0 s [] s); [constructor | cbn; lia | done]. Qed.

Lemma loop_result n e s : batch_result step arg n e s ('(err, cp, s) ← loop n 0 s; Some (finish e err cp s)).
Proof.
  pose proof (loop_start n s) as L. destruct (loop n 0 s) as [[[err cp] s']|]; [|done]. cbn. unfold finish.
  destruct (store_count e); by exists err, cp.
Qed.

(** Operations that succeed one after the other, as a run of the loop. *)
Lemma loop_all_ok l : forall cp s s', all_ok step s l s' ->
  (forall i, (i < length l)%nat -> arg (cp + Z.of_nat i) = l !! i) ->
  loop (length l) cp s = Some (0, cp + Z.of_nat (length l), s').
Proof.
  induction l as [|a l IH]; intros cp s s' H Ha; inversion H; subst; cbn [loop length]; [do 3 f_equal; lia|].
  pose proof (Ha 0%nat ltac:(cbn; lia)) as E. rewrite Z.add_0_r in E. rewrite E. cbn.
  match goal with E : step s a = _ |- _ => rewrite E end. cbn.
  rewrite (IH _ _ s'); [do 3 f_equal; lia | done |].
  intros i Hi. specialize (Ha (S i) ltac:(cbn; lia)). change ((a :: l) !! S i) with (l !! i) in Ha. rewrite <- Ha. f_equal. lia.
Qed.
End Loop.

(** The key of a position. *)
Definition key_of_pos (b : batch K V) (cp : Z) : option K := keys b (key_at_pos b cp).

Lemma delete_loop_eq n b cp s : delete_loop n b cp s = loop map_delete_elem (key_of_pos b) n cp s.
Proof.
  revert cp s. induction n as [|n IH]; intros cp s; [done|]. cbn [delete_loop loop]. unfold key_of_pos.
  destruct (keys b _); [|done]. destruct (map_delete_elem s _) as [[er s1]|]; [|done]. cbn. destruct (nonzero er); [done | apply IH].
Qed.

(** The element at a position of the two arrays. *)
Definition elem_at (b : batch K V) (cp : Z) : option (K * V) :=
  match keys b (key_at_pos b cp), values b (value_at_pos b cp) with Some k, Some v => Some (k, v) | _, _ => None end.

Lemma update_loop_eq n b cp s :
  update_loop n b cp s = loop (fun s '(k, v) => map_update_elem s k v (elem_flags b)) (elem_at b) n cp s.
Proof.
  revert cp s. induction n as [|n IH]; intros cp s; [done|]. cbn [update_loop loop]. unfold elem_at.
  destruct (keys b (key_at_pos b cp)), (values b (value_at_pos b cp)); try done. destruct (map_update_elem s _ _ _) as [[er s1]|]; [|done]. cbn.
  destruct (nonzero er); [done | apply IH].
Qed.
End Thms.
