(* ===== verification/LpmMap.v ===== *)
(** * The trie as a BPF map

    The trie keeps the promises that the batch operations rely on, as long as
    no path is longer than the array of the iteration. *)
From S2P Require Import Prelude Bits LpmTrie LpmMatch LpmTree LpmOps LpmUpdate LpmIter BpfMap BpfMapThms.

Section Map.
Context {V : Type} (size : nat) (efficient : bool).

(** [trie_map_ops]; allocations succeed. *)
#[local] Instance trie_map_ops : map_ops (lpm_trie V) lpm_key V := {|
  map_get_next_key t key := trie_get_next_key efficient t key true;
  map_lookup_elem t key := trie_lookup_elem efficient t key;
  map_update_elem t key v fl := trie_update_elem efficient t key v fl true true;
  map_delete_elem t key := trie_delete_elem efficient t key |}.

Definition iterable (t : lpm_trie V) : Prop :=
  (exists m, represents size t m) /\ Z.of_nat (height (root t)) <= max_prefixlen t.

Definition element (n : lpm_node V) : option (lpm_key * V) := v ← nvalue n; Some (key_of n, v).
Definition elements (t : lpm_trie V) : list (lpm_key * V) := omap element (postorder (root t)).

(** Every node of the order has an element. *)
Lemma elements_cons (l : list (lpm_node V)) : Forall (fun n => is_Some (nvalue n)) l ->
  fst <$> omap element l = key_of <$> l.
Proof.
  induction 1 as [|n l [v Hv] Hl IH]; [done|]. cbn [omap list_omap fmap list_fmap]. unfold element at 1. rewrite Hv. cbn.
  f_equal. exact IH.
Qed.

Lemma order_values (t : lpm_trie V) m : represents size t m -> Forall (fun n => is_Some (nvalue n)) (postorder (root t)).
Proof.
  intros R. apply Forall_forall. intros n Hn.
  destruct (postorder_nodes size _ _ _ (rp_wf _ _ _ R) Hn) as (Ok & Im & _). by apply (no_value size n Ok).
Qed.

(** The place of an element in the order of the nodes. *)
Lemma elements_split (t : lpm_trie V) m l k v l' : represents size t m -> elements t = l ++ (k, v) :: l' ->
  exists l1 n l2, postorder (root t) = l1 ++ n :: l2 /\ k = key_of n /\ nvalue n = Some v /\ l' = omap element l2.
Proof.
  intros R. pose proof (order_values t m R) as F. unfold elements. revert l F.
  induction (postorder (root t)) as [|n ns IH]; intros l F E; [by destruct l|].
  apply Forall_cons in F as [[w Hw] F]. cbn [omap list_omap] in E. unfold element at 1 in E. rewrite Hw in E. cbn in E.
  destruct l as [|e l]; cbn in E; simplify_eq.
  - exists [], n, ns. done.
  - destruct (IH l F) as (l1 & n' & l2 & -> & H); [done|]. exists (n :: l1), n', l2. done.
Qed.

Lemma omap_head (l : list (lpm_node V)) : Forall (fun n => is_Some (nvalue n)) l ->
  match l with [] => inl (- ENOENT) | n :: _ => inr (key_of n) end =
  match omap element l with [] => inl (- ENOENT) | (k, _) :: _ => inr k end.
Proof. destruct 1 as [|n l [v Hv] _]; [done|]. cbn [omap list_omap]. unfold element at 1. by rewrite Hv. Qed.

(** The trie discharges the laws. *)
#[local] Program Instance trie_map_laws : map_laws trie_map_ops := {| map_ok := iterable; contents := elements |}.
Next Obligation.
  intros t [[m R] Hh]. pose proof (order_values t m R) as F. unfold elements. rewrite <- omap_head by done. cbn.
  unfold trie_get_next_key. pose proof (find_leftmost_spec size (root t) [] None (rp_wf _ _ _ R)) as L.
  pose proof (postorder_nonempty size (root t) [] (rp_wf _ _ _ R)) as N.
  destruct (root t) as [|n0 d0 d1]; [done|]. rewrite L. destruct (postorder (Node n0 d0 d1)); [by destruct N | done].
Qed.
Next Obligation.
  intros t l k v l' [[m R] Hh] E. pose proof (order_values t m R) as F.
  destruct (elements_split t m l k v l' R E) as (l1 & n & l2 & Ep & -> & _ & ->).
  assert (Hn : n ∈ postorder (root t)) by (rewrite Ep; set_solver).
  destruct (postorder_nodes size _ _ _ (rp_wf _ _ _ R) Hn) as (Ok & _).
  destruct (key_of_ok size t (rp_ok _ _ _ R) n Ok) as [Hk Hm].
  rewrite <- omap_head by (rewrite Ep in F; apply Forall_app in F as [_ F]; by apply Forall_cons in F as [_ ?]).
  exact (next_key_spec size efficient t (key_of n) n l1 l2 (rp_ok _ _ _ R) (rp_wf _ _ _ R) Hh Hk Hm Ep eq_refl).
Qed.
Next Obligation.
  intros t k v [[m R] Hh] H. apply list_elem_of_split in H as (l & l' & E).
  destruct (elements_split t m l k v l' R E) as (l1 & n & l2 & Ep & -> & Hv & _).
  assert (Hn : n ∈ postorder (root t)) by (rewrite Ep; set_solver).
  destruct (postorder_nodes size _ _ _ (rp_wf _ _ _ R) Hn) as (Ok & _ & _ & G).
  destruct (key_of_ok size t (rp_ok _ _ _ R) n Ok) as [Hk Hm]. cbn.
  rewrite (lookup_spec size efficient t m _ R Hk). rewrite (proj2 (Z.ltb_ge _ _)) by lia. f_equal.
  apply longest_spec. exists (length (key_bits (key_of n))). rewrite take_ge by lia.
  split_and!; [lia | by rewrite (rp_get _ _ _ R), <- Hv, <- G | lia].
Qed.

(** The elements are the map. *)
Lemma elements_map (t : lpm_trie V) m : represents size t m ->
  (fun '(k, v) => (key_bits k, v)) <$> elements t ≡ₚ map_to_list m.
Proof.
  intros R. pose proof (order_values t m R) as F. destruct (postorder_keys size t m R) as [P _].
  assert (E : ((fun '(k, v) => (key_bits k, v)) <$> elements t).*1 = node_bits <$> postorder (root t)).
  { unfold elements. rewrite <- list_fmap_compose. transitivity (key_bits <$> (fst <$> omap element (postorder (root t)))).
    - rewrite <- list_fmap_compose. apply list_fmap_ext. by intros i [k v] _.
    - by rewrite elements_cons, <- list_fmap_compose. }
  apply NoDup_Permutation; [| apply NoDup_map_to_list |].
  - apply (NoDup_fmap_1 fst). rewrite E, P. apply NoDup_fst_map_to_list.
  - intros [k v]. rewrite elem_of_map_to_list, (rp_get _ _ _ R), list_elem_of_fmap. split.
    + intros ([k' v'] & Ek & H). simplify_eq. apply list_elem_of_split in H as (l & l' & El).
      destruct (elements_split t m l k' v' l' R El) as (l1 & n & l2 & Ep & -> & Hv & _).
      assert (Hn : n ∈ postorder (root t)) by (rewrite Ep; set_solver).
      destruct (postorder_nodes size _ _ _ (rp_wf _ _ _ R) Hn) as (_ & _ & _ & G). by rewrite <- Hv, <- G.
    + intros G. destruct (get_postorder size _ _ _ _ (rp_wf _ _ _ R) G) as (n & Hn & En).
      destruct (postorder_nodes size _ _ _ (rp_wf _ _ _ R) Hn) as (_ & _ & _ & G'). rewrite En, G in G'.
      exists (key_of n, v). split; [by rewrite <- En|]. unfold elements. apply list_elem_of_omap. exists n.
      split; [done|]. unfold element. by rewrite <- G'.
Qed.

(** Reading in batches gives them all. *)
Lemma read_all (t : lpm_trie V) m fuel c ksz vsz : represents size t m ->
  Z.of_nat (height (root t)) <= max_prefixlen t -> 0 < c -> 0 < ksz -> 0 < vsz ->
  c * ksz <= 2 ^ 32 -> c * vsz <= 2 ^ 32 ->
  (base.size m <= fuel)%nat -> lookup_all (S fuel) t c ksz vsz None = Some (elements t, - ENOENT).
Proof.
  intros R Hh Hc Hk Hv Lk Lv Hf.
  apply (lookup_all_spec t c ksz vsz) with (l := []); [by split; [exists m|] | done.. |].
  pose proof (elements_map t m R) as P. apply Permutation_length in P. rewrite length_fmap, length_map_to_list in P. lia.
Qed.

(** ** Updates that succeed *)

Definition insert_all (m : prefix_map V) (kvs : list (lpm_key * V)) : prefix_map V :=
  foldl (fun m '(k, v) => <[key_bits k := v]> m) m kvs.

Lemma insert_fits (m : prefix_map V) k v : (base.size (<[k := v]> m) <= S (base.size m))%nat.
Proof. rewrite map_size_insert. destruct (m !! k); cbn; lia. Qed.

Lemma insert_all_size kvs : forall m, (base.size (insert_all m kvs) <= base.size m + length kvs)%nat.
Proof.
  induction kvs as [|[k v] kvs IH]; intros m; cbn [length insert_all foldl]; [lia|].
  specialize (IH (<[key_bits k := v]> m)). pose proof (insert_fits m (key_bits k) v). unfold insert_all in IH. lia.
Qed.

Lemma update_succeeds (t : lpm_trie V) m k v : represents size t m -> key_ok size k -> k_prefixlen k <= max_prefixlen t ->
  Z.of_nat (base.size m) < max_entries t ->
  exists t', map_update_elem t k v 0 = Some (0, t') /\ represents size t' (<[key_bits k := v]> m) /\
    max_prefixlen t' = max_prefixlen t /\ max_entries t' = max_entries t.
Proof.
  intros R Hk Hp Hm. destruct (update_spec size efficient t m k v 0 true true R Hk) as (r & t' & m' & E & S & R' & H).
  exists t'. inversion S; subst; (lia || naive_solver).
Qed.

Lemma updates_succeed kvs : forall (t : lpm_trie V) m, represents size t m ->
  Forall (fun '(k, _) => key_ok size k /\ k_prefixlen k <= max_prefixlen t) kvs ->
  Z.of_nat (base.size m + length kvs) <= max_entries t ->
  exists t', all_ok (fun t '(k, v) => map_update_elem t k v 0) t kvs t' /\ represents size t' (insert_all m kvs).
Proof.
  induction kvs as [|[k v] kvs IH]; intros t m R F L; [exists t; split; [constructor | done]|].
  apply Forall_cons in F as [[Hk Hp] F]. cbn [length] in L.
  destruct (update_succeeds t m k v R Hk Hp ltac:(lia)) as (t1 & E & R1 & M & N).
  pose proof (insert_fits m (key_bits k) v).
  destruct (IH t1 _ R1) as (t' & A & R'); [by rewrite M | lia |]. exists t'. split; [by econstructor | done].
Qed.
End Map.

(** The two arrays of a batch hold the elements, one after the other. *)
Definition holds {V} (b : batch lpm_key V) (kvs : list (lpm_key * V)) : Prop :=
  forall i k v, kvs !! i = Some (k, v) ->
    keys b (Z.of_nat i * map_key_size b) = Some k /\ values b (Z.of_nat i * map_value_size b) = Some v.

(** Without a wrap, the offsets are those of the elements. *)
Lemma elem_at_holds {V} (b : batch lpm_key V) kvs i : holds b kvs -> (i < length kvs)%nat ->
  0 <= map_key_size b -> 0 <= map_value_size b ->
  Z.of_nat (length kvs) * map_key_size b <= 2 ^ 32 -> Z.of_nat (length kvs) * map_value_size b <= 2 ^ 32 ->
  elem_at b (Z.of_nat i) = kvs !! i.
Proof.
  intros H Hi Hk Hv Lk Lv. destruct (lookup_lt_is_Some_2 kvs i Hi) as [[k v] E]. destruct (H i k v E) as [Ek Ev].
  assert (forall size, 0 <= size -> Z.of_nat (length kvs) * size <= 2 ^ 32 -> u32 (Z.of_nat i * size) = Z.of_nat i * size)
    as Hu.
  { intros size H0 Hl. destruct (Z.eq_dec size 0) as [->|]; [by rewrite Z.mul_0_r|]. apply u32_id. split; nia. }
  unfold elem_at, key_at_pos, value_at_pos. by rewrite !Hu, Ek, Ev, E by done.
Qed.

(** Such a batch, for an update. *)
Definition written {V} (ksz vsz : Z) (kvs : list (lpm_key * V)) : batch lpm_key V :=
  mk_batch 0 (Z.of_nat (length kvs)) None (fun o => fst <$> kvs !! Z.to_nat (o / ksz))
    (fun o => snd <$> kvs !! Z.to_nat (o / vsz)) false ksz vsz.

Lemma holds_written {V} ksz vsz (kvs : list (lpm_key * V)) : 0 < ksz -> 0 < vsz -> holds (written ksz vsz kvs) kvs.
Proof.
  intros Hk Hv i k v E. unfold written. cbn. by rewrite !Z.div_mul, !Nat2Z.id, E by lia.
Qed.
