(* ===== verification/LpmClaims.v ===== *)
(** * Properties of the longest-prefix-match map and of the batch operations *)
From stdpp Require Import sorting.
From S2P Require Import Prelude Bits LpmTrie LpmMatch LpmTree LpmOps LpmUpdate LpmIter BpfMap BpfMapThms LpmMap.

(** ** Tries for the examples *)
Module Tries.
(** One byte of data, so prefixes of up to eight bits. *)
Definition attr (entries : Z) : map_attr := mk_attr entries 1 5 8.
Definition fresh (entries : Z) : lpm_trie Z := mk_trie Null 0 8 1 entries 8.
Definition kmalloc_max : Z := 2 ^ 22.

Definition set (len byte v : Z) : op Z := Update (mk_key len [byte]) v 0 true true.
(** Nested and disjoint prefixes, an intermediate node, a lookup, a deletion. *)
Definition mixed : list (op Z) :=
  [set 4 160 1; set 8 160 2; set 2 192 3; set 0 0 4; Lookup (mk_key 8 [161]); Delete (mk_key 4 [160])].
(** Every prefix of the byte zero. *)
Definition chain : list (op Z) := (fun i => set (Z.of_nat i) 0 (Z.of_nat i)) <$> seq 0 9.
(** 00/8, 80/8 and c0/8. *)
Definition skew : list (op Z) := [set 8 0 1; set 8 128 2; set 8 192 3].

Definition run (entries : Z) (os : list (op Z)) : lpm_trie Z :=
  match trie_run true (fresh entries) os with Some (_, t) => t | None => fresh entries end.

(** The keys of the operations are keys of the map. *)
Definition keys_fit (os : list (op Z)) : Prop := Forall (fun o => key_ok 1 (op_key o)) os.
Lemma key_fits len byte : 0 <= len -> 0 <= byte < 256 -> key_ok 1 (mk_key len [byte]).
Proof. intros. split; cbn; [done | done |]. apply Forall_singleton. done. Qed.
Lemma mixed_fit : keys_fit mixed.
Proof. repeat (apply Forall_cons; split; [by apply key_fits; cbn; lia|]). by apply Forall_nil. Qed.
Lemma chain_fit : keys_fit chain.
Proof. repeat (apply Forall_cons; split; [by apply key_fits; cbn; lia|]). by apply Forall_nil. Qed.
Lemma skew_fit : keys_fit skew.
Proof. repeat (apply Forall_cons; split; [by apply key_fits; cbn; lia|]). by apply Forall_nil. Qed.
End Tries.

(** C25: every sequence of lookups, updates and deletions on a new trie, with
    buffers of the size of the keys, runs without a fault, and every reply and
    the final contents are those of a map from prefixes to values: a lookup finds
    the longest prefix of the key that is in the map, an update stores the value
    (or returns -EINVAL, -ENOSPC, -ENOMEM and changes nothing), a deletion removes
    the one prefix (or returns -EINVAL, -ENOENT), [n_entries] is the size of the
    map, and intermediate nodes always have two children. *)
Theorem trie_implements_prefix_map {V} efficient kmalloc_max attr (t0 : lpm_trie V) os :
  0 <= a_max_entries attr < 2 ^ 32 -> trie_alloc kmalloc_max attr true = inr t0 ->
  Forall (fun o => key_ok (Z.to_nat (data_size t0)) (op_key o)) os ->
  exists rs t m, trie_run efficient t0 os = Some (rs, t) /\
    map_run (max_prefixlen t0) (a_max_entries attr) ∅ os rs m /\
    represents (Z.to_nat (data_size t0)) t m.
Proof.
  intros M A F. destruct (fresh_represents _ kmalloc_max attr t0 M A eq_refl) as (R & _ & E).
  destruct (run_spec _ efficient os t0 ∅ R F) as (rs & t & m & H & S & R' & _). rewrite E in S. by exists rs, t, m.
Qed.

Lemma trie_implements_prefix_map_witness :
  exists rs t m, trie_run true (Tries.fresh 8) Tries.mixed = Some (rs, t) /\
    map_run 8 8 ∅ Tries.mixed rs m /\ represents 1 t m.
Proof.
  apply (trie_implements_prefix_map true Tries.kmalloc_max (Tries.attr 8) (Tries.fresh 8) Tries.mixed);
    [cbn; lia | by vm_compute | exact Tries.mixed_fit].
Defined.

Section Made.
Context {V : Type} (efficient : bool) (kmalloc_max : Z) (attr : map_attr) (t0 t : lpm_trie V)
  (os : list (op V)) (rs : list (reply V)).
Hypothesis entries_u32 : 0 <= a_max_entries attr < 2 ^ 32.
Hypothesis created : trie_alloc kmalloc_max attr true = inr t0.
Hypothesis keys_valid : Forall (fun o => key_ok (Z.to_nat (data_size t0)) (op_key o)) os.
Hypothesis made : trie_run efficient t0 os = Some (rs, t).

(** C26: on a trie that operations have made, as long as no path has more nodes
    than a key has bits, asking for the next key until an error is returned visits
    every prefix of the map exactly once, more specific ones before those they
    extend, and ends with -ENOENT; and a user who reads the map in batches, each
    from where the last one ended, finds in the two arrays every element exactly
    once and gets -ENOENT at the end, as long as neither array of a batch is
    longer than 2^32 bytes (the kernel computes offsets in 32 bits). *)
Theorem iteration_visits_each_prefix_once c ksz vsz : Z.of_nat (height (root t)) <= max_prefixlen t ->
  0 < c -> 0 < ksz -> 0 < vsz -> c * ksz <= 2 ^ 32 -> c * vsz <= 2 ^ 32 ->
  exists m, map_run (max_prefixlen t0) (a_max_entries attr) ∅ os rs m /\
    (exists ks, iterate efficient (S (size m)) t None = Some (ks, - ENOENT) /\
      key_bits <$> ks ≡ₚ (map_to_list m).*1 /\
      StronglySorted (fun a b => ~ key_bits a `prefix_of` key_bits b) ks) /\
    exists es, @lookup_all _ _ _ (trie_map_ops efficient) (S (size m)) t c ksz vsz None = Some (es, - ENOENT) /\
      (fun '(k, v) => (key_bits k, v)) <$> es ≡ₚ map_to_list m.
Proof using All.
  intros Hh Hc Hk Hv Lk Lv.
  destruct (fresh_represents _ kmalloc_max attr t0 entries_u32 created eq_refl) as (_ & Emax & _).
  destruct (made_represents _ efficient kmalloc_max attr t0 t os rs entries_u32 created eq_refl keys_valid made)
    as (m & S & R & Et & _).
  destruct (postorder_keys _ t m R) as [P L]. exists m. split; [by rewrite Emax|]. split.
  - exists (key_of <$> postorder (root t)). split_and!.
    + apply (iterate_spec _ efficient t (rp_ok _ _ _ R) (rp_wf _ _ _ R) Hh). lia.
    + by rewrite <- list_fmap_compose.
    + pose proof (postorder_sorted _ _ _ (rp_wf _ _ _ R)) as So. clear -So. induction So; constructor; [done|]. by apply Forall_fmap.
  - exists (elements t). split; [|by eapply elements_map].
    by apply (read_all (Z.to_nat (data_size t0)) efficient t m).
Qed.

(** C27: the size of a trie that operations have made: [n_entries] is at most
    [max_entries], the nodes (intermediate ones included) are fewer than twice the
    entries, a path has at most one node more than a key has bits, the memory that
    is reported is the entries times the size of one, and freeing gives back
    every node exactly once and ends with an empty trie after one turn per node. *)
Theorem trie_size_bounds :
  0 <= n_entries t <= a_max_entries attr /\
  (Z.of_nat (length (nodes (root t))) < 2 * n_entries t \/ root t = Null) /\
  Z.of_nat (height (root t)) <= max_prefixlen t + 1 /\
  (0 <= value_size t <= 2 ^ 31 -> trie_mem_usage t = (sizeof_node + data_size t + value_size t) * n_entries t) /\
  exists freed, trie_free (S (2 * Z.to_nat (n_entries t))) (root t) = (freed, Null) /\ freed ≡ₚ nodes (root t).
Proof using All.
  destruct (made_represents _ efficient kmalloc_max attr t0 t os rs entries_u32 created eq_refl keys_valid made)
    as (m & _ & R & Em & Ee).
  destruct (postorder_keys _ t m R) as [_ L]. pose proof (rp_full _ _ _ R) as F. rewrite Ee in F.
  pose proof (rp_wf _ _ _ R) as W. pose proof (height_bound _ (root t) [] W) as H.
  pose proof (nodes_bound _ (root t) [] W) as N. destruct (rp_ok _ _ _ R) as [Eds Emx Bd]. rewrite (rp_count _ _ _ R), L in *.
  split_and!; [lia | lia | | | |].
  - destruct N as [N|N]; [left; lia | by right].
  - destruct H as [H| ->]; [cbn in H; lia | cbn; lia].
  - intros Hv. unfold trie_mem_usage, sizeof_node. rewrite (rp_count _ _ _ R).
    assert (B : 0 <= 40 + data_size t + value_size t < 2 ^ 32) by lia. rewrite (u64_id (40 + _ + _)) by (unfold is_u64; lia).
    apply u64_id. unfold is_u64. split; [by apply Z.mul_nonneg_nonneg; lia|]. change (2 ^ 64) with (2 ^ 32 * 2 ^ 32).
    apply Z.mul_lt_mono_nonneg; lia.
  - apply free_spec. destruct N as [N| ->]; [lia | cbn; lia].
Qed.

(** C28: four ways in which the trie departs from what its interface documents.
    (a) If every prefix of a full-length key is stored, [trie_get_next_key] on
    that key writes past the end of [node_stack].  (b) [BPF_NOEXIST] and
    [BPF_EXIST] have no effect on an update.  (c) When the map is full, even the
    update of a prefix that is there fails, with -ENOSPC.  (d) A key that is not
    in the map does not always restart the iteration: with 00/8, 80/8 and c0/8
    stored, the key after a0/8 is c0/8 and not the first one, 00/8. *)
Theorem trie_misbehaves key : key_ok (Z.to_nat (data_size t0)) key ->
  (k_prefixlen key = max_prefixlen t ->
   (forall l, (l <= Z.to_nat (max_prefixlen t))%nat -> is_Some (get (root t) (take l (key_bits key)))) ->
   trie_get_next_key efficient t (Some key) true = None) /\
  (forall v fl a a', 0 <= fl <= BPF_EXIST ->
   trie_update_elem efficient t key v fl a a' = trie_update_elem efficient t key v 0 a a') /\
  (forall v fl a a', 0 <= fl <= BPF_EXIST -> k_prefixlen key <= max_prefixlen t -> n_entries t = max_entries t ->
   is_Some (get (root t) (key_bits key)) -> trie_update_elem efficient t key v fl a a' = Some (- ENOSPC, t)) /\
  (let s := Tries.run 8 Tries.skew in
   trie_get_next_key efficient s None true = Some (inr (mk_key 8 [0])) /\
   get (root s) (key_bits (mk_key 8 [160])) = None /\
   trie_get_next_key efficient s (Some (mk_key 8 [160])) true = Some (inr (mk_key 8 [192]))).
Proof using All.
  intros Hk.
  destruct (made_represents _ efficient kmalloc_max attr t0 t os rs entries_u32 created eq_refl keys_valid made)
    as (m & _ & R & _ & _).
  split_and!.
  - intros Hp A. unfold trie_get_next_key. destruct (A 0%nat ltac:(lia)) as [v Hv].
    rewrite <- Hp, Z.ltb_irrefl. cbn [negb].
    rewrite (stack_walk_overflows _ efficient t key (root t) (rp_ok _ _ _ R) Hk Hp [] [] (rp_wf _ _ _ R));
      [by destruct (root t) | apply prefix_nil | done |].
    intros l Hl. apply A. rewrite (to_max _ _ (rp_ok _ _ _ R)). cbn in Hl. lia.
  - intros v fl a a' Hf. unfold trie_update_elem. rewrite !(proj2 (Z.ltb_ge _ _)) by (unfold BPF_EXIST in *; lia). done.
  - intros v fl a a' Hf Hp Hn _. unfold trie_update_elem.
    rewrite !(proj2 (Z.ltb_ge _ _)), (proj2 (Z.eqb_eq _ _)) by (unfold BPF_EXIST in *; lia || done). done.
  - by destruct efficient; vm_compute.
Qed.
End Made.

Lemma iteration_visits_each_prefix_once_witness :
  exists m, map_run 8 8 ∅ Tries.mixed (default [] (fst <$> trie_run true (Tries.fresh 8) Tries.mixed)) m /\
    (exists ks, iterate true (S (size m)) (Tries.run 8 Tries.mixed) None = Some (ks, - ENOENT) /\
      key_bits <$> ks ≡ₚ (map_to_list m).*1 /\
      StronglySorted (fun a b => ~ key_bits a `prefix_of` key_bits b) ks) /\
    exists es, @lookup_all _ _ _ (trie_map_ops true) (S (size m)) (Tries.run 8 Tries.mixed) 2 5 8 None = Some (es, - ENOENT) /\
      (fun '(k, v) => (key_bits k, v)) <$> es ≡ₚ map_to_list m.
Proof.
  apply (iteration_visits_each_prefix_once true Tries.kmalloc_max (Tries.attr 8) (Tries.fresh 8) (Tries.run 8 Tries.mixed)
    Tries.mixed _ ltac:(cbn; lia) ltac:(by vm_compute) Tries.mixed_fit ltac:(by vm_compute) 2 5 8); [by vm_compute | lia..].
Defined.

Lemma trie_size_bounds_witness : let t := Tries.run 8 Tries.mixed in
  0 <= n_entries t <= 8 /\
  (Z.of_nat (length (nodes (root t))) < 2 * n_entries t \/ root t = Null) /\
  Z.of_nat (height (root t)) <= max_prefixlen t + 1 /\
  (0 <= value_size t <= 2 ^ 31 -> trie_mem_usage t = (sizeof_node + data_size t + value_size t) * n_entries t) /\
  exists freed, trie_free (S (2 * Z.to_nat (n_entries t))) (root t) = (freed, Null) /\ freed ≡ₚ nodes (root t).
Proof.
  exact (trie_size_bounds true Tries.kmalloc_max (Tries.attr 8) (Tries.fresh 8) (Tries.run 8 Tries.mixed)
    Tries.mixed (default [] (fst <$> trie_run true (Tries.fresh 8) Tries.mixed)) ltac:(cbn; lia) ltac:(by vm_compute)
    Tries.mixed_fit ltac:(by vm_compute)).
Defined.

(** Nine nodes on a path of a trie with eight bits, and a full map. *)
Lemma trie_misbehaves_witness : let t := Tries.run 9 Tries.chain in
  trie_get_next_key true t (Some (mk_key 8 [0])) true = None /\
  trie_update_elem true t (mk_key 8 [0]) 7 BPF_EXIST true true = Some (- ENOSPC, t).
Proof.
  cbv zeta. destruct (trie_misbehaves true Tries.kmalloc_max (Tries.attr 9) (Tries.fresh 9) (Tries.run 9 Tries.chain)
    Tries.chain (default [] (fst <$> trie_run true (Tries.fresh 9) Tries.chain)) ltac:(cbn; lia) ltac:(by vm_compute)
    Tries.chain_fit ltac:(by vm_compute) (mk_key 8 [0]) ltac:(by apply Tries.key_fits; lia)) as (A & _ & C & _).
  split.
  - apply A; [by vm_compute|]. change (Z.to_nat _) with 8%nat. intros l Hl.
    do 9 (destruct l as [|l]; [by vm_compute; eexists|]). lia.
  - apply C; [unfold BPF_EXIST; lia | by vm_compute | by vm_compute | by vm_compute; eexists].
Defined.

(** C29: the batch operations of any map, once the arguments are accepted.
    Deletion and update work through the arrays in order (the element of
    position [cp] is the one at the byte offsets [cp * key_size] and
    [cp * value_size], as [u32]) and stop at the first
    element that cannot be read or that the map refuses: what came before has
    been done, what comes after has not, the error is the one of that element and
    the count tells its position (-EFAULT and no count when it cannot be stored);
    without such an element all are done and the result is zero.  The lookup ends,
    whatever happens to the map between two of its calls, after at most four
    turns per element. *)
Theorem batch_stops_at_first_failure {M K V} {ops : map_ops M K V} (s : M) (at_ : nat -> M) (b : batch K V) e :
  bad_flags b = false -> count b <> 0 -> put_count e = true -> alloc1 e = true -> alloc2 e = true ->
  let n := Z.to_nat (count b) in
  batch_result map_delete_elem (fun cp => keys b (u32 (cp * map_key_size b))) n e s (generic_map_delete_batch s b e) /\
  batch_result (fun s '(k, v) => map_update_elem s k v (elem_flags b))
    (fun cp => k ← keys b (u32 (cp * map_key_size b)); v ← values b (u32 (cp * map_value_size b)); Some (k, v))
    n e s (generic_map_update_batch s b e) /\
  (generic_map_lookup_batch at_ b e = None ->
   exists j, (exists prev, map_get_next_key (at_ j) prev = None) \/ exists k, map_lookup_elem (at_ j) k = None).
Proof.
  intros Hb Hc Hp H1 H2 n. unfold generic_map_delete_batch, generic_map_update_batch, generic_map_lookup_batch.
  rewrite Hb, Hp, H1, H2, (proj2 (Z.eqb_neq _ _) Hc), delete_loop_eq, update_loop_eq. cbn [negb].
  split_and!; [apply loop_result | apply loop_result |].
  destruct (in_batch b) as [[k|]|]; [|done|];
    intros E; (apply finish_lookup_fault in E; [done | done | unfold lookup_fuel, MAP_LOOKUP_RETRIES; lia]).
Qed.

(** Two elements are deleted, the third is not there. *)
Lemma batch_stops_at_first_failure_witness :
  let b := written 5 8 [(mk_key 8 [0], 0); (mk_key 8 [192], 0); (mk_key 8 [1], 0); (mk_key 8 [128], 0)] in
  let s := Tries.run 8 Tries.skew in
  batch_result (@map_delete_elem _ _ _ (trie_map_ops true)) (fun cp => keys b (u32 (cp * 5))) 4 good_env s
    (@generic_map_delete_batch _ _ _ (trie_map_ops true) s b good_env) /\
  ((fun '(err, _, n) => (err, n)) <$> @generic_map_delete_batch _ _ _ (trie_map_ops true) s b good_env) = Some (- ENOENT, Some 2).
Proof.
  intros b s. split; [|by vm_compute].
  refine (proj1 (batch_stops_at_first_failure (ops := trie_map_ops true) s (fun _ => s) b good_env _ _ eq_refl eq_refl eq_refl)).
  - done.
  - done.
Defined.

(** C30: writing and reading back.  A batch that updates a new trie with at most
    [max_entries] valid keys, from two arrays of at most 2^32 bytes, succeeds for
    all of them, and batches of lookups whose arrays are not longer than that
    then give back exactly the elements written, the last one of equal prefixes
    (as long as no path has more nodes than a key has bits). *)
Theorem batch_round_trip {V} efficient kmalloc_max attr (t0 : lpm_trie V) (b : batch lpm_key V) kvs :
  0 <= a_max_entries attr < 2 ^ 32 -> trie_alloc kmalloc_max attr true = inr t0 ->
  Forall (fun '(k, _) => key_ok (Z.to_nat (data_size t0)) k /\ k_prefixlen k <= max_prefixlen t0) kvs ->
  (0 < length kvs)%nat -> Z.of_nat (length kvs) <= a_max_entries attr ->
  elem_flags b = 0 -> count b = Z.of_nat (length kvs) -> holds b kvs ->
  let ksz := map_key_size b in
  let vsz := map_value_size b in
  0 < ksz -> 0 < vsz -> Z.of_nat (length kvs) * ksz <= 2 ^ 32 -> Z.of_nat (length kvs) * vsz <= 2 ^ 32 ->
  exists t, @generic_map_update_batch _ _ _ (trie_map_ops efficient) t0 b good_env =
      Some (0, t, Some (Z.of_nat (length kvs))) /\
    (Z.of_nat (height (root t)) <= max_prefixlen t ->
     forall c, 0 < c -> c * ksz <= 2 ^ 32 -> c * vsz <= 2 ^ 32 ->
     exists es, @lookup_all _ _ _ (trie_map_ops efficient) (S (length kvs)) t c ksz vsz None = Some (es, - ENOENT) /\
       (fun '(k, v) => (key_bits k, v)) <$> es ≡ₚ map_to_list (insert_all ∅ kvs)).
Proof.
  intros M A F Hl Hm Hf Hn Hh ksz vsz Hk Hv Lk Lv.
  destruct (fresh_represents _ kmalloc_max attr t0 M A eq_refl) as (R & _ & E).
  destruct (updates_succeed _ efficient kvs t0 ∅ R F) as (t & Ok & Rt); [rewrite map_size_empty, E; lia|].
  exists t. split.
  - unfold generic_map_update_batch, bad_flags. rewrite Hf, Hn. cbn [good_env put_count alloc1 alloc2 negb].
    change (nonzero (Z.land 0 _)) with false. cbn [orb andb]. rewrite (proj2 (Z.eqb_neq _ _)) by lia.
    rewrite update_loop_eq, Hf, Nat2Z.id. cbv iota. erewrite (loop_all_ok _ _ kvs 0 t0 t); [done | exact Ok |].
    intros i Hi. rewrite Z.add_0_l. apply elem_at_holds; done || lia.
  - intros Hh' c Hc Lk' Lv'. exists (elements t). split; [|by eapply elements_map].
    eapply read_all; [exact Rt | done.. |].
    pose proof (insert_all_size kvs ∅) as S. by rewrite map_size_empty in S.
Qed.

Lemma batch_round_trip_witness : let kvs := [(mk_key 8 [0], 1); (mk_key 4 [16], 2); (mk_key 8 [0], 3)] in
  exists t, @generic_map_update_batch _ _ _ (trie_map_ops true) (Tries.fresh 8) (written 5 8 kvs) good_env = Some (0, t, Some 3) /\
    (Z.of_nat (height (root t)) <= max_prefixlen t -> forall c, 0 < c -> c * 5 <= 2 ^ 32 -> c * 8 <= 2 ^ 32 ->
     exists es, @lookup_all _ _ _ (trie_map_ops true) 4 t c 5 8 None = Some (es, - ENOENT) /\
       (fun '(k, v) => (key_bits k, v)) <$> es ≡ₚ map_to_list (insert_all ∅ kvs)).
Proof.
  intros kvs. apply (batch_round_trip true Tries.kmalloc_max (Tries.attr 8) (Tries.fresh 8) (written 5 8 kvs) kvs);
    [cbn; lia | by vm_compute | | cbn; lia | cbn; lia | done | done | by apply holds_written | cbn; lia..].
  repeat (apply Forall_cons; split; [by split; [apply Tries.key_fits; lia | cbn; lia]|]). by apply Forall_nil.
Defined.
