(* ===== verification/QueueStack.v ===== *)
(** * Queue and stack maps ([kernel/bpf/queue_stack_maps.c])

    A ring of [max_entries + 1] slots in one area of bytes.  Values are byte
    lists of [value_size]; the area is a function from positions to bytes and an
    access outside it is [None].  The offset of a slot is a product of two [u32]
    and wraps as such.

    Every operation runs under the lock, so it is one step; an operation from an
    NMI that finds the lock taken returns [-EBUSY] ([lock_ok] false). *)
From S2P Require Import Prelude Bits LpmTrie BpfMap.

(** [struct bpf_queue_stack], with [value_size] and [max_entries] of its
    [struct bpf_map] and the number of bytes behind [elements]. *)
Record bpf_queue_stack := mk_qs {
  head : Z;
  tail : Z;
  qsize : Z;
  elem_size : Z;
  entries : Z;
  elements : Z -> Z;
  area : Z
}.
Definition set_tail (qs : bpf_queue_stack) (x : Z) : bpf_queue_stack :=
  mk_qs (head qs) x (qsize qs) (elem_size qs) (entries qs) (elements qs) (area qs).
Definition set_head (qs : bpf_queue_stack) (x : Z) : bpf_queue_stack :=
  mk_qs x (tail qs) (qsize qs) (elem_size qs) (entries qs) (elements qs) (area qs).
Definition set_elements (qs : bpf_queue_stack) (m : Z -> Z) : bpf_queue_stack :=
  mk_qs (head qs) (tail qs) (qsize qs) (elem_size qs) (entries qs) m (area qs).

(** [memcpy] from and to the area. *)
Definition load_bytes (m : Z -> Z) (off n : Z) : list Z := (fun i => m (off + Z.of_nat i)) <$> seq 0 (Z.to_nat n).
Definition store_bytes (m : Z -> Z) (off : Z) (v : list Z) : Z -> Z :=
  fun i => if off <=? i then default (m i) (v !! Z.to_nat (i - off)) else m i.

(** [&qs->elements[index * qs->map.value_size]], when [value_size] bytes are
    there. *)
Definition elem_offset (qs : bpf_queue_stack) (index : Z) : option Z :=
  let off := u32 (index * elem_size qs) in if area qs <? off + elem_size qs then None else Some off.

Definition queue_stack_map_is_empty (qs : bpf_queue_stack) : bool := head qs =? tail qs.

(** [if (x >= qs->size) x = 0]. *)
Definition wrap (qs : bpf_queue_stack) (x : Z) : Z := if qsize qs <=? x then 0 else x.

Definition queue_stack_map_is_full (qs : bpf_queue_stack) : bool := wrap qs (u32 (head qs + 1)) =? tail qs.

(** ** Creation *)

Definition QUEUE_STACK_CREATE_FLAG_MASK : Z := 4 + 8 + 16 + 128 + 256.

Definition queue_stack_map_alloc_check (kmalloc_max : Z) (attr : map_attr) : Z :=
  if (a_max_entries attr =? 0) || nonzero (a_key_size attr) || (a_value_size attr =? 0) ||
     nonzero (Z.land (a_map_flags attr) (u32 (Z.lnot QUEUE_STACK_CREATE_FLAG_MASK))) ||
     negb (bpf_map_flags_access_ok (a_map_flags attr))
  then - EINVAL
  else if kmalloc_max <? a_value_size attr then - E2BIG
  else 0.

(** [sizeof_qs]: [sizeof(struct bpf_queue_stack)].  The area is zeroed. *)
Definition queue_stack_map_alloc (sizeof_qs : Z) (attr : map_attr) (alloc : bool) : Z + bpf_queue_stack :=
  let size := u64 (a_max_entries attr + 1) in
  let queue_size := u64 (sizeof_qs + size * a_value_size attr) in
  if negb alloc then inl (- ENOMEM)
  else inr (mk_qs 0 0 (u32 size) (a_value_size attr) (a_max_entries attr) (fun _ => 0) (queue_size - sizeof_qs)).

(** ** Operations *)

(** The result, what was written to [value] ([None]: nothing) and the map. *)
Definition got : Type := Z * option (list Z) * bpf_queue_stack.

Definition zeros (qs : bpf_queue_stack) : list Z := replicate (Z.to_nat (elem_size qs)) 0.

Definition queue_map_get (lock_ok : bool) (qs : bpf_queue_stack) (del : bool) : option got :=
  if negb lock_ok then Some (- EBUSY, None, qs)
  else if queue_stack_map_is_empty qs then Some (- ENOENT, Some (zeros qs), qs)
  else
    off ← elem_offset qs (tail qs);
    let value := load_bytes (elements qs) off (elem_size qs) in
    Some (0, Some value, if del then set_tail qs (wrap qs (u32 (tail qs + 1))) else qs).

Definition stack_map_get (lock_ok : bool) (qs : bpf_queue_stack) (del : bool) : option got :=
  if negb lock_ok then Some (- EBUSY, None, qs)
  else if queue_stack_map_is_empty qs then Some (- ENOENT, Some (zeros qs), qs)
  else
    let index := u32 (head qs - 1) in
    let index := if qsize qs <=? index then u32 (qsize qs - 1) else index in
    off ← elem_offset qs index;
    let value := load_bytes (elements qs) off (elem_size qs) in
    Some (0, Some value, if del then set_head qs index else qs).

Definition queue_map_peek_elem (lock_ok : bool) (qs : bpf_queue_stack) : option got := queue_map_get lock_ok qs false.
Definition stack_map_peek_elem (lock_ok : bool) (qs : bpf_queue_stack) : option got := stack_map_get lock_ok qs false.
Definition queue_map_pop_elem (lock_ok : bool) (qs : bpf_queue_stack) : option got := queue_map_get lock_ok qs true.
Definition stack_map_pop_elem (lock_ok : bool) (qs : bpf_queue_stack) : option got := stack_map_get lock_ok qs true.

Definition queue_stack_map_push_elem (lock_ok : bool) (qs : bpf_queue_stack) (value : list Z) (fl : Z)
    : option (Z * bpf_queue_stack) :=
  let replace := nonzero (Z.land fl BPF_EXIST) in
  if nonzero (Z.land fl BPF_NOEXIST) || (BPF_EXIST <? fl) then Some (- EINVAL, qs)
  else if negb lock_ok then Some (- EBUSY, qs)
  else if queue_stack_map_is_full qs && negb replace then Some (- E2BIG, qs)
  else
    let qs := if queue_stack_map_is_full qs then set_tail qs (wrap qs (u32 (tail qs + 1))) else qs in
    off ← elem_offset qs (head qs);
    let qs := set_elements qs (store_bytes (elements qs) off value) in
    Some (0, set_head qs (wrap qs (u32 (head qs + 1)))).

Definition queue_stack_map_mem_usage (sizeof_qs : Z) (qs : bpf_queue_stack) : Z :=
  u64 (sizeof_qs + u64 (u64 (entries qs + 1) * elem_size qs)).

(** The operations by key all fail. *)
#[local] Instance queue_stack_map_ops : map_ops bpf_queue_stack unit (list Z) := {|
  map_get_next_key qs key := Some (inl (- EINVAL));
  map_lookup_elem qs key := Some None;
  map_update_elem qs key v fl := Some (- EINVAL, qs);
  map_delete_elem qs key := Some (- EINVAL, qs) |}.
