(* ===== verification/QueueStackThms.v ===== *)
(** * Queue and stack maps are bounded lists

    The list that a ring stands for, what the operations do to it, and what goes
    wrong when the offsets of the slots do not fit 32 bits. *)
From S2P Require Import Prelude Bits LpmTrie BpfMap QueueStack.

(** ** The abstract list *)

Inductive qs_op := Push (lock_ok : bool) (v : list Z) (fl : Z) | Get (lock_ok del : bool).

(** The result and what is written to the buffer of the caller. *)
Definition qs_reply : Type := Z * option (list Z).

(** A list of at most [cap] values, oldest first; [lifo] for the stack. *)
Definition list_step (lifo : bool) (cap : nat) (zero : list Z) (l : list (list Z)) (o : qs_op) : qs_reply * list (list Z) :=
  match o with
  | Push lock_ok v fl =>
      if negb ((fl =? 0) || (fl =? BPF_EXIST)) then ((- EINVAL, None), l)
      else if negb lock_ok then ((- EBUSY, None), l)
      else if (length l <? cap)%nat then ((0, None), l ++ [v])
      else if fl =? BPF_EXIST then ((0, None), drop 1 l ++ [v])
      else ((- E2BIG, None), l)
  | Get lock_ok del =>
      if negb lock_ok then ((- EBUSY, None), l)
      else match l with
      | [] => ((- ENOENT, Some zero), l)
      | x :: l' =>
          if lifo then ((0, last l), if del then removelast l else l)
          else ((0, Some x), if del then l' else l)
      end
  end.

Definition qs_step (lifo : bool) (qs : bpf_queue_stack) (o : qs_op) : option (qs_reply * bpf_queue_stack) :=
  match o with
  | Push lock_ok v fl => '(r, qs) ← queue_stack_map_push_elem lock_ok qs v fl; Some ((r, None), qs)
  | Get lock_ok del =>
      match lifo, del with
      | false, false => queue_map_peek_elem lock_ok qs
      | false, true => queue_map_pop_elem lock_ok qs
      | true, false => stack_map_peek_elem lock_ok qs
      | true, true => stack_map_pop_elem lock_ok qs
      end
  end.

Fixpoint list_run (lifo : bool) (cap : nat) (zero : list Z) (l : list (list Z)) (os : list qs_op)
    : list qs_reply * list (list Z) :=
  match os with
  | [] => ([], l)
  | o :: os =>
      let '(r, l) := list_step lifo cap zero l o in
      let '(rs, l) := list_run lifo cap zero l os in (r :: rs, l)
  end.
Fixpoint qs_run (lifo : bool) (qs : bpf_queue_stack) (os : list qs_op) : option (list qs_reply * bpf_queue_stack) :=
  match os with
  | [] => Some ([], qs)
  | o :: os => '(r, qs) ← qs_step lifo qs o; '(rs, qs) ← qs_run lifo qs os; Some (r :: rs, qs)
  end.

(** Arguments of the C types; values have the size of the map. *)
Definition op_ok (vs : Z) (o : qs_op) : Prop :=
  match o with Push _ v fl => Z.of_nat (length v) = vs /\ is_u64 fl | Get _ _ => True end.

(** ** Memory *)

Lemma load_store_same m off v : 0 <= off -> load_bytes (store_bytes m off v) off (Z.of_nat (length v)) = v.
Proof.
  intros Ho. apply list_eq. intros i. unfold load_bytes. rewrite Nat2Z.id, list_lookup_fmap.
  destruct (decide (i < length v)%nat) as [L|L].
  - rewrite lookup_seq_lt by done. cbn. unfold store_bytes. rewrite (proj2 (Z.leb_le _ _)) by lia.
    replace (Z.to_nat _) with i by lia. destruct (lookup_lt_is_Some_2 v i L) as [x ->]. done.
  - rewrite lookup_seq_ge by lia. cbn. by rewrite lookup_ge_None_2 by lia.
Qed.

Lemma load_store_other m off v off' n : off' + n <= off \/ off + Z.of_nat (length v) <= off' ->
  load_bytes (store_bytes m off v) off' n = load_bytes m off' n.
Proof.
  intros D. unfold load_bytes. apply list_fmap_ext. intros i x Hx. apply lookup_seq in Hx as [-> Hi]. unfold store_bytes.
  destruct (Z.leb_spec off (off' + Z.of_nat (0 + i))); [|done]. rewrite lookup_ge_None_2 by lia. done.
Qed.

Lemma length_load m off n : 0 <= n -> Z.of_nat (length (load_bytes m off n)) = n.
Proof. intros. unfold load_bytes. rewrite length_fmap, length_seq. lia. Qed.

(** ** The ring *)

(** Slots and offsets fit: every product is below [2 ^ 32]. *)
Record ring_ok (qs : bpf_queue_stack) : Prop := {
  ro_size : 2 <= qsize qs < 2 ^ 32;
  ro_elem : 0 < elem_size qs;
  ro_fits : qsize qs * elem_size qs <= 2 ^ 32;
  ro_area : area qs = qsize qs * elem_size qs;
  ro_tail : 0 <= tail qs < qsize qs }.

Definition slot (qs : bpf_queue_stack) (i : Z) : Z := (tail qs + i) mod qsize qs.
Definition at_slot (qs : bpf_queue_stack) (i : Z) : list Z := load_bytes (elements qs) (i * elem_size qs) (elem_size qs).

(** The ring holds the list. *)
Record holds (qs : bpf_queue_stack) (l : list (list Z)) : Prop := {
  hd_ring : ring_ok qs;
  hd_len : Z.of_nat (length l) < qsize qs;
  hd_head : head qs = slot qs (Z.of_nat (length l));
  hd_elems : forall i v, l !! i = Some v -> at_slot qs (slot qs (Z.of_nat i)) = v }.

Section Ring.
Context (qs : bpf_queue_stack).
Hypothesis R : ring_ok qs.

Lemma offset_fits i : 0 <= i < qsize qs -> elem_offset qs i = Some (i * elem_size qs).
Proof using R.
  intros Hi. destruct R as [S E F A _]. unfold elem_offset. rewrite u32_id by (unfold is_u32; nia).
  rewrite (proj2 (Z.ltb_ge _ _)) by nia. done.
Qed.

Lemma wrap_next x : 0 <= x < qsize qs -> wrap qs (u32 (x + 1)) = (x + 1) mod qsize qs.
Proof using R.
  intros Hx. destruct R as [S _ _ _ _]. unfold wrap. destruct (decide (x + 1 = qsize qs)) as [E|E].
  - rewrite E, u32_id, Z.leb_refl, Z.mod_same by (unfold is_u32; lia). done.
  - rewrite u32_id by (unfold is_u32; lia). rewrite (proj2 (Z.leb_gt _ _)), Z.mod_small by lia. done.
Qed.

Lemma slot_range i : 0 <= slot qs i < qsize qs.
Proof using R. destruct R. apply Z.mod_pos_bound. lia. Qed.

Lemma slot_next i : wrap qs (u32 (slot qs i + 1)) = slot qs (i + 1).
Proof using R.
  rewrite wrap_next by apply slot_range. destruct R. unfold slot. rewrite Zplus_mod_idemp_l. f_equal. lia.
Qed.

Lemma slot_cases i : 0 <= i <= qsize qs -> slot qs i = tail qs + i - (if tail qs + i <? qsize qs then 0 else qsize qs).
Proof using R.
  intros Hi. destruct R. unfold slot. destruct (Z.ltb_spec (tail qs + i) (qsize qs)); [rewrite Z.mod_small; lia|].
  symmetry. apply Z.mod_unique_pos with 1; lia.
Qed.

Lemma slot_inj i j : 0 <= i < qsize qs -> 0 <= j < qsize qs -> slot qs i = slot qs j -> i = j.
Proof using R.
  intros Hi Hj. destruct R. rewrite !slot_cases by lia.
  destruct (Z.ltb_spec (tail qs + i) (qsize qs)), (Z.ltb_spec (tail qs + j) (qsize qs)); lia.
Qed.

Lemma slot_0 : slot qs 0 = tail qs.
Proof using R. destruct R. unfold slot. rewrite Z.add_0_r. apply Z.mod_small. lia. Qed.
End Ring.

Section Steps.
Context (qs : bpf_queue_stack) (l : list (list Z)).
Hypothesis H : holds qs l.
Abbreviation n := (Z.of_nat (length l)).

Lemma empty_spec : queue_stack_map_is_empty qs = match l with [] => true | _ => false end.
Proof using H.
  destruct H as [R L E _]. unfold queue_stack_map_is_empty. rewrite E. pose proof (slot_0 qs R) as S0.
  destruct l as [|x l']; [change (Z.of_nat (length [])) with 0; rewrite S0; apply Z.eqb_refl|].
  apply Z.eqb_neq. rewrite <- S0. intros C. apply slot_inj in C; [| done | lia..].
  cbn [length] in C. lia.
Qed.

Lemma full_spec : queue_stack_map_is_full qs = (n + 1 =? qsize qs).
Proof using H.
  destruct H as [R L E _]. unfold queue_stack_map_is_full. rewrite E, slot_next by done. pose proof (slot_0 qs R) as S0.
  pose proof (ro_tail _ R). rewrite (slot_cases qs R) by lia.
  destruct (Z.ltb_spec (tail qs + (n + 1)) (qsize qs)), (Z.eqb_spec (n + 1) (qsize qs)); lia.
Qed.

(** One slot further, with the oldest value gone. *)
Lemma holds_drop : l <> [] -> holds (set_tail qs (slot qs 1)) (drop 1 l).
Proof using H.
  destruct H as [R L E A]. intros Ne. destruct l as [|x l'] eqn:El; [done|]. change (drop 1 (x :: l')) with l'. cbn [length] in *.
  assert (Sl : forall i, slot (set_tail qs (slot qs 1)) i = slot qs (i + 1)).
  { intros i. unfold slot. cbn. rewrite Zplus_mod_idemp_l. f_equal. lia. }
  split; [| cbn; lia | | ].
  - destruct R. split; cbn; try done. unfold slot. apply Z.mod_pos_bound. lia.
  - rewrite Sl. cbn [head set_tail]. rewrite E. f_equal. lia.
  - intros i v Hi. unfold at_slot. cbn [elements set_tail elem_size]. rewrite Sl.
    replace (Z.of_nat i + 1) with (Z.of_nat (S i)) by lia. by apply A.
Qed.

(** A value stored in the free slot. *)
Lemma holds_push v : n + 1 < qsize qs -> Z.of_nat (length v) = elem_size qs ->
  elem_offset qs (head qs) = Some (head qs * elem_size qs) /\
  let qs' := set_elements qs (store_bytes (elements qs) (head qs * elem_size qs) v) in
  holds (set_head qs' (wrap qs' (u32 (head qs' + 1)))) (l ++ [v]).
Proof using H.
  destruct H as [R L E A]. intros Hn Hv. pose proof (slot_range qs R n) as Sr.
  split; [apply offset_fits; [done | by rewrite E]|]. cbv zeta. pose proof (ro_elem _ R) as Pe.
  set (qs' := set_head _ _). assert (Sl : forall i, slot qs' i = slot qs i) by done.
  split.
  - destruct R. by split.
  - rewrite length_app. cbn. lia.
  - rewrite Sl, length_app. cbn [length]. unfold qs'. cbn [head set_head set_elements]. rewrite E.
    change (wrap (set_elements qs _) ?x) with (wrap qs x). rewrite slot_next by done. f_equal. lia.
  - intros i w Hi. rewrite Sl. unfold at_slot, qs'. cbn [elements set_head set_elements elem_size].
    apply lookup_app_Some in Hi as [Hi|[Hi Hw]].
    + pose proof (lookup_lt_Some _ _ _ Hi) as Li. rewrite load_store_other; [by apply A|].
      pose proof (slot_range qs R (Z.of_nat i)) as Si. rewrite E, Hv.
      assert (slot qs (Z.of_nat i) <> slot qs n) by (intros C; apply slot_inj in C; [lia | done | lia..]). nia.
    + apply list_lookup_singleton_Some in Hw as [Hw ->]. replace i with (length l) by lia. rewrite <- E.
      pose proof (load_store_same (elements qs) (head qs * elem_size qs) w ltac:(rewrite E; nia)) as Q. by rewrite Hv in Q.
Qed.

(** ** Simulation *)

(** The slot below the head. *)
Lemma top_slot : l <> [] ->
  (let index := u32 (head qs - 1) in if qsize qs <=? index then u32 (qsize qs - 1) else index) = slot qs (n - 1).
Proof using H.
  destruct H as [R L E _]. intros Ne. assert (0 < n) by (destruct l; [done | cbn; lia]). cbv zeta. rewrite E.
  pose proof (ro_size _ R). pose proof (ro_tail _ R). rewrite !(slot_cases qs R) by lia.
  destruct (Z.ltb_spec (tail qs + n) (qsize qs)), (Z.ltb_spec (tail qs + (n - 1)) (qsize qs)); try lia.
  - rewrite u32_id by (unfold is_u32; lia). rewrite (proj2 (Z.leb_gt _ _)) by lia. lia.
  - assert (tail qs + n = qsize qs) as -> by lia. rewrite Z.sub_diag. change (u32 (0 - 1)) with (2 ^ 32 - 1).
    rewrite (proj2 (Z.leb_le _ _)) by lia. rewrite u32_id by (unfold is_u32; lia). lia.
  - rewrite u32_id by (unfold is_u32; lia). rewrite (proj2 (Z.leb_gt _ _)) by lia. lia.
Qed.

(** Without its newest value. *)
Lemma holds_removelast l' x : l = l' ++ [x] -> holds (set_head qs (slot qs (n - 1))) l'.
Proof using H.
  destruct H as [R L E A]. intros El.
  assert (En : n = Z.of_nat (length l') + 1) by (rewrite El, length_app; cbn; lia). split.
  - destruct R. by split.
  - change (qsize (set_head qs _)) with (qsize qs). lia.
  - cbn [head set_head]. change (slot (set_head qs ?a) ?i) with (slot qs i). f_equal. lia.
  - intros i v Hi. apply A. rewrite El. by apply lookup_app_l_Some.
Qed.

Lemma queue_get_spec lock_ok del : exists r qs' l', queue_map_get lock_ok qs del = Some (r, qs') /\
  list_step false (Z.to_nat (qsize qs - 1)) (zeros qs) l (Get lock_ok del) = (r, l') /\ holds qs' l' /\
  qsize qs' = qsize qs /\ elem_size qs' = elem_size qs.
Proof using H.
  pose proof H as [R L E A]. unfold queue_map_get. cbn [list_step].
  destruct lock_ok; cbn [negb]; [|by eexists _, _, _]. rewrite empty_spec.
  pose proof holds_drop as D. destruct l as [|x l'] eqn:El; [by eexists _, _, _|].
  rewrite offset_fits by (done || apply R). cbn [mbind option_bind].
  assert (Ex : load_bytes (elements qs) (tail qs * elem_size qs) (elem_size qs) = x).
  { rewrite <- (slot_0 qs R) at 1. by apply (A 0%nat). }
  rewrite Ex. eexists _, _, _. split_and!; [done | done | | by destruct del..].
  destruct del; [|done]. rewrite <- (slot_0 qs R), slot_next, Z.add_0_l by done. by apply D.
Qed.

Lemma stack_get_spec lock_ok del : exists r qs' l', stack_map_get lock_ok qs del = Some (r, qs') /\
  list_step true (Z.to_nat (qsize qs - 1)) (zeros qs) l (Get lock_ok del) = (r, l') /\ holds qs' l' /\
  qsize qs' = qsize qs /\ elem_size qs' = elem_size qs.
Proof using H.
  pose proof H as [R L E A]. unfold stack_map_get. cbn [list_step].
  destruct lock_ok; cbn [negb]; [|by eexists _, _, _]. rewrite empty_spec.
  pose proof top_slot as T. pose proof holds_removelast as Hr. cbv zeta in T |- *.
  destruct (decide (l = [])) as [El|Ne]; [rewrite El; rewrite El in H; by eexists _, _, _|].
  rewrite T by done. rewrite offset_fits by (done || by apply slot_range). cbn [mbind option_bind].
  destruct (exists_last Ne) as (l' & x & El).
  assert (Ex : load_bytes (elements qs) (slot qs (n - 1) * elem_size qs) (elem_size qs) = x).
  { replace (n - 1) with (Z.of_nat (length l')) by (rewrite El, length_app; cbn; lia). apply A.
    rewrite El. by apply list_lookup_middle. }
  rewrite Ex. exists (0, Some x), (if del then set_head qs (slot qs (n - 1)) else qs), (if del then l' else l).
  split_and!; [by destruct l | | by destruct del; [apply (Hr l' x)|] | by destruct del..].
  rewrite El, last_snoc, removelast_last. destruct (l' ++ [x]) eqn:C; [by destruct l' | done].
Qed.

End Steps.

Lemma flags_spec fl : is_u64 fl ->
  nonzero (Z.land fl BPF_NOEXIST) || (BPF_EXIST <? fl) = negb ((fl =? 0) || (fl =? BPF_EXIST)) /\
  ((fl =? 0) || (fl =? BPF_EXIST) = true -> nonzero (Z.land fl BPF_EXIST) = (fl =? BPF_EXIST)).
Proof.
  intros Hf. unfold BPF_EXIST, is_u64 in *. destruct (Z.ltb_spec 2 fl).
  - rewrite orb_true_r, (proj2 (Z.eqb_neq fl 0)), (proj2 (Z.eqb_neq fl 2)) by lia. done.
  - assert (fl = 0 \/ fl = 1 \/ fl = 2) as [->|[->|]] by lia; [done | done | by subst].
Qed.

Lemma push_spec qs l lock_ok v fl : holds qs l -> Z.of_nat (length v) = elem_size qs -> is_u64 fl ->
  exists r qs' l', queue_stack_map_push_elem lock_ok qs v fl = Some (r, qs') /\
  (forall lifo, list_step lifo (Z.to_nat (qsize qs - 1)) (zeros qs) l (Push lock_ok v fl) = ((r, None), l')) /\ holds qs' l' /\
  qsize qs' = qsize qs /\ elem_size qs' = elem_size qs.
Proof.
  intros H Hv Hf. unfold queue_stack_map_push_elem. cbn [list_step]. destruct (flags_spec fl Hf) as [-> Fr].
  destruct ((fl =? 0) || (fl =? BPF_EXIST)) eqn:Ef; cbn [negb]; [rewrite (Fr eq_refl) | by eexists _, _, _].
  destruct lock_ok; cbn [negb]; [|by eexists _, _, _]. rewrite (full_spec qs l H).
  pose proof H as [R L E A]. pose proof (ro_size _ R).
  destruct (Z.eqb_spec (Z.of_nat (length l) + 1) (qsize qs)) as [En|En]; cbn [andb].
  - rewrite (proj2 (Nat.ltb_ge _ _)) by lia. destruct (fl =? BPF_EXIST); cbn [negb]; [|by eexists _, _, _].
    assert (l <> []) as Ne by (intros C; rewrite C in En; cbn in En; lia).
    rewrite <- (slot_0 qs R), slot_next, Z.add_0_l by done. pose proof (holds_drop qs l H Ne) as Hd.
    destruct (holds_push _ _ Hd v) as [-> Hp]; [rewrite length_drop; cbn [qsize set_tail]; lia | done |].
    cbn [mbind option_bind]. eexists _, _, _. split_and!; [done | done | exact Hp | done | done].
  - rewrite (proj2 (Nat.ltb_lt _ _)) by lia. destruct (holds_push _ _ H v ltac:(lia) Hv) as [-> Hp].
    cbn [mbind option_bind]. eexists _, _, _. split_and!; [done | done | exact Hp | done | done].
Qed.

Lemma qs_step_spec lifo qs l o : holds qs l -> op_ok (elem_size qs) o ->
  exists r qs' l', qs_step lifo qs o = Some (r, qs') /\
  list_step lifo (Z.to_nat (qsize qs - 1)) (zeros qs) l o = (r, l') /\ holds qs' l' /\
  qsize qs' = qsize qs /\ elem_size qs' = elem_size qs.
Proof.
  intros H Ho. destruct o as [k v fl|k del]; cbn [qs_step op_ok] in *.
  - destruct Ho as [Hv Hf]. destruct (push_spec qs l k v fl H Hv Hf) as (r & qs' & l' & -> & E & Hh).
    cbn [mbind option_bind]. by exists (r, None), qs', l'.
  - destruct lifo, del; [apply stack_get_spec | apply stack_get_spec | apply queue_get_spec | apply queue_get_spec]; done.
Qed.

Lemma qs_run_spec lifo os : forall qs l, holds qs l -> Forall (op_ok (elem_size qs)) os ->
  exists rs qs' l', qs_run lifo qs os = Some (rs, qs') /\
  list_run lifo (Z.to_nat (qsize qs - 1)) (zeros qs) l os = (rs, l') /\ holds qs' l'.
Proof.
  induction os as [|o os IH]; intros qs l H F; [by exists [], qs, l|]. apply Forall_cons in F as [Fo F].
  destruct (qs_step_spec lifo qs l o H Fo) as (r & qs1 & l1 & E & L & H1 & S1 & S2). cbn [qs_run list_run].
  rewrite E, L. cbn [mbind option_bind]. rewrite <- S2 in F.
  destruct (IH qs1 l1 H1 F) as (rs & qs' & l' & -> & L' & H'). unfold zeros in *. rewrite S1, S2 in L'. rewrite L'.
  by exists (r :: rs), qs', l'.
Qed.

(** What the check of the attributes says about the values. *)
Lemma checked_size kmalloc_max attr : queue_stack_map_alloc_check kmalloc_max attr = 0 ->
  a_max_entries attr <> 0 /\ a_value_size attr <> 0 /\ a_value_size attr <= kmalloc_max.
Proof.
  intros C. unfold queue_stack_map_alloc_check in C. destruct (_ || _) eqn:Cb in C; [done|].
  destruct (Z.ltb_spec kmalloc_max (a_value_size attr)); [done|].
  repeat rewrite orb_false_iff in Cb. destruct Cb as [[[[Cm _] Cv] _] _]. lia.
Qed.

(** A new map, as long as the area has at most [2 ^ 32] bytes. *)
Lemma fresh_holds kmalloc_max sizeof_qs attr qs : is_u32 (a_max_entries attr) -> is_u32 (a_value_size attr) ->
  0 <= sizeof_qs < 2 ^ 32 -> queue_stack_map_alloc_check kmalloc_max attr = 0 ->
  queue_stack_map_alloc sizeof_qs attr true = inr qs ->
  (a_max_entries attr + 1) * a_value_size attr <= 2 ^ 32 -> a_max_entries attr <> U32_MAX ->
  holds qs [] /\ qsize qs = a_max_entries attr + 1 /\ elem_size qs = a_value_size attr.
Proof.
  intros Hm Hv Hs C E F Ne. destruct (checked_size _ _ C) as (Cm & Cv & _). unfold queue_stack_map_alloc in E. cbn [negb] in E. injection E as <-. cbn [qsize elem_size].
  unfold is_u32, U32_MAX in *. rewrite (u64_id (a_max_entries attr + 1)) by (unfold is_u64; lia).
  rewrite (u32_id (_ + 1)) by (unfold is_u32; lia). split; [|done].
  split; [| cbn; lia | unfold slot; cbn; by rewrite Z.mod_0_l by lia | done].
  split; cbn [qsize elem_size area tail]; [lia | lia | lia | | lia]. rewrite u64_id by (unfold is_u64; lia). lia.
Qed.

(** ** Any size *)

(** Whatever the size of the area, indices stay in it; a map whose [size] has
    wrapped to zero has one slot. *)
Record qs_inv (qs : bpf_queue_stack) : Prop := {
  qi_size : 0 <= qsize qs < 2 ^ 32;
  qi_elem : 0 < elem_size qs;
  qi_head : 0 <= head qs < Z.max 1 (qsize qs);
  qi_tail : 0 <= tail qs < Z.max 1 (qsize qs);
  qi_area : Z.max 1 (qsize qs) * elem_size qs <= area qs }.

Lemma qs_offset qs i : qs_inv qs -> 0 <= i < Z.max 1 (qsize qs) -> elem_offset qs i = Some (u32 (i * elem_size qs)).
Proof.
  intros [S E _ _ A] Hi. unfold elem_offset. rewrite (proj2 (Z.ltb_ge _ _)); [done|].
  assert (u32 (i * elem_size qs) <= i * elem_size qs) by (apply Z.mod_le; nia). nia.
Qed.

Lemma wrap_range qs x : qs_inv qs -> 0 <= wrap qs (u32 x) < Z.max 1 (qsize qs).
Proof. intros [S _ _ _ _]. unfold wrap. pose proof (u32_range x) as [U _]. destruct (Z.leb_spec (qsize qs) (u32 x)); lia. Qed.

Lemma qs_step_safe lifo qs o : qs_inv qs -> exists r qs', qs_step lifo qs o = Some (r, qs') /\ qs_inv qs'.
Proof.
  intros I. pose proof I as [S E Hh Ht A].
  assert (It : forall x, 0 <= x < Z.max 1 (qsize qs) -> qs_inv (set_tail qs x)) by (by intros; split).
  destruct o as [k v fl|k del]; cbn [qs_step].
  - unfold queue_stack_map_push_elem. destruct (_ || _); [by eexists _, _|]. destruct k; [|by eexists _, _]. cbn [negb].
    destruct (_ && _); [by eexists _, _|]. set (q := if queue_stack_map_is_full qs then _ else _).
    assert (Iq : qs_inv q) by (unfold q; destruct (queue_stack_map_is_full qs); [apply It, wrap_range|]; done).
    rewrite (qs_offset q _ Iq) by apply Iq. cbn [mbind option_bind]. eexists _, _. split; [done|].
    pose proof (wrap_range q (head q + 1) Iq). destruct Iq. by split.
  - assert (G : forall b : bool, exists r qs', (if b then stack_map_get k qs del else queue_map_get k qs del) = Some (r, qs') /\ qs_inv qs').
    { intros b. unfold stack_map_get, queue_map_get. destruct k; cbn [negb]; [|by destruct b; eexists _, _].
      destruct (queue_stack_map_is_empty qs) eqn:Em; [by destruct b; eexists _, _|]. unfold queue_stack_map_is_empty in Em. destruct b.
      - set (index := if qsize qs <=? u32 (head qs - 1) then u32 (qsize qs - 1) else u32 (head qs - 1)). assert (Hi : 0 <= index < Z.max 1 (qsize qs)).
        { pose proof (u32_range (head qs - 1)) as [U _]. unfold index.
          destruct (Z.leb_spec (qsize qs) (u32 (head qs - 1))); [rewrite u32_id by (unfold is_u32; lia) |]; lia. }
        rewrite (qs_offset qs _ I Hi). cbn [mbind option_bind]. eexists _, _. split; [done|]. destruct del; [by split | done].
      - rewrite (qs_offset qs _ I Ht). cbn [mbind option_bind]. eexists _, _. split; [done|].
        destruct del; [by apply It, wrap_range | done]. }
    destruct lifo, del; [apply (G true) | apply (G true) | apply (G false) | apply (G false)].
Qed.

Lemma qs_run_safe lifo os : forall qs, qs_inv qs -> exists rs qs', qs_run lifo qs os = Some (rs, qs').
Proof.
  induction os as [|o os IH]; intros qs I; [by eexists _, _|]. cbn [qs_run].
  destruct (qs_step_safe lifo qs o I) as (r & qs1 & -> & I1). destruct (IH qs1 I1) as (rs & qs' & E).
  cbn [mbind option_bind]. rewrite E. by eexists _, _.
Qed.

Lemma qs_run_app lifo os os' : forall qs, qs_run lifo qs (os ++ os') =
  ('(rs, qs) ← qs_run lifo qs os; '(rs', qs) ← qs_run lifo qs os'; Some (rs ++ rs', qs)).
Proof.
  induction os as [|o os IH]; intros qs; cbn [app qs_run]; [cbn; by destruct (qs_run lifo qs os') as [[]|]|].
  destruct (qs_step lifo qs o) as [[r q]|]; [|done]. cbn [mbind option_bind]. rewrite IH.
  destruct (qs_run lifo q os) as [[rs q']|]; [|done]. cbn [mbind option_bind]. by destruct (qs_run lifo q' os') as [[]|].
Qed.

(** Pushing a value into a ring that has room. *)
Lemma push_step q v : qs_inv q -> tail q = 0 -> head q + 1 < qsize q ->
  qs_step false q (Push true v 0) =
  Some ((0, None), set_head (set_elements q (store_bytes (elements q) (u32 (head q * elem_size q)) v)) (head q + 1)).
Proof.
  intros I T L. pose proof (qi_head _ I). pose proof (qi_size _ I).
  assert (W : wrap q (u32 (head q + 1)) = head q + 1).
  { unfold wrap. rewrite u32_id by (unfold is_u32; lia). rewrite (proj2 (Z.leb_gt _ _)) by lia. done. }
  assert (F : queue_stack_map_is_full q = false) by (unfold queue_stack_map_is_full; rewrite W; lia).
  cbn [qs_step]. unfold queue_stack_map_push_elem. cbn [negb]. rewrite F. cbn [andb]. rewrite (qs_offset q _ I) by lia.
  cbn [mbind option_bind]. change (nonzero (Z.land 0 BPF_NOEXIST) || (BPF_EXIST <? 0)) with false. cbv iota.
  cbn [mbind option_bind]. do 3 f_equal. exact W.
Qed.

Section Fresh.
Context (sizeof_qs : Z) (attr : map_attr) (qs : bpf_queue_stack).
Hypothesis Hm : is_u32 (a_max_entries attr).
Hypothesis Hv : 0 < a_value_size attr < 2 ^ 31.
Hypothesis Hs : 0 <= sizeof_qs < 2 ^ 32.
Hypothesis E : queue_stack_map_alloc sizeof_qs attr true = inr qs.

Lemma fresh_fields : qs = mk_qs 0 0 (u32 (a_max_entries attr + 1)) (a_value_size attr) (a_max_entries attr) (fun _ => 0)
  ((a_max_entries attr + 1) * a_value_size attr).
Proof using All.
  unfold queue_stack_map_alloc in E. cbn [negb] in E. injection E as <-. unfold is_u32 in Hm.
  rewrite (u64_id (a_max_entries attr + 1)) by (unfold is_u64; lia).
  rewrite (u64_id (sizeof_qs + _)) by (unfold is_u64; nia). f_equal. lia.
Qed.

Lemma fresh_inv : qs_inv qs.
Proof using All.
  rewrite fresh_fields. unfold is_u32 in Hm. pose proof (u32_range (a_max_entries attr + 1)) as [U1 U2].
  assert (u32 (a_max_entries attr + 1) <= a_max_entries attr + 1) by (apply Z.mod_le; lia).
  split; cbn [qsize elem_size head tail area]; [lia | lia | lia | lia | nia].
Qed.

(** Pushing without filling the ring. *)
Lemma pushes_safe vals : forall q, qs_inv q -> tail q = 0 -> head q + Z.of_nat (length vals) < qsize q ->
  exists q', qs_run false q ((fun v => Push true v 0) <$> vals) = Some (replicate (length vals) (0, None), q') /\
    qs_inv q' /\ tail q' = 0 /\ head q' = head q + Z.of_nat (length vals) /\ qsize q' = qsize q /\ elem_size q' = elem_size q.
Proof using.
  induction vals as [|v vals IH]; intros q I T L; [exists q; split_and!; (done || cbn; lia)|].
  pose proof (qi_head _ I). pose proof (qi_size _ I). cbn [length] in L.
  pose proof (push_step q v I T ltac:(lia)) as S. set (q1 := set_head _ _) in S.
  assert (I1 : qs_inv q1) by (destruct I; split; cbn; (done || lia)).
  destruct (IH q1 I1 T) as (q' & R & I' & T' & H' & S1 & S2); [cbn [q1 head set_head qsize set_elements]; lia|].
  exists q'. cbn [fmap list_fmap qs_run]. rewrite S. cbn [mbind option_bind]. rewrite R. cbn [mbind option_bind].
  split_and!; (done || cbn [q1 head set_head] in H'; cbn [length]; lia).
Qed.

(** The offset of slot [k] has wrapped to that of slot 0. *)
Lemma oldest_overwritten k vals v : Z.of_nat k * a_value_size attr = 2 ^ 32 -> Z.of_nat k < a_max_entries attr < U32_MAX ->
  length vals = k -> Z.of_nat (length v) = a_value_size attr ->
  exists q, qs_run false qs ((fun v => Push true v 0) <$> vals ++ [v]) = Some (replicate (S k) (0, None), q) /\
    queue_map_peek_elem true q = Some (0, Some v, q).
Proof using All.
  intros Hk Hl Len Lv. pose proof fresh_inv as I. pose proof fresh_fields as F. unfold U32_MAX in *.
  assert (Es : u32 (a_max_entries attr + 1) = a_max_entries attr + 1) by (apply u32_id; unfold is_u32; lia).
  destruct (pushes_safe vals qs I) as (q & R & Iq & T & Hh & S1 & S2); [by rewrite F | rewrite F; cbn [head qsize]; lia |].
  rewrite F in Hh, S1, S2. cbn [head qsize elem_size] in Hh, S1, S2. rewrite Es in S1.
  rewrite fmap_app, qs_run_app, R. cbn [mbind option_bind fmap list_fmap qs_run].
  rewrite (push_step q v Iq T) by lia. rewrite Hh, S2, Len, Z.add_0_l, Hk. change (u32 (2 ^ 32)) with 0.
  cbn [mbind option_bind]. eexists. split; [by rewrite replicate_S_end|].
  unfold queue_map_peek_elem, queue_map_get, queue_stack_map_is_empty. cbn [negb head tail set_head set_elements]. rewrite T.
  rewrite (proj2 (Z.eqb_neq _ _)) by lia. set (q1 := set_head _ _).
  assert (O : elem_offset q1 0 = Some 0).
  { unfold elem_offset. cbn [q1 elem_size area set_head set_elements]. rewrite Z.mul_0_l. change (u32 0) with 0.
    destruct Iq. rewrite (proj2 (Z.ltb_ge _ _)) by nia. done. }
  rewrite O. cbn [mbind option_bind q1 elements elem_size set_head set_elements]. rewrite S2, <- Lv, load_store_same by lia. done.
Qed.

(** With [max_entries] at its maximum, [size] is zero: nothing is ever kept. *)
Lemma wrapped_size_keeps_nothing v : a_max_entries attr = U32_MAX -> Z.of_nat (length v) = a_value_size attr ->
  queue_stack_map_push_elem true qs v 0 = Some (- E2BIG, qs) /\
  exists q, queue_stack_map_push_elem true qs v BPF_EXIST = Some (0, q) /\
    queue_map_pop_elem true q = Some (- ENOENT, Some (zeros q), q) /\
    stack_map_pop_elem true q = Some (- ENOENT, Some (zeros q), q).
Proof using All.
  intros Em Lv. pose proof fresh_inv as I. pose proof fresh_fields as F. rewrite Em in F. change (u32 (U32_MAX + 1)) with 0 in F.
  split; [by rewrite F|]. unfold queue_stack_map_push_elem. change (_ || _) with false.
  assert (Fu : queue_stack_map_is_full qs = true) by (by rewrite F). rewrite Fu. cbn [negb andb].
  change (nonzero (Z.land BPF_EXIST BPF_EXIST)) with true. cbn [negb].
  set (q := set_tail _ _). assert (Eq : q = qs) by (unfold q; by rewrite F). rewrite Eq.
  rewrite (qs_offset qs _ I) by apply I. cbn [mbind option_bind]. eexists. split; [done|]. by rewrite F.
Qed.
End Fresh.
