(* ===== verification/QueueClaims.v ===== *)
(** * Properties of queue and stack maps *)
From S2P Require Import Prelude Bits LpmTrie BpfMap QueueStack QueueStackThms.

(** C31: queue and stack maps of every size that can be created.  No sequence of
    operations leaves the area of the elements.  As long as the area has at most
    [2 ^ 32] bytes and [max_entries] is not [U32_MAX], every reply is that of a
    list of at most [max_entries] values: push appends (or returns -E2BIG when
    the list is full, or with [BPF_EXIST] drops the oldest value first), a queue
    returns the oldest value and a stack the newest, an empty one -ENOENT and a
    buffer of zeros.  Beyond that the code is wrong.  The offset of a slot wraps
    at 32 bits: when [k] values fill [2 ^ 32] bytes, pushing one more succeeds
    and overwrites the oldest, which a queue then returns.  And with
    [max_entries] equal to [U32_MAX] the number of slots wraps to zero: a push
    fails, or with [BPF_EXIST] succeeds and the map is still empty. *)
Theorem queue_stack_bounded_list lifo kmalloc_max sizeof_qs attr qs os :
  is_u32 (a_max_entries attr) -> 0 <= a_value_size attr -> kmalloc_max < 2 ^ 31 -> 0 <= sizeof_qs < 2 ^ 32 ->
  queue_stack_map_alloc_check kmalloc_max attr = 0 -> queue_stack_map_alloc sizeof_qs attr true = inr qs ->
  (exists rs qs', qs_run lifo qs os = Some (rs, qs')) /\
  (Forall (op_ok (a_value_size attr)) os -> (a_max_entries attr + 1) * a_value_size attr <= 2 ^ 32 ->
   a_max_entries attr <> U32_MAX ->
   exists qs', qs_run lifo qs os = Some ((list_run lifo (Z.to_nat (a_max_entries attr)) (zeros qs) [] os).1, qs')) /\
  (forall k vals v, Z.of_nat k * a_value_size attr = 2 ^ 32 -> Z.of_nat k < a_max_entries attr < U32_MAX ->
   length vals = k -> Z.of_nat (length v) = a_value_size attr ->
   exists q, qs_run false qs ((fun v => Push true v 0) <$> vals ++ [v]) = Some (replicate (S k) (0, None), q) /\
     queue_map_peek_elem true q = Some (0, Some v, q)) /\
  (a_max_entries attr = U32_MAX -> forall v, Z.of_nat (length v) = a_value_size attr ->
   queue_stack_map_push_elem true qs v 0 = Some (- E2BIG, qs) /\
   exists q, queue_stack_map_push_elem true qs v BPF_EXIST = Some (0, q) /\
     queue_map_pop_elem true q = Some (- ENOENT, Some (zeros q), q) /\
     stack_map_pop_elem true q = Some (- ENOENT, Some (zeros q), q)).
Proof.
  intros Hm Hv Hk Hs C E.
  assert (Hv' : 0 < a_value_size attr < 2 ^ 31) by (apply (checked_size kmalloc_max) in C; lia).
  split_and!.
  - apply qs_run_safe. by apply (fresh_inv sizeof_qs attr).
  - intros F Fits Ne.
    destruct (fresh_holds kmalloc_max sizeof_qs attr qs Hm ltac:(unfold is_u32; lia) Hs C E Fits Ne) as (H & S1 & S2).
    rewrite <- S2 in F. destruct (qs_run_spec lifo os qs [] H F) as (rs & qs' & l' & R & L & _). exists qs'.
    rewrite S1 in L. replace (a_max_entries attr + 1 - 1) with (a_max_entries attr) in L by lia. by rewrite L.
  - intros k vals v. by apply (oldest_overwritten sizeof_qs attr).
  - intros Em v. by apply (wrapped_size_keeps_nothing sizeof_qs attr).
Qed.

(** Four values of two bytes pass through a queue of three. *)
Module QueueDemo.
Definition attr : map_attr := mk_attr 3 0 0 2.
Definition ops : list qs_op :=
  [Push true [1; 2] 0; Push true [3; 4] 0; Get true true; Push true [5; 6] 0; Push true [7; 8] 0;
   Push true [9; 9] 0; Push true [9; 9] BPF_EXIST; Push false [0; 0] 0; Get true true; Get true true; Get true false].
Definition fresh : bpf_queue_stack := mk_qs 0 0 4 2 3 (fun _ => 0) 8.
Lemma ops_ok : Forall (op_ok 2) ops.
Proof. repeat (apply Forall_cons; split; [by (split; [done | split; by vm_compute]) || done|]). by apply Forall_nil. Qed.
End QueueDemo.

Lemma queue_stack_bounded_list_witness :
  fst <$> qs_run false QueueDemo.fresh QueueDemo.ops =
  Some [(0, None); (0, None); (0, Some [1; 2]); (0, None); (0, None); (- E2BIG, None); (0, None); (- EBUSY, None);
        (0, Some [5; 6]); (0, Some [7; 8]); (0, Some [9; 9])].
Proof.
  destruct (queue_stack_bounded_list false (2 ^ 22) 256 QueueDemo.attr QueueDemo.fresh QueueDemo.ops) as (_ & A & _);
    [by split; vm_compute | by vm_compute | by vm_compute | by split; vm_compute | by vm_compute | by vm_compute |].
  destruct A as [q ->]; [exact QueueDemo.ops_ok | by vm_compute | by vm_compute | by vm_compute].
Defined.
