(* ===== verification/TimeConv.v ===== *)
(** * Calendar time: [kernel/time/timeconv.c] and [mktime64] of [kernel/time/time.c]

    [time64_to_tm] breaks a count of seconds down into a date, [mktime64] puts
    a date together.  The file holds the two functions at their machine widths
    and the Gregorian calendar they are measured against: leap years, lengths
    of months, the date after a date. *)
From S2P Require Import Prelude.

Definition SECS_PER_HOUR : Z := 60 * 60.
Definition SECS_PER_DAY : Z := SECS_PER_HOUR * 24.

(** [struct tm] *)
Record tm := Tm {
  tm_sec : Z; tm_min : Z; tm_hour : Z;
  tm_mday : Z; tm_mon : Z; tm_year : Z;
  tm_wday : Z; tm_yday : Z }.

#[global] Instance tm_eq_dec : EqDecision tm.
Proof. solve_decision. Defined.

(** The two loops that bring the seconds of the day into range.  The fuel is
    the number of days in the remainder plus one, [None] is running out. *)
Fixpoint rem_up (fuel : nat) (rem days : Z) : option (Z * Z) :=
  if rem <? 0
  then match fuel with
       | O => None
       | S f => rem_up f (s64 (rem + SECS_PER_DAY)) (s64 (days - 1))
       end
  else Some (rem, days).

Fixpoint rem_down (fuel : nat) (rem days : Z) : option (Z * Z) :=
  if SECS_PER_DAY <=? rem
  then match fuel with
       | O => None
       | S f => rem_down f (s64 (rem - SECS_PER_DAY)) (s64 (days + 1))
       end
  else Some (rem, days).

Definition loop_fuel (rem : Z) : nat := Z.to_nat (Z.abs rem / SECS_PER_DAY + 1).

(** From the computational calendar, whose year starts in March, to
    [struct tm]: year, month (0 is January), day of the month, day of the year. *)
Definition gregorian_date (century year_of_century day_of_year : Z) : Z * Z * Z * Z :=
  let year := u64 (100 * century + year_of_century) in
  let is_leap_year :=
    if year_of_century =? 0 then century mod 4 =? 0 else year_of_century mod 4 =? 0 in
  let u32tmp := u32 (2141 * day_of_year + 132377) in
  let month := Z.shiftr u32tmp 16 in
  let day := u16 u32tmp / 2141 in
  let is_Jan_or_Feb := 306 <=? day_of_year in
  let year := u64 (year + Z.b2z is_Jan_or_Feb - 6313183731940000) in
  let month := if is_Jan_or_Feb then u32 (month - 12) else month in
  let day := u32 (day + 1) in
  let day_of_year :=
    u32 (day_of_year + (if is_Jan_or_Feb then -306 else 31 + 28 + Z.b2z is_leap_year)) in
  (s64 (u64 (year - 1900)), s32 month, s32 day, s32 day_of_year).

(** Day count to century, year of the century and day of the year. *)
Definition computational_date (days : Z) : Z * Z * Z * Z :=
  let udays := u64 (u64 days + 2305843009213814918) in
  let u64tmp := u64 (4 * udays + 3) in
  let century := u64tmp / 146097 in
  let u64tmp := u64tmp mod 146097 in
  let day_of_century := u32 (u64tmp / 4) in
  let u32tmp := u32 (4 * day_of_century + 3) in
  let u64tmp := u64 (2939745 * u32tmp) in
  let year_of_century := u32 (Z.shiftr u64tmp 32) in
  let day_of_year := u32 u64tmp / 2939745 / 4 in
  gregorian_date century year_of_century day_of_year.

Definition time64_to_tm (totalsecs offset : Z) : option tm :=
  let days := Z.quot totalsecs SECS_PER_DAY in
  let remainder := s32 (Z.rem totalsecs SECS_PER_DAY) in
  let rem := s64 (remainder + offset) in
  '(rem, days) ← rem_up (loop_fuel rem) rem days;
  '(rem, days) ← rem_down (loop_fuel rem) rem days;
  let hour := s32 (Z.quot rem SECS_PER_HOUR) in
  let rem := Z.rem rem SECS_PER_HOUR in
  let wday := s32 (Z.rem (s64 (4 + days)) 7) in
  let wday := if wday <? 0 then s32 (wday + 7) else wday in
  let '(year, mon, mday, yday) := computational_date days in
  Some (Tm (s32 (Z.rem rem 60)) (s32 (Z.quot rem 60)) hour mday mon year wday yday).

(** [mktime64]: every argument is an [unsigned int]; the sum of the leap days
    and [year * 365] are computed at 32 bits, the rest at 64. *)
Definition mktime64 (year0 mon0 day hour min sec : Z) : Z :=
  let mon := u32 (mon0 - 2) in
  let '(mon, year) :=
    if s32 mon <=? 0 then (u32 (mon + 12), u32 (year0 - 1)) else (mon, year0) in
  let leaps := u32 (year / 4 - year / 100 + year / 400 + u32 (367 * mon) / 12 + day) in
  s64 (s64 (s64 (s64 (leaps + u32 (year * 365) - 719499) * 24 + hour) * 60 + min) * 60 + sec).

(** ** The Gregorian calendar *)

Definition leap (y : Z) : bool :=
  (y mod 4 =? 0) && (negb (y mod 100 =? 0) || (y mod 400 =? 0)).

Definition month_days (y m : Z) : Z :=
  if m =? 1 then 28 + Z.b2z (leap y)
  else if (m =? 3) || (m =? 5) || (m =? 8) || (m =? 10) then 30 else 31.

(** A date: year, month from 0, day from 1. *)
Record date := Date { d_year : Z; d_mon : Z; d_day : Z }.

Definition valid_date (d : date) : Prop :=
  0 <= d_mon d < 12 /\ 1 <= d_day d <= month_days (d_year d) (d_mon d).

Definition next_day (d : date) : date :=
  if d_day d <? month_days (d_year d) (d_mon d)
  then Date (d_year d) (d_mon d) (d_day d + 1)
  else if d_mon d <? 11 then Date (d_year d) (d_mon d + 1) 1
  else Date (d_year d + 1) 0 1.

(** Days of the year before the month. *)
Definition days_before_month (y m : Z) : Z :=
  foldr (fun i acc => month_days y (Z.of_nat i) + acc) 0 (seq 0 (Z.to_nat m)).

(** Days since the epoch: full years, leap days, months, days. *)
Definition days_before_year (y : Z) : Z :=
  365 * (y - 1) + (y - 1) / 4 - (y - 1) / 100 + (y - 1) / 400 - 719162.

Definition day_number (d : date) : Z :=
  days_before_year (d_year d) + days_before_month (d_year d) (d_mon d) + (d_day d - 1).

Definition tm_date (r : tm) : date := Date (tm_year r + 1900) (tm_mon r) (tm_mday r).
Definition tm_clock (r : tm) : Z := (tm_hour r * 60 + tm_min r) * 60 + tm_sec r.

(** ** The calendar is coherent *)

Lemma month_cases m : 0 <= m < 12 ->
  m = 0 \/ m = 1 \/ m = 2 \/ m = 3 \/ m = 4 \/ m = 5 \/ m = 6 \/ m = 7 \/ m = 8
  \/ m = 9 \/ m = 10 \/ m = 11.
Proof. lia. Qed.

Ltac months H := destruct (month_cases _ H) as
  [->|[->|[->|[->|[->|[->|[->|[->|[->|[->|[->| ->]]]]]]]]]]].

Lemma leap_b2z y : Z.b2z (leap y) = y / 4 - y / 100 + y / 400
  - ((y - 1) / 4 - (y - 1) / 100 + (y - 1) / 400).
Proof.
  unfold leap.
  destruct (Z.eqb_spec (y mod 4) 0), (Z.eqb_spec (y mod 100) 0),
    (Z.eqb_spec (y mod 400) 0); simpl; Z.to_euclidean_division_equations; lia.
Qed.

Lemma days_before_next_year y : days_before_year (y + 1) =
  days_before_year y + 365 + Z.b2z (leap y).
Proof. rewrite leap_b2z. unfold days_before_year. replace (y + 1 - 1) with y by lia. lia. Qed.

(** Cumulative length of the months, by evaluation at each month. *)
Lemma days_before_month_eq y m : 0 <= m < 12 ->
  days_before_month y m =
  (if m <? 2 then 31 * m
   else 59 + Z.b2z (leap y)
        + nth (Z.to_nat (m - 2)) [0; 31; 61; 92; 122; 153; 184; 214; 245; 275] 0).
Proof. intros H; months H; unfold days_before_month, month_days; simpl; lia. Qed.
