(* ===== verification/TimeConvThms.v ===== *)
(** * Calendar time: the conversions against the calendar

    The first multiplication that replaces a division in [time64_to_tm] is
    exact because its error over a century stays small, the second one is
    checked on the 366 days of a year; the rest is linear arithmetic over the
    day number of a date. *)
From S2P Require Import Prelude TimeConv.

(** ** The day number determines the date *)

Lemma year_bounds d : valid_date d ->
  days_before_year (d_year d) <= day_number d < days_before_year (d_year d + 1).
Proof.
  destruct d as [y m k]; intros [Hm Hk]; simpl in *.
  rewrite days_before_next_year. unfold day_number; simpl.
  rewrite days_before_month_eq by done. revert Hk.
  months Hm; unfold month_days; simpl; destruct (leap y); simpl; lia.
Qed.

Lemma days_before_year_mono y y' : y <= y' -> days_before_year y <= days_before_year y'.
Proof. intros. unfold days_before_year. Z.to_euclidean_division_equations; lia. Qed.

Lemma days_before_month_mono y m m' : 0 <= m <= m' ->
  days_before_month y m <= days_before_month y m'.
Proof.
  intros H. unfold days_before_month.
  replace (Z.to_nat m') with (Z.to_nat m + Z.to_nat (m' - m))%nat by lia.
  rewrite seq_app, foldr_app. generalize (seq (0 + Z.to_nat m) (Z.to_nat (m' - m))) as l.
  generalize (seq 0 (Z.to_nat m)) as l0. intros l0 l.
  assert (0 <= foldr (fun i acc => month_days y (Z.of_nat i) + acc) 0 l).
  { induction l; simpl; [lia |]. unfold month_days at 1. destruct (leap y); repeat case_match; simpl; lia. }
  induction l0; simpl; lia.
Qed.

Lemma month_bounds y m k : 0 <= m < 12 -> 1 <= k <= month_days y m ->
  days_before_month y m <= days_before_month y m + (k - 1) < days_before_month y (m + 1).
Proof.
  intros Hm. assert (E : days_before_month y (m + 1) = days_before_month y m + month_days y m).
  { months Hm; unfold days_before_month, month_days; simpl; lia. }
  lia.
Qed.

Lemma day_number_inj d d' : valid_date d -> valid_date d' ->
  day_number d = day_number d' -> d = d'.
Proof.
  intros V V' E. pose proof (year_bounds _ V). pose proof (year_bounds _ V').
  assert (Ey : d_year d = d_year d').
  { destruct (Z.lt_trichotomy (d_year d) (d_year d')) as [L|[->|L]]; [| done |].
    - pose proof (days_before_year_mono (d_year d + 1) (d_year d')). lia.
    - pose proof (days_before_year_mono (d_year d' + 1) (d_year d)). lia. }
  destruct d as [y m k], d' as [y' m' k'], V as [Vm Vk], V' as [Vm' Vk'].
  simpl in *; subst y'. unfold day_number in E; simpl in E.
  assert (m = m') as ->.
  { pose proof (month_bounds y m k Vm Vk) as B. pose proof (month_bounds y m' k' Vm' Vk') as B'.
    destruct (Z.lt_trichotomy m m') as [L|[->|L]]; [| done |].
    - pose proof (days_before_month_mono y (m + 1) m' ltac:(lia)). lia.
    - pose proof (days_before_month_mono y (m' + 1) m ltac:(lia)). lia. }
  f_equal. lia.
Qed.

Lemma next_day_spec d : valid_date d ->
  valid_date (next_day d) /\ day_number (next_day d) = day_number d + 1.
Proof.
  destruct d as [y m k]; intros [Hm Hk]; simpl in *. unfold next_day; simpl.
  destruct (Z.ltb_spec k (month_days y m)) as [L|L].
  { split; [split; simpl; lia |]. unfold day_number; simpl. lia. }
  assert (k = month_days y m) as -> by lia.
  destruct (Z.ltb_spec m 11) as [Lm|Lm].
  - split.
    + split; simpl; [lia |]. assert (0 <= m + 1 < 12) as H by lia.
      unfold month_days; destruct (leap y); simpl; repeat case_match; lia.
    + unfold day_number; simpl. rewrite !days_before_month_eq by lia.
      months Hm; unfold month_days; simpl; lia.
  - assert (m = 11) as -> by lia. split.
    + split; unfold month_days; simpl; lia.
    + unfold day_number; simpl. rewrite days_before_next_year, !days_before_month_eq by lia.
      unfold month_days; simpl; lia.
Qed.

(** ** The multiplications *)

Definition all_below (n : nat) (p : Z -> bool) : bool :=
  forallb (fun i => p (Z.of_nat i)) (seq 0 n).

Lemma all_below_spec n p : all_below n p = true ->
  forall x, 0 <= x < Z.of_nat n -> p x = true.
Proof.
  unfold all_below. rewrite forallb_forall. intros H x Hx.
  specialize (H (Z.to_nat x)). rewrite Z2Nat.id in H by lia.
  apply H, in_seq. lia.
Qed.

(** [2939745 * 1461 = 2 ^ 32 + 149]: over one century the error stays below
    one step of the multiplier. *)
Lemma century_check doc n : 0 <= doc < 36525 -> n = 4 * doc + 3 ->
  Z.shiftr (2939745 * n) 32 = n / 1461
  /\ 2939745 * n mod 2 ^ 32 / 2939745 = n mod 1461.
Proof.
  intros H Hn. rewrite Z.shiftr_div_pow2 by lia.
  pose proof (Z.div_mod n 1461 ltac:(lia)). pose proof (Z.mod_pos_bound n 1461 ltac:(lia)).
  assert (0 <= n / 1461 < 100) by (Z.to_euclidean_division_equations; lia).
  set (q := n / 1461) in *. set (s := n mod 1461) in *.
  assert (E : 2939745 * n = 2 ^ 32 * q + (149 * q + 2939745 * s)) by lia.
  split; [symmetry; apply (Z.div_unique _ _ _ (149 * q + 2939745 * s)); [lia | exact E] |].
  replace (2939745 * n mod 2 ^ 32) with (149 * q + 2939745 * s)
    by (apply (Z.mod_unique _ _ q); [lia | exact E]).
  symmetry. apply (Z.div_unique _ _ _ (149 * q)); lia.
Qed.

(** First day of the month in the year that starts in March. *)
Definition march_start (m : Z) : Z :=
  nth (Z.to_nat (m - 2)) [0; 31; 61; 92; 122; 153; 184; 214; 245; 275; 306; 337; 366] 0.

Definition month_ok (doy : Z) : bool :=
  let t := 2141 * doy + 132377 in
  let m := Z.shiftr t 16 in
  let d := t mod 2 ^ 16 / 2141 in
  (2 <=? m) && (m <=? 13) && (0 <=? d) && (doy =? march_start m + d)
  && (doy <? march_start (m + 1)) && Bool.eqb (12 <=? m) (306 <=? doy).

Lemma month_check doy : 0 <= doy < 366 -> month_ok doy = true.
Proof.
  change 366 with (Z.of_nat (Z.to_nat 366)). revert doy.
  apply all_below_spec. vm_compute. reflexivity.
Qed.

(** ** The computational calendar *)

(** Shift of the era: years and days. *)
Definition era_centuries : Z := 63131837319400.

(** The century [c], the year [Y] of the century and the day [D] of the year,
    as the two divisions give them. *)
Lemma split_days N c r : c = (4 * N + 3) / 146097 -> r = (4 * N + 3) mod 146097 / 4 ->
  0 <= r < 36525 /\ N = 146097 * c / 4 + r /\ (r = 36524 -> c mod 4 = 3).
Proof. intros -> ->. Z.to_euclidean_division_equations; lia. Qed.

Lemma split_century r Y D : 0 <= r < 36525 ->
  Y = (4 * r + 3) / 1461 -> D = (4 * r + 3) mod 1461 / 4 ->
  0 <= Y < 100 /\ 0 <= D < 366 /\ r = 1461 * Y / 4 + D /\
  (D = 365 -> Y mod 4 = 3 /\ (Y = 99 -> r = 36524)).
Proof. intros H -> ->. Z.to_euclidean_division_equations; lia. Qed.

(** The date that the split stands for. *)
Definition march_date (c Y m k : Z) : date :=
  if 12 <=? m then Date (100 * c + Y + 1) (m - 12) k else Date (100 * c + Y) m k.

Lemma leap_next c Y : 0 <= Y < 100 ->
  leap (100 * c + Y + 1) = (if Y =? 99 then (c + 1) mod 4 =? 0 else (Y + 1) mod 4 =? 0).
Proof.
  intros H. unfold leap.
  destruct (Z.eqb_spec Y 99), (Z.eqb_spec ((100 * c + Y + 1) mod 4) 0),
    (Z.eqb_spec ((100 * c + Y + 1) mod 100) 0), (Z.eqb_spec ((100 * c + Y + 1) mod 400) 0),
    (Z.eqb_spec ((c + 1) mod 4) 0), (Z.eqb_spec ((Y + 1) mod 4) 0); simpl; try done;
    exfalso; Z.to_euclidean_division_equations; lia.
Qed.

Lemma leap_of_split c Y : 0 <= Y < 100 ->
  leap (100 * (c - era_centuries) + Y) =
    (if Y =? 0 then c mod 4 =? 0 else Y mod 4 =? 0).
Proof.
  intros H. unfold leap, era_centuries. set (z := 100 * (c - 63131837319400) + Y).
  destruct (Z.eqb_spec Y 0), (Z.eqb_spec (z mod 4) 0), (Z.eqb_spec (z mod 100) 0),
    (Z.eqb_spec (z mod 400) 0), (Z.eqb_spec (c mod 4) 0), (Z.eqb_spec (Y mod 4) 0);
    simpl; try done; exfalso; unfold z in *; Z.to_euclidean_division_equations; lia.
Qed.

Lemma march_year c Y : 0 <= Y < 100 ->
  days_before_year (100 * c + Y) + 59 + Z.b2z (leap (100 * c + Y)) =
    146097 * c / 4 + 1461 * Y / 4 - 719468.
Proof.
  intros H. rewrite leap_b2z. unfold days_before_year.
  Z.to_euclidean_division_equations; lia.
Qed.

Lemma march_year_next c Y : 0 <= Y < 100 ->
  days_before_year (100 * c + Y + 1) = 146097 * c / 4 + 1461 * Y / 4 - 719468 + 306.
Proof.
  intros H. unfold days_before_year. replace (100 * c + Y + 1 - 1) with (100 * c + Y) by lia.
  Z.to_euclidean_division_equations; lia.
Qed.

Lemma march_date_spec c Y m k : 0 <= Y < 100 -> 2 <= m <= 13 -> 0 <= k ->
  march_start m + k < march_start (m + 1) ->
  (march_start m + k = 365 -> leap (100 * c + Y + 1) = true) ->
  valid_date (march_date c Y m (k + 1)) /\
  day_number (march_date c Y m (k + 1)) =
    146097 * c / 4 + 1461 * Y / 4 - 719468 + march_start m + k.
Proof.
  intros HY Hm Hk Hb Hl. unfold march_date.
  destruct (Z.leb_spec 12 m) as [L|L].
  - unfold day_number, valid_date; simpl. rewrite march_year_next by done.
    assert (m = 12 \/ m = 13) as [-> | ->] by lia;
      unfold days_before_month, month_days, march_start in *; simpl in *.
    + lia.
    + destruct (leap _); simpl; [lia |]. assert (337 + k <> 365) by (intros E; discriminate (Hl E)).
      lia.
  - pose proof (march_year c Y HY). unfold day_number, valid_date; simpl.
    assert (0 <= m < 12) as Hm' by lia. rewrite days_before_month_eq by done.
    revert Hb. months Hm'; try lia; unfold month_days, march_start; simpl; lia.
Qed.

(** ** [computational_date] gives the date of the day *)

Definition date_of_fields (f : Z * Z * Z * Z) : date :=
  let '(y, m, k, _) := f in Date (y + 1900) m k.

(** The last step: the fields name the date of the split. *)
Lemma gregorian_date_spec c Y D : 0 <= c < 2 ^ 50 -> 0 <= Y < 100 -> 0 <= D < 366 ->
  exists m k, 2 <= m <= 13 /\ 0 <= k /\ D = march_start m + k /\ D < march_start (m + 1)
  /\ date_of_fields (gregorian_date c Y D) = march_date (c - era_centuries) Y m (k + 1)
  /\ (gregorian_date c Y D).2 =
       (if 12 <=? m then D - 306 else D + 59 + Z.b2z (leap (100 * (c - era_centuries) + Y))).
Proof.
  intros Hc HY HD. pose proof (month_check D HD) as M. unfold month_ok in M.
  unfold gregorian_date. rewrite (u32_id (2141 * D + 132377)) by cint.
  change (u16 (2141 * D + 132377)) with ((2141 * D + 132377) mod 2 ^ 16).
  set (m := Z.shiftr (2141 * D + 132377) 16) in *.
  set (k := (2141 * D + 132377) mod 2 ^ 16 / 2141) in *.
  apply andb_prop in M as [M E]. rewrite eqb_true_iff in E.
  assert (k < 31) by (unfold k; Z.to_euclidean_division_equations; lia).
  exists m, k. do 4 (split; [lia |]). unfold march_date, date_of_fields; cbn [snd].
  rewrite E, <- leap_of_split by done. unfold era_centuries.
  destruct (Z.leb_spec 306 D); simpl; (split; [f_equal; cint |]);
    [cint | destruct (leap _); cbn [Z.b2z]; cint].
Qed.

Definition day_range (days : Z) : Prop := - 2 ^ 58 <= days < 2 ^ 58.

Lemma computational_date_spec days : day_range days ->
  let f := computational_date days in
  valid_date (date_of_fields f) /\ day_number (date_of_fields f) = days
  /\ f.2 = days_before_month (d_year (date_of_fields f)) (d_mon (date_of_fields f))
           + (d_day (date_of_fields f) - 1).
Proof.
  intros R. unfold day_range in R. unfold computational_date.
  assert (u64 (u64 days + 2305843009213814918) = days + 2305843009213814918) as -> by cint.
  set (N := days + 2305843009213814918).
  rewrite (u64_id (4 * N + 3)) by (unfold is_u64, N; lia).
  set (c := (4 * N + 3) / 146097). set (r := (4 * N + 3) mod 146097 / 4).
  destruct (split_days N c r eq_refl eq_refl) as (Hr & EN & Hlast).
  rewrite (u32_id r), (u32_id (4 * r + 3)), (u64_id (2939745 * _)) by cint.
  destruct (century_check r _ Hr eq_refl) as [E1 E2].
  set (Y := (4 * r + 3) / 1461) in *. set (D := (4 * r + 3) mod 1461 / 4).
  destruct (split_century r Y D Hr eq_refl eq_refl) as (HY & HD & Er & HL).
  rewrite E1, (u32_id Y) by cint.
  replace (u32 (2939745 * (4 * r + 3)) / 2939745 / 4) with D by (unfold u32, D; rewrite E2; done).
  assert (Hc : 0 <= c < 2 ^ 50) by (unfold c, N; Z.to_euclidean_division_equations; lia).
  destruct (gregorian_date_spec c Y D Hc HY HD) as (m & k & Hm & Hk & ED & HDm & -> & ->).
  destruct (march_date_spec (c - era_centuries) Y m k HY Hm Hk) as [V EV].
  { rewrite <- ED. done. }
  { intros E. rewrite leap_next by done. unfold era_centuries.
    rewrite <- ED in E. destruct (HL E) as [H1 H2].
    destruct (Z.eqb_spec Y 99) as [EY|]; [specialize (Hlast (H2 EY)) |];
      apply Z.eqb_eq; Z.to_euclidean_division_equations; lia. }
  split; [exact V |]. rewrite EV. unfold era_centuries in *.
  split; [unfold N in *; Z.to_euclidean_division_equations; lia |].
  unfold march_date. destruct (Z.leb_spec 12 m); simpl.
  - assert (m = 12 \/ m = 13) as [-> | ->] by lia; unfold march_start in *; simpl in *;
      unfold days_before_month, month_days; simpl; lia.
  - rewrite days_before_month_eq by lia. destruct (Z.ltb_spec m 2); [lia |].
    rewrite ED. assert (0 <= m < 12) as Hm' by lia. unfold march_start.
    clear -Hm' Hm. months Hm'; simpl; lia.
Qed.

(** ** The loops on the seconds of the day *)

Lemma rem_up_spec n rem days : - Z.of_nat n * SECS_PER_DAY <= rem ->
  - 2 ^ 40 <= rem < 2 ^ 40 -> - 2 ^ 58 + Z.of_nat n <= days < 2 ^ 58 ->
  exists i, 0 <= i <= Z.of_nat n /\ (i <> 0 -> rem + i * SECS_PER_DAY < SECS_PER_DAY)
  /\ 0 <= rem + i * SECS_PER_DAY
  /\ rem_up n rem days = Some (rem + i * SECS_PER_DAY, days - i).
Proof.
  change SECS_PER_DAY with 86400.
  revert rem days. induction n as [|n IH]; intros rem days Hf Hr Hd; cbn [rem_up];
    change SECS_PER_DAY with 86400;
    (destruct (Z.ltb_spec rem 0);
      [| exists 0; repeat split; try lia; do 2 f_equal; lia]); [lia |].
  rewrite !s64_id by (unfold is_s64; lia).
  destruct (IH (rem + 86400) (days - 1)) as (i & Hi & Hl & H0 & ->); [lia.. |].
  exists (i + 1). repeat split; [lia.. | do 2 f_equal; lia].
Qed.

Lemma rem_down_spec n rem days : rem < (Z.of_nat n + 1) * SECS_PER_DAY ->
  0 <= rem < 2 ^ 40 -> - 2 ^ 58 <= days < 2 ^ 58 - Z.of_nat n ->
  exists i, 0 <= i <= Z.of_nat n /\ 0 <= rem - i * SECS_PER_DAY < SECS_PER_DAY
  /\ rem_down n rem days = Some (rem - i * SECS_PER_DAY, days + i).
Proof.
  change SECS_PER_DAY with 86400.
  revert rem days. induction n as [|n IH]; intros rem days Hf Hr Hd; cbn [rem_down];
    change SECS_PER_DAY with 86400;
    (destruct (Z.leb_spec 86400 rem);
      [| exists 0; repeat split; try lia; do 2 f_equal; lia]); [lia |].
  rewrite !s64_id by (unfold is_s64; lia).
  destruct (IH (rem - 86400) (days + 1)) as (i & Hi & H0 & ->); [lia.. |].
  exists (i + 1). repeat split; [lia.. | do 2 f_equal; lia].
Qed.

(** Both loops bring the seconds into the day and move the day with them. *)
Lemma rem_loops rem days : - 2 ^ 33 <= rem < 2 ^ 33 -> - 2 ^ 50 <= days < 2 ^ 50 ->
  exists rem' days',
    (p ← rem_up (loop_fuel rem) rem days; rem_down (loop_fuel p.1) p.1 p.2)
      = Some (rem', days')
  /\ 0 <= rem' < SECS_PER_DAY /\ - 2 ^ 51 <= days' < 2 ^ 51
  /\ days' * SECS_PER_DAY + rem' = days * SECS_PER_DAY + rem.
Proof.
  intros Hr Hd.
  assert (F : forall x, - 2 ^ 33 <= x < 2 ^ 33 ->
    Z.of_nat (loop_fuel x) = Z.abs x / 86400 + 1 /\ Z.of_nat (loop_fuel x) < 2 ^ 20
    /\ Z.abs x < Z.of_nat (loop_fuel x) * 86400).
  { intros x Hx. unfold loop_fuel. change SECS_PER_DAY with 86400.
    rewrite Z2Nat.id by (Z.to_euclidean_division_equations; lia).
    Z.to_euclidean_division_equations; lia. }
  pose proof (F rem Hr).
  destruct (rem_up_spec (loop_fuel rem) rem days) as (i & Hi & Hl & H0 & ->);
    [change SECS_PER_DAY with 86400; lia.. |].
  change SECS_PER_DAY with 86400 in *. cbn [mbind option_bind fst snd].
  pose proof (F (rem + i * 86400) ltac:(lia)).
  destruct (rem_down_spec (loop_fuel (rem + i * 86400)) (rem + i * 86400) (days - i))
    as (j & Hj & Hj' & ->); [change SECS_PER_DAY with 86400; lia.. |].
  change SECS_PER_DAY with 86400 in *. eexists _, _. split; [done |]. lia.
Qed.

(** ** [time64_to_tm] *)

(** What the broken-down time says: a valid date and time of day that count
    [t] seconds, with the day of the week and of the year that belong to it. *)
Definition tm_of (r : tm) (t : Z) : Prop :=
  valid_date (tm_date r)
  /\ 0 <= tm_hour r < 24 /\ 0 <= tm_min r < 60 /\ 0 <= tm_sec r < 60
  /\ day_number (tm_date r) * SECS_PER_DAY + tm_clock r = t
  /\ tm_wday r = (4 + day_number (tm_date r)) mod 7
  /\ tm_yday r = days_before_month (tm_year r + 1900) (tm_mon r) + (tm_mday r - 1).

Lemma time64_to_tm_spec t off : is_s64 t -> is_s32 off ->
  exists r, time64_to_tm t off = Some r /\ tm_of r (t + off).
Proof.
  intros Ht Ho. unfold time64_to_tm.
  set (d0 := Z.quot t SECS_PER_DAY).
  assert (Hd0 : - 2 ^ 50 <= d0 < 2 ^ 50) by
    (unfold d0; change SECS_PER_DAY with 86400; cint).
  assert (Er : s64 (s32 (Z.rem t SECS_PER_DAY) + off) = Z.rem t SECS_PER_DAY + off).
  { change SECS_PER_DAY with 86400. cint. }
  rewrite Er. destruct (rem_loops (Z.rem t SECS_PER_DAY + off) d0) as (rem & days & EL & H0 & Hd & E);
    [change SECS_PER_DAY with 86400; cint | done |].
  destruct (rem_up _ _ _) as [[r1 d1]|]; [| done]. cbn [mbind option_bind fst snd] in EL |- *.
  rewrite EL; cbn [mbind option_bind].
  destruct (computational_date_spec days) as (V & N & Y); [unfold day_range; lia |].
  destruct (computational_date days) as [[[y m] k] yd]. cbn [date_of_fields snd] in V, N, Y.
  eexists. split; [reflexivity |]. unfold tm_of, tm_date, tm_clock; cbn [tm_sec tm_min tm_hour
    tm_mday tm_mon tm_year tm_wday tm_yday d_year d_mon d_day].
  rewrite N. split; [exact V |].
  change SECS_PER_DAY with 86400 in *. change SECS_PER_HOUR with 3600 in *.
  assert (t = d0 * 86400 + Z.rem t 86400) by (unfold d0; cint).
  split_and!; [cint.. | | exact Y].
  rewrite (s64_id (4 + days)) by cint. rewrite (s32_id (Z.rem _ _)) by cint.
  destruct (Z.ltb_spec (Z.rem (4 + days) 7) 0); cint.
Qed.

(** ** [mktime64] *)

(** The years whose 365-fold fits an [unsigned int]. *)
Definition mk_year (y : Z) : Prop := 1 <= y <= 11767033.

Lemma mktime64_spec y m k h mi s : mk_year y -> 0 <= m < 12 -> 0 <= k <= 31 ->
  is_u32 h -> is_u32 mi -> is_u32 s ->
  mktime64 y (m + 1) k h mi s =
    day_number (Date y m k) * SECS_PER_DAY + ((h * 60 + mi) * 60 + s).
Proof.
  intros Hy Hm Hk Hh Hmi Hs. unfold mk_year in Hy. unfold mktime64, day_number; simpl.
  rewrite days_before_month_eq by done. change SECS_PER_DAY with 86400.
  assert (L : forall a : Z, - 2 ^ 40 <= a < 2 ^ 40 ->
    s64 (s64 (s64 (s64 a * 24 + h) * 60 + mi) * 60 + s) = a * 86400 + ((h * 60 + mi) * 60 + s))
    by (intros; cint).
  assert (E : Z.b2z (leap y) + days_before_year y + 59 =
    365 * y + y / 4 - y / 100 + y / 400 - 719468)
    by (rewrite leap_b2z; unfold days_before_year; lia).
  assert (E0 : days_before_year y = 365 * (y - 1) + (y - 1) / 4 - (y - 1) / 100 + (y - 1) / 400
    - 719162) by reflexivity.
  assert (y / 4 <= 3000000 /\ y / 100 <= 120000 /\ y / 400 <= 30000
    /\ 0 <= y / 100 <= y / 4 /\ 0 <= y / 400 /\ (y - 1) / 4 <= 3000000
    /\ 0 <= (y - 1) / 100 <= (y - 1) / 4 /\ 0 <= (y - 1) / 400 <= 30000)
    by (Z.to_euclidean_division_equations; lia).
  rewrite (u32_id (y - 1)) by (unfold is_u32; lia).
  months Hm; simpl;
    match goal with |- context [u32 (367 * ?x) / 12] =>
      let v := eval vm_compute in (u32 (367 * x) / 12) in
      change (u32 (367 * x) / 12) with v end;
    rewrite (u32_id (_ + k)) by (unfold is_u32; lia);
    rewrite ?(u32_id (y * 365)), ?(u32_id ((y - 1) * 365)) by (unfold is_u32; lia);
    rewrite L by lia; lia.
Qed.
