(* ===== verification/Timespec.v ===== *)
(** * Seconds and nanoseconds: [struct timespec64] and [ktime_t]

    The conversions of [include/linux/time64.h], [include/linux/ktime.h],
    [include/vdso/math64.h] and [kernel/time/time.c] that the timekeeper uses.
    A loop carries fuel computed from its argument; the lemmas show that the
    fuel is enough by giving the value of the loop. *)
From S2P Require Import Prelude.

Definition NSEC_PER_SEC : Z := 1000000000.
Definition NSEC_PER_USEC : Z := 1000.
Definition USEC_PER_SEC : Z := 1000000.
Definition TIME64_MAX : Z := 2 ^ 63 - 1.
Definition KTIME_MAX : Z := 2 ^ 63 - 1.
Definition KTIME_MIN : Z := - KTIME_MAX - 1.
Definition KTIME_SEC_MAX : Z := Z.quot KTIME_MAX NSEC_PER_SEC.
Definition KTIME_SEC_MIN : Z := Z.quot KTIME_MIN NSEC_PER_SEC.
Definition TIME_UPTIME_SEC_MAX : Z := 30 * 365 * 24 * 3600.
Definition TIME_SETTOD_SEC_MAX : Z := KTIME_SEC_MAX - TIME_UPTIME_SEC_MAX.

(** [struct timespec64] *)
Record timespec64 := Timespec { tv_sec : Z; tv_nsec : Z }.

#[global] Instance timespec64_eq_dec : EqDecision timespec64.
Proof. solve_decision. Defined.

Fixpoint norm_down (fuel : nat) (sec nsec : Z) : Z * Z :=
  if NSEC_PER_SEC <=? nsec
  then match fuel with
       | O => (sec, nsec)
       | S f => norm_down f (s64 (sec + 1)) (s64 (nsec - NSEC_PER_SEC))
       end
  else (sec, nsec).

Fixpoint norm_up (fuel : nat) (sec nsec : Z) : Z * Z :=
  if nsec <? 0
  then match fuel with
       | O => (sec, nsec)
       | S f => norm_up f (s64 (sec - 1)) (s64 (nsec + NSEC_PER_SEC))
       end
  else (sec, nsec).

Definition norm_fuel (nsec : Z) : nat := Z.to_nat (Z.abs nsec / NSEC_PER_SEC + 1).

Definition set_normalized_timespec64 (sec nsec : Z) : timespec64 :=
  let '(sec, nsec) := norm_down (norm_fuel nsec) sec nsec in
  let '(sec, nsec) := norm_up (norm_fuel nsec) sec nsec in
  Timespec sec nsec.

Definition timespec64_add (lhs rhs : timespec64) : timespec64 :=
  set_normalized_timespec64 (s64 (tv_sec lhs + tv_sec rhs)) (s64 (tv_nsec lhs + tv_nsec rhs)).

Definition timespec64_sub (lhs rhs : timespec64) : timespec64 :=
  set_normalized_timespec64 (s64 (tv_sec lhs - tv_sec rhs)) (s64 (tv_nsec lhs - tv_nsec rhs)).

Definition timespec64_compare (lhs rhs : timespec64) : Z :=
  if tv_sec lhs <? tv_sec rhs then -1
  else if tv_sec rhs <? tv_sec lhs then 1
  else s32 (tv_nsec lhs - tv_nsec rhs).

Definition timespec64_valid (ts : timespec64) : bool :=
  if tv_sec ts <? 0 then false
  else if NSEC_PER_SEC <=? u64 (tv_nsec ts) then false else true.

Definition timespec64_valid_strict (ts : timespec64) : bool :=
  if negb (timespec64_valid ts) then false
  else if KTIME_SEC_MAX <=? u64 (tv_sec ts) then false else true.

Definition timespec64_valid_settod (ts : timespec64) : bool :=
  if negb (timespec64_valid ts) then false
  else if TIME_SETTOD_SEC_MAX <=? u64 (tv_sec ts) then false else true.

Definition timespec64_to_ns (ts : timespec64) : Z :=
  if KTIME_SEC_MAX <=? tv_sec ts then KTIME_MAX
  else if tv_sec ts <=? KTIME_SEC_MIN then KTIME_MIN
  else s64 (s64 (tv_sec ts * NSEC_PER_SEC) + tv_nsec ts).

Definition ns_to_timespec64 (nsec : Z) : timespec64 :=
  if 0 <? nsec then Timespec (nsec / NSEC_PER_SEC) (s32 (nsec mod NSEC_PER_SEC))
  else if nsec <? 0
  then let n := u64 (- nsec - 1) in
       Timespec (s64 (- (n / NSEC_PER_SEC) - 1))
         (NSEC_PER_SEC - s32 (n mod NSEC_PER_SEC) - 1)
  else Timespec 0 0.

Fixpoint iter_div_loop (fuel : nat) (dividend divisor ret : Z) : Z * Z :=
  if divisor <=? dividend
  then match fuel with
       | O => (ret, dividend)
       | S f => iter_div_loop f (u64 (dividend - divisor)) divisor (u32 (ret + 1))
       end
  else (ret, dividend).

Definition __iter_div_u64_rem (dividend divisor : Z) : Z * Z :=
  iter_div_loop (Z.to_nat (dividend / divisor)) dividend divisor 0.

Definition timespec64_add_ns (a : timespec64) (ns : Z) : timespec64 :=
  let '(q, r) := __iter_div_u64_rem (u64 (tv_nsec a + ns)) NSEC_PER_SEC in
  Timespec (s64 (tv_sec a + q)) (s64 r).

(** [ktime_t] *)
Definition ktime_set (secs nsecs : Z) : Z :=
  if KTIME_SEC_MAX <=? secs then KTIME_MAX else s64 (secs * NSEC_PER_SEC + s64 nsecs).
Definition ktime_add (lhs rhs : Z) : Z := s64 (lhs + rhs).
Definition ktime_sub (lhs rhs : Z) : Z := s64 (lhs - rhs).
Definition ktime_add_ns (kt nsval : Z) : Z := s64 (u64 (kt + nsval)).
Definition ktime_divns (kt div : Z) : Z := Z.quot kt div.
Definition timespec64_to_ktime (ts : timespec64) : Z := ktime_set (tv_sec ts) (tv_nsec ts).
Definition ktime_to_timespec64 (kt : Z) : timespec64 := ns_to_timespec64 kt.

(** ** Values *)

(** Nanoseconds that a timespec stands for, without the machine's bounds. *)
Definition ts_ns (ts : timespec64) : Z := tv_sec ts * NSEC_PER_SEC + tv_nsec ts.

(** Normal form: the nanoseconds are less than a second. *)
Definition ts_norm (ts : timespec64) : Prop := 0 <= tv_nsec ts < NSEC_PER_SEC.

(** Seconds whose nanoseconds fit a [ktime_t] with a margin. *)
Definition sec_ok (s : Z) : Prop := - 9100000000 <= s <= 9100000000.

Lemma NSEC_eq : NSEC_PER_SEC = 1000000000. Proof. reflexivity. Qed.
Lemma KTIME_SEC_MAX_eq : KTIME_SEC_MAX = 9223372036. Proof. reflexivity. Qed.

Ltac nanos := rewrite ?NSEC_eq, ?KTIME_SEC_MAX_eq in *.

Lemma norm_down_spec n sec nsec : nsec < (Z.of_nat n + 1) * NSEC_PER_SEC ->
  is_s64 nsec -> - 2 ^ 62 <= sec < 2 ^ 62 - Z.of_nat n ->
  exists i, 0 <= i /\ norm_down n sec nsec = (sec + i, nsec - i * NSEC_PER_SEC)
  /\ nsec - i * NSEC_PER_SEC < NSEC_PER_SEC /\ (i <> 0 -> 0 <= nsec - i * NSEC_PER_SEC).
Proof.
  revert sec nsec. induction n as [|n IH]; intros sec nsec Hf Hn Hs; cbn [norm_down]; nanos;
    (destruct (Z.leb_spec 1000000000 nsec);
      [| exists 0; repeat split; try lia; f_equal; lia]); [lia |].
  rewrite !s64_id by (unfold is_s64 in *; lia).
  destruct (IH (sec + 1) (nsec - 1000000000)) as (i & Hi & -> & H0 & H1);
    [lia | unfold is_s64 in *; lia | lia |].
  exists (i + 1). repeat split; [lia | f_equal; lia | lia | lia].
Qed.

Lemma norm_up_spec n sec nsec : - Z.of_nat n * NSEC_PER_SEC <= nsec ->
  is_s64 nsec -> - 2 ^ 62 + Z.of_nat n <= sec < 2 ^ 62 ->
  exists i, 0 <= i /\ norm_up n sec nsec = (sec - i, nsec + i * NSEC_PER_SEC)
  /\ 0 <= nsec + i * NSEC_PER_SEC /\ (i <> 0 -> nsec + i * NSEC_PER_SEC < NSEC_PER_SEC).
Proof.
  revert sec nsec. induction n as [|n IH]; intros sec nsec Hf Hn Hs; cbn [norm_up]; nanos;
    (destruct (Z.ltb_spec nsec 0);
      [| exists 0; repeat split; try lia; f_equal; lia]); [lia |].
  rewrite !s64_id by (unfold is_s64 in *; lia).
  destruct (IH (sec - 1) (nsec + 1000000000)) as (i & Hi & -> & H0 & H1);
    [lia | unfold is_s64 in *; lia | lia |].
  exists (i + 1). repeat split; [lia | f_equal; lia | lia | lia].
Qed.

Lemma norm_fuel_ok nsec : is_s64 nsec ->
  Z.abs nsec < Z.of_nat (norm_fuel nsec) * NSEC_PER_SEC /\ Z.of_nat (norm_fuel nsec) < 2 ^ 40.
Proof.
  intros H. unfold norm_fuel. nanos. rewrite Z2Nat.id by (Z.to_euclidean_division_equations; lia).
  cint.
Qed.

(** Normalising keeps the value and gives the normal form. *)
Lemma set_normalized_spec sec nsec : is_s64 nsec -> - 2 ^ 61 <= sec < 2 ^ 61 ->
  ts_norm (set_normalized_timespec64 sec nsec)
  /\ ts_ns (set_normalized_timespec64 sec nsec) = sec * NSEC_PER_SEC + nsec.
Proof.
  intros Hn Hs. unfold set_normalized_timespec64.
  pose proof (norm_fuel_ok nsec Hn).
  destruct (norm_down_spec (norm_fuel nsec) sec nsec) as (i & Hi & -> & H0 & H1);
    [nanos; lia | done | lia |].
  assert (Hn' : is_s64 (nsec - i * NSEC_PER_SEC)) by (nanos; unfold is_s64 in *; lia).
  pose proof (norm_fuel_ok _ Hn').
  destruct (norm_up_spec (norm_fuel (nsec - i * NSEC_PER_SEC)) (sec + i)
    (nsec - i * NSEC_PER_SEC)) as (j & Hj & -> & Hj0 & Hj1);
    [nanos; lia | done | nanos; unfold is_s64 in *; lia |].
  unfold ts_norm, ts_ns; simpl. nanos. lia.
Qed.

Lemma ts_norm_inj a b : ts_norm a -> ts_norm b -> ts_ns a = ts_ns b -> a = b.
Proof.
  destruct a as [s n], b as [s' n']; unfold ts_norm, ts_ns; simpl; nanos. intros. f_equal; lia.
Qed.

Lemma timespec64_add_spec a b : ts_norm a -> ts_norm b ->
  - 2 ^ 60 <= tv_sec a < 2 ^ 60 -> - 2 ^ 60 <= tv_sec b < 2 ^ 60 ->
  ts_norm (timespec64_add a b) /\ ts_ns (timespec64_add a b) = ts_ns a + ts_ns b.
Proof.
  unfold ts_norm, timespec64_add. intros Ha Hb Sa Sb. nanos.
  rewrite !s64_id by (unfold is_s64; lia).
  destruct (set_normalized_spec (tv_sec a + tv_sec b) (tv_nsec a + tv_nsec b)) as [H1 H2];
    [unfold is_s64; lia | lia |].
  split; [exact H1 |]. rewrite H2. unfold ts_ns. lia.
Qed.

Lemma timespec64_sub_spec a b : ts_norm a -> ts_norm b ->
  - 2 ^ 60 <= tv_sec a < 2 ^ 60 -> - 2 ^ 60 <= tv_sec b < 2 ^ 60 ->
  ts_norm (timespec64_sub a b) /\ ts_ns (timespec64_sub a b) = ts_ns a - ts_ns b.
Proof.
  unfold ts_norm, timespec64_sub. intros Ha Hb Sa Sb. nanos.
  rewrite !s64_id by (unfold is_s64; lia).
  destruct (set_normalized_spec (tv_sec a - tv_sec b) (tv_nsec a - tv_nsec b)) as [H1 H2];
    [unfold is_s64; lia | lia |].
  split; [exact H1 |]. rewrite H2. unfold ts_ns. lia.
Qed.

Lemma timespec64_compare_spec a b : ts_norm a -> ts_norm b ->
  (0 <? timespec64_compare a b) = (ts_ns b <? ts_ns a).
Proof.
  unfold ts_norm, timespec64_compare, ts_ns. intros Ha Hb. nanos.
  rewrite s32_id by (unfold is_s32; lia). repeat case_match; lia.
Qed.

Lemma ktime_set_spec s n : sec_ok s -> 0 <= n < NSEC_PER_SEC ->
  ktime_set s n = s * NSEC_PER_SEC + n.
Proof.
  unfold sec_ok, ktime_set. intros. nanos. destruct (Z.leb_spec 9223372036 s); cint.
Qed.

Lemma timespec64_to_ktime_spec ts : ts_norm ts -> sec_ok (tv_sec ts) ->
  timespec64_to_ktime ts = ts_ns ts.
Proof. intros N S. unfold timespec64_to_ktime, ts_ns. by apply ktime_set_spec. Qed.

Lemma ns_to_timespec64_spec n : is_s64 n ->
  ts_norm (ns_to_timespec64 n) /\ ts_ns (ns_to_timespec64 n) = n.
Proof.
  intros H. unfold ns_to_timespec64, ts_norm, ts_ns. nanos.
  destruct (Z.ltb_spec 0 n), (Z.ltb_spec n 0); simpl; try lia; cint.
Qed.

Lemma iter_div_loop_spec n dividend divisor ret : 0 < divisor ->
  dividend < (Z.of_nat n + 1) * divisor -> is_u64 dividend -> 0 <= ret < 2 ^ 32 - Z.of_nat n ->
  iter_div_loop n dividend divisor ret = (ret + dividend / divisor, dividend mod divisor).
Proof.
  intros Hd. revert dividend ret.
  induction n as [|n IH]; intros x ret Hf Hx Hr; cbn [iter_div_loop];
    (destruct (Z.leb_spec divisor x);
     [| rewrite Z.div_small, Z.mod_small by (unfold is_u64 in *; lia); f_equal; lia]); [lia |].
  unfold is_u64 in *. rewrite u64_id, u32_id by (unfold is_u64, is_u32; lia).
  rewrite IH by lia.
  replace (x - divisor) with (x + -1 * divisor) by lia.
  rewrite Z.div_add, Z.mod_add by lia. f_equal. lia.
Qed.

Lemma timespec64_add_ns_spec a ns : ts_norm a -> - 2 ^ 61 <= tv_sec a < 2 ^ 61 ->
  0 <= ns < 4000000000 * NSEC_PER_SEC ->
  ts_norm (timespec64_add_ns a ns) /\ ts_ns (timespec64_add_ns a ns) = ts_ns a + ns.
Proof.
  unfold ts_norm, timespec64_add_ns, __iter_div_u64_rem, ts_ns. intros Ha Hs Hn. nanos.
  rewrite u64_id by (unfold is_u64; lia).
  set (x := tv_nsec a + ns).
  assert (0 <= x / 1000000000 < 4000000001) by (unfold x; Z.to_euclidean_division_equations; lia).
  rewrite iter_div_loop_spec;
    [| lia | rewrite Z2Nat.id by lia; unfold x; Z.to_euclidean_division_equations; lia
     | unfold is_u64, x; lia | rewrite Z2Nat.id; lia].
  simpl. rewrite !s64_id by (unfold is_s64, x in *; Z.to_euclidean_division_equations; lia).
  unfold x in *. Z.to_euclidean_division_equations; lia.
Qed.
