(* ===== verification/Ntp.v ===== *)
(** * NTP state of the kernel clock: [kernel/time/ntp.c]

    The static variables of the file are the record [ntp]; its functions map
    the record to a new one.  The configuration is the one of
    [arch/x86/configs/x86_64_defconfig]: [HZ] is 1000 and [CONFIG_NTP_PPS] is
    off, so that the [pps_*] hooks are empty.  The time of day that some
    functions read ([__ktime_get_real_seconds]) is an argument [now]; audit
    records are not part of the state. *)
From S2P Require Import Prelude Timespec.

Definition HZ : Z := 1000.
Definition USER_HZ : Z := 100.
Definition NTP_SCALE_SHIFT : Z := 32.
Definition NTP_INTERVAL_FREQ : Z := HZ.
Definition NTP_INTERVAL_LENGTH : Z := NSEC_PER_SEC / NTP_INTERVAL_FREQ.
Definition SHIFT_PLL : Z := 2.
Definition SHIFT_FLL : Z := 2.
Definition MAXTC : Z := 10.
Definition SHIFT_USEC : Z := 16.
Definition PPM_SCALE : Z := Z.shiftl NSEC_PER_USEC (NTP_SCALE_SHIFT - SHIFT_USEC).
Definition PPM_SCALE_INV_SHIFT : Z := 19.
Definition PPM_SCALE_INV : Z := Z.shiftl 1 (PPM_SCALE_INV_SHIFT + NTP_SCALE_SHIFT) / PPM_SCALE + 1.
Definition MAXPHASE : Z := 500000000.
Definition MAXFREQ : Z := 500000.
Definition MAXFREQ_SCALED : Z := Z.shiftl MAXFREQ NTP_SCALE_SHIFT.
Definition MINSEC : Z := 256.
Definition MAXSEC : Z := 2048.
Definition NTP_PHASE_LIMIT : Z := Z.shiftl (MAXPHASE / NSEC_PER_USEC) 5.
Definition NTP_SECS_PER_DAY : Z := 86400.
Definition MAX_TICKADJ : Z := 500.
Definition MAX_TICKADJ_SCALED : Z :=
  Z.shiftl (MAX_TICKADJ * NSEC_PER_USEC) NTP_SCALE_SHIFT / NTP_INTERVAL_FREQ.
Definition MAX_TAI_OFFSET : Z := 100000.

Definition ADJ_OFFSET : Z := 0x0001.
Definition ADJ_FREQUENCY : Z := 0x0002.
Definition ADJ_MAXERROR : Z := 0x0004.
Definition ADJ_ESTERROR : Z := 0x0008.
Definition ADJ_STATUS : Z := 0x0010.
Definition ADJ_TIMECONST : Z := 0x0020.
Definition ADJ_TAI : Z := 0x0080.
Definition ADJ_SETOFFSET : Z := 0x0100.
Definition ADJ_MICRO : Z := 0x1000.
Definition ADJ_NANO : Z := 0x2000.
Definition ADJ_TICK : Z := 0x4000.
Definition ADJ_ADJTIME : Z := 0x8000.
Definition ADJ_OFFSET_SINGLESHOT : Z := 0x0001.
Definition ADJ_OFFSET_READONLY : Z := 0x2000.

Definition STA_PLL : Z := 0x0001.
Definition STA_FLL : Z := 0x0008.
Definition STA_INS : Z := 0x0010.
Definition STA_DEL : Z := 0x0020.
Definition STA_UNSYNC : Z := 0x0040.
Definition STA_FREQHOLD : Z := 0x0080.
Definition STA_CLOCKERR : Z := 0x1000.
Definition STA_NANO : Z := 0x2000.
Definition STA_MODE : Z := 0x4000.
(** PPSSIGNAL, PPSJITTER, PPSWANDER, PPSERROR, CLOCKERR, NANO, MODE, CLK *)
Definition STA_RONLY : Z := 0xff00.

(** Clock states; [TIME_ERROR] is only ever a result. *)
Inductive clock_state := TIME_OK | TIME_INS | TIME_DEL | TIME_OOP | TIME_WAIT | TIME_ERROR.

#[global] Instance clock_state_eq_dec : EqDecision clock_state.
Proof. solve_decision. Defined.

(** The static variables of the file. *)
Record ntp := Ntp {
  tick_usec : Z;
  tick_nsec : Z;
  tick_length : Z;
  tick_length_base : Z;
  time_state : clock_state;
  time_status : Z;
  time_offset : Z;
  time_constant : Z;
  time_maxerror : Z;
  time_esterror : Z;
  time_freq : Z;
  time_reftime : Z;
  time_adjust : Z;
  ntp_tick_adj : Z;
  ntp_next_leap_sec : Z }.

#[export] Instance eta_ntp : Eta ntp := fun r =>
  Ntp (tick_usec r) (tick_nsec r) (tick_length r) (tick_length_base r) (time_state r)
    (time_status r) (time_offset r) (time_constant r) (time_maxerror r) (time_esterror
    r) (time_freq r) (time_reftime r) (time_adjust r) (ntp_tick_adj r)
    (ntp_next_leap_sec r).
#[export] Instance set_tick_usec : Setter tick_usec := ltac:(mk_setter).
#[export] Instance set_tick_nsec : Setter tick_nsec := ltac:(mk_setter).
#[export] Instance set_tick_length : Setter tick_length := ltac:(mk_setter).
#[export] Instance set_tick_length_base : Setter tick_length_base := ltac:(mk_setter).
#[export] Instance set_time_state : Setter time_state := ltac:(mk_setter).
#[export] Instance set_time_status : Setter time_status := ltac:(mk_setter).
#[export] Instance set_time_offset : Setter time_offset := ltac:(mk_setter).
#[export] Instance set_time_constant : Setter time_constant := ltac:(mk_setter).
#[export] Instance set_time_maxerror : Setter time_maxerror := ltac:(mk_setter).
#[export] Instance set_time_esterror : Setter time_esterror := ltac:(mk_setter).
#[export] Instance set_time_freq : Setter time_freq := ltac:(mk_setter).
#[export] Instance set_time_reftime : Setter time_reftime := ltac:(mk_setter).
#[export] Instance set_time_adjust : Setter time_adjust := ltac:(mk_setter).
#[export] Instance set_ntp_tick_adj : Setter ntp_tick_adj := ltac:(mk_setter).
#[export] Instance set_ntp_next_leap_sec : Setter ntp_next_leap_sec := ltac:(mk_setter).

(** [struct __kernel_timex] *)
Record timex := Timex {
  tx_modes : Z;
  tx_offset : Z;
  tx_freq : Z;
  tx_maxerror : Z;
  tx_esterror : Z;
  tx_status : Z;
  tx_constant : Z;
  tx_precision : Z;
  tx_tolerance : Z;
  tx_time_sec : Z;
  tx_time_usec : Z;
  tx_tick : Z;
  tx_ppsfreq : Z;
  tx_jitter : Z;
  tx_shift : Z;
  tx_stabil : Z;
  tx_jitcnt : Z;
  tx_calcnt : Z;
  tx_errcnt : Z;
  tx_stbcnt : Z;
  tx_tai : Z }.

#[export] Instance eta_timex : Eta timex := fun r =>
  Timex (tx_modes r) (tx_offset r) (tx_freq r) (tx_maxerror r) (tx_esterror r)
    (tx_status r) (tx_constant r) (tx_precision r) (tx_tolerance r) (tx_time_sec r)
    (tx_time_usec r) (tx_tick r) (tx_ppsfreq r) (tx_jitter r) (tx_shift r) (tx_stabil r)
    (tx_jitcnt r) (tx_calcnt r) (tx_errcnt r) (tx_stbcnt r) (tx_tai r).
#[export] Instance set_tx_modes : Setter tx_modes := ltac:(mk_setter).
#[export] Instance set_tx_offset : Setter tx_offset := ltac:(mk_setter).
#[export] Instance set_tx_freq : Setter tx_freq := ltac:(mk_setter).
#[export] Instance set_tx_maxerror : Setter tx_maxerror := ltac:(mk_setter).
#[export] Instance set_tx_esterror : Setter tx_esterror := ltac:(mk_setter).
#[export] Instance set_tx_status : Setter tx_status := ltac:(mk_setter).
#[export] Instance set_tx_constant : Setter tx_constant := ltac:(mk_setter).
#[export] Instance set_tx_precision : Setter tx_precision := ltac:(mk_setter).
#[export] Instance set_tx_tolerance : Setter tx_tolerance := ltac:(mk_setter).
#[export] Instance set_tx_time_sec : Setter tx_time_sec := ltac:(mk_setter).
#[export] Instance set_tx_time_usec : Setter tx_time_usec := ltac:(mk_setter).
#[export] Instance set_tx_tick : Setter tx_tick := ltac:(mk_setter).
#[export] Instance set_tx_ppsfreq : Setter tx_ppsfreq := ltac:(mk_setter).
#[export] Instance set_tx_jitter : Setter tx_jitter := ltac:(mk_setter).
#[export] Instance set_tx_shift : Setter tx_shift := ltac:(mk_setter).
#[export] Instance set_tx_stabil : Setter tx_stabil := ltac:(mk_setter).
#[export] Instance set_tx_jitcnt : Setter tx_jitcnt := ltac:(mk_setter).
#[export] Instance set_tx_calcnt : Setter tx_calcnt := ltac:(mk_setter).
#[export] Instance set_tx_errcnt : Setter tx_errcnt := ltac:(mk_setter).
#[export] Instance set_tx_stbcnt : Setter tx_stbcnt := ltac:(mk_setter).
#[export] Instance set_tx_tai : Setter tx_tai := ltac:(mk_setter).

Definition flag (x bits : Z) : bool := nonzero (Z.land x bits).

(** [shift_right]: shifts the absolute value. *)
Definition shift_right (x s : Z) : Z :=
  if x <? 0 then - Z.shiftr (s64 (- x)) s else Z.shiftr x s.

Definition clamp (x lo hi : Z) : Z := Z.min (Z.max x lo) hi.

Definition ntp_offset_chunk (n : ntp) (off : Z) : Z :=
  shift_right off (SHIFT_PLL + time_constant n).

Definition is_error_status (st : Z) : bool := flag st (Z.lor STA_UNSYNC STA_CLOCKERR).

Definition ntp_synced (n : ntp) : bool := negb (flag (time_status n) STA_UNSYNC).

Definition ntp_update_frequency (n : ntp) : ntp :=
  let second_length :=
    u64 (Z.shiftl (u64 (tick_usec n * NSEC_PER_USEC * USER_HZ)) NTP_SCALE_SHIFT) in
  let second_length := u64 (second_length + ntp_tick_adj n) in
  let second_length := u64 (second_length + time_freq n) in
  let new_base := second_length / NTP_INTERVAL_FREQ in
  n <| tick_nsec := Z.shiftr (second_length / HZ) NTP_SCALE_SHIFT |>
    <| tick_length := u64 (tick_length n + (new_base - tick_length_base n)) |>
    <| tick_length_base := new_base |>.

Definition ntp_update_offset_fll (n : ntp) (offset64 secs : Z) : ntp * Z :=
  let n := n <| time_status := Z.ldiff (time_status n) STA_MODE |> in
  if secs <? MINSEC then (n, 0)
  else if negb (flag (time_status n) STA_FLL) && (secs <=? MAXSEC) then (n, 0)
  else (n <| time_status := Z.lor (time_status n) STA_MODE |>,
        Z.quot (s64 (Z.shiftl offset64 (NTP_SCALE_SHIFT - SHIFT_FLL))) secs).

Definition ntp_update_offset (n : ntp) (now offset : Z) : ntp :=
  if negb (flag (time_status n) STA_PLL) then n
  else
  let offset :=
    if flag (time_status n) STA_NANO then offset
    else clamp offset (- USEC_PER_SEC) USEC_PER_SEC * NSEC_PER_USEC in
  let offset := clamp offset (- MAXPHASE) MAXPHASE in
  let secs := s64 (now - time_reftime n) in
  let secs := if flag (time_status n) STA_FREQHOLD then 0 else secs in
  let n := n <| time_reftime := now |> in
  let '(n, freq_adj) := ntp_update_offset_fll n offset secs in
  let limit := Z.shiftl 1 (SHIFT_PLL + 1 + time_constant n) in
  let secs := if limit <? secs then limit else secs in
  let freq_adj := s64 (freq_adj + s64 (Z.shiftl (s64 (offset * secs))
    (NTP_SCALE_SHIFT - 2 * (SHIFT_PLL + 2 + time_constant n)))) in
  let freq_adj := Z.min (s64 (freq_adj + time_freq n)) MAXFREQ_SCALED in
  n <| time_freq := Z.max freq_adj (- MAXFREQ_SCALED) |>
    <| time_offset := Z.quot (s64 (Z.shiftl offset NTP_SCALE_SHIFT)) NTP_INTERVAL_FREQ |>.

Definition ntp_clear (n : ntp) : ntp :=
  let n := n <| time_adjust := 0 |>
             <| time_status := Z.lor (time_status n) STA_UNSYNC |>
             <| time_maxerror := NTP_PHASE_LIMIT |>
             <| time_esterror := NTP_PHASE_LIMIT |> in
  let n := ntp_update_frequency n in
  n <| tick_length := tick_length_base n |>
    <| time_offset := 0 |>
    <| ntp_next_leap_sec := TIME64_MAX |>.

Definition ntp_tick_length (n : ntp) : Z := tick_length n.

Definition ntp_get_next_leap (n : ntp) : Z :=
  if bool_decide (time_state n = TIME_INS) && flag (time_status n) STA_INS
  then ktime_set (ntp_next_leap_sec n) 0
  else KTIME_MAX.

(** Leap second processing of [second_overflow]: the new state of the clock and
    the seconds to add. *)
Definition leap_step (n : ntp) (secs : Z) : ntp * Z :=
  match time_state n with
  | TIME_OK =>
      if flag (time_status n) STA_INS then
        (n <| time_state := TIME_INS |>
           <| ntp_next_leap_sec :=
                s64 (secs + NTP_SECS_PER_DAY - Z.rem secs NTP_SECS_PER_DAY) |>, 0)
      else if flag (time_status n) STA_DEL then
        (n <| time_state := TIME_DEL |>
           <| ntp_next_leap_sec :=
                s64 (secs + NTP_SECS_PER_DAY - Z.rem (s64 (secs + 1)) NTP_SECS_PER_DAY) |>, 0)
      else (n, 0)
  | TIME_INS =>
      if negb (flag (time_status n) STA_INS) then
        (n <| ntp_next_leap_sec := TIME64_MAX |> <| time_state := TIME_OK |>, 0)
      else if secs =? ntp_next_leap_sec n then (n <| time_state := TIME_OOP |>, -1)
      else (n, 0)
  | TIME_DEL =>
      if negb (flag (time_status n) STA_DEL) then
        (n <| ntp_next_leap_sec := TIME64_MAX |> <| time_state := TIME_OK |>, 0)
      else if secs =? ntp_next_leap_sec n then
        (n <| ntp_next_leap_sec := TIME64_MAX |> <| time_state := TIME_WAIT |>, 1)
      else (n, 0)
  | TIME_OOP =>
      (n <| ntp_next_leap_sec := TIME64_MAX |> <| time_state := TIME_WAIT |>, 0)
  | TIME_WAIT =>
      if negb (flag (time_status n) (Z.lor STA_INS STA_DEL))
      then (n <| time_state := TIME_OK |>, 0) else (n, 0)
  | TIME_ERROR => (n, 0)
  end.

Definition bump_maxerror (n : ntp) : ntp :=
  let n := n <| time_maxerror := s64 (time_maxerror n + MAXFREQ / NSEC_PER_USEC) |> in
  if NTP_PHASE_LIMIT <? time_maxerror n
  then n <| time_maxerror := NTP_PHASE_LIMIT |>
         <| time_status := Z.lor (time_status n) STA_UNSYNC |>
  else n.

(** The phase adjustment for the next second. *)
Definition phase_step (n : ntp) : ntp :=
  let n := n <| tick_length := tick_length_base n |> in
  let delta := ntp_offset_chunk n (time_offset n) in
  n <| time_offset := s64 (time_offset n - delta) |>
    <| tick_length := u64 (tick_length n + delta) |>.

(** The part of [adjtime] that the next second slews. *)
Definition adjust_step (n : ntp) : ntp :=
  if time_adjust n =? 0 then n
  else if MAX_TICKADJ <? time_adjust n then
    n <| time_adjust := time_adjust n - MAX_TICKADJ |>
      <| tick_length := u64 (tick_length n + MAX_TICKADJ_SCALED) |>
  else if time_adjust n <? - MAX_TICKADJ then
    n <| time_adjust := time_adjust n + MAX_TICKADJ |>
      <| tick_length := u64 (tick_length n - MAX_TICKADJ_SCALED) |>
  else
    n <| tick_length := u64 (tick_length n +
           Z.shiftl (Z.quot (time_adjust n * NSEC_PER_USEC) NTP_INTERVAL_FREQ)
             NTP_SCALE_SHIFT) |>
      <| time_adjust := 0 |>.

Definition second_overflow (n : ntp) (secs : Z) : ntp * Z :=
  let '(n, leap) := leap_step n secs in
  (adjust_step (phase_step (bump_maxerror n)), leap).

Definition process_adj_status (n : ntp) (now : Z) (txc : timex) : ntp :=
  let n :=
    if flag (time_status n) STA_PLL && negb (flag (tx_status txc) STA_PLL)
    then n <| time_state := TIME_OK |> <| time_status := STA_UNSYNC |>
           <| ntp_next_leap_sec := TIME64_MAX |>
    else n in
  let n :=
    if negb (flag (time_status n) STA_PLL) && flag (tx_status txc) STA_PLL
    then n <| time_reftime := now |> else n in
  n <| time_status :=
    Z.lor (Z.land (time_status n) STA_RONLY) (Z.ldiff (tx_status txc) STA_RONLY) |>.

Definition clamp_freq (freq : Z) : Z :=
  Z.max (Z.min (s64 (freq * PPM_SCALE)) MAXFREQ_SCALED) (- MAXFREQ_SCALED).

Definition clamp_constant (n : ntp) (constant : Z) : Z :=
  let tc := if flag (time_status n) STA_NANO then constant else s64 (constant + 4) in
  Z.max (Z.min tc MAXTC) 0.

(** A guarded update of the state. *)
Definition on (b : bool) (f : ntp -> ntp) (n : ntp) : ntp := if b then f n else n.

(** One step per mode bit, in the order of the code. *)
Definition process_adjtimex_modes (n : ntp) (now : Z) (txc : timex) (time_tai : Z) : ntp * Z :=
  let mode := flag (tx_modes txc) in
  let n := on (mode ADJ_STATUS) (fun n => process_adj_status n now txc) n in
  let n := on (mode ADJ_NANO)
    (fun n => n <| time_status := Z.lor (time_status n) STA_NANO |>) n in
  let n := on (mode ADJ_MICRO)
    (fun n => n <| time_status := Z.ldiff (time_status n) STA_NANO |>) n in
  let n := on (mode ADJ_FREQUENCY) (fun n => n <| time_freq := clamp_freq (tx_freq txc) |>) n in
  let n := on (mode ADJ_MAXERROR) (fun n => n <| time_maxerror := tx_maxerror txc |>) n in
  let n := on (mode ADJ_ESTERROR) (fun n => n <| time_esterror := tx_esterror txc |>) n in
  let n := on (mode ADJ_TIMECONST)
    (fun n => n <| time_constant := clamp_constant n (tx_constant txc) |>) n in
  let time_tai :=
    if mode ADJ_TAI && (0 <=? tx_constant txc) && (tx_constant txc <=? MAX_TAI_OFFSET)
    then tx_constant txc else time_tai in
  let n := on (mode ADJ_OFFSET) (fun n => ntp_update_offset n now (tx_offset txc)) n in
  let n := on (mode ADJ_TICK) (fun n => n <| tick_usec := u64 (tx_tick txc) |>) n in
  let n := on (mode (Z.lor (Z.lor ADJ_TICK ADJ_FREQUENCY) ADJ_OFFSET))
    ntp_update_frequency n in
  (n, time_tai).

Definition pps_fill_timex (txc : timex) : timex :=
  txc <| tx_ppsfreq := 0 |> <| tx_jitter := 0 |> <| tx_shift := 0 |> <| tx_stabil := 0 |>
      <| tx_jitcnt := 0 |> <| tx_calcnt := 0 |> <| tx_errcnt := 0 |> <| tx_stbcnt := 0 |>.

(** The fields reported back. *)
Definition fill_timex (n : ntp) (txc : timex) (ts : timespec64) (time_tai : Z) : timex :=
  let txc := txc
    <| tx_freq := shift_right (s64 (Z.shiftr (time_freq n) PPM_SCALE_INV_SHIFT * PPM_SCALE_INV))
                    NTP_SCALE_SHIFT |>
    <| tx_maxerror := time_maxerror n |> <| tx_esterror := time_esterror n |>
    <| tx_status := time_status n |> <| tx_constant := time_constant n |>
    <| tx_precision := 1 |> <| tx_tolerance := MAXFREQ_SCALED / PPM_SCALE |>
    <| tx_tick := s64 (tick_usec n) |> <| tx_tai := time_tai |> in
  let txc := pps_fill_timex txc in
  txc <| tx_time_sec := tv_sec ts |>
      <| tx_time_usec := if flag (time_status n) STA_NANO then tv_nsec ts
                         else Z.quot (tv_nsec ts) NSEC_PER_USEC |>.

(** The correction of the report at a pending leap second.  The three tests
    look at the state of the clock, which they do not change. *)
Definition leap_report (n : ntp) (txc : timex) (ts : timespec64) (result : clock_state)
    : timex * clock_state :=
  if ntp_next_leap_sec n <=? tv_sec ts then
    match time_state n with
    | TIME_INS =>
        if flag (time_status n) STA_INS
        then (txc <| tx_tai := s32 (tx_tai txc + 1) |>
                  <| tx_time_sec := s64 (tx_time_sec txc - 1) |>, TIME_OOP)
        else (txc, result)
    | TIME_DEL =>
        if flag (time_status n) STA_DEL
        then (txc <| tx_tai := s32 (tx_tai txc - 1) |>
                  <| tx_time_sec := s64 (tx_time_sec txc + 1) |>, TIME_WAIT)
        else (txc, result)
    | TIME_OOP =>
        if tv_sec ts =? ntp_next_leap_sec n then (txc, TIME_WAIT) else (txc, result)
    | _ => (txc, result)
    end
  else (txc, result).

(** [__do_adjtimex]: state, report, TAI offset and result. *)
Definition __do_adjtimex (n : ntp) (now : Z) (txc : timex) (ts : timespec64) (time_tai : Z)
    : ntp * timex * Z * clock_state :=
  let mode := flag (tx_modes txc) in
  let '(n, txc, time_tai) :=
    if mode ADJ_ADJTIME then
      let save_adjust := time_adjust n in
      let n := if mode ADJ_OFFSET_READONLY then n
               else ntp_update_frequency (n <| time_adjust := tx_offset txc |>) in
      (n, txc <| tx_offset := save_adjust |>, time_tai)
    else
      let '(n, time_tai) :=
        if nonzero (tx_modes txc) then process_adjtimex_modes n now txc time_tai
        else (n, time_tai) in
      let off := shift_right (s64 (time_offset n * NTP_INTERVAL_FREQ)) NTP_SCALE_SHIFT in
      let off := if flag (time_status n) STA_NANO then off else u32 off / NSEC_PER_USEC in
      (n, txc <| tx_offset := off |>, time_tai) in
  let result := if is_error_status (time_status n) then TIME_ERROR else time_state n in
  let txc := fill_timex n txc ts time_tai in
  let '(txc, result) := leap_report n txc ts result in
  (n, txc, time_tai, result).

(** Initial values of the static variables ([ntp_tick_adj] is a boot
    parameter); [ntp_init] clears them. *)
Definition ntp_static (tick_adj : Z) : ntp :=
  Ntp ((1000000 + USER_HZ / 2) / USER_HZ) 0 0 0 TIME_OK STA_UNSYNC 0 2 NTP_PHASE_LIMIT
    NTP_PHASE_LIMIT 0 0 0 tick_adj TIME64_MAX.

Definition ntp_init (tick_adj : Z) : ntp := ntp_clear (ntp_static tick_adj).
