(* ===== verification/NtpThms.v ===== *)
(** * NTP state: bounds, leap seconds, slewing

    The invariant of the static variables of [ntp.c] and its preservation by
    the entry points, and the course of a leap second over the ticks of the
    clock. *)
From S2P Require Import Prelude Timespec Ntp.

(** ** Bounds kept by every entry point *)

Definition OFFSET_MAX : Z := Z.shiftl MAXPHASE NTP_SCALE_SHIFT / NTP_INTERVAL_FREQ.

Definition ntp_ok (n : ntp) : Prop :=
  - MAXFREQ_SCALED <= time_freq n <= MAXFREQ_SCALED
  /\ 0 <= time_constant n <= MAXTC
  /\ - OFFSET_MAX <= time_offset n <= OFFSET_MAX.

Lemma OFFSET_MAX_eq : OFFSET_MAX = 2147483648000000. Proof. reflexivity. Qed.
Lemma MAXFREQ_SCALED_eq : MAXFREQ_SCALED = 2147483648000000. Proof. reflexivity. Qed.

(** Only the three fields matter. *)
Lemma ntp_ok_ext n n' : time_freq n' = time_freq n -> time_constant n' = time_constant n ->
  time_offset n' = time_offset n -> ntp_ok n -> ntp_ok n'.
Proof. unfold ntp_ok. intros -> -> ->. done. Qed.

(** [shift_right] shrinks towards zero. *)
Lemma shift_right_spec x s : - 2 ^ 62 <= x <= 2 ^ 62 -> 0 <= s ->
  (0 <= x -> 0 <= shift_right x s <= x) /\ (x <= 0 -> x <= shift_right x s <= 0).
Proof.
  intros Hx Hs. unfold shift_right.
  assert (B : forall y, 0 <= y -> 0 <= Z.shiftr y s <= y).
  { intros y Hy. rewrite Z.shiftr_div_pow2 by lia. assert (0 < 2 ^ s) by lia.
    split; [apply Z.div_pos; lia |]. apply Z.div_le_upper_bound; [lia |]. nia. }
  destruct (Z.ltb_spec x 0).
  - rewrite s64_id by (unfold is_s64; lia). specialize (B (- x)). lia.
  - specialize (B x). lia.
Qed.

Lemma leap_step_fields n secs :
  let n' := (leap_step n secs).1 in
  time_freq n' = time_freq n /\ time_constant n' = time_constant n
  /\ time_offset n' = time_offset n /\ time_status n' = time_status n
  /\ time_adjust n' = time_adjust n /\ tick_length_base n' = tick_length_base n.
Proof. unfold leap_step. destruct (time_state n) eqn:?; repeat case_match; done. Qed.

Lemma bump_maxerror_ok n : ntp_ok n -> ntp_ok (bump_maxerror n).
Proof. unfold bump_maxerror. case_match; by apply ntp_ok_ext. Qed.

Lemma phase_step_ok n : ntp_ok n -> ntp_ok (phase_step n).
Proof.
  intros (Hf & Hc & Ho). unfold ntp_ok, phase_step, ntp_offset_chunk; cbn.
  rewrite OFFSET_MAX_eq in *. unfold MAXTC in *.
  destruct (shift_right_spec (time_offset n) (SHIFT_PLL + time_constant n)) as [B1 B2];
    [lia | unfold SHIFT_PLL; lia |].
  rewrite s64_id by (unfold is_s64; lia). repeat split; lia.
Qed.

Lemma adjust_step_ok n : ntp_ok n -> ntp_ok (adjust_step n).
Proof. unfold adjust_step. repeat case_match; by apply ntp_ok_ext. Qed.

Lemma second_overflow_ok n secs : ntp_ok n -> ntp_ok (second_overflow n secs).1.
Proof.
  intros H. unfold second_overflow. pose proof (leap_step_fields n secs) as F.
  destruct (leap_step n secs) as [n1 leap]; cbn in *.
  apply adjust_step_ok, phase_step_ok, bump_maxerror_ok.
  destruct F as (E1 & E2 & E3 & _). by apply (ntp_ok_ext n).
Qed.

Lemma ntp_update_offset_ok n now off : ntp_ok n -> ntp_ok (ntp_update_offset n now off).
Proof.
  intros (Hf & Hc & Ho). unfold ntp_update_offset. case_match; [done |].
  set (o := clamp _ (- MAXPHASE) MAXPHASE).
  assert (HO : - MAXPHASE <= o <= MAXPHASE) by (unfold o, clamp, MAXPHASE; lia).
  destruct (ntp_update_offset_fll _ o _) as [n1 fa] eqn:E.
  assert (F : time_constant n1 = time_constant n).
  { unfold ntp_update_offset_fll in E. repeat case_match; by simplify_eq. }
  unfold ntp_ok; cbn. rewrite F. split_and!; try lia.
  all: rewrite ?MAXFREQ_SCALED_eq, ?OFFSET_MAX_eq; try lia.
  all: rewrite Z.shiftl_mul_pow2 by (unfold NTP_SCALE_SHIFT; lia);
    unfold NTP_SCALE_SHIFT, NTP_INTERVAL_FREQ, HZ, MAXPHASE in *; clear -HO; cint.
Qed.

Lemma on_ok b f n : ntp_ok n -> (forall m, ntp_ok m -> ntp_ok (f m)) -> ntp_ok (on b f n).
Proof. destruct b; cbn; auto. Qed.

Lemma process_adj_status_ok n now txc : ntp_ok n -> ntp_ok (process_adj_status n now txc).
Proof. unfold process_adj_status. repeat case_match; by apply ntp_ok_ext. Qed.

Lemma process_adjtimex_modes_ok n now txc tai :
  ntp_ok n -> ntp_ok (process_adjtimex_modes n now txc tai).1.
Proof.
  intros H. unfold process_adjtimex_modes. cbn [fst].
  repeat (apply on_ok; [| intros m Hm]); try done;
    try (by apply (ntp_ok_ext m)).
  - by apply process_adj_status_ok.
  - destruct Hm as (Hf & Hc & Ho). unfold ntp_ok; cbn. unfold clamp_freq.
    rewrite MAXFREQ_SCALED_eq. lia.
  - destruct Hm as (Hf & Hc & Ho). unfold ntp_ok; cbn. unfold clamp_constant, MAXTC. lia.
  - by apply ntp_update_offset_ok.
Qed.

Lemma do_adjtimex_ok n now txc ts tai :
  ntp_ok n -> ntp_ok (__do_adjtimex n now txc ts tai).1.1.1.
Proof.
  intros H. unfold __do_adjtimex. destruct (flag _ ADJ_ADJTIME).
  - destruct (leap_report _ _ _ _); cbn. case_match; [done |]. by apply (ntp_ok_ext n).
  - pose proof (process_adjtimex_modes_ok n now txc tai H).
    destruct (nonzero _); [| by destruct (leap_report _ _ _ _)].
    destruct (process_adjtimex_modes n now txc tai); by destruct (leap_report _ _ _ _).
Qed.

Lemma ntp_clear_ok n : ntp_ok n -> ntp_ok (ntp_clear n).
Proof. intros (Hf & Hc & Ho). unfold ntp_ok; cbn. rewrite OFFSET_MAX_eq. lia. Qed.

Lemma ntp_init_ok tick_adj : ntp_ok (ntp_init tick_adj).
Proof.
  unfold ntp_ok, ntp_init; cbn. rewrite OFFSET_MAX_eq, MAXFREQ_SCALED_eq. unfold MAXTC. lia.
Qed.

(** ** The course of a leap second

    [clock_tick] is the turn of the loop of [accumulate_nsecs_to_secs] as the
    seconds see it: count one, let NTP process the overflow, apply the leap. *)
Definition clock_tick (st : ntp * Z) : ntp * Z :=
  let '(n, s) := st in
  let s := s + 1 in
  let '(n, leap) := second_overflow n s in
  (n, s + leap).

Definition clock_after (k : nat) (st : ntp * Z) : ntp * Z := Nat.iter k clock_tick st.

(** What the later steps of [second_overflow] leave alone. *)
Definition leap_fields (n : ntp) : clock_state * Z * Z :=
  (time_state n, ntp_next_leap_sec n, Z.land (time_status n) (Z.lor STA_INS STA_DEL)).

Lemma flag_unsync st bits : Z.land bits STA_UNSYNC = 0 ->
  Z.land (Z.lor st STA_UNSYNC) bits = Z.land st bits.
Proof.
  intros H. rewrite Z.land_lor_distr_l, (Z.land_comm STA_UNSYNC), H. apply Z.lor_0_r.
Qed.

Lemma second_overflow_leap n secs :
  leap_fields (second_overflow n secs).1 = leap_fields (leap_step n secs).1
  /\ (second_overflow n secs).2 = (leap_step n secs).2.
Proof.
  unfold second_overflow. destruct (leap_step n secs) as [m leap]; cbn. split; [| done].
  assert (A : forall m, leap_fields (adjust_step m) = leap_fields m)
    by (intros; unfold adjust_step; repeat case_match; done).
  rewrite A. change (leap_fields (phase_step ?x)) with (leap_fields x).
  unfold bump_maxerror. case_match; [| done]. unfold leap_fields; cbn.
  by rewrite flag_unsync.
Qed.

Lemma flag_sub st b : Z.land b (Z.lor STA_INS STA_DEL) = b ->
  flag st b = flag (Z.land st (Z.lor STA_INS STA_DEL)) b.
Proof. intros H. unfold flag. by rewrite <- Z.land_assoc, (Z.land_comm (Z.lor _ _)), H. Qed.

Lemma flag_mono st b b' : Z.land b' b = b -> flag st b = true -> flag st b' = true.
Proof.
  intros H. unfold flag, nonzero. rewrite !negb_true_iff, !Z.eqb_neq. intros N E. apply N.
  by rewrite <- H, Z.land_assoc, E.
Qed.

(** One tick, from what it reads. *)
Lemma clock_tick_eq n s st nx b : leap_fields n = (st, nx, b) -> - 2 ^ 62 <= s < 2 ^ 62 ->
  forall st' nx' leap,
  (match st with
   | TIME_OK =>
       if flag b STA_INS then (TIME_INS, s + 1 + 86400 - Z.rem (s + 1) 86400, 0)
       else if flag b STA_DEL then (TIME_DEL, s + 1 + 86400 - Z.rem (s + 2) 86400, 0)
       else (st, nx, 0)
   | TIME_INS =>
       if flag b STA_INS then (if s + 1 =? nx then (TIME_OOP, nx, -1) else (st, nx, 0))
       else (TIME_OK, TIME64_MAX, 0)
   | TIME_DEL =>
       if flag b STA_DEL then (if s + 1 =? nx then (TIME_WAIT, TIME64_MAX, 1) else (st, nx, 0))
       else (TIME_OK, TIME64_MAX, 0)
   | TIME_OOP => (TIME_WAIT, TIME64_MAX, 0)
   | TIME_WAIT => if flag b (Z.lor STA_INS STA_DEL) then (st, nx, 0) else (TIME_OK, nx, 0)
   | TIME_ERROR => (st, nx, 0)
   end) = (st', nx', leap) ->
  leap_fields (clock_tick (n, s)).1 = (st', nx', b) /\ (clock_tick (n, s)).2 = s + 1 + leap.
Proof.
  intros E Hs st' nx' leap Est. unfold clock_tick.
  destruct (second_overflow_leap n (s + 1)) as [E1 E2].
  destruct (second_overflow n (s + 1)) as [m l]; cbn in *. rewrite E1, E2. clear E1 E2.
  injection E as Est' Enx Eb.
  unfold leap_step. rewrite Est'.
  rewrite !(flag_sub (time_status n)), Eb by reflexivity. unfold NTP_SECS_PER_DAY.
  rewrite Enx. change (Z.lor STA_INS STA_DEL) with 48 in *.
  replace (s + 2) with (s + 1 + 1) in Est by lia.
  destruct st; repeat case_match; simplify_eq/=; unfold leap_fields; cbn;
    change (Z.lor STA_INS STA_DEL) with 48; try done;
    rewrite ?s64_id by (unfold is_s64; cint); try rewrite Est'; done.
Qed.

(** The second at which a leap second takes effect. *)
Definition insert_at (s : Z) : Z := s + 1 + 86400 - (s + 1) mod 86400.
Definition delete_at (s : Z) : Z := s + 1 + 86400 - (s + 2) mod 86400.

Definition passed (k : nat) (d : Z) : Z := if d <=? Z.of_nat k then 1 else 0.

Lemma passed_cases k d : passed k d = 0 /\ Z.of_nat k < d \/ passed k d = 1 /\ d <= Z.of_nat k.
Proof. unfold passed. destruct (Z.leb_spec d (Z.of_nat k)); lia. Qed.

(** Settles a state after a tick by the position of the tick. *)
Ltac course :=
  repeat match goal with
  | |- context [decide (S _ = 0%nat)] => rewrite decide_False by lia
  | |- context [?a <? ?b] => destruct (Z.ltb_spec a b); try lia
  | |- context [?a =? ?b] => destruct (Z.eqb_spec a b); try lia
  end; try done; try lia.

Lemma passed_range k d : 0 <= passed k d <= 1.
Proof. unfold passed. case_match; lia. Qed.

Lemma clock_after_S k st : clock_after (S k) st = clock_tick (clock_after k st).
Proof. reflexivity. Qed.

Section course.
Context (n0 : ntp) (s0 : Z).
Hypothesis Hok : time_state n0 = TIME_OK.
Hypothesis Hs : 0 <= s0 < 2 ^ 60.

(** The state after [k] ticks while a leap second is to be inserted. *)
Lemma insert_course_inv k : flag (time_status n0) STA_INS = true -> Z.of_nat k < 2 ^ 60 ->
  let d := insert_at s0 - s0 in
  (clock_after k (n0, s0)).2 = s0 + Z.of_nat k - passed k d
  /\ (leap_fields (clock_after k (n0, s0)).1).2 = (leap_fields n0).2
  /\ (leap_fields (clock_after k (n0, s0)).1).1.1 =
     (if decide (k = 0%nat) then TIME_OK
      else if Z.of_nat k <? d then TIME_INS
      else if Z.of_nat k =? d then TIME_OOP else TIME_WAIT)
  /\ (k <> 0%nat -> Z.of_nat k <= d ->
      (leap_fields (clock_after k (n0, s0)).1).1.2 = insert_at s0).
Proof.
  intros Hi. assert (D : insert_at s0 - s0 > 1) by (unfold insert_at; cint). revert D.
  set (d := insert_at s0 - s0). intros D. cbn zeta.
  induction k as [|k IH]; intros Hk.
  { unfold clock_after, passed, leap_fields. cbn [Nat.iter nat_rect fst snd].
    change (Z.of_nat 0) with 0. rewrite Hok. repeat split; [case_match; lia | done]. }
  destruct IH as (E2 & Eb & Est & Enx); [lia |]. rewrite clock_after_S.
  destruct (clock_after k (n0, s0)) as [n s]. cbn [fst snd] in *.
  destruct (leap_fields n) as [[st nx] b] eqn:E. cbn [fst snd] in *.
  assert (Fb : flag b STA_INS = true).
  { rewrite Eb. rewrite (flag_sub (time_status n0)) in Hi by reflexivity. exact Hi. }
  assert (Fw : flag b (Z.lor STA_INS STA_DEL) = true) by (by apply (flag_mono _ STA_INS)).
  assert (Hs' : - 2 ^ 62 <= s < 2 ^ 62) by (pose proof (passed_range k d); lia).
  pose proof (clock_tick_eq n s st nx b E Hs') as T. rewrite Fb, Fw in T.
  pose proof (passed_cases k d). pose proof (passed_cases (S k) d).
  destruct (decide (k = 0%nat)) as [Ek|Hk0].
  { subst st. destruct (T _ _ _ eq_refl) as [-> ->]. cbn [fst snd].
    split_and!; [lia | done | course |]. intros _ _. unfold insert_at in *.
    replace s with s0 by lia. cint. }
  destruct (Z.ltb_spec (Z.of_nat k) d) as [L|L].
  - subst st. rewrite (Enx Hk0 ltac:(lia)) in *.
    destruct (Z.eqb_spec (s + 1) (insert_at s0)) as [X|X];
      destruct (T _ _ _ eq_refl) as [-> ->]; cbn [fst snd]; unfold d in *;
      (split_and!; [lia | done | course | course]).
  - destruct (Z.eqb_spec (Z.of_nat k) d) as [X|X]; subst st;
      destruct (T _ _ _ eq_refl) as [-> ->]; cbn [fst snd];
      (split_and!; [lia | done | course | lia]).
Qed.

Lemma delete_course_inv k : flag (time_status n0) STA_INS = false ->
  flag (time_status n0) STA_DEL = true -> Z.of_nat k < 2 ^ 60 ->
  let d := delete_at s0 - s0 in
  (clock_after k (n0, s0)).2 = s0 + Z.of_nat k + passed k d
  /\ (leap_fields (clock_after k (n0, s0)).1).2 = (leap_fields n0).2
  /\ (leap_fields (clock_after k (n0, s0)).1).1.1 =
     (if decide (k = 0%nat) then TIME_OK
      else if Z.of_nat k <? d then TIME_DEL else TIME_WAIT)
  /\ (k <> 0%nat -> Z.of_nat k < d ->
      (leap_fields (clock_after k (n0, s0)).1).1.2 = delete_at s0).
Proof.
  intros Hi Hd. assert (D : delete_at s0 - s0 > 1) by (unfold delete_at; cint). revert D.
  set (d := delete_at s0 - s0). intros D. cbn zeta.
  induction k as [|k IH]; intros Hk.
  { unfold clock_after, passed, leap_fields. cbn [Nat.iter nat_rect fst snd].
    change (Z.of_nat 0) with 0. rewrite Hok. repeat split; [case_match; lia | done]. }
  destruct IH as (E2 & Eb & Est & Enx); [lia |]. rewrite clock_after_S.
  destruct (clock_after k (n0, s0)) as [n s]. cbn [fst snd] in *.
  destruct (leap_fields n) as [[st nx] b] eqn:E. cbn [fst snd] in *.
  rewrite (flag_sub (time_status n0)) in Hi, Hd by reflexivity. change (snd (leap_fields n0)) with
    (Z.land (time_status n0) (Z.lor STA_INS STA_DEL)) in Eb. rewrite <- Eb in Hi, Hd.
  assert (Fw : flag b (Z.lor STA_INS STA_DEL) = true) by (by apply (flag_mono _ STA_DEL)).
  assert (Hs' : - 2 ^ 62 <= s < 2 ^ 62) by (pose proof (passed_range k d); lia).
  pose proof (clock_tick_eq n s st nx b E Hs') as T. rewrite Hi, Hd, Fw in T.
  pose proof (passed_cases k d). pose proof (passed_cases (S k) d).
  destruct (decide (k = 0%nat)) as [Ek|Hk0].
  { subst st. destruct (T _ _ _ eq_refl) as [-> ->]. cbn [fst snd].
    split_and!; [lia | done | course |]. intros _ _. unfold delete_at in *.
    replace s with s0 by lia. cint. }
  destruct (Z.ltb_spec (Z.of_nat k) d) as [L|L].
  - subst st. rewrite (Enx Hk0 ltac:(lia)) in *.
    destruct (Z.eqb_spec (s + 1) (delete_at s0)) as [X|X];
      destruct (T _ _ _ eq_refl) as [-> ->]; cbn [fst snd]; unfold d in *;
      (split_and!; [lia | done | course | course]).
  - subst st. destruct (T _ _ _ eq_refl) as [-> ->]; cbn [fst snd];
      (split_and!; [lia | done | course | lia]).
Qed.
End course.

(** ** Reachable states *)

(** The states that the entry points of the file lead to. *)
Inductive ntp_reach : ntp -> Prop :=
| reach_init tick_adj : ntp_reach (ntp_init tick_adj)
| reach_clear n : ntp_reach n -> ntp_reach (ntp_clear n)
| reach_second n secs : ntp_reach n -> ntp_reach (second_overflow n secs).1
| reach_adjtimex n now txc ts tai :
    ntp_reach n -> ntp_reach (__do_adjtimex n now txc ts tai).1.1.1.

Lemma ntp_reach_ok n : ntp_reach n -> ntp_ok n.
Proof.
  induction 1; auto using ntp_init_ok, ntp_clear_ok, second_overflow_ok, do_adjtimex_ok.
Qed.

(** ** The offset that [adjtimex] reports *)

(** Without [STA_NANO] the nanoseconds are cast to an unsigned integer. *)
Lemma adjtimex_read_offset n now txc ts tai :
  tx_modes txc = 0 -> flag (time_status n) STA_NANO = false ->
  tx_offset (__do_adjtimex n now txc ts tai).1.1.2 =
    u32 (shift_right (s64 (time_offset n * NTP_INTERVAL_FREQ)) NTP_SCALE_SHIFT) / NSEC_PER_USEC.
Proof.
  intros M F. unfold __do_adjtimex. rewrite M. cbn [flag]. change (flag 0 ADJ_ADJTIME) with false.
  change (nonzero 0) with false. cbv iota beta zeta. rewrite F.
  set (t := txc <| tx_offset := _ |>).
  assert (E : forall r, tx_offset (leap_report n (fill_timex n t ts tai) ts r).1 = tx_offset t).
  { intros r. unfold leap_report. repeat case_match; reflexivity. }
  specialize (E (if is_error_status (time_status n) then TIME_ERROR else time_state n)).
  destruct (leap_report _ _ _ _) as [a b]. exact E.
Qed.
