(* ===== verification/Timekeeping.v ===== *)
(** * The timekeeper: [kernel/time/timekeeping.c]

    The record [world] holds the file's static state: the timekeeper that is
    read, the shadow copy that the tick updates, the NTP variables and the two
    latched copies for fast readers.  A function that takes a pointer to a
    timekeeper is a function on the record; the entry points, which run under
    [timekeeper_lock] inside one write section of [tk_core.seq], are functions
    on [world].  Readers retry while a write section is open, so a reader sees
    the state between two entry points.

    The value that a clocksource returns is an argument [cycles].  The
    configuration is x86-64: [clocksource_delta] validates the last cycle and
    [CONFIG_DEBUG_TIMEKEEPING] is off.  [update_vsyscall], the pvclock
    notifiers, audit records, randomness, hrtimer notifications and warnings
    do not touch this state and are left out. *)
From S2P Require Import Prelude Timespec Ntp.

(** The part of [struct clocksource] that timekeeping uses; [cs_id] stands for
    the address. *)
Record clocksource := Clocksource {
  cs_id : Z; cs_mask : Z; cs_mult : Z; cs_shift : Z; cs_maxadj : Z }.

#[global] Instance clocksource_eq_dec : EqDecision clocksource.
Proof. solve_decision. Defined.

(** [struct tk_read_base] *)
Record tk_read_base := TkReadBase {
  clock : option clocksource;
  mask : Z;
  cycle_last : Z;
  mult : Z;
  shift : Z;
  xtime_nsec : Z;
  base : Z;
  base_real : Z }.

#[export] Instance eta_tk_read_base : Eta tk_read_base := fun r =>
  TkReadBase (clock r) (mask r) (cycle_last r) (mult r) (shift r) (xtime_nsec r) (base
    r) (base_real r).
#[export] Instance set_clock : Setter clock := ltac:(mk_setter).
#[export] Instance set_mask : Setter mask := ltac:(mk_setter).
#[export] Instance set_cycle_last : Setter cycle_last := ltac:(mk_setter).
#[export] Instance set_mult : Setter mult := ltac:(mk_setter).
#[export] Instance set_shift : Setter shift := ltac:(mk_setter).
#[export] Instance set_xtime_nsec : Setter xtime_nsec := ltac:(mk_setter).
#[export] Instance set_base : Setter base := ltac:(mk_setter).
#[export] Instance set_base_real : Setter base_real := ltac:(mk_setter).

(** [struct timekeeper] *)
Record timekeeper := Timekeeper {
  tkr_mono : tk_read_base;
  tkr_raw : tk_read_base;
  xtime_sec : Z;
  ktime_sec : Z;
  wall_to_monotonic : timespec64;
  offs_real : Z;
  offs_boot : Z;
  offs_tai : Z;
  tai_offset : Z;
  clock_was_set_seq : Z;
  cs_was_changed_seq : Z;
  next_leap_ktime : Z;
  raw_sec : Z;
  monotonic_to_boot : timespec64;
  cycle_interval : Z;
  xtime_interval : Z;
  xtime_remainder : Z;
  raw_interval : Z;
  ntp_tick : Z;
  ntp_error : Z;
  ntp_error_shift : Z;
  ntp_err_mult : Z;
  skip_second_overflow : Z }.

#[export] Instance eta_timekeeper : Eta timekeeper := fun r =>
  Timekeeper (tkr_mono r) (tkr_raw r) (xtime_sec r) (ktime_sec r) (wall_to_monotonic r)
    (offs_real r) (offs_boot r) (offs_tai r) (tai_offset r) (clock_was_set_seq r)
    (cs_was_changed_seq r) (next_leap_ktime r) (raw_sec r) (monotonic_to_boot r)
    (cycle_interval r) (xtime_interval r) (xtime_remainder r) (raw_interval r) (ntp_tick
    r) (ntp_error r) (ntp_error_shift r) (ntp_err_mult r) (skip_second_overflow r).
#[export] Instance set_tkr_mono : Setter tkr_mono := ltac:(mk_setter).
#[export] Instance set_tkr_raw : Setter tkr_raw := ltac:(mk_setter).
#[export] Instance set_xtime_sec : Setter xtime_sec := ltac:(mk_setter).
#[export] Instance set_ktime_sec : Setter ktime_sec := ltac:(mk_setter).
#[export] Instance set_wall_to_monotonic : Setter wall_to_monotonic := ltac:(mk_setter).
#[export] Instance set_offs_real : Setter offs_real := ltac:(mk_setter).
#[export] Instance set_offs_boot : Setter offs_boot := ltac:(mk_setter).
#[export] Instance set_offs_tai : Setter offs_tai := ltac:(mk_setter).
#[export] Instance set_tai_offset : Setter tai_offset := ltac:(mk_setter).
#[export] Instance set_clock_was_set_seq : Setter clock_was_set_seq := ltac:(mk_setter).
#[export] Instance set_cs_was_changed_seq : Setter cs_was_changed_seq := ltac:(mk_setter).
#[export] Instance set_next_leap_ktime : Setter next_leap_ktime := ltac:(mk_setter).
#[export] Instance set_raw_sec : Setter raw_sec := ltac:(mk_setter).
#[export] Instance set_monotonic_to_boot : Setter monotonic_to_boot := ltac:(mk_setter).
#[export] Instance set_cycle_interval : Setter cycle_interval := ltac:(mk_setter).
#[export] Instance set_xtime_interval : Setter xtime_interval := ltac:(mk_setter).
#[export] Instance set_xtime_remainder : Setter xtime_remainder := ltac:(mk_setter).
#[export] Instance set_raw_interval : Setter raw_interval := ltac:(mk_setter).
#[export] Instance set_ntp_tick : Setter ntp_tick := ltac:(mk_setter).
#[export] Instance set_ntp_error : Setter ntp_error := ltac:(mk_setter).
#[export] Instance set_ntp_error_shift : Setter ntp_error_shift := ltac:(mk_setter).
#[export] Instance set_ntp_err_mult : Setter ntp_err_mult := ltac:(mk_setter).
#[export] Instance set_skip_second_overflow : Setter skip_second_overflow := ltac:(mk_setter).

(** [struct tk_fast] *)
Record tk_fast := TkFast {
  fast_seq : Z;
  fast_base0 : tk_read_base;
  fast_base1 : tk_read_base }.

#[export] Instance eta_tk_fast : Eta tk_fast := fun r =>
  TkFast (fast_seq r) (fast_base0 r) (fast_base1 r).
#[export] Instance set_fast_seq : Setter fast_seq := ltac:(mk_setter).
#[export] Instance set_fast_base0 : Setter fast_base0 := ltac:(mk_setter).
#[export] Instance set_fast_base1 : Setter fast_base1 := ltac:(mk_setter).

(** The static state of the file. *)
Record world := World {
  tk_core : timekeeper;
  shadow_timekeeper : timekeeper;
  w_ntp : ntp;
  timekeeping_suspended : bool;
  tk_fast_mono : tk_fast;
  tk_fast_raw : tk_fast;
  suspend_timing_needed : bool }.

#[export] Instance eta_world : Eta world := fun r =>
  World (tk_core r) (shadow_timekeeper r) (w_ntp r) (timekeeping_suspended r)
    (tk_fast_mono r) (tk_fast_raw r) (suspend_timing_needed r).
#[export] Instance set_tk_core : Setter tk_core := ltac:(mk_setter).
#[export] Instance set_shadow_timekeeper : Setter shadow_timekeeper := ltac:(mk_setter).
#[export] Instance set_w_ntp : Setter w_ntp := ltac:(mk_setter).
#[export] Instance set_timekeeping_suspended : Setter timekeeping_suspended := ltac:(mk_setter).
#[export] Instance set_tk_fast_mono : Setter tk_fast_mono := ltac:(mk_setter).
#[export] Instance set_tk_fast_raw : Setter tk_fast_raw := ltac:(mk_setter).
#[export] Instance set_suspend_timing_needed : Setter suspend_timing_needed := ltac:(mk_setter).

Definition TK_CLEAR_NTP : Z := 1.
Definition TK_MIRROR : Z := 2.
Definition TK_CLOCK_WAS_SET : Z := 4.

(** Updates inside the two readout bases. *)
Definition mono (f : tk_read_base -> tk_read_base) (tk : timekeeper) : timekeeper :=
  tk <| tkr_mono := f (tkr_mono tk) |>.
Definition raw (f : tk_read_base -> tk_read_base) (tk : timekeeper) : timekeeper :=
  tk <| tkr_raw := f (tkr_raw tk) |>.

(** [(u64)NSEC_PER_SEC << shift] *)
Definition nsecps (r : tk_read_base) : Z := u64 (Z.shiftl NSEC_PER_SEC (shift r)).

(** The loop that moves whole seconds from the shifted nanoseconds to the
    seconds; the fuel is the number of whole seconds. *)
Fixpoint carry_loop (fuel : nat) (ps nsec sec : Z) : Z * Z :=
  if ps <=? nsec
  then match fuel with
       | O => (nsec, sec)
       | S f => carry_loop f ps (u64 (nsec - ps)) (u64 (sec + 1))
       end
  else (nsec, sec).

Definition carry (ps nsec sec : Z) : Z * Z := carry_loop (Z.to_nat (nsec / ps)) ps nsec sec.

Definition carry_raw (tk : timekeeper) : timekeeper :=
  let '(ns, sec) := carry (nsecps (tkr_raw tk)) (xtime_nsec (tkr_raw tk)) (raw_sec tk) in
  (raw (fun r => r <| xtime_nsec := ns |>) tk) <| raw_sec := sec |>.

Definition tk_normalize_xtime (tk : timekeeper) : timekeeper :=
  let '(ns, sec) := carry (nsecps (tkr_mono tk)) (xtime_nsec (tkr_mono tk)) (xtime_sec tk) in
  carry_raw ((mono (fun r => r <| xtime_nsec := ns |>) tk) <| xtime_sec := sec |>).

Definition tk_xtime (tk : timekeeper) : timespec64 :=
  Timespec (s64 (xtime_sec tk)) (Z.shiftr (xtime_nsec (tkr_mono tk)) (shift (tkr_mono tk))).

Definition tk_set_xtime (tk : timekeeper) (ts : timespec64) : timekeeper :=
  (mono (fun r => r <| xtime_nsec := u64 (Z.shiftl (u64 (tv_nsec ts)) (shift r)) |>) tk)
    <| xtime_sec := u64 (tv_sec ts) |>.

Definition tk_xtime_add (tk : timekeeper) (ts : timespec64) : timekeeper :=
  let tk := tk <| xtime_sec := u64 (xtime_sec tk + tv_sec ts) |> in
  tk_normalize_xtime (mono (fun r => r <| xtime_nsec :=
    u64 (xtime_nsec r + u64 (Z.shiftl (u64 (tv_nsec ts)) (shift r))) |>) tk).

Definition tk_set_wall_to_mono (tk : timekeeper) (wtm : timespec64) : timekeeper :=
  let tk := tk <| wall_to_monotonic := wtm |> in
  let tmp := set_normalized_timespec64 (s64 (- tv_sec wtm)) (s64 (- tv_nsec wtm)) in
  let tk := tk <| offs_real := timespec64_to_ktime tmp |> in
  tk <| offs_tai := ktime_add (offs_real tk) (ktime_set (tai_offset tk) 0) |>.

Definition tk_update_sleep_time (tk : timekeeper) (delta : Z) : timekeeper :=
  let tk := tk <| offs_boot := ktime_add (offs_boot tk) delta |> in
  tk <| monotonic_to_boot := ktime_to_timespec64 (offs_boot tk) |>.

(** A step backwards of more than half the range counts as no progress. *)
Definition clocksource_delta (now last mask : Z) : Z :=
  let ret := Z.land (u64 (now - last)) mask in
  if nonzero (Z.ldiff ret (Z.shiftr mask 1)) then 0 else ret.

Definition timekeeping_get_delta (r : tk_read_base) (cycles : Z) : Z :=
  clocksource_delta cycles (cycle_last r) (mask r).

Definition timekeeping_delta_to_ns (r : tk_read_base) (delta : Z) : Z :=
  Z.shiftr (u64 (delta * mult r + xtime_nsec r)) (shift r).

Definition timekeeping_get_ns (r : tk_read_base) (cycles : Z) : Z :=
  timekeeping_delta_to_ns r (timekeeping_get_delta r cycles).

(** [cycles] is what the new clock returns. *)
Definition tk_setup_internals (tk : timekeeper) (cs : clocksource) (cycles : Z) : timekeeper :=
  let tk := tk <| cs_was_changed_seq := u8 (cs_was_changed_seq tk + 1) |> in
  let old_clock := clock (tkr_mono tk) in
  let attach := fun r : tk_read_base =>
    r <| clock := Some cs |> <| mask := cs_mask cs |> <| cycle_last := cycles |> in
  let tk := raw attach (mono attach tk) in
  let ntpinterval := u64 (Z.shiftl NTP_INTERVAL_LENGTH (cs_shift cs)) in
  let tmp := u64 (ntpinterval + cs_mult cs / 2) / cs_mult cs in
  let interval := if tmp =? 0 then 1 else tmp in
  let tk := tk <| cycle_interval := interval |> in
  let tk := tk <| xtime_interval := u64 (interval * cs_mult cs) |> in
  let tk := tk <| xtime_remainder := s64 (ntpinterval - xtime_interval tk) |> in
  let tk := tk <| raw_interval := u64 (interval * cs_mult cs) |> in
  let rescale := fun r : tk_read_base =>
    match old_clock with
    | None => r
    | Some old =>
        let shift_change := cs_shift cs - cs_shift old in
        if shift_change <? 0
        then r <| xtime_nsec := Z.shiftr (xtime_nsec r) (- shift_change) |>
        else r <| xtime_nsec := u64 (Z.shiftl (xtime_nsec r) shift_change) |>
    end in
  let tk := raw rescale (mono rescale tk) in
  let tk := raw (fun r => r <| shift := cs_shift cs |>)
              (mono (fun r => r <| shift := cs_shift cs |>) tk) in
  let tk := tk <| ntp_error := 0 |> in
  let tk := tk <| ntp_error_shift := u32 (NTP_SCALE_SHIFT - cs_shift cs) |> in
  let tk := tk <| ntp_tick := u64 (Z.shiftl ntpinterval (ntp_error_shift tk)) |> in
  let tk := raw (fun r => r <| mult := cs_mult cs |>)
              (mono (fun r => r <| mult := cs_mult cs |>) tk) in
  tk <| ntp_err_mult := 0 |> <| skip_second_overflow := 0 |>.

(** Both halves of the latch; a reader uses the half of the parity of the
    sequence count, so the count moves before each half is written. *)
Definition update_fast_timekeeper (r : tk_read_base) (f : tk_fast) : tk_fast :=
  let f := f <| fast_seq := u32 (fast_seq f + 1) |> in
  let f := f <| fast_base0 := r |> in
  let f := f <| fast_seq := u32 (fast_seq f + 1) |> in
  f <| fast_base1 := fast_base0 f |>.

Definition tk_update_leap_state (n : ntp) (tk : timekeeper) : timekeeper :=
  let tk := tk <| next_leap_ktime := ntp_get_next_leap n |> in
  if next_leap_ktime tk =? KTIME_MAX then tk
  else tk <| next_leap_ktime := ktime_sub (next_leap_ktime tk) (offs_real tk) |>.

Definition tk_update_ktime_data (tk : timekeeper) : timekeeper :=
  let seconds := u64 (xtime_sec tk + tv_sec (wall_to_monotonic tk)) in
  let nsec := u32 (tv_nsec (wall_to_monotonic tk)) in
  let tk := mono (fun r => r <| base := s64 (u64 (seconds * NSEC_PER_SEC + nsec)) |>) tk in
  let nsec := u32 (nsec + u32 (Z.shiftr (xtime_nsec (tkr_mono tk)) (shift (tkr_mono tk)))) in
  let seconds := if NSEC_PER_SEC <=? nsec then u64 (seconds + 1) else seconds in
  let tk := tk <| ktime_sec := seconds |> in
  raw (fun r => r <| base := s64 (u64 (raw_sec tk * NSEC_PER_SEC)) |>) tk.

(** The two timekeepers that a pointer can point to. *)
Inductive tk_ptr := TkCore | TkShadow.

Definition get_tk (w : world) (p : tk_ptr) : timekeeper :=
  match p with TkCore => tk_core w | TkShadow => shadow_timekeeper w end.
Definition put_tk (w : world) (p : tk_ptr) (tk : timekeeper) : world :=
  match p with TkCore => w <| tk_core := tk |> | TkShadow => w <| shadow_timekeeper := tk |> end.

Definition timekeeping_update (w : world) (p : tk_ptr) (action : Z) : world :=
  let tk := get_tk w p in
  let '(tk, n) := if flag action TK_CLEAR_NTP
                  then (tk <| ntp_error := 0 |>, ntp_clear (w_ntp w)) else (tk, w_ntp w) in
  let tk := tk_update_ktime_data (tk_update_leap_state n tk) in
  let tk := mono (fun r => r <| base_real := u64 (base r + offs_real tk) |>) tk in
  let w := w <| w_ntp := n |>
             <| tk_fast_mono := update_fast_timekeeper (tkr_mono tk) (tk_fast_mono w) |>
             <| tk_fast_raw := update_fast_timekeeper (tkr_raw tk) (tk_fast_raw w) |> in
  let tk := if flag action TK_CLOCK_WAS_SET
            then tk <| clock_was_set_seq := u32 (clock_was_set_seq tk + 1) |> else tk in
  let w := put_tk w p tk in
  if flag action TK_MIRROR then w <| shadow_timekeeper := tk_core w |> else w.

Definition timekeeping_forward_now (tk : timekeeper) (cycles : Z) : timekeeper :=
  let delta := clocksource_delta cycles (cycle_last (tkr_mono tk)) (mask (tkr_mono tk)) in
  let forward := fun r : tk_read_base =>
    r <| cycle_last := cycles |> <| xtime_nsec := u64 (xtime_nsec r + u64 (delta * mult r)) |> in
  tk_normalize_xtime (raw forward (mono forward tk)).
