(* ===== verification/TkEntry.v ===== *)
(** * The timekeeper: entry points of [kernel/time/timekeeping.c]

    Readers of the clocks, the functions that set or move them, the tick that
    accumulates cycles, and the two system calls of [kernel/get_current_time.c]
    and [kernel/get_system_uptime.c].  The result of a function that can fail is
    0 or a negative error number. *)
From S2P Require Import Prelude Timespec Ntp Timekeeping.

(** ** Readers *)

Inductive tk_offsets := TK_OFFS_REAL | TK_OFFS_BOOT | TK_OFFS_TAI.

Definition offset_of (tk : timekeeper) (offs : tk_offsets) : Z :=
  match offs with
  | TK_OFFS_REAL => offs_real tk | TK_OFFS_BOOT => offs_boot tk | TK_OFFS_TAI => offs_tai tk
  end.

Definition ktime_get_real_ts64 (w : world) (cycles : Z) : timespec64 :=
  let tk := tk_core w in
  timespec64_add_ns (Timespec (s64 (xtime_sec tk)) 0) (timekeeping_get_ns (tkr_mono tk) cycles).

Definition ktime_get (w : world) (cycles : Z) : Z :=
  let r := tkr_mono (tk_core w) in ktime_add_ns (base r) (timekeeping_get_ns r cycles).

Definition ktime_get_with_offset (w : world) (offs : tk_offsets) (cycles : Z) : Z :=
  let tk := tk_core w in
  ktime_add_ns (ktime_add (base (tkr_mono tk)) (offset_of tk offs))
    (timekeeping_get_ns (tkr_mono tk) cycles).

Definition ktime_get_coarse_with_offset (w : world) (offs : tk_offsets) : Z :=
  let tk := tk_core w in
  ktime_add_ns (ktime_add (base (tkr_mono tk)) (offset_of tk offs))
    (Z.shiftr (xtime_nsec (tkr_mono tk)) (shift (tkr_mono tk))).

Definition ktime_get_raw (w : world) (cycles : Z) : Z :=
  let r := tkr_raw (tk_core w) in ktime_add_ns (base r) (timekeeping_get_ns r cycles).

Definition ktime_get_ts64 (w : world) (cycles : Z) : timespec64 :=
  let tk := tk_core w in
  let tomono := wall_to_monotonic tk in
  timespec64_add_ns (Timespec (s64 (s64 (xtime_sec tk) + tv_sec tomono)) 0)
    (u64 (timekeeping_get_ns (tkr_mono tk) cycles + tv_nsec tomono)).

Definition ktime_get_seconds (w : world) : Z := s64 (ktime_sec (tk_core w)).
Definition ktime_get_real_seconds (w : world) : Z := s64 (xtime_sec (tk_core w)).

Definition ktime_get_coarse_real_ts64 (w : world) : timespec64 := tk_xtime (tk_core w).

Definition ktime_get_coarse_ts64 (w : world) : timespec64 :=
  let now := tk_xtime (tk_core w) in
  let mono := wall_to_monotonic (tk_core w) in
  set_normalized_timespec64 (s64 (tv_sec now + tv_sec mono)) (s64 (tv_nsec now + tv_nsec mono)).

Definition getboottime64 (w : world) : timespec64 :=
  ktime_to_timespec64 (ktime_sub (offs_real (tk_core w)) (offs_boot (tk_core w))).

Definition ktime_get_boottime_seconds (w : world) : Z :=
  ktime_divns (ktime_get_coarse_with_offset w TK_OFFS_BOOT) NSEC_PER_SEC.

(** The caller's sequence number and copies of the offsets, as the hrtimer
    code keeps them. *)
Definition ktime_get_update_offsets_now (w : world) (cycles cwsseq real boot tai : Z)
    : Z * (Z * Z * Z * Z) :=
  let tk := tk_core w in
  let base := ktime_add_ns (base (tkr_mono tk)) (timekeeping_get_ns (tkr_mono tk) cycles) in
  let '(cwsseq, real, boot, tai) :=
    if negb (cwsseq =? clock_was_set_seq tk)
    then (clock_was_set_seq tk, offs_real tk, offs_boot tk, offs_tai tk)
    else (cwsseq, real, boot, tai) in
  let real := if next_leap_ktime tk <=? base
              then ktime_sub (offs_real tk) (ktime_set 1 0) else real in
  (base, (cwsseq, real, boot, tai)).

(** ** Setting and moving the clocks *)

Definition set_core (w : world) (tk : timekeeper) : world := put_tk w TkCore tk.

Definition UPDATE_ALL : Z := Z.lor (Z.lor TK_CLEAR_NTP TK_MIRROR) TK_CLOCK_WAS_SET.

Definition do_settimeofday64 (w : world) (cycles : Z) (ts : timespec64) : world * Z :=
  if negb (timespec64_valid_settod ts) then (w, - EINVAL)
  else
  let tk := timekeeping_forward_now (tk_core w) cycles in
  let ts_delta := timespec64_sub ts (tk_xtime tk) in
  let '(tk, ret) :=
    if 0 <? timespec64_compare (wall_to_monotonic tk) ts_delta then (tk, - EINVAL)
    else
      let tk := tk_set_wall_to_mono tk (timespec64_sub (wall_to_monotonic tk) ts_delta) in
      (tk_set_xtime tk ts, 0) in
  (timekeeping_update (set_core w tk) TkCore UPDATE_ALL, ret).

Definition timekeeping_inject_offset (w : world) (cycles : Z) (ts : timespec64) : world * Z :=
  if (tv_nsec ts <? 0) || (NSEC_PER_SEC <=? tv_nsec ts) then (w, - EINVAL)
  else
  let tk := timekeeping_forward_now (tk_core w) cycles in
  let tmp := timespec64_add (tk_xtime tk) ts in
  let '(tk, ret) :=
    if (0 <? timespec64_compare (wall_to_monotonic tk) ts) || negb (timespec64_valid_settod tmp)
    then (tk, - EINVAL)
    else
      let tk := tk_xtime_add tk ts in
      (tk_set_wall_to_mono tk (timespec64_sub (wall_to_monotonic tk) ts), 0) in
  (timekeeping_update (set_core w tk) TkCore UPDATE_ALL, ret).

(** State, the flag [persistent_clock_is_local] and the time zone. *)
Definition timekeeping_warp_clock (w : world) (cycles tz_minuteswest : Z) (is_local : bool)
    : world * bool :=
  if negb (tz_minuteswest =? 0)
  then ((timekeeping_inject_offset w cycles (Timespec (s32 (tz_minuteswest * 60)) 0)).1, true)
  else (w, is_local).

Definition __timekeeping_set_tai_offset (tk : timekeeper) (tai : Z) : timekeeper :=
  let tk := tk <| tai_offset := tai |> in
  tk <| offs_tai := ktime_add (offs_real tk) (ktime_set tai 0) |>.

(** [change] tells whether the module could be taken and the clock enabled;
    [new_cycles] is the first value of the new clock. *)
Definition change_clocksource (w : world) (cycles : Z) (change : bool) (new : clocksource)
    (new_cycles : Z) : world :=
  let tk := timekeeping_forward_now (tk_core w) cycles in
  let tk := if change then tk_setup_internals tk new new_cycles else tk in
  timekeeping_update (set_core w tk) TkCore UPDATE_ALL.

Definition uses_clock (w : world) (cs : clocksource) : bool :=
  match clock (tkr_mono (tk_core w)) with Some c => cs_id c =? cs_id cs | None => false end.

Definition timekeeping_notify (w : world) (cycles : Z) (change : bool) (cs : clocksource)
    (new_cycles : Z) : world * Z :=
  if uses_clock w cs then (w, 0)
  else let w := change_clocksource w cycles change cs new_cycles in
       (w, if uses_clock w cs then 0 else -1).

(** The persistent clock's [wall_time] and [boot_offset] are what the
    architecture reads. *)
Definition timekeeping_init (w : world) (wall_time boot_offset : timespec64)
    (tick_adj : Z) (cs : clocksource) (cycles : Z) : world * bool :=
  let exists_ := timespec64_valid_settod wall_time && (0 <? timespec64_to_ns wall_time) in
  let wall_time :=
    if exists_ then wall_time
    else if negb (timespec64_to_ns wall_time =? 0) then Timespec 0 0 else wall_time in
  let boot_offset :=
    if timespec64_compare wall_time boot_offset <? 0 then Timespec 0 0 else boot_offset in
  let wall_to_mono := timespec64_sub boot_offset wall_time in
  let w := w <| w_ntp := ntp_init tick_adj |> in
  let tk := tk_setup_internals (tk_core w) cs cycles in
  let tk := (tk_set_xtime tk wall_time) <| raw_sec := 0 |> in
  let tk := tk_set_wall_to_mono tk wall_to_mono in
  (timekeeping_update (set_core w tk) TkCore (Z.lor TK_MIRROR TK_CLOCK_WAS_SET), exists_).

Definition __timekeeping_inject_sleeptime (tk : timekeeper) (delta : timespec64) : timekeeper :=
  if negb (timespec64_valid_strict delta) then tk
  else
  let tk := tk_xtime_add tk delta in
  let tk := tk_set_wall_to_mono tk (timespec64_sub (wall_to_monotonic tk) delta) in
  tk_update_sleep_time tk (timespec64_to_ktime delta).

Definition timekeeping_inject_sleeptime64 (w : world) (cycles : Z) (delta : timespec64) : world :=
  let w := w <| suspend_timing_needed := false |> in
  let tk := timekeeping_forward_now (tk_core w) cycles in
  let tk := __timekeeping_inject_sleeptime tk delta in
  timekeeping_update (set_core w tk) TkCore UPDATE_ALL.

(** ** The tick *)

Definition timekeeping_apply_adjustment (tk : timekeeper) (offset mult_adj : Z) : timekeeper :=
  if mult_adj =? 0 then tk
  else
  let interval := s64 (cycle_interval tk) in
  let '(interval, offset) :=
    if mult_adj =? -1 then (s64 (- interval), s64 (- offset))
    else if negb (mult_adj =? 1) then (s64 (interval * mult_adj), s64 (offset * mult_adj))
    else (interval, offset) in
  if (0 <? mult_adj) && (u32 (mult (tkr_mono tk) + mult_adj) <? mult_adj) then tk
  else
  let tk := mono (fun r => r <| mult := u32 (mult r + mult_adj) |>) tk in
  let tk := tk <| xtime_interval := u64 (xtime_interval tk + interval) |> in
  mono (fun r => r <| xtime_nsec := u64 (xtime_nsec r - offset) |>) tk.

(** The multiplier that follows the NTP tick length. *)
Definition tick_mult (n : ntp) (tk : timekeeper) : timekeeper * Z :=
  if ntp_tick tk =? ntp_tick_length n
  then (tk, u32 (mult (tkr_mono tk) - ntp_err_mult tk))
  else
    let tk := tk <| ntp_tick := ntp_tick_length n |> in
    (tk, u32 (u64 (Z.shiftr (ntp_tick tk) (ntp_error_shift tk) - xtime_remainder tk)
              / cycle_interval tk)).

(** Xtime below zero borrows a second, whose overflow was already reported. *)
Definition borrow_second (tk : timekeeper) : timekeeper :=
  if s64 (xtime_nsec (tkr_mono tk)) <? 0
  then (mono (fun r => r <| xtime_nsec := u64 (xtime_nsec r + nsecps r) |>) tk)
         <| xtime_sec := u64 (xtime_sec tk - 1) |> <| skip_second_overflow := 1 |>
  else tk.

Definition timekeeping_adjust (n : ntp) (tk : timekeeper) (offset : Z) : timekeeper :=
  let '(tk, m) := tick_mult n tk in
  let tk := tk <| ntp_err_mult := if 0 <? ntp_error tk then 1 else 0 |> in
  let m := u32 (m + ntp_err_mult tk) in
  borrow_second (timekeeping_apply_adjustment tk offset (s32 (m - mult (tkr_mono tk)))).

(** One second of [accumulate_nsecs_to_secs]. *)
Definition accumulate_second (n : ntp) (tk : timekeeper) : ntp * timekeeper * Z :=
  let tk := mono (fun r => r <| xtime_nsec := u64 (xtime_nsec r - nsecps r) |>) tk in
  let tk := tk <| xtime_sec := u64 (xtime_sec tk + 1) |> in
  if nonzero (skip_second_overflow tk) then (n, tk <| skip_second_overflow := 0 |>, 0)
  else
  let '(n, leap) := second_overflow n (s64 (xtime_sec tk)) in
  if nonzero leap then
    let tk := tk <| xtime_sec := u64 (xtime_sec tk + leap) |> in
    let tk := tk_set_wall_to_mono tk
                (timespec64_sub (wall_to_monotonic tk) (Timespec leap 0)) in
    (n, __timekeeping_set_tai_offset tk (s32 (tai_offset tk - leap)), TK_CLOCK_WAS_SET)
  else (n, tk, 0).

Fixpoint accumulate_loop (fuel : nat) (n : ntp) (tk : timekeeper) (clock_set : Z)
    : ntp * timekeeper * Z :=
  if nsecps (tkr_mono tk) <=? xtime_nsec (tkr_mono tk)
  then match fuel with
       | O => (n, tk, clock_set)
       | S f =>
           let '(n, tk, c) := accumulate_second n tk in
           accumulate_loop f n tk (if nonzero c then c else clock_set)
       end
  else (n, tk, clock_set).

(** The fuel is the number of whole seconds in the shifted nanoseconds. *)
Definition accumulate_nsecs_to_secs (n : ntp) (tk : timekeeper) : ntp * timekeeper * Z :=
  accumulate_loop (Z.to_nat (xtime_nsec (tkr_mono tk) / nsecps (tkr_mono tk))) n tk 0.

Definition logarithmic_accumulation (n : ntp) (tk : timekeeper) (offset sh clock_set : Z)
    : ntp * timekeeper * Z * Z :=
  let interval := u64 (Z.shiftl (cycle_interval tk) sh) in
  if offset <? interval then (n, tk, offset, clock_set)
  else
  let offset := u64 (offset - interval) in
  let step := fun r : tk_read_base => r <| cycle_last := u64 (cycle_last r + interval) |> in
  let tk := raw step (mono step tk) in
  let tk := mono (fun r => r <| xtime_nsec :=
              u64 (xtime_nsec r + u64 (Z.shiftl (xtime_interval tk) sh)) |>) tk in
  let '(n, tk, c) := accumulate_nsecs_to_secs n tk in
  let clock_set := Z.lor clock_set c in
  let tk := raw (fun r => r <| xtime_nsec :=
              u64 (xtime_nsec r + u64 (Z.shiftl (raw_interval tk) sh)) |>) tk in
  let tk := carry_raw tk in
  let tk := tk <| ntp_error := s64 (ntp_error tk + u64 (Z.shiftl (ntp_tick tk) sh)) |> in
  let tk := tk <| ntp_error := s64 (ntp_error tk -
              u64 (Z.shiftl (u64 (xtime_interval tk + xtime_remainder tk))
                     (ntp_error_shift tk + sh))) |> in
  (n, tk, offset, clock_set).

(** [ilog2] of an unsigned 64-bit value; -1 for zero. *)
Definition ilog2 (x : Z) : Z := if x =? 0 then -1 else Z.log2 x.

Fixpoint advance_loop (fuel : nat) (n : ntp) (tk : timekeeper) (offset sh clock_set : Z)
    : ntp * timekeeper * Z * Z :=
  if cycle_interval tk <=? offset
  then match fuel with
       | O => (n, tk, offset, clock_set)
       | S f =>
           let '(n, tk, offset, clock_set) := logarithmic_accumulation n tk offset sh clock_set in
           let sh := if offset <? u64 (Z.shiftl (cycle_interval tk) sh) then sh - 1 else sh in
           advance_loop f n tk offset sh clock_set
       end
  else (n, tk, offset, clock_set).

Definition start_shift (n : ntp) (tk : timekeeper) (offset : Z) : Z :=
  let sh := Z.max 0 (ilog2 offset - ilog2 (cycle_interval tk)) in
  let maxshift := (64 - (ilog2 (ntp_tick_length n) + 1)) - 1 in
  Z.min sh maxshift.

(** Each turn lowers the shift or takes at least one interval off the offset. *)
Definition advance_fuel (tk : timekeeper) (offset sh : Z) : nat :=
  Z.to_nat (offset / cycle_interval tk + Z.max 0 sh + 1).

Inductive timekeeping_adv_mode := TK_ADV_TICK | TK_ADV_FREQ.

Definition is_tick (mode : timekeeping_adv_mode) : bool :=
  match mode with TK_ADV_TICK => true | TK_ADV_FREQ => false end.

(** The work on the shadow timekeeper. *)
Definition advance_tk (n : ntp) (tk : timekeeper) (offset : Z) : ntp * timekeeper * Z :=
  let sh := start_shift n tk offset in
  let '(n, tk, offset, clock_set) :=
    advance_loop (advance_fuel tk offset sh) n tk offset sh 0 in
  let tk := timekeeping_adjust n tk (s64 offset) in
  let '(n, tk, c) := accumulate_nsecs_to_secs n tk in
  (n, tk, Z.lor clock_set c).

Definition timekeeping_advance (w : world) (mode : timekeeping_adv_mode) (cycles : Z)
    : world * bool :=
  if timekeeping_suspended w then (w, false)
  else
  let tk := shadow_timekeeper w in
  let offset := clocksource_delta cycles (cycle_last (tkr_mono tk)) (mask (tkr_mono tk)) in
  if (offset <? cycle_interval (tk_core w)) && is_tick mode then (w, false)
  else
  let '(n, tk, clock_set) := advance_tk (w_ntp w) tk offset in
  let w := put_tk (w <| w_ntp := n |>) TkShadow tk in
  let w := timekeeping_update w TkShadow clock_set in
  (w <| tk_core := shadow_timekeeper w |>, nonzero clock_set).

(** The notification that follows a change is not part of the state. *)
Definition update_wall_time (w : world) (cycles : Z) : world :=
  (timekeeping_advance w TK_ADV_TICK cycles).1.

(** ** [adjtimex] *)

Definition timekeeping_validate_timex (txc : timex) (capable : bool) : Z :=
  let mode := flag (tx_modes txc) in
  let first :=
    if mode ADJ_ADJTIME then
      if negb (mode ADJ_OFFSET_SINGLESHOT) then - EINVAL
      else if negb (mode ADJ_OFFSET_READONLY) && negb capable then - EPERM else 0
    else
      if nonzero (tx_modes txc) && negb capable then - EPERM
      else if mode ADJ_TICK && ((tx_tick txc <? 900000 / USER_HZ)
                                || (1100000 / USER_HZ <? tx_tick txc)) then - EINVAL
      else 0 in
  if nonzero first then first
  else
  let second :=
    if mode ADJ_SETOFFSET then
      if negb capable then - EPERM
      else if tx_time_usec txc <? 0 then - EINVAL
      else if mode ADJ_NANO
      then if NSEC_PER_SEC <=? tx_time_usec txc then - EINVAL else 0
      else if USEC_PER_SEC <=? tx_time_usec txc then - EINVAL else 0
    else 0 in
  if nonzero second then second
  else if mode ADJ_FREQUENCY
       && ((tx_freq txc <? Z.quot (- 2 ^ 63) PPM_SCALE)
           || (Z.quot (2 ^ 63 - 1) PPM_SCALE <? tx_freq txc)) then - EINVAL
  else 0.

(** A negative number is an error, otherwise the state of the clock.
    [c1], [c2], [c3]: the counter at the injection, at the reading of the time
    and at the update. *)
Definition do_adjtimex (w : world) (capable : bool) (txc : timex) (c1 c2 c3 : Z)
    : world * timex * (Z + clock_state) :=
  let ret := timekeeping_validate_timex txc capable in
  if nonzero ret then (w, txc, inl ret)
  else
  let '(w, ret) :=
    if flag (tx_modes txc) ADJ_SETOFFSET
    then timekeeping_inject_offset w c1 (Timespec (tx_time_sec txc)
           (if flag (tx_modes txc) ADJ_NANO then tx_time_usec txc else tx_time_usec txc * 1000))
    else (w, 0) in
  if nonzero ret then (w, txc, inl ret)
  else
  let ts := ktime_get_real_ts64 w c2 in
  let orig_tai := tai_offset (tk_core w) in
  let '(n, txc', tai, result) :=
    __do_adjtimex (w_ntp w) (s64 (xtime_sec (tk_core w))) txc ts orig_tai in
  let w := w <| w_ntp := n |> in
  let w :=
    if negb (tai =? orig_tai)
    then timekeeping_update (set_core w (__timekeeping_set_tai_offset (tk_core w) tai)) TkCore
           (Z.lor TK_MIRROR TK_CLOCK_WAS_SET)
    else w in
  let w := set_core w (tk_update_leap_state (w_ntp w) (tk_core w)) in
  let w := if flag (tx_modes txc) (Z.lor ADJ_FREQUENCY ADJ_TICK)
           then (timekeeping_advance w TK_ADV_FREQ c3).1 else w in
  (w, txc', inr result).

(** ** The system calls of the practice *)

Definition sys_get_current_time (w : world) : Z :=
  let epoch_time := u64 (ktime_get_real_seconds w) in s64 epoch_time.

Definition sys_get_system_uptime (w : world) : Z :=
  let uptime := u64 (ktime_get_boottime_seconds w) in s64 uptime.
