(* ===== verification/TkInv.v ===== *)
(** * The timekeeper: invariant and the parts that every entry point shares

    The time that a timekeeper holds is counted in shifted nanoseconds
    ([2 ^ shift] to the nanosecond), as the code counts it.  The lemmas follow
    it through the carry of seconds, the change of [wall_to_monotonic], the
    update of the readout data and [timekeeping_forward_now]. *)
From S2P Require Import Prelude Bits Timespec Ntp Timekeeping TkEntry.

(** Shifted nanoseconds per second. *)
Definition sps (tk : timekeeper) : Z := NSEC_PER_SEC * 2 ^ shift (tkr_mono tk).

(** Monotonic time at the last cycle, in shifted nanoseconds. *)
Definition mono_sns (tk : timekeeper) : Z :=
  (xtime_sec tk * NSEC_PER_SEC + ts_ns (wall_to_monotonic tk)) * 2 ^ shift (tkr_mono tk)
  + xtime_nsec (tkr_mono tk).

(** Time of day in shifted nanoseconds. *)
Definition wall_sns (tk : timekeeper) : Z := xtime_sec tk * sps tk + xtime_nsec (tkr_mono tk).

(** International atomic time, in seconds. *)
Definition tai_sec (tk : timekeeper) : Z := xtime_sec tk + tai_offset tk.

(** The seconds can still move [k] times without reaching a bound.  The sum of
    the seconds of the time of day and of [wall_to_monotonic] may be -1: their
    nanoseconds then add up to more than a second. *)
Definition sec_room (k : Z) (tk : timekeeper) : Prop :=
  0 <= xtime_sec tk <= 9000000000 - 2 * k
  /\ - 9000000000 + k <= tv_sec (wall_to_monotonic tk) <= 9000000000 - k
  /\ - 1 <= xtime_sec tk + tv_sec (wall_to_monotonic tk) <= 9000000000 - k
  /\ - 2 ^ 31 + k <= tai_offset tk < 2 ^ 31 - k
  /\ 0 <= mono_sns tk.

(** The offsets agree with [wall_to_monotonic]. *)
Definition offs_ok (tk : timekeeper) : Prop :=
  ts_norm (wall_to_monotonic tk)
  /\ offs_real tk = - ts_ns (wall_to_monotonic tk)
  /\ offs_tai tk = ktime_add (offs_real tk) (ktime_set (tai_offset tk) 0).

Definition shift_ok (tk : timekeeper) : Prop := 0 <= shift (tkr_mono tk) <= 32.

(** The readout data that [timekeeping_update] prepares. *)
Definition synced (tk : timekeeper) : Prop :=
  base (tkr_mono tk) = xtime_sec tk * NSEC_PER_SEC + ts_ns (wall_to_monotonic tk)
  /\ ktime_sec tk = mono_sns tk / sps tk
  /\ base_real (tkr_mono tk) = u64 (base (tkr_mono tk) + offs_real tk).

(** A timekeeper between two entry points. *)
Record tk_inv (tk : timekeeper) : Prop := {
  inv_shift : shift_ok tk;
  inv_nsec : 0 <= xtime_nsec (tkr_mono tk) < sps tk;
  inv_room : sec_room 0 tk;
  inv_offs : offs_ok tk;
  inv_sync : synced tk }.

(** ** Arithmetic of the shift *)

Lemma sps_pos tk : shift_ok tk -> 0 < 2 ^ shift (tkr_mono tk) <= 2 ^ 32
  /\ sps tk = NSEC_PER_SEC * 2 ^ shift (tkr_mono tk) /\ 0 < sps tk < 2 ^ 62.
Proof.
  unfold shift_ok, sps. intros H. nanos.
  assert (2 ^ shift (tkr_mono tk) <= 2 ^ 32) by (apply Z.pow_le_mono_r; lia).
  assert (0 < 2 ^ shift (tkr_mono tk)) by (apply Z.pow_pos_nonneg; lia). lia.
Qed.

Lemma nsecps_sps tk : shift_ok tk -> nsecps (tkr_mono tk) = sps tk.
Proof.
  intros H. destruct (sps_pos tk H) as (P & E & B). unfold nsecps.
  rewrite Z.shiftl_mul_pow2 by (unfold shift_ok in H; lia). rewrite <- E.
  apply u64_id. unfold is_u64. lia.
Qed.

(** Dividing by the scale splits whole seconds off. *)
Lemma shiftr_sec a x s : 0 <= s -> Z.shiftr (a * 2 ^ s + x) s = a + Z.shiftr x s.
Proof.
  intros H. rewrite !Z.shiftr_div_pow2 by lia. rewrite Z.add_comm, Z.div_add by lia. lia.
Qed.

Lemma shiftr_bound x s b : 0 <= s -> 0 <= x < b * 2 ^ s -> 0 <= Z.shiftr x s < b.
Proof.
  intros H Hx. rewrite Z.shiftr_div_pow2 by lia. assert (0 < 2 ^ s) by lia.
  split; [apply Z.div_pos; lia | apply Z.div_lt_upper_bound; lia].
Qed.

(** ** Carrying seconds *)

Lemma carry_loop_spec n ps ns sec : 0 < ps -> 0 <= ns < (Z.of_nat n + 1) * ps ->
  ns < 2 ^ 64 -> is_u64 sec -> carry_loop n ps ns sec = (ns mod ps, u64 (sec + ns / ps)).
Proof.
  intros Hp. revert ns sec. induction n as [|n IH]; intros ns sec Hn H64 Hs; cbn [carry_loop];
    (destruct (Z.leb_spec ps ns);
     [| rewrite Z.div_small, Z.mod_small, Z.add_0_r, u64_id by (done || lia); done]); [lia |].
  rewrite (u64_id (ns - ps)) by (unfold is_u64; lia). rewrite IH by (lia || apply u64_range).
  replace (ns - ps) with (ns + -1 * ps) by lia.
  rewrite Z.div_add, Z.mod_add, u64_add_l by lia. do 2 f_equal. lia.
Qed.

Lemma carry_spec ps ns sec : 0 < ps -> is_u64 ns -> is_u64 sec ->
  carry ps ns sec = (ns mod ps, u64 (sec + ns / ps)).
Proof.
  unfold carry, is_u64. intros Hp Hn Hs.
  assert (0 <= ns / ps) by (apply Z.div_pos; lia).
  pose proof (Z.mod_pos_bound ns ps Hp). pose proof (Z.div_mod ns ps ltac:(lia)).
  apply carry_loop_spec; [lia | rewrite Z2Nat.id by lia; lia | lia | done].
Qed.

(** What normalisation keeps apart from seconds and nanoseconds. *)
Definition same_but_time (tk tk' : timekeeper) : Prop :=
  tk' = tk <| tkr_mono := (tkr_mono tk) <| xtime_nsec := xtime_nsec (tkr_mono tk') |> |>
           <| tkr_raw := (tkr_raw tk) <| xtime_nsec := xtime_nsec (tkr_raw tk') |> |>
           <| xtime_sec := xtime_sec tk' |> <| raw_sec := raw_sec tk' |>.

Lemma tk_normalize_xtime_spec tk : shift_ok tk -> is_u64 (xtime_nsec (tkr_mono tk)) ->
  is_u64 (xtime_sec tk) ->
  same_but_time tk (tk_normalize_xtime tk)
  /\ xtime_sec (tk_normalize_xtime tk) = u64 (xtime_sec tk + xtime_nsec (tkr_mono tk) / sps tk)
  /\ xtime_nsec (tkr_mono (tk_normalize_xtime tk)) = xtime_nsec (tkr_mono tk) mod sps tk.
Proof.
  intros Hs Hn H0. unfold tk_normalize_xtime, same_but_time. rewrite nsecps_sps by done.
  destruct (sps_pos tk Hs) as (_ & _ & Hp).
  rewrite carry_spec by (done || lia). unfold carry_raw.
  destruct (carry _ _ _) as [a b]. cbn. done.
Qed.

(** ** Moving [wall_to_monotonic] *)

Definition same_but_wtm (tk tk' : timekeeper) : Prop :=
  tk' = tk <| wall_to_monotonic := wall_to_monotonic tk' |> <| offs_real := offs_real tk' |>
           <| offs_tai := offs_tai tk' |>.

Lemma tk_set_wall_to_mono_spec tk wtm : ts_norm wtm -> - 9000000001 <= tv_sec wtm <= 9000000001 ->
  offs_ok (tk_set_wall_to_mono tk wtm)
  /\ same_but_wtm tk (tk_set_wall_to_mono tk wtm)
  /\ wall_to_monotonic (tk_set_wall_to_mono tk wtm) = wtm.
Proof.
  intros N S. unfold tk_set_wall_to_mono, offs_ok, same_but_wtm.
  unfold ts_norm in N. nanos.
  rewrite !s64_id by (unfold is_s64; lia).
  destruct (set_normalized_spec (- tv_sec wtm) (- tv_nsec wtm)) as [N' E];
    [unfold is_s64; lia | lia |].
  set (t := set_normalized_timespec64 (- tv_sec wtm) (- tv_nsec wtm)) in *.
  cbn. rewrite timespec64_to_ktime_spec;
    [| done | unfold sec_ok; unfold ts_norm, ts_ns in *; nanos; lia].
  unfold ts_norm. nanos. repeat split; [lia | lia |]. rewrite E. unfold ts_ns. nanos. lia.
Qed.

(** ** The counter *)

(** A mask of [k] bits. *)
Definition mask_ok (m : Z) : Prop := exists k, 1 <= k <= 64 /\ m = Z.ones k.

Lemma clocksource_delta_spec now last k : 1 <= k <= 64 ->
  clocksource_delta now last (Z.ones k) =
    (let d := (now - last) mod 2 ^ k in if d <? 2 ^ (k - 1) then d else 0).
Proof.
  intros Hk. unfold clocksource_delta, nonzero; cbn zeta.
  assert (P : 2 ^ 64 = 2 ^ k * 2 ^ (64 - k)) by (rewrite <- Z.pow_add_r by lia; f_equal; lia).
  rewrite Z.land_ones by lia.
  replace (u64 (now - last) mod 2 ^ k) with ((now - last) mod 2 ^ k).
  2: { unfold u64. rewrite P, Z.rem_mul_r by lia.
       rewrite Z.mul_comm, Z.mod_add, Z.mod_mod by lia. done. }
  set (d := (now - last) mod 2 ^ k).
  assert (Hd : 0 <= d < 2 ^ k) by (apply Z.mod_pos_bound; lia).
  assert (Z.shiftr (Z.ones k) 1 = Z.ones (k - 1)) as ->.
  { rewrite !Z.ones_equiv, Z.shiftr_div_pow2 by lia.
    replace (2 ^ k) with (2 * 2 ^ (k - 1)) by (rewrite <- Z.pow_succ_r by lia; f_equal; lia).
    change (2 ^ 1) with 2. clear. Z.to_euclidean_division_equations; lia. }
  rewrite Z.ldiff_ones_r by lia. rewrite Z.shiftr_div_pow2, Z.shiftl_mul_pow2 by lia.
  assert (0 < 2 ^ (k - 1)) by lia.
  destruct (Z.ltb_spec d (2 ^ (k - 1))) as [L|L].
  - rewrite (Z.div_small d) by lia. done.
  - assert (0 < d / 2 ^ (k - 1)) by (apply Z.div_str_pos; lia).
    destruct (Z.eqb_spec (d / 2 ^ (k - 1) * 2 ^ (k - 1)) 0); [nia | done].
Qed.

Lemma clocksource_delta_range now last m : mask_ok m -> 0 <= clocksource_delta now last m < 2 ^ 63.
Proof.
  intros (k & Hk & ->). rewrite clocksource_delta_spec by done. cbn zeta.
  assert (2 ^ (k - 1) <= 2 ^ 63) by (apply Z.pow_le_mono_r; lia).
  pose proof (Z.mod_pos_bound (now - last) (2 ^ k) ltac:(lia)).
  destruct (Z.ltb_spec ((now - last) mod 2 ^ k) (2 ^ (k - 1))); lia.
Qed.

(** Cycles moved into the last cycle leave the delta. *)
Lemma clocksource_delta_move now last m i : mask_ok m ->
  0 <= i <= clocksource_delta now last m ->
  clocksource_delta now (u64 (last + i)) m = clocksource_delta now last m - i.
Proof.
  intros (k & Hk & ->). rewrite !clocksource_delta_spec by done. cbn zeta.
  pose proof (Z.mod_pos_bound (now - last) (2 ^ k) ltac:(lia)) as B.
  assert (P : 2 ^ 64 = 2 ^ (64 - k) * 2 ^ k) by (rewrite <- Z.pow_add_r by lia; f_equal; lia).
  assert (E : (now - u64 (last + i)) mod 2 ^ k = ((now - last) mod 2 ^ k - i) mod 2 ^ k).
  { rewrite Zminus_mod_idemp_l. unfold u64.
    rewrite (Z.mod_eq (last + i) (2 ^ 64)) by lia. rewrite P.
    replace (now - (last + i - 2 ^ (64 - k) * 2 ^ k * ((last + i) / (2 ^ (64 - k) * 2 ^ k))))
      with (now - last - i + (2 ^ (64 - k) * ((last + i) / (2 ^ (64 - k) * 2 ^ k))) * 2 ^ k) by ring.
    apply Z.mod_add. lia. }
  rewrite E. intros Hi.
  destruct (Z.ltb_spec ((now - last) mod 2 ^ k) (2 ^ (k - 1))) as [L|L].
  - rewrite (Z.mod_small (_ - i)) by lia. destruct (Z.ltb_spec ((now - last) mod 2 ^ k - i) (2 ^ (k - 1))); lia.
  - assert (i = 0) as -> by lia. rewrite Z.sub_0_r, Z.mod_mod by lia.
    destruct (Z.ltb_spec ((now - last) mod 2 ^ k) (2 ^ (k - 1))); lia.
Qed.

Lemma clocksource_delta_same c m : mask_ok m -> clocksource_delta c c m = 0.
Proof.
  intros (k & Hk & ->). rewrite clocksource_delta_spec by done. cbn zeta.
  rewrite Z.sub_diag, Z.mod_0_l by lia. case_match; done.
Qed.
