(* ===== verification/TkRead.v ===== *)
(** * The timekeeper: what the readers return, and the shared steps

    [mono_at] is the monotonic time at a counter value; the readers return it
    in their units.  [timekeeping_update] prepares the readout data and keeps
    the time; [timekeeping_forward_now] moves the pending cycles into it. *)
From S2P Require Import Prelude Timespec Ntp Timekeeping TkEntry TkInv.

(** Cycles since the last update, in shifted nanoseconds. *)
Definition pending (tk : timekeeper) (c : Z) : Z :=
  clocksource_delta c (cycle_last (tkr_mono tk)) (mask (tkr_mono tk)) * mult (tkr_mono tk).

Definition mono_at (tk : timekeeper) (c : Z) : Z := mono_sns tk + pending tk c.
Definition wall_at (tk : timekeeper) (c : Z) : Z := wall_sns tk + pending tk c.

(** The counter can be read without overflow: the product fits and the time
    reached is before the year 2255. *)
Record readable (tk : timekeeper) (c : Z) : Prop := {
  rd_mask : mask_ok (mask (tkr_mono tk));
  rd_mult : 0 <= mult (tkr_mono tk) < 2 ^ 32;
  rd_fits : xtime_nsec (tkr_mono tk) + pending tk c < 2 ^ 64;
  rd_mono : mono_at tk c < 9000000000 * sps tk;
  rd_wall : wall_at tk c < 9000000000 * sps tk }.

Lemma pending_nonneg tk c : readable tk c -> 0 <= pending tk c.
Proof.
  intros [M Mu _ _ _]. unfold pending.
  pose proof (clocksource_delta_range c (cycle_last (tkr_mono tk)) _ M). nia.
Qed.

Lemma get_ns_spec tk c : tk_inv tk -> readable tk c ->
  timekeeping_get_ns (tkr_mono tk) c =
    Z.shiftr (xtime_nsec (tkr_mono tk) + pending tk c) (shift (tkr_mono tk)).
Proof.
  intros I R. pose proof (pending_nonneg tk c R). destruct I as [_ N _ _ _], R as [_ _ F _ _].
  unfold timekeeping_get_ns, timekeeping_delta_to_ns, timekeeping_get_delta, pending in *.
  rewrite u64_id by (unfold is_u64; lia). f_equal. lia.
Qed.

(** Monotonic nanoseconds from the base and the nanoseconds of the counter. *)
Lemma mono_split tk x : shift_ok tk ->
  Z.shiftr (mono_sns tk + x) (shift (tkr_mono tk)) =
  xtime_sec tk * NSEC_PER_SEC + ts_ns (wall_to_monotonic tk)
  + Z.shiftr (xtime_nsec (tkr_mono tk) + x) (shift (tkr_mono tk)).
Proof.
  intros S. unfold mono_sns. rewrite <- Z.add_assoc.
  apply shiftr_sec. unfold shift_ok in S. lia.
Qed.

Lemma mono_range tk c : tk_inv tk -> readable tk c ->
  0 <= Z.shiftr (mono_at tk c) (shift (tkr_mono tk)) < 9000000000 * NSEC_PER_SEC.
Proof.
  intros I R. pose proof (pending_nonneg tk c R) as P0. destruct (sps_pos tk (inv_shift _ I)) as (P & E & _).
  apply shiftr_bound; [apply I |]. split.
  - destruct (inv_room _ I) as (_ & _ & _ & _ & M0). unfold mono_at. lia.
  - pose proof (rd_mono _ _ R). nia.
Qed.

(** [CLOCK_MONOTONIC]: the time in nanoseconds. *)
Lemma ktime_get_spec w c : tk_inv (tk_core w) -> readable (tk_core w) c ->
  ktime_get w c = Z.shiftr (mono_at (tk_core w) c) (shift (tkr_mono (tk_core w))).
Proof.
  intros I R. pose proof (mono_range _ _ I R) as B. unfold ktime_get, ktime_add_ns.
  rewrite get_ns_spec by done. unfold mono_at in *. rewrite mono_split in * by apply I.
  destruct (inv_sync _ I) as (-> & _ & _). set (x := _ + _ + Z.shiftr _ _) in *. nanos. cint.
Qed.

(** The other clocks of the readout add their offset. *)
Lemma ktime_get_with_offset_spec w offs c : tk_inv (tk_core w) -> readable (tk_core w) c ->
  ktime_get_with_offset w offs c = s64 (ktime_get w c + offset_of (tk_core w) offs).
Proof.
  intros I R. unfold ktime_get_with_offset, ktime_get, ktime_add_ns, ktime_add.
  generalize (timekeeping_get_ns (tkr_mono (tk_core w)) c).
  generalize (base (tkr_mono (tk_core w))). generalize (offset_of (tk_core w) offs).
  intros; cint.
Qed.

(** [CLOCK_REALTIME]. *)
Lemma ktime_get_real_ts64_spec w c : tk_inv (tk_core w) -> readable (tk_core w) c ->
  xtime_nsec (tkr_mono (tk_core w)) + pending (tk_core w) c < 4000000000 * sps (tk_core w) ->
  ts_norm (ktime_get_real_ts64 w c)
  /\ ts_ns (ktime_get_real_ts64 w c) =
     Z.shiftr (wall_at (tk_core w) c) (shift (tkr_mono (tk_core w))).
Proof.
  intros I R H. set (tk := tk_core w) in *. unfold ktime_get_real_ts64. fold tk.
  pose proof (pending_nonneg tk c R). destruct (sps_pos tk (inv_shift _ I)) as (P & E & _).
  destruct (inv_room _ I) as (R1 & _). pose proof (inv_nsec _ I).
  rewrite get_ns_spec, s64_id by (done || (unfold is_s64; lia)).
  destruct (timespec64_add_ns_spec (Timespec (xtime_sec tk) 0)
    (Z.shiftr (xtime_nsec (tkr_mono tk) + pending tk c) (shift (tkr_mono tk)))) as [N V].
  { unfold ts_norm; simpl; nanos; lia. }
  { simpl; lia. }
  { apply shiftr_bound; [apply I | nia]. }
  split; [exact N |]. rewrite V. unfold wall_at, wall_sns, sps, ts_ns; simpl.
  rewrite <- (shiftr_sec _ _ (shift (tkr_mono tk))) by apply I. f_equal. ring.
Qed.

(** ** [timekeeping_update] *)

(** A timekeeper without the data that [timekeeping_update] derives. *)
Definition view (tk : timekeeper) : timekeeper :=
  tk <| tkr_mono := (tkr_mono tk) <| base := 0 |> <| base_real := 0 |> |>
     <| tkr_raw := (tkr_raw tk) <| base := 0 |> |>
     <| ktime_sec := 0 |> <| ntp_error := 0 |> <| next_leap_ktime := 0 |>
     <| clock_was_set_seq := 0 |>.

(** Two timekeepers that hold the same time. *)
Definition same_time (tk tk' : timekeeper) : Prop := view tk = view tk'.

#[export] Instance same_time_equiv : Equivalence same_time.
Proof. unfold same_time. split; congruence. Qed.

(** The fields that equal views share. *)
Ltac view_field H f :=
  let E := fresh "E" in pose proof (f_equal f H) as E; cbn in E.

Lemma same_time_facts tk tk' : same_time tk tk' ->
  mono_sns tk' = mono_sns tk /\ wall_sns tk' = wall_sns tk /\ sps tk' = sps tk
  /\ (forall c, pending tk' c = pending tk c)
  /\ (shift_ok tk -> shift_ok tk') /\ (forall k, sec_room k tk -> sec_room k tk')
  /\ (offs_ok tk -> offs_ok tk')
  /\ xtime_nsec (tkr_mono tk') = xtime_nsec (tkr_mono tk)
  /\ tkr_mono tk' = (tkr_mono tk) <| base := base (tkr_mono tk') |>
       <| base_real := base_real (tkr_mono tk') |>
  /\ offs_boot tk' = offs_boot tk /\ offs_tai tk' = offs_tai tk /\ tai_sec tk' = tai_sec tk.
Proof.
  intros H. unfold same_time in H.
  view_field H xtime_sec. view_field H wall_to_monotonic. view_field H offs_real.
  view_field H offs_tai. view_field H offs_boot. view_field H tai_offset.
  view_field H (fun t => tkr_mono t).
  destruct (tkr_mono tk) as [a1 a2 a3 a4 a5 a6 a7 a8] eqn:M,
    (tkr_mono tk') as [b1 b2 b3 b4 b5 b6 b7 b8] eqn:M'; simpl in *. simplify_eq/=.
  unfold sec_room, mono_sns, wall_sns, sps, pending, shift_ok, offs_ok, tai_sec.
  rewrite M, M'; cbn. rewrite E, E0, E1, E2, E4.
  split_and!; auto.
Qed.

Lemma readable_same tk tk' c : same_time tk tk' -> readable tk c -> readable tk' c.
Proof.
  intros H [R1 R2 R3 R4 R5]. apply same_time_facts in H as (E1 & E2 & E3 & E4 & _ & _ & _ & E5 & E6 & _).
  split; unfold mono_at, wall_at in *; rewrite ?E1, ?E2, ?E3, ?E4, ?E5; try done;
    rewrite E6; cbn; done.
Qed.

(** The timekeeper after the update, seen from the pointer it was passed. *)
Definition updated (w : world) (p : tk_ptr) (action : Z) : timekeeper :=
  let n := if flag action TK_CLEAR_NTP then ntp_clear (w_ntp w) else w_ntp w in
  let tk := if flag action TK_CLEAR_NTP then (get_tk w p) <| ntp_error := 0 |> else get_tk w p in
  let tk := tk_update_ktime_data (tk_update_leap_state n tk) in
  let tk := mono (fun r => r <| base_real := u64 (base r + offs_real tk) |>) tk in
  if flag action TK_CLOCK_WAS_SET
  then tk <| clock_was_set_seq := u32 (clock_was_set_seq tk + 1) |> else tk.

Lemma timekeeping_update_core w action : flag action TK_MIRROR = true ->
  tk_core (timekeeping_update w TkCore action) = updated w TkCore action
  /\ shadow_timekeeper (timekeeping_update w TkCore action) = updated w TkCore action.
Proof.
  intros M. unfold timekeeping_update, updated. rewrite M.
  destruct (flag action TK_CLEAR_NTP), (flag action TK_CLOCK_WAS_SET); done.
Qed.

Lemma timekeeping_update_shadow w action : flag action TK_MIRROR = false ->
  shadow_timekeeper (timekeeping_update w TkShadow action) = updated w TkShadow action.
Proof.
  intros M. unfold timekeeping_update, updated. rewrite M.
  destruct (flag action TK_CLEAR_NTP), (flag action TK_CLOCK_WAS_SET); done.
Qed.

(** The steps of the update keep the time. *)
Lemma same_ntp_error tk x : same_time tk (tk <| ntp_error := x |>).
Proof. reflexivity. Qed.
Lemma same_next_leap tk x : same_time tk (tk <| next_leap_ktime := x |>).
Proof. reflexivity. Qed.
Lemma same_seq tk x : same_time tk (tk <| clock_was_set_seq := x |>).
Proof. reflexivity. Qed.
Lemma same_base_real tk x : same_time tk (mono (fun r => r <| base_real := x r |>) tk).
Proof. reflexivity. Qed.
Lemma same_ktime_data tk : same_time tk (tk_update_ktime_data tk).
Proof. reflexivity. Qed.
Lemma same_leap_state n tk : same_time tk (tk_update_leap_state n tk).
Proof.
  unfold tk_update_leap_state. cbv zeta. destruct (_ =? KTIME_MAX); [apply same_next_leap |].
  etrans; [apply same_next_leap |]. apply same_next_leap.
Qed.

(** The timekeeper that the readout data is computed from. *)
Definition leap_updated (w : world) (p : tk_ptr) (action : Z) : timekeeper :=
  tk_update_leap_state (if flag action TK_CLEAR_NTP then ntp_clear (w_ntp w) else w_ntp w)
    (if flag action TK_CLEAR_NTP then (get_tk w p) <| ntp_error := 0 |> else get_tk w p).

Lemma leap_updated_same w p action : same_time (get_tk w p) (leap_updated w p action).
Proof.
  unfold leap_updated. destruct (flag action TK_CLEAR_NTP); [| apply same_leap_state].
  etrans; [apply same_ntp_error | apply same_leap_state].
Qed.

Lemma updated_same w p action : same_time (get_tk w p) (updated w p action).
Proof.
  unfold updated. fold (leap_updated w p action). cbv zeta.
  etrans; [apply (leap_updated_same w p action) |].
  destruct (flag action TK_CLOCK_WAS_SET);
    [etrans; [| apply same_seq] |]; (etrans; [| apply same_base_real]); apply same_ktime_data.
Qed.

Lemma ktime_data_spec tk : shift_ok tk -> 0 <= xtime_nsec (tkr_mono tk) < sps tk ->
  sec_room 0 tk -> ts_norm (wall_to_monotonic tk) ->
  base (tkr_mono (tk_update_ktime_data tk))
    = xtime_sec tk * NSEC_PER_SEC + ts_ns (wall_to_monotonic tk)
  /\ ktime_sec (tk_update_ktime_data tk) = mono_sns tk / sps tk.
Proof.
  intros S N (R1 & R2 & R3 & _ & M0) T. destruct (sps_pos tk S) as (P & E & _).
  assert (B : 0 <= Z.shiftr (xtime_nsec (tkr_mono tk)) (shift (tkr_mono tk)) < NSEC_PER_SEC)
    by (apply shiftr_bound; [apply S | rewrite <- E; lia]).
  set (x := Z.shiftr (xtime_nsec (tkr_mono tk)) (shift (tkr_mono tk))) in *.
  assert (Q : mono_sns tk / sps tk = xtime_sec tk + tv_sec (wall_to_monotonic tk)
    + (tv_nsec (wall_to_monotonic tk) + x) / NSEC_PER_SEC).
  { rewrite E, Z.mul_comm, <- Z.div_div by (nanos; lia). rewrite <- Z.shiftr_div_pow2 by apply S.
    rewrite <- (Z.add_0_r (mono_sns tk)), mono_split, Z.add_0_r by done. fold x.
    unfold ts_ns. nanos. rewrite <- Z.div_add_l by lia. f_equal. ring. }
  assert (Q0 : 0 <= mono_sns tk / sps tk) by (apply Z.div_pos; nanos; lia).
  rewrite Q in *. unfold tk_update_ktime_data; cbn. fold x. unfold ts_norm, ts_ns in *. nanos.
  rewrite (u32_id (tv_nsec _)), (u32_id x), !(u32_id (_ + x)) by (unfold is_u32; lia).
  set (n := tv_nsec (wall_to_monotonic tk)) in *.
  rewrite Z.add_assoc, <- Z.mul_add_distr_r.
  set (s := xtime_sec tk + tv_sec (wall_to_monotonic tk)) in *. clearbody s n x.
  clear -R3 T B Q0. split; [cint |].
  destruct (Z.leb_spec 1000000000 (n + x)); cint.
Qed.

(** The readout data belongs to the timekeeper that holds it. *)
Definition ktime_synced (tk : timekeeper) : Prop :=
  base (tkr_mono tk) = xtime_sec tk * NSEC_PER_SEC + ts_ns (wall_to_monotonic tk)
  /\ ktime_sec tk = mono_sns tk / sps tk.

Lemma ktime_data_synced tk : shift_ok tk -> 0 <= xtime_nsec (tkr_mono tk) < sps tk ->
  sec_room 0 tk -> ts_norm (wall_to_monotonic tk) -> ktime_synced (tk_update_ktime_data tk).
Proof.
  intros S N R T. destruct (ktime_data_spec tk S N R T) as [E1 E2].
  destruct (same_time_facts _ _ (same_ktime_data tk)) as (F1 & _ & F3 & _).
  split; [rewrite E1; reflexivity | rewrite F1, F3; exact E2].
Qed.

Lemma synced_finish tk (b : bool) x : ktime_synced tk ->
  let tk' := mono (fun r => r <| base_real := u64 (base r + offs_real tk) |>) tk in
  synced (if b then tk' <| clock_was_set_seq := x |> else tk').
Proof. intros [E1 E2]. destruct b; split_and!; cbn; done. Qed.

Lemma updated_inv w p action : let tk := get_tk w p in
  shift_ok tk -> 0 <= xtime_nsec (tkr_mono tk) < sps tk -> sec_room 0 tk -> offs_ok tk ->
  tk_inv (updated w p action).
Proof.
  cbn zeta. intros S N R O.
  destruct (same_time_facts _ _ (updated_same w p action)) as (_ & _ & E3 & _ & Hs & Hr & Ho & En & _).
  split; [auto | rewrite En, E3; auto | auto | auto |].
  unfold updated. fold (leap_updated w p action). cbv zeta. apply synced_finish.
  destruct (same_time_facts _ _ (leap_updated_same w p action)) as
    (_ & _ & F3 & _ & Fs & Fr & Fo & Fn & _).
  apply ktime_data_synced; [auto | rewrite Fn, F3; auto | auto | apply Fo; done].
Qed.
