(* ===== verification/TkSet.v ===== *)
(** * The timekeeper: setting and moving the clocks

    [timekeeping_forward_now] and the entry points that run after it.  Setting
    the time of day or injecting an offset moves [CLOCK_REALTIME] only; sleep
    time moves [CLOCK_REALTIME] and [CLOCK_BOOTTIME]; in all of them
    [CLOCK_MONOTONIC] goes on from where it was. *)
From S2P Require Import Prelude Timespec Ntp Timekeeping TkEntry TkInv TkRead.

(** A timekeeper brought forward to the counter value [c]. *)
Record forwarded (tk tk' : timekeeper) (c : Z) : Prop := {
  fw_mono : tkr_mono tk' =
    (tkr_mono tk) <| cycle_last := c |> <| xtime_nsec := xtime_nsec (tkr_mono tk') |>;
  fw_sec : mono_sns tk' = mono_at tk c;
  fw_wall : wall_sns tk' = wall_at tk c;
  fw_nsec : 0 <= xtime_nsec (tkr_mono tk') < sps tk';
  fw_room : sec_room 0 tk';
  fw_offs : wall_to_monotonic tk' = wall_to_monotonic tk /\ offs_real tk' = offs_real tk
    /\ offs_tai tk' = offs_tai tk /\ offs_boot tk' = offs_boot tk
    /\ tai_offset tk' = tai_offset tk }.

(** The fields after [timekeeping_forward_now]: the pending time is split into
    seconds and the rest. *)
Lemma forward_fields tk c : tk_inv tk -> readable tk c ->
  let x := xtime_nsec (tkr_mono tk) + pending tk c in
  let tk' := timekeeping_forward_now tk c in
  tkr_mono tk' = (tkr_mono tk) <| cycle_last := c |> <| xtime_nsec := xtime_nsec (tkr_mono tk') |>
  /\ xtime_nsec (tkr_mono tk') = x mod sps tk /\ xtime_sec tk' = xtime_sec tk + x / sps tk
  /\ 0 <= x / sps tk /\ xtime_sec tk + x / sps tk < 9000000000
  /\ wall_to_monotonic tk' = wall_to_monotonic tk /\ offs_real tk' = offs_real tk
  /\ offs_tai tk' = offs_tai tk /\ offs_boot tk' = offs_boot tk /\ tai_offset tk' = tai_offset tk.
Proof.
  intros I R. pose proof (pending_nonneg tk c R) as P0.
  destruct I as [S N (R1 & _) O _], R as [M Mu F Rm Rw].
  destruct (sps_pos tk S) as (P & E & B).
  cbv zeta. unfold timekeeping_forward_now. set (d := clocksource_delta c _ _).
  set (fwd := fun r : tk_read_base => r <| cycle_last := c |>
    <| xtime_nsec := u64 (xtime_nsec r + u64 (d * mult r)) |>).
  assert (Ed : u64 (xtime_nsec (tkr_mono tk) + u64 (d * mult (tkr_mono tk)))
    = xtime_nsec (tkr_mono tk) + pending tk c).
  { unfold pending in *. fold d in P0, F |- *. rewrite (u64_id (d * _)), u64_id; unfold is_u64; lia. }
  set (x := xtime_nsec (tkr_mono tk) + pending tk c) in *.
  set (tk0 := raw fwd (mono fwd tk)).
  assert (Ex : xtime_nsec (tkr_mono tk0) = x) by exact Ed.
  pose proof (Z.div_mod x (sps tk) ltac:(lia)) as DM.
  pose proof (Z.mod_pos_bound x (sps tk) ltac:(lia)) as MB.
  assert (Q0 : 0 <= x / sps tk) by (apply Z.div_pos; lia).
  assert (Q1 : xtime_sec tk + x / sps tk < 9000000000)
    by (apply (Z.mul_lt_mono_pos_r (sps tk)); [lia |]; unfold wall_at, wall_sns in Rw; lia).
  destruct (tk_normalize_xtime_spec tk0) as (F1 & F2 & F3);
    [exact S | rewrite Ex; unfold is_u64; lia | unfold is_u64; cbn; lia |].
  rewrite Ex in F2, F3. change (sps tk0) with (sps tk) in F2, F3.
  change (xtime_sec tk0) with (xtime_sec tk) in F2. rewrite u64_id in F2 by (unfold is_u64; lia).
  set (tk' := tk_normalize_xtime tk0) in *. clearbody tk'.
  pose proof (f_equal tkr_mono F1) as G. cbn in G.
  split_and!; [exact G | done.. | | | | |]; rewrite F1; reflexivity.
Qed.

Lemma forward_spec tk c : tk_inv tk -> readable tk c ->
  forwarded tk (timekeeping_forward_now tk c) c.
Proof.
  intros I R. destruct (forward_fields tk c I R) as (G & F3 & F2 & Q0 & Q1 & Gw & Go & Ga & Gb & Gt).
  revert G F3 F2 Gw Go Ga Gb Gt. generalize (timekeeping_forward_now tk c) as tk'.
  intros tk' G F3 F2 Gw Go Ga Gb Gt. pose proof (pending_nonneg tk c R) as P0.
  destruct I as [S N (R1 & R2 & R3 & R4 & R5) (T & _) _], R as [M Mu F Rm Rw].
  destruct (sps_pos tk S) as (P & E & B).
  set (x := xtime_nsec (tkr_mono tk) + pending tk c) in *.
  pose proof (Z.div_mod x (sps tk) ltac:(lia)) as DM.
  pose proof (Z.mod_pos_bound x (sps tk) ltac:(lia)) as MB.
  assert (Gs : sps tk' = sps tk) by (unfold sps; rewrite G; reflexivity).
  assert (Gh : shift (tkr_mono tk') = shift (tkr_mono tk)) by (rewrite G; reflexivity).
  assert (Q2 : xtime_sec tk + tv_sec (wall_to_monotonic tk) + x / sps tk <= 9000000000).
  { enough (xtime_sec tk + tv_sec (wall_to_monotonic tk) + x / sps tk < 9000000000) by lia.
    apply (Z.mul_lt_mono_pos_r (sps tk)); [lia |]. eapply Z.le_lt_trans; [| exact Rm].
    unfold mono_at, mono_sns, ts_ns. unfold ts_norm in T. rewrite <- Z.add_assoc. fold x.
    assert (0 <= tv_nsec (wall_to_monotonic tk) * 2 ^ shift (tkr_mono tk)) by (apply Z.mul_nonneg_nonneg; lia).
    rewrite E in *. nanos. lia. }
  assert (Gm : mono_sns tk' = mono_at tk c).
  { unfold mono_sns, mono_at, mono_sns. rewrite Gh, Gw, F2, F3.
    unfold x in *. rewrite E in *. nanos. lia. }
  split; [exact G | exact Gm | | | | done].
  - unfold wall_sns, wall_at, wall_sns. rewrite Gs, F2, F3. unfold x in *. lia.
  - rewrite Gs, F3. lia.
  - unfold sec_room. rewrite Gm, Gw, F2, Gt. unfold mono_at. lia.
Qed.

(** ** The end of every entry point that changes the core timekeeper *)

Lemma update_core_spec w tk action : flag action TK_MIRROR = true ->
  shift_ok tk -> 0 <= xtime_nsec (tkr_mono tk) < sps tk -> sec_room 0 tk -> offs_ok tk ->
  let w' := timekeeping_update (set_core w tk) TkCore action in
  same_time tk (tk_core w') /\ tk_inv (tk_core w') /\ shadow_timekeeper w' = tk_core w'.
Proof.
  intros M S N R O. destruct (timekeeping_update_core (set_core w tk) action M) as [E1 E2].
  cbn zeta. rewrite E1, E2.
  split; [apply (updated_same (set_core w tk) TkCore) |].
  split; [by apply (updated_inv (set_core w tk) TkCore) | done].
Qed.

(** Two timekeepers whose clocks read the same at [c]. *)
Lemma ktime_get_same w w' c : tk_inv (tk_core w) -> readable (tk_core w) c ->
  tk_inv (tk_core w') -> readable (tk_core w') c ->
  shift (tkr_mono (tk_core w')) = shift (tkr_mono (tk_core w)) ->
  Z.shiftr (mono_at (tk_core w') c) (shift (tkr_mono (tk_core w)))
    = Z.shiftr (mono_at (tk_core w) c) (shift (tkr_mono (tk_core w))) ->
  ktime_get w' c = ktime_get w c.
Proof. intros I R I' R' Es E. rewrite !ktime_get_spec by done. by rewrite Es. Qed.

(** Nothing is pending at the last cycle. *)
Lemma pending_at_last tk c : mask_ok (mask (tkr_mono tk)) -> cycle_last (tkr_mono tk) = c ->
  pending tk c = 0.
Proof. intros M <-. unfold pending. by rewrite clocksource_delta_same. Qed.

Section forwarded_facts.
Context (tk tk' : timekeeper) (c : Z).
Hypothesis I : tk_inv tk.
Hypothesis R : readable tk c.
Hypothesis F : forwarded tk tk' c.

Lemma fw_shift : shift (tkr_mono tk') = shift (tkr_mono tk).
Proof. rewrite (fw_mono _ _ _ F). reflexivity. Qed.

Lemma fw_shift_ok : shift_ok tk'.
Proof. unfold shift_ok. rewrite fw_shift. apply I. Qed.

Lemma fw_sps : sps tk' = sps tk.
Proof. unfold sps. by rewrite fw_shift. Qed.

Lemma fw_offs_ok : offs_ok tk'.
Proof.
  destruct (inv_offs _ I) as (O1 & O2 & O3), (fw_offs _ _ _ F) as (E1 & E2 & E3 & E4 & E5).
  unfold offs_ok. rewrite E1, E2, E3, E5. done.
Qed.

Lemma fw_pending : pending tk' c = 0.
Proof.
  apply pending_at_last; rewrite (fw_mono _ _ _ F); cbn; [apply R | done].
Qed.

Lemma fw_readable : readable tk' c.
Proof.
  assert (P := fw_pending). destruct (sps_pos tk' fw_shift_ok) as (_ & _ & B).
  pose proof (fw_nsec _ _ _ F).
  split; unfold mono_at, wall_at; rewrite ?P, ?Z.add_0_r, ?fw_sps,
    ?(fw_sec _ _ _ F), ?(fw_wall _ _ _ F); try apply R; [| | lia];
    rewrite (fw_mono _ _ _ F); cbn; apply R.
Qed.

Lemma fw_mono_at : mono_at tk' c = mono_at tk c.
Proof. unfold mono_at at 1. by rewrite fw_pending, Z.add_0_r, (fw_sec _ _ _ F). Qed.

Lemma fw_wall_at : wall_at tk' c = wall_at tk c.
Proof. unfold wall_at at 1. by rewrite fw_pending, Z.add_0_r, (fw_wall _ _ _ F). Qed.
End forwarded_facts.

(** The time of day of a timekeeper in nanoseconds. *)
Lemma tk_xtime_spec tk : shift_ok tk -> 0 <= xtime_nsec (tkr_mono tk) < sps tk ->
  0 <= xtime_sec tk <= 9000000000 ->
  ts_norm (tk_xtime tk) /\ tv_sec (tk_xtime tk) = xtime_sec tk
  /\ Z.shiftr (wall_sns tk) (shift (tkr_mono tk)) = ts_ns (tk_xtime tk)
  /\ Z.shiftr (mono_sns tk) (shift (tkr_mono tk))
     = ts_ns (tk_xtime tk) + ts_ns (wall_to_monotonic tk).
Proof.
  intros S N X. destruct (sps_pos tk S) as (P & E & _).
  assert (B : 0 <= Z.shiftr (xtime_nsec (tkr_mono tk)) (shift (tkr_mono tk)) < NSEC_PER_SEC)
    by (apply shiftr_bound; [apply S | rewrite <- E; lia]).
  unfold tk_xtime, ts_norm, ts_ns; cbn [tv_sec tv_nsec]. rewrite s64_id by (unfold is_s64; lia).
  split_and!; [apply B | apply B | done | |].
  - unfold wall_sns, sps. rewrite Z.mul_assoc. apply shiftr_sec, S.
  - unfold mono_sns. rewrite shiftr_sec by apply S. unfold ts_ns. lia.
Qed.

Lemma valid_settod_spec ts : - 2 ^ 63 <= tv_sec ts < 2 ^ 63 -> - 2 ^ 63 <= tv_nsec ts < 2 ^ 63 ->
  timespec64_valid_settod ts = true ->
  ts_norm ts /\ 0 <= tv_sec ts < 8277292036.
Proof.
  unfold timespec64_valid_settod, timespec64_valid, ts_norm. intros Hs Hn.
  change TIME_SETTOD_SEC_MAX with 8277292036. nanos.
  destruct (Z.ltb_spec (tv_sec ts) 0); [done |].
  destruct (Z.leb_spec 1000000000 (u64 (tv_nsec ts))); [done |]. cbn.
  destruct (Z.leb_spec 8277292036 (u64 (tv_sec ts))); [done |]. intros _.
  rewrite (u64_id (tv_sec ts)) in * by (unfold is_u64; lia). cint.
Qed.

(** A new time of day with [wall_to_monotonic] moved against it. *)
Lemma retime_spec tk ts wtm : shift_ok tk -> sec_room 0 tk ->
  ts_norm ts -> 0 <= tv_sec ts < 8999999999 ->
  ts_norm wtm -> 0 <= ts_ns ts + ts_ns wtm < 8999999999 * NSEC_PER_SEC ->
  let tk' := tk_set_xtime (tk_set_wall_to_mono tk wtm) ts in
  tkr_mono tk' = (tkr_mono tk) <| xtime_nsec := tv_nsec ts * 2 ^ shift (tkr_mono tk) |>
  /\ 0 <= xtime_nsec (tkr_mono tk') < sps tk'
  /\ mono_sns tk' = (ts_ns ts + ts_ns wtm) * 2 ^ shift (tkr_mono tk)
  /\ wall_sns tk' = ts_ns ts * 2 ^ shift (tkr_mono tk)
  /\ sec_room 0 tk' /\ offs_ok tk' /\ offs_boot tk' = offs_boot tk.
Proof.
  intros S (R1 & R2 & R3 & R4 & R5) Nt Bt Nw Bw.
  destruct (sps_pos tk S) as (P & E & B).
  assert (Hw : - 8999999999 <= tv_sec wtm <= 8999999999 /\ -1 <= tv_sec ts + tv_sec wtm <= 9000000000)
    by (unfold ts_norm, ts_ns in *; nanos; lia).
  destruct (tk_set_wall_to_mono_spec tk wtm Nw) as (O & F & W); [lia |].
  set (tk1 := tk_set_wall_to_mono tk wtm) in *. clearbody tk1. cbn zeta.
  assert (Em : tkr_mono tk1 = tkr_mono tk) by (rewrite F; reflexivity).
  assert (Et : tai_offset tk1 = tai_offset tk) by (rewrite F; reflexivity).
  assert (Eb : offs_boot tk1 = offs_boot tk) by (rewrite F; reflexivity).
  assert (En : u64 (Z.shiftl (u64 (tv_nsec ts)) (shift (tkr_mono tk)))
    = tv_nsec ts * 2 ^ shift (tkr_mono tk)).
  { unfold ts_norm in Nt. nanos. rewrite (u64_id (tv_nsec ts)) by (unfold is_u64; lia).
    rewrite Z.shiftl_mul_pow2 by apply S. apply u64_id. unfold is_u64. nia. }
  assert (Mm : tkr_mono (tk_set_xtime tk1 ts) =
    (tkr_mono tk) <| xtime_nsec := tv_nsec ts * 2 ^ shift (tkr_mono tk) |>)
    by (cbn; rewrite Em, En; reflexivity).
  assert (Ms : mono_sns (tk_set_xtime tk1 ts) = (ts_ns ts + ts_ns wtm) * 2 ^ shift (tkr_mono tk)).
  { unfold mono_sns. rewrite Mm. cbn. rewrite W, (u64_id (tv_sec ts)) by (unfold is_u64; lia).
    unfold ts_ns. ring. }
  unfold ts_norm in Nt.
  split_and!; [exact Mm | | | exact Ms | | | exact O | exact Eb].
  - rewrite Mm; cbn. apply Z.mul_nonneg_nonneg; lia.
  - unfold sps. rewrite Mm; cbn. apply Z.mul_lt_mono_pos_r; lia.
  - unfold wall_sns, sps. rewrite Mm; cbn. rewrite (u64_id (tv_sec ts)) by (unfold is_u64; lia).
    unfold ts_ns. ring.
  - unfold sec_room. rewrite Ms; cbn. rewrite W, Et, (u64_id (tv_sec ts)) by (unfold is_u64; lia).
    split_and!; try lia. apply Z.mul_nonneg_nonneg; lia.
Qed.

(** ** Setting the time of day *)

Definition ts_machine (ts : timespec64) : Prop :=
  - 2 ^ 63 <= tv_sec ts < 2 ^ 63 /\ - 2 ^ 63 <= tv_nsec ts < 2 ^ 63.

(** What an entry point that keeps the monotonic clock does at [c]: the new
    core satisfies the invariant, can be read, and the monotonic and boot
    clocks read as before. *)
Record keeps_mono (w w' : world) (c : Z) : Prop := {
  km_inv : tk_inv (tk_core w');
  km_read : readable (tk_core w') c;
  km_mono : ktime_get w' c = ktime_get w c;
  km_boot : offs_boot (tk_core w') = offs_boot (tk_core w);
  km_now : pending (tk_core w') c = 0;
  km_shadow : shadow_timekeeper w' = tk_core w' }.

(** The update of a forwarded timekeeper, when the entry point gives up. *)
Lemma forward_only_spec w c tk1 : tk_inv (tk_core w) -> readable (tk_core w) c ->
  forwarded (tk_core w) tk1 c ->
  let w' := timekeeping_update (set_core w tk1) TkCore UPDATE_ALL in
  keeps_mono w w' c /\ wall_at (tk_core w') c = wall_at (tk_core w) c.
Proof.
  intros I R F. cbn zeta.
  destruct (update_core_spec w tk1 UPDATE_ALL eq_refl (fw_shift_ok _ _ _ I F) (fw_nsec _ _ _ F)
    (fw_room _ _ _ F) (fw_offs_ok _ _ _ I F)) as (T & I' & Sh).
  set (w' := timekeeping_update _ _ _) in *. clearbody w'.
  pose proof (readable_same _ _ c T (fw_readable _ _ _ I R F)) as R'.
  destruct (same_time_facts _ _ T) as (E1 & E2 & _ & E4 & _ & _ & _ & _ & E6 & E7 & _).
  assert (Em : mono_at (tk_core w') c = mono_at (tk_core w) c)
    by (rewrite <- (fw_mono_at _ _ _ R F); unfold mono_at; by rewrite E1, E4).
  assert (Es : shift (tkr_mono (tk_core w')) = shift (tkr_mono (tk_core w)))
    by (rewrite E6, <- (fw_shift _ _ _ F); reflexivity).
  split.
  - split; [done | done | | | | done].
    + apply ktime_get_same; [done..|]. by rewrite Em.
    + rewrite E7. apply (fw_offs _ _ _ F).
    + rewrite E4. apply (fw_pending _ _ _ R F).
  - rewrite <- (fw_wall_at _ _ _ R F). unfold wall_at. by rewrite E2, E4.
Qed.

(** The update of a timekeeper [tk2] that was brought forward to [tk1] and then
    given another time of day. *)
Lemma moved_spec w c tk1 tk2 : tk_inv (tk_core w) -> readable (tk_core w) c ->
  forwarded (tk_core w) tk1 c ->
  tkr_mono tk2 = (tkr_mono tk1) <| xtime_nsec := xtime_nsec (tkr_mono tk2) |> ->
  0 <= xtime_nsec (tkr_mono tk2) < sps tk2 -> sec_room 0 tk2 -> offs_ok tk2 ->
  Z.shiftr (mono_sns tk2) (shift (tkr_mono tk1)) = Z.shiftr (mono_sns tk1) (shift (tkr_mono tk1)) ->
  mono_sns tk2 < 9000000000 * sps tk2 -> wall_sns tk2 < 9000000000 * sps tk2 ->
  let w' := timekeeping_update (set_core w tk2) TkCore UPDATE_ALL in
  tk_inv (tk_core w') /\ readable (tk_core w') c /\ ktime_get w' c = ktime_get w c
  /\ pending (tk_core w') c = 0 /\ shadow_timekeeper w' = tk_core w'
  /\ wall_at (tk_core w') c = wall_sns tk2
  /\ shift (tkr_mono (tk_core w')) = shift (tkr_mono (tk_core w))
  /\ xtime_nsec (tkr_mono (tk_core w')) + pending (tk_core w') c < sps (tk_core w')
  /\ offs_boot (tk_core w') = offs_boot tk2.
Proof.
  intros I R F G1 G2 G5 G6 Gm Bm Bw. cbn zeta.
  assert (Es2 : shift (tkr_mono tk2) = shift (tkr_mono (tk_core w)))
    by (rewrite G1, <- (fw_shift _ _ _ F); reflexivity).
  assert (S2 : shift_ok tk2) by (unfold shift_ok; rewrite Es2; apply I).
  destruct (update_core_spec w tk2 UPDATE_ALL eq_refl S2 G2 G5 G6) as (T & I' & Sh).
  set (w' := timekeeping_update _ _ _) in *. clearbody w'.
  assert (P2 : pending tk2 c = 0).
  { apply pending_at_last; rewrite G1, (fw_mono _ _ _ F); cbn; [apply R | done]. }
  destruct (sps_pos tk2 S2) as (_ & _ & Bk).
  assert (R2 : readable tk2 c).
  { split; unfold mono_at, wall_at; rewrite ?P2, ?Z.add_0_r; [| | lia | done | done];
      rewrite G1, (fw_mono _ _ _ F); cbn; apply R. }
  pose proof (readable_same _ _ c T R2) as R'.
  destruct (same_time_facts _ _ T) as (E1 & E2 & E3 & E4 & _ & _ & _ & E5 & E6 & E7 & _).
  assert (Es : shift (tkr_mono (tk_core w')) = shift (tkr_mono (tk_core w)))
    by (rewrite E6, <- Es2; reflexivity).
  rewrite (fw_shift _ _ _ F), (fw_sec _ _ _ F) in Gm.
  split_and!; [done | done | | by rewrite E4 | done | | done | | done].
  - apply ktime_get_same; [done..|]. unfold mono_at at 1. by rewrite E1, E4, P2, Z.add_0_r.
  - unfold wall_at. by rewrite E2, E4, P2, Z.add_0_r.
  - rewrite E3, E4, E5, P2. lia.
Qed.

(** ... when it is the time [ts], with [wall_to_monotonic] moved against it. *)
Lemma forward_retime_spec w c tk1 ts wtm : tk_inv (tk_core w) -> readable (tk_core w) c ->
  forwarded (tk_core w) tk1 c -> ts_norm ts -> 0 <= tv_sec ts < 8999999999 -> ts_norm wtm ->
  ts_ns ts + ts_ns wtm = ktime_get w c ->
  ktime_get w c < 8999999999 * NSEC_PER_SEC ->
  let w' := timekeeping_update (set_core w (tk_set_xtime (tk_set_wall_to_mono tk1 wtm) ts)) TkCore
              UPDATE_ALL in
  keeps_mono w w' c
  /\ wall_at (tk_core w') c = ts_ns ts * 2 ^ shift (tkr_mono (tk_core w))
  /\ shift (tkr_mono (tk_core w')) = shift (tkr_mono (tk_core w))
  /\ xtime_nsec (tkr_mono (tk_core w')) + pending (tk_core w') c < sps (tk_core w').
Proof.
  intros I R F Nt Bt Nw Ew Bw. cbn zeta.
  pose proof (mono_range _ _ I R) as MR. rewrite <- (ktime_get_spec _ _ I R) in MR.
  pose proof (fw_shift_ok _ _ _ I F) as S1.
  destruct (retime_spec tk1 ts wtm S1 (fw_room _ _ _ F) Nt Bt Nw) as
    (G1 & G2 & G3 & G4 & G5 & G6 & G7); [lia |].
  revert G1 G2 G3 G4 G5 G6 G7. generalize (tk_set_xtime (tk_set_wall_to_mono tk1 wtm) ts).
  intros tk2 G1 G2 G3 G4 G5 G6 G7. destruct (sps_pos tk1 S1) as (K & Ek & _).
  assert (Ek2 : sps tk2 = sps tk1) by (unfold sps; rewrite G1; reflexivity).
  destruct (moved_spec w c tk1 tk2 I R F) as (J1 & J2 & J3 & Jp & J4 & J5 & J6 & J7 & J8).
  { rewrite G1. reflexivity. }
  { exact G2. } { exact G5. } { exact G6. }
  { rewrite G3, Ew, (fw_sec _ _ _ F), (fw_shift _ _ _ F), <- ktime_get_spec by done.
    rewrite Z.shiftr_div_pow2 by apply I. apply Z.div_mul. rewrite (fw_shift _ _ _ F) in K. lia. }
  { rewrite G3, Ek2, Ek, Z.mul_assoc. apply Z.mul_lt_mono_pos_r; nanos; lia. }
  { rewrite G4, Ek2, Ek, Z.mul_assoc. unfold ts_norm, ts_ns in *. apply Z.mul_lt_mono_pos_r; nanos; lia. }
  rewrite G4, (fw_shift _ _ _ F) in J5. split; [| done].
  split; [done | done | done | | done | done]. rewrite J8, G7. apply (fw_offs _ _ _ F).
Qed.

(** The body after the checks, with its intermediate values named. *)
Lemma do_settimeofday64_eq w c ts tk1 dl wtm : timespec64_valid_settod ts = true ->
  tk1 = timekeeping_forward_now (tk_core w) c -> dl = timespec64_sub ts (tk_xtime tk1) ->
  wtm = timespec64_sub (wall_to_monotonic tk1) dl ->
  do_settimeofday64 w c ts =
    if 0 <? timespec64_compare (wall_to_monotonic tk1) dl
    then (timekeeping_update (set_core w tk1) TkCore UPDATE_ALL, - EINVAL)
    else (timekeeping_update (set_core w (tk_set_xtime (tk_set_wall_to_mono tk1 wtm) ts)) TkCore
            UPDATE_ALL, 0).
Proof.
  intros V E1 E2 E3. unfold do_settimeofday64. rewrite V, <- E1. cbv zeta. rewrite <- E2, <- E3.
  destruct (0 <? _); reflexivity.
Qed.

Lemma do_settimeofday64_spec w c ts : tk_inv (tk_core w) -> readable (tk_core w) c ->
  ts_machine ts -> timespec64_valid_settod ts = true ->
  ktime_get w c < 8999999999 * NSEC_PER_SEC ->
  exists w', do_settimeofday64 w c ts = (w', if ktime_get w c <=? ts_ns ts then 0 else - EINVAL)
  /\ keeps_mono w w' c
  /\ (if ktime_get w c <=? ts_ns ts then ktime_get_real_ts64 w' c = ts
      else wall_at (tk_core w') c = wall_at (tk_core w) c).
Proof.
  intros I R [Hs Hn] V B. rewrite (do_settimeofday64_eq w c ts _ _ _ V eq_refl eq_refl eq_refl).
  destruct (valid_settod_spec ts Hs Hn V) as [Nt Bt].
  pose proof (forward_spec _ _ I R) as F. revert F.
  generalize (timekeeping_forward_now (tk_core w) c) as tk1. intros tk1 F.
  pose proof (fw_room _ _ _ F) as (X1 & X2 & X3 & _). pose proof (fw_offs _ _ _ F) as (W1 & _).
  destruct (tk_xtime_spec tk1 (fw_shift_ok _ _ _ I F) (fw_nsec _ _ _ F)) as (Nx & Ex & _ & Em); [lia |].
  rewrite (fw_sec _ _ _ F), (fw_shift _ _ _ F), <- ktime_get_spec in Em by done.
  destruct (inv_offs _ I) as (Nw & _). rewrite <- W1 in Nw.
  destruct (timespec64_sub_spec ts (tk_xtime tk1)) as [Nd Ed]; [done | done | lia | lia |].
  revert Nd Ed. generalize (timespec64_sub ts (tk_xtime tk1)) as dl. intros dl Nd Ed.
  rewrite timespec64_compare_spec by done. rewrite Ed.
  destruct (Z.ltb_spec (ts_ns ts - ts_ns (tk_xtime tk1)) (ts_ns (wall_to_monotonic tk1))) as [L|L];
    destruct (Z.leb_spec (ktime_get w c) (ts_ns ts)) as [L'|L']; try lia.
  { eexists; split; [reflexivity | exact (forward_only_spec w c tk1 I R F)]. }
  assert (Bd : - 2 ^ 60 <= tv_sec dl < 2 ^ 60) by (unfold ts_norm, ts_ns in *; nanos; lia).
  destruct (timespec64_sub_spec (wall_to_monotonic tk1) dl) as [Nv Ev]; [done | done | lia | lia |].
  revert Nv Ev. generalize (timespec64_sub (wall_to_monotonic tk1) dl) as wtm. intros wtm Nv Ev.
  pose proof (forward_retime_spec w c tk1 ts wtm I R F Nt ltac:(lia) Nv ltac:(lia) ltac:(lia)) as G.
  eexists; split; [reflexivity |]. revert G. generalize
    (timekeeping_update (set_core w (tk_set_xtime (tk_set_wall_to_mono tk1 wtm) ts)) TkCore UPDATE_ALL).
  intros w' (K & G1 & G2 & G3). split; [exact K |].
  pose proof (km_inv _ _ _ K) as I'. destruct (sps_pos _ (inv_shift _ I')) as (_ & _ & B').
  destruct (ktime_get_real_ts64_spec w' c I' (km_read _ _ _ K)) as [N' E']; [lia |].
  apply ts_norm_inj; [exact N' | done |]. rewrite E', G1, G2.
  rewrite Z.shiftr_div_pow2 by apply I. apply Z.div_mul. pose proof (sps_pos _ (inv_shift _ I)). lia.
Qed.

(** ** Adding to the time of day *)

(** The fields after [tk_xtime_add]: the nanoseconds carry into the seconds. *)
Lemma xtime_add_fields tk d : shift_ok tk -> 0 <= xtime_nsec (tkr_mono tk) < sps tk -> ts_norm d ->
  let x := xtime_nsec (tkr_mono tk) + tv_nsec d * 2 ^ shift (tkr_mono tk) in
  let tk' := tk_xtime_add tk d in
  tkr_mono tk' = (tkr_mono tk) <| xtime_nsec := x mod sps tk |>
  /\ xtime_sec tk' = u64 (xtime_sec tk + tv_sec d + x / sps tk)
  /\ tai_offset tk' = tai_offset tk /\ offs_boot tk' = offs_boot tk
  /\ (xtime_sec tk + tv_sec d + x / sps tk) * sps tk + x mod sps tk
     = wall_sns tk + ts_ns d * 2 ^ shift (tkr_mono tk).
Proof.
  intros S N Nd. cbv zeta. destruct (sps_pos tk S) as (P & E & B). unfold ts_norm in Nd.
  set (K := 2 ^ shift (tkr_mono tk)) in *.
  assert (Dk : 0 <= tv_nsec d * K < sps tk)
    by (rewrite E; split; [apply Z.mul_nonneg_nonneg | apply Z.mul_lt_mono_pos_r]; lia).
  set (x := xtime_nsec (tkr_mono tk) + tv_nsec d * K).
  unfold tk_xtime_add.
  set (f := fun r : tk_read_base => r <| xtime_nsec :=
    u64 (xtime_nsec r + u64 (Z.shiftl (u64 (tv_nsec d)) (shift r))) |>).
  set (tk0 := mono f _).
  assert (Ex : xtime_nsec (tkr_mono tk0) = x).
  { cbn. nanos. rewrite (u64_id (tv_nsec d)) by (unfold is_u64; lia).
    rewrite Z.shiftl_mul_pow2 by apply S. fold K.
    rewrite (u64_id (tv_nsec d * K)), u64_id by (unfold is_u64; lia). done. }
  pose proof (Z.div_mod x (sps tk) ltac:(lia)) as DM.
  destruct (tk_normalize_xtime_spec tk0) as (F1 & F2 & F3);
    [exact S | rewrite Ex; unfold is_u64; lia | apply u64_range |].
  rewrite Ex in F2, F3. change (sps tk0) with (sps tk) in F2, F3.
  change (xtime_sec tk0) with (u64 (xtime_sec tk + tv_sec d)) in F2. rewrite u64_add_l in F2.
  split_and!; [rewrite F1; cbn; rewrite F3; reflexivity | exact F2 | by rewrite F1 | by rewrite F1 |].
  unfold wall_sns, ts_ns, x in *. rewrite E in *. nanos. lia.
Qed.

(** [d] added to the time of day and taken off [wall_to_monotonic]. *)
Lemma xtime_add_spec tk d wtm : shift_ok tk -> 0 <= xtime_nsec (tkr_mono tk) < sps tk ->
  sec_room 0 tk -> ts_norm d -> - 2 ^ 60 <= tv_sec d < 2 ^ 60 ->
  ts_norm wtm -> ts_ns wtm = ts_ns (wall_to_monotonic tk) - ts_ns d ->
  0 <= wall_sns tk + ts_ns d * 2 ^ shift (tkr_mono tk) < 8999999998 * sps tk ->
  mono_sns tk < 8999999998 * sps tk ->
  let tk' := tk_set_wall_to_mono (tk_xtime_add tk d) wtm in
  tkr_mono tk' = (tkr_mono tk) <| xtime_nsec := xtime_nsec (tkr_mono tk') |>
  /\ 0 <= xtime_nsec (tkr_mono tk') < sps tk'
  /\ mono_sns tk' = mono_sns tk
  /\ wall_sns tk' = wall_sns tk + ts_ns d * 2 ^ shift (tkr_mono tk)
  /\ sec_room 0 tk' /\ offs_ok tk' /\ offs_boot tk' = offs_boot tk.
Proof.
  intros S N (R1 & R2 & R3 & R4 & R5) Nd Bd Nw Ew Bw Bm. cbn zeta.
  destruct (sps_pos tk S) as (P & E & B). unfold ts_norm in Nw.
  destruct (xtime_add_fields tk d S N Nd) as (Em & F2 & Et & Eb & Ws).
  set (K := 2 ^ shift (tkr_mono tk)) in *. set (x := xtime_nsec (tkr_mono tk) + tv_nsec d * K) in *.
  set (s2 := xtime_sec tk + tv_sec d + x / sps tk) in *.
  pose proof (Z.mod_pos_bound x (sps tk) ltac:(lia)) as MB.
  assert (S2 : 0 <= s2 < 8999999998).
  { split; [enough (- 1 < s2) by lia |]; apply (Z.mul_lt_mono_pos_r (sps tk)); lia. }
  rewrite u64_id in F2 by (unfold is_u64; lia).
  revert Em F2 Et Eb. generalize (tk_xtime_add tk d) as tk1. intros tk1 Em F2 Et Eb.
  assert (Ms : (s2 * NSEC_PER_SEC + ts_ns wtm) * K + x mod sps tk = mono_sns tk).
  { rewrite Ew. unfold mono_sns. fold K. unfold wall_sns in Ws. clearbody s2.
    set (xm := x mod sps tk) in *. clearbody xm. rewrite E in Ws. nanos. lia. }
  assert (Bs : - 1 <= s2 + tv_sec wtm <= 8999999998).
  { unfold ts_ns in Ms. nanos.
    assert (0 <= tv_nsec wtm * K < sps tk)
      by (rewrite E; split; [apply Z.mul_nonneg_nonneg | apply Z.mul_lt_mono_pos_r]; lia).
    split; [enough (- 2 < s2 + tv_sec wtm) by lia | enough (s2 + tv_sec wtm < 8999999999) by lia];
      apply (Z.mul_lt_mono_pos_r (sps tk)); rewrite ?E in *; lia. }
  destruct (tk_set_wall_to_mono_spec tk1 wtm Nw) as (O & F & W); [lia |].
  set (tk2 := tk_set_wall_to_mono tk1 wtm) in *. clearbody tk2.
  assert (Em2 : tkr_mono tk2 = (tkr_mono tk) <| xtime_nsec := x mod sps tk |>) by (rewrite F; exact Em).
  assert (Ex2 : xtime_sec tk2 = s2) by (rewrite F; exact F2).
  assert (Gm : mono_sns tk2 = mono_sns tk)
    by (rewrite <- Ms; unfold mono_sns; rewrite Em2, Ex2, W; reflexivity).
  split_and!; [rewrite Em2; reflexivity | | | exact Gm | | | exact O | rewrite F; exact Eb].
  - rewrite Em2; cbn. lia.
  - unfold sps. rewrite Em2. cbn. fold (sps tk). lia.
  - rewrite <- Ws. unfold wall_sns, sps. rewrite Em2, Ex2. reflexivity.
  - unfold sec_room. rewrite Gm, Ex2, W, F. cbn [tai_offset]. change (tai_offset _) with (tai_offset tk1).
    lia.
Qed.

(** Whether an offset is accepted: the time of boot stays after 1970 and the
    new time of day can be set. *)
Definition offset_ok (tk1 : timekeeper) (d : timespec64) : bool :=
  (ts_ns (wall_to_monotonic tk1) <=? ts_ns d)
  && timespec64_valid_settod (timespec64_add (tk_xtime tk1) d).

Lemma timekeeping_inject_offset_eq w c d tk1 :
  tk1 = timekeeping_forward_now (tk_core w) c -> 0 <= tv_nsec d < NSEC_PER_SEC ->
  ts_norm (wall_to_monotonic tk1) -> wall_to_monotonic (tk_xtime_add tk1 d) = wall_to_monotonic tk1 ->
  timekeeping_inject_offset w c d =
    (timekeeping_update (set_core w
       (if offset_ok tk1 d
        then tk_set_wall_to_mono (tk_xtime_add tk1 d) (timespec64_sub (wall_to_monotonic tk1) d)
        else tk1)) TkCore UPDATE_ALL,
     if offset_ok tk1 d then 0 else - EINVAL).
Proof.
  intros E N T W. unfold timekeeping_inject_offset. rewrite <- E. cbv zeta. rewrite W.
  destruct (Z.ltb_spec (tv_nsec d) 0); [lia |].
  destruct (Z.leb_spec NSEC_PER_SEC (tv_nsec d)); [lia |]. cbn [orb].
  rewrite timespec64_compare_spec by done. unfold offset_ok. rewrite Z.leb_antisym.
  destruct (ts_ns d <? _), (timespec64_valid_settod _); reflexivity.
Qed.

Lemma tk_xtime_add_wtm tk d : wall_to_monotonic (tk_xtime_add tk d) = wall_to_monotonic tk.
Proof.
  unfold tk_xtime_add, tk_normalize_xtime, carry_raw.
  destruct (carry _ _ _) as [a b]. destruct (carry _ _ _) as [a' b']. reflexivity.
Qed.

Lemma timekeeping_inject_offset_spec w c d : tk_inv (tk_core w) -> readable (tk_core w) c ->
  ts_machine d -> - 2 ^ 59 <= tv_sec d < 2 ^ 59 ->
  0 <= tv_nsec d < NSEC_PER_SEC -> mono_at (tk_core w) c < 8999999998 * sps (tk_core w) ->
  let ok := offset_ok (timekeeping_forward_now (tk_core w) c) d in
  exists w', timekeeping_inject_offset w c d = (w', if ok then 0 else - EINVAL)
  /\ keeps_mono w w' c
  /\ wall_at (tk_core w') c = wall_at (tk_core w) c
       + (if ok then ts_ns d * 2 ^ shift (tkr_mono (tk_core w)) else 0).
Proof.
  intros I R [Ms Mn] Bd Nd Bm. cbn zeta. pose proof (forward_spec _ _ I R) as F.
  pose proof (fw_offs_ok _ _ _ I F) as (Nw & _). pose proof (fw_room _ _ _ F) as (X1 & X2 & X3 & _).
  erewrite timekeeping_inject_offset_eq by (done || apply tk_xtime_add_wtm).
  revert F Nw X1 X2 X3. generalize (timekeeping_forward_now (tk_core w) c) as tk1.
  intros tk1 F Nw X1 X2 X3. eexists; split; [reflexivity |].
  destruct (offset_ok tk1 d) eqn:Ok.
  2: { rewrite Z.add_0_r. apply (forward_only_spec w c tk1 I R F). }
  unfold offset_ok in Ok. apply andb_prop in Ok as [Ow Ov]. apply Z.leb_le in Ow.
  pose proof (fw_shift_ok _ _ _ I F) as S1. destruct (sps_pos tk1 S1) as (K & Ek & Bk).
  destruct (tk_xtime_spec tk1 S1 (fw_nsec _ _ _ F)) as (Nx & Ex & Ewl & _); [lia |].
  destruct (timespec64_add_spec (tk_xtime tk1) d) as [Na Ea]; [done | done | lia | lia |].
  destruct (timespec64_sub_spec (wall_to_monotonic tk1) d) as [Nv Ev]; [done | done | lia | lia |].
  destruct (valid_settod_spec (timespec64_add (tk_xtime tk1) d) ltac:(unfold ts_norm, ts_ns in *; nanos; lia)
    ltac:(unfold ts_norm in *; nanos; lia) Ov) as [_ Ba].
  revert Nv Ev. generalize (timespec64_sub (wall_to_monotonic tk1) d) as wtm. intros wtm Nv Ev.
  assert (Wb : 0 <= wall_sns tk1 + ts_ns d * 2 ^ shift (tkr_mono tk1) < 8999999998 * sps tk1).
  { rewrite Ek. rewrite Z.shiftr_div_pow2 in Ewl by apply S1.
    pose proof (Z.div_mod (wall_sns tk1) (2 ^ shift (tkr_mono tk1)) ltac:(lia)) as DM.
    pose proof (Z.mod_pos_bound (wall_sns tk1) (2 ^ shift (tkr_mono tk1)) ltac:(lia)).
    rewrite Ewl in DM. assert (Q : 0 <= ts_ns (tk_xtime tk1) + ts_ns d < 8277292036 * NSEC_PER_SEC)
      by (rewrite <- Ea; unfold ts_norm, ts_ns in *; nanos; lia).
    revert Q DM. generalize (ts_ns (tk_xtime tk1)) (ts_ns d). intros a b Q DM. nanos.
    assert (0 <= (a + b) * 2 ^ shift (tkr_mono tk1)
      <= (8277292036 * 1000000000 - 1) * 2 ^ shift (tkr_mono tk1))
      by (split; [apply Z.mul_nonneg_nonneg | apply Z.mul_le_mono_nonneg_r]; lia).
    lia. }
  destruct (xtime_add_spec tk1 d wtm S1 (fw_nsec _ _ _ F) (fw_room _ _ _ F)) as
    (G1 & G2 & G3 & G4 & G5 & G6 & G7); [done | lia | done | done | done | |].
  { rewrite (fw_sec _ _ _ F), (fw_sps _ _ _ F). done. }
  revert G1 G2 G3 G4 G5 G6 G7. generalize (tk_set_wall_to_mono (tk_xtime_add tk1 d) wtm) as tk2.
  intros tk2 G1 G2 G3 G4 G5 G6 G7.
  assert (Ek2 : sps tk2 = sps tk1) by (unfold sps; rewrite G1; reflexivity).
  destruct (moved_spec w c tk1 tk2 I R F) as (J1 & J2 & J3 & Jp & J4 & J5 & J6 & J7 & J8);
    [done | done | done | done | by rewrite G3 | | |].
  { rewrite G3, Ek2, (fw_sec _ _ _ F). rewrite (fw_sps _ _ _ F) in *. lia. }
  { rewrite G4, Ek2. lia. }
  rewrite G4, (fw_wall _ _ _ F), (fw_shift _ _ _ F) in J5. split; [| done].
  split; [done | done | done | | done | done]. rewrite J8, G7. apply (fw_offs _ _ _ F).
Qed.

(** ** Sleep time *)

Lemma tk_update_sleep_time_spec tk d : let tk' := tk_update_sleep_time tk d in
  tkr_mono tk' = tkr_mono tk /\ mono_sns tk' = mono_sns tk /\ wall_sns tk' = wall_sns tk
  /\ sps tk' = sps tk /\ (sec_room 0 tk -> sec_room 0 tk') /\ (offs_ok tk -> offs_ok tk')
  /\ offs_boot tk' = s64 (offs_boot tk + d).
Proof. cbn zeta. split_and!; try reflexivity; exact (fun H => H). Qed.

Lemma valid_strict_spec d : ts_machine d -> timespec64_valid_strict d = true ->
  ts_norm d /\ 0 <= tv_sec d < KTIME_SEC_MAX.
Proof.
  intros [Hs Hn]. unfold timespec64_valid_strict, timespec64_valid, ts_norm. nanos.
  destruct (Z.ltb_spec (tv_sec d) 0); [done |].
  destruct (Z.leb_spec 1000000000 (u64 (tv_nsec d))); [done |]. cbn.
  destruct (Z.leb_spec 9223372036 (u64 (tv_sec d))); [done |]. intros _.
  rewrite (u64_id (tv_sec d)) in * by (unfold is_u64; lia). cint.
Qed.

(** Sleep moves the time of day and the boot clock by the same amount. *)
Lemma inject_tk_spec tk d : shift_ok tk -> 0 <= xtime_nsec (tkr_mono tk) < sps tk ->
  sec_room 0 tk -> offs_ok tk -> ts_machine d -> timespec64_valid_strict d = true ->
  wall_sns tk + ts_ns d * 2 ^ shift (tkr_mono tk) < 8999999998 * sps tk ->
  mono_sns tk < 8999999998 * sps tk ->
  let tk' := __timekeeping_inject_sleeptime tk d in
  tkr_mono tk' = (tkr_mono tk) <| xtime_nsec := xtime_nsec (tkr_mono tk') |>
  /\ 0 <= xtime_nsec (tkr_mono tk') < sps tk'
  /\ mono_sns tk' = mono_sns tk
  /\ wall_sns tk' = wall_sns tk + ts_ns d * 2 ^ shift (tkr_mono tk)
  /\ sec_room 0 tk' /\ offs_ok tk' /\ offs_boot tk' = s64 (offs_boot tk + ts_ns d).
Proof.
  intros S1 N (X1 & X2 & X3 & X4 & X5) (Nw & Oo) M V Bw Bm.
  destruct (valid_strict_spec d M V) as [Nd Bd]. cbn zeta.
  unfold __timekeeping_inject_sleeptime. rewrite V. cbn [negb]. cbv zeta. rewrite tk_xtime_add_wtm.
  destruct (sps_pos tk S1) as (K & Ek & Bk).
  nanos. destruct (timespec64_sub_spec (wall_to_monotonic tk) d) as [Nv Ev]; [done | done | lia | lia |].
  revert Nv Ev. generalize (timespec64_sub (wall_to_monotonic tk) d) as wtm. intros wtm Nv Ev.
  destruct (xtime_add_spec tk d wtm S1 N (conj X1 (conj X2 (conj X3 (conj X4 X5))))) as
    (G1 & G2 & G3 & G4 & G5 & G6 & G7); [done | lia | done | done | | done |].
  { split; [| done]. unfold wall_sns, ts_ns. unfold ts_norm in Nd. nanos.
    apply Z.add_nonneg_nonneg; [| apply Z.mul_nonneg_nonneg; lia].
    apply Z.add_nonneg_nonneg; [apply Z.mul_nonneg_nonneg; lia | lia]. }
  revert G1 G2 G3 G4 G5 G6 G7. generalize (tk_set_wall_to_mono (tk_xtime_add tk d) wtm) as tk2.
  intros tk2 G1 G2 G3 G4 G5 G6 G7.
  assert (Ed : timespec64_to_ktime d = s64 (ts_ns d)).
  { unfold timespec64_to_ktime, ktime_set, ts_ns. unfold ts_norm in Nd. nanos.
    destruct (Z.leb_spec 9223372036 (tv_sec d)); [lia |]. cint. }
  destruct (tk_update_sleep_time_spec tk2 (timespec64_to_ktime d)) as
    (U1 & U2 & U3 & U4 & U5 & U6 & U7).
  revert U1 U2 U3 U4 U5 U6 U7. generalize (tk_update_sleep_time tk2 (timespec64_to_ktime d)) as tk3.
  intros tk3 U1 U2 U3 U4 U5 U6 U7.
  rewrite U1, U2, U3, U4.
  refine (conj G1 (conj G2 (conj G3 (conj G4 (conj (U5 G5) (conj (U6 G6) _)))))).
  rewrite U7, G7, Ed. clear. cint.
Qed.

Lemma inject_sleeptime_spec w c d : tk_inv (tk_core w) -> readable (tk_core w) c ->
  ts_machine d -> timespec64_valid_strict d = true ->
  wall_at (tk_core w) c + ts_ns d * 2 ^ shift (tkr_mono (tk_core w)) < 8999999998 * sps (tk_core w) ->
  mono_at (tk_core w) c < 8999999998 * sps (tk_core w) ->
  let w' := timekeeping_inject_sleeptime64 w c d in
  tk_inv (tk_core w') /\ readable (tk_core w') c /\ ktime_get w' c = ktime_get w c
  /\ wall_at (tk_core w') c = wall_at (tk_core w) c + ts_ns d * 2 ^ shift (tkr_mono (tk_core w))
  /\ offs_boot (tk_core w') = s64 (offs_boot (tk_core w) + ts_ns d)
  /\ suspend_timing_needed w' = false.
Proof.
  intros I R M V Bw Bm. cbn zeta. unfold timekeeping_inject_sleeptime64.
  set (w0 := w <| suspend_timing_needed := false |>).
  change (tk_core w0) with (tk_core w). cbv zeta.
  pose proof (forward_spec _ _ I R) as F. revert F.
  generalize (timekeeping_forward_now (tk_core w) c) as tk1. intros tk1 F.
  destruct (inject_tk_spec tk1 d (fw_shift_ok _ _ _ I F) (fw_nsec _ _ _ F) (fw_room _ _ _ F)
    (fw_offs_ok _ _ _ I F) M V) as (G1 & G2 & G3 & G4 & G5 & G6 & G7).
  { by rewrite (fw_wall _ _ _ F), (fw_sps _ _ _ F), (fw_shift _ _ _ F). }
  { by rewrite (fw_sec _ _ _ F), (fw_sps _ _ _ F). }
  revert G1 G2 G3 G4 G5 G6 G7. generalize (__timekeeping_inject_sleeptime tk1 d) as tk3.
  intros tk3 G1 G2 G3 G4 G5 G6 G7.
  assert (Ek : sps tk3 = sps tk1) by (unfold sps; rewrite G1; reflexivity).
  destruct (sps_pos _ (inv_shift _ I)) as (_ & _ & Bk).
  destruct (moved_spec w0 c tk1 tk3 I R F) as (J1 & J2 & J3 & Jp & J4 & J5 & J6 & J7 & J8);
    [done | done | done | done | by rewrite G3 | | |].
  { rewrite G3, Ek, (fw_sec _ _ _ F), (fw_sps _ _ _ F). change (tk_core w0) with (tk_core w). lia. }
  { rewrite G4, Ek, (fw_wall _ _ _ F), (fw_shift _ _ _ F), (fw_sps _ _ _ F).
    change (tk_core w0) with (tk_core w). lia. }
  rewrite G4, (fw_wall _ _ _ F), (fw_shift _ _ _ F) in J5.
  split_and!; [done | done | exact J3 | exact J5 | | reflexivity].
  rewrite J8, G7. by destruct (fw_offs _ _ _ F) as (_ & _ & _ & -> & _).
Qed.

(** ** The coarse boot clock *)

(** The seconds of the boot clock at the last update. *)
Lemma boottime_seconds_spec w : tk_inv (tk_core w) -> 0 <= offs_boot (tk_core w) ->
  let up := Z.shiftr (mono_sns (tk_core w)) (shift (tkr_mono (tk_core w))) in
  up + offs_boot (tk_core w) < 2 ^ 63 ->
  ktime_get_boottime_seconds w = (up + offs_boot (tk_core w)) / NSEC_PER_SEC.
Proof.
  intros I Ob up B. unfold ktime_get_boottime_seconds, ktime_get_coarse_with_offset, ktime_divns.
  assert (Up : 0 <= up).
  { apply Z.shiftr_nonneg. destruct (inv_room _ I) as (_ & _ & _ & _ & M0). exact M0. }
  assert (E : up = base (tkr_mono (tk_core w))
    + Z.shiftr (xtime_nsec (tkr_mono (tk_core w))) (shift (tkr_mono (tk_core w)))).
  { destruct (inv_sync _ I) as (-> & _). unfold up.
    rewrite <- (Z.add_0_r (mono_sns (tk_core w))), mono_split, Z.add_0_r by apply I. done. }
  unfold ktime_add_ns, ktime_add. cbn [offset_of].
  replace (s64 (u64 _)) with (up + offs_boot (tk_core w)).
  - apply Z.quot_div_nonneg; nanos; lia.
  - clearbody up. revert E. generalize (base (tkr_mono (tk_core w))).
    generalize (Z.shiftr (xtime_nsec (tkr_mono (tk_core w))) (shift (tkr_mono (tk_core w)))).
    generalize dependent (offs_boot (tk_core w)). intros; subst; cint.
Qed.

(** With nothing pending the seconds of the time of day are [xtime_sec]. *)
Lemma real_seconds_now w c : tk_inv (tk_core w) -> readable (tk_core w) c ->
  pending (tk_core w) c = 0 ->
  tv_sec (ktime_get_real_ts64 w c) = s64 (xtime_sec (tk_core w)).
Proof.
  intros I R P. destruct (sps_pos _ (inv_shift _ I)) as (_ & _ & B). pose proof (inv_nsec _ I) as N.
  destruct (ktime_get_real_ts64_spec w c I R) as [Nt Et]; [lia |].
  destruct (inv_room _ I) as (X & _).
  destruct (tk_xtime_spec (tk_core w) (inv_shift _ I) N ltac:(lia)) as (Nx & Ex & Ew & _).
  unfold wall_at in Et. rewrite P, Z.add_0_r, Ew in Et.
  rewrite (ts_norm_inj _ _ Nt Nx Et), Ex, s64_id by (unfold is_s64; lia). done.
Qed.
