(* ===== verification/TkTick.v ===== *)
(** * The timekeeper: accumulating seconds

    [accumulate_nsecs_to_secs] turns the nanoseconds gathered by the tick into
    seconds, second by second, with a possible leap second at each.  The
    monotonic and the atomic time do not notice. *)
From S2P Require Import Prelude Timespec Ntp NtpThms Timekeeping TkEntry TkInv TkRead.

(** ** NTP bounds that the tick relies on *)

Definition base_ok (n : ntp) : Prop :=
  899000 * 2 ^ 32 <= tick_length_base n <= 1101000 * 2 ^ 32.
Definition tick_ok (n : ntp) : Prop := 2 ^ 51 <= tick_length n < 2 ^ 53.

(** The NTP state while the clock ticks. *)
Definition ntp_inv (n : ntp) : Prop := ntp_ok n /\ base_ok n /\ tick_ok n.

Lemma shift_right_quarter x s : - 2 ^ 62 <= x <= 2 ^ 62 -> 2 <= s ->
  - Z.abs x <= 4 * shift_right x s <= Z.abs x.
Proof.
  intros Hx Hs. unfold shift_right.
  assert (B : forall y, 0 <= y -> 0 <= 4 * Z.shiftr y s <= y).
  { intros y Hy. rewrite Z.shiftr_div_pow2 by lia.
    assert (2 ^ 2 <= 2 ^ s) by (apply Z.pow_le_mono_r; lia).
    pose proof (Z.div_mod y (2 ^ s) ltac:(lia)). pose proof (Z.mod_pos_bound y (2 ^ s) ltac:(lia)).
    assert (0 <= y / 2 ^ s) by (apply Z.div_pos; lia). nia. }
  destruct (Z.ltb_spec x 0).
  - rewrite s64_id by (unfold is_s64; lia). specialize (B (- x)). lia.
  - specialize (B x). lia.
Qed.

Lemma phase_step_tick n : ntp_ok n -> base_ok n ->
  2 ^ 32 * (899000 - 125000) <= tick_length (phase_step n) <= 2 ^ 32 * (1101000 + 125000).
Proof.
  intros (_ & Hc & Ho) Hb. unfold base_ok in Hb. unfold phase_step, ntp_offset_chunk; cbn.
  rewrite OFFSET_MAX_eq in Ho. unfold MAXTC in Hc.
  pose proof (shift_right_quarter (time_offset n) (SHIFT_PLL + time_constant n) ltac:(lia)
    ltac:(unfold SHIFT_PLL; lia)).
  rewrite u64_id by (unfold is_u64; lia). lia.
Qed.

Lemma adjust_step_tick n : 2 ^ 32 * 1000 <= tick_length n < 2 ^ 60 ->
  tick_length n - 2 ^ 32 * 500 <= tick_length (adjust_step n) <= tick_length n + 2 ^ 32 * 500.
Proof.
  intros H. unfold adjust_step. change MAX_TICKADJ_SCALED with (2 ^ 32 * 500).
  unfold MAX_TICKADJ. destruct (Z.eqb_spec (time_adjust n) 0); [lia |].
  destruct (Z.ltb_spec 500 (time_adjust n)); cbn.
  { rewrite u64_id by (unfold is_u64; lia). lia. }
  destruct (Z.ltb_spec (time_adjust n) (Z.opp 500)); cbn.
  { rewrite u64_id by (unfold is_u64; lia). lia. }
  rewrite Z.shiftl_mul_pow2 by (unfold NTP_SCALE_SHIFT; lia).
  unfold NSEC_PER_USEC, NTP_INTERVAL_FREQ, HZ, NTP_SCALE_SHIFT.
  assert (- 500 <= Z.quot (time_adjust n * 1000) 1000 <= 500)
    by (rewrite Z.quot_mul by lia; lia).
  rewrite u64_id by (unfold is_u64; lia). lia.
Qed.

Lemma adjust_base n : tick_length_base (adjust_step n) = tick_length_base n.
Proof. unfold adjust_step. repeat case_match; reflexivity. Qed.

Lemma bump_base n : tick_length_base (bump_maxerror n) = tick_length_base n.
Proof. unfold bump_maxerror. case_match; reflexivity. Qed.

Lemma second_overflow_inv n secs : ntp_inv n -> ntp_inv (second_overflow n secs).1.
Proof.
  intros (Hn & Hb & _). split; [by apply second_overflow_ok |].
  unfold second_overflow. pose proof (leap_step_fields n secs) as F.
  destruct (leap_step n secs) as [n1 leap]; cbn in F |- *.
  destruct F as (E1 & E2 & E3 & _ & _ & E6).
  assert (Hn2 : ntp_ok (bump_maxerror n1)) by (apply bump_maxerror_ok; by apply (ntp_ok_ext n)).
  assert (Hb2 : base_ok (bump_maxerror n1)) by (unfold base_ok; by rewrite bump_base, E6).
  revert Hn2 Hb2. generalize (bump_maxerror n1) as n2. intros n2 Hn2 Hb2.
  pose proof (phase_step_tick n2 Hn2 Hb2) as P.
  pose proof (adjust_step_tick (phase_step n2) ltac:(lia)).
  split; [| unfold tick_ok; lia]. unfold base_ok. rewrite adjust_base. exact Hb2.
Qed.

Lemma leap_range n secs : - 1 <= (second_overflow n secs).2 <= 1.
Proof.
  unfold second_overflow, leap_step. destruct (time_state n); repeat case_match; simplify_eq/=; lia.
Qed.

(** ** One second *)

(** What the accumulation of seconds leaves alone. *)
Definition acc_frame (tk : timekeeper) :=
  (cycle_interval tk, xtime_interval tk, xtime_remainder tk, raw_interval tk, ntp_tick tk,
   ntp_error tk, ntp_error_shift tk, ntp_err_mult tk, offs_boot tk, tkr_raw tk).

(** Offset of the atomic time to the monotonic time, in nanoseconds. *)
Definition tai_off (tk : timekeeper) : Z :=
  tai_offset tk * NSEC_PER_SEC - ts_ns (wall_to_monotonic tk).

(** [q] seconds moved out of the nanoseconds. *)
Record accumulated (tk tk' : timekeeper) (q : Z) : Prop := {
  ac_mono : tkr_mono tk' =
    (tkr_mono tk) <| xtime_nsec := xtime_nsec (tkr_mono tk) - q * sps tk |>;
  ac_sns : mono_sns tk' = mono_sns tk;
  ac_room : forall k, q <= k -> sec_room k tk -> sec_room (k - q) tk';
  ac_offs : offs_ok tk -> offs_ok tk';
  ac_sec : xtime_sec tk <= xtime_sec tk';
  ac_tai : tai_off tk' = tai_off tk;
  ac_frame : acc_frame tk' = acc_frame tk }.

Lemma accumulated_refl tk : accumulated tk tk 0.
Proof.
  split; [| done | | done | done | done | done].
  - rewrite Z.mul_0_l, Z.sub_0_r. destruct (tkr_mono tk). reflexivity.
  - intros k _ R. rewrite Z.sub_0_r. exact R.
Qed.

Lemma accumulated_trans tk tk1 tk2 q1 q2 : 0 <= q1 -> 0 <= q2 ->
  accumulated tk tk1 q1 -> accumulated tk1 tk2 q2 -> accumulated tk tk2 (q1 + q2).
Proof.
  intros H1 H2 [A1 A2 A3 A4 A5 A6 A7] [B1 B2 B3 B4 B5 B6 B7].
  assert (Es : sps tk1 = sps tk) by (unfold sps; rewrite A1; reflexivity).
  split; try congruence; auto.
  - rewrite B1, Es, A1. unfold upd, set_xtime_nsec; cbn. f_equal; lia.
  - intros k Hk R. replace (k - (q1 + q2)) with (k - q1 - q2) by lia.
    apply B3; [lia |]. apply A3; [lia | done].
  - lia.
Qed.

Lemma accumulated_nsec tk tk' q : accumulated tk tk' q ->
  xtime_nsec (tkr_mono tk') = xtime_nsec (tkr_mono tk) - q * sps tk /\ sps tk' = sps tk.
Proof. intros A. unfold sps. rewrite (ac_mono _ _ _ A). done. Qed.

(** A leap of [l] seconds applied to a second that has been counted. *)
Definition apply_leap (tk : timekeeper) (l : Z) : timekeeper :=
  let tk := tk <| xtime_sec := u64 (xtime_sec tk + l) |> in
  let tk := tk_set_wall_to_mono tk (timespec64_sub (wall_to_monotonic tk) (Timespec l 0)) in
  __timekeeping_set_tai_offset tk (s32 (tai_offset tk - l)).

(** The second counted, before the leap. *)
Definition count_second (tk : timekeeper) : timekeeper :=
  (mono (fun r => r <| xtime_nsec := u64 (xtime_nsec r - nsecps r) |>) tk)
    <| xtime_sec := u64 (xtime_sec tk + 1) |>.

Lemma count_second_spec tk : shift_ok tk -> sps tk <= xtime_nsec (tkr_mono tk) < 2 ^ 64 ->
  0 <= xtime_sec tk <= 9000000000 ->
  tkr_mono (count_second tk) =
    (tkr_mono tk) <| xtime_nsec := xtime_nsec (tkr_mono tk) - 1 * sps tk |>
  /\ xtime_sec (count_second tk) = xtime_sec tk + 1
  /\ mono_sns (count_second tk) = mono_sns tk.
Proof.
  intros S N X. destruct (sps_pos tk S) as (P & E & B).
  assert (Em : tkr_mono (count_second tk) =
    (tkr_mono tk) <| xtime_nsec := xtime_nsec (tkr_mono tk) - 1 * sps tk |>).
  { cbn. rewrite nsecps_sps by done. rewrite u64_id by (unfold is_u64; lia). f_equal. lia. }
  assert (Ex : xtime_sec (count_second tk) = xtime_sec tk + 1)
    by (cbn; apply u64_id; unfold is_u64; lia).
  split_and!; [done | done |]. unfold mono_sns. rewrite Em, Ex.
  change (wall_to_monotonic (count_second tk)) with (wall_to_monotonic tk). cbn.
  rewrite E. nanos. lia.
Qed.

Lemma apply_leap_spec tk l : - 1 <= l <= 1 -> 1 <= xtime_sec tk <= 9000000000 ->
  ts_norm (wall_to_monotonic tk) -> - 9000000000 <= tv_sec (wall_to_monotonic tk) <= 9000000000 ->
  - 2 ^ 31 + 1 <= tai_offset tk < 2 ^ 31 - 1 ->
  let tk' := apply_leap tk l in
  tkr_mono tk' = tkr_mono tk /\ xtime_sec tk' = xtime_sec tk + l
  /\ ts_ns (wall_to_monotonic tk') = ts_ns (wall_to_monotonic tk) - l * NSEC_PER_SEC
  /\ tv_sec (wall_to_monotonic tk') = tv_sec (wall_to_monotonic tk) - l
  /\ tai_offset tk' = tai_offset tk - l /\ offs_ok tk' /\ acc_frame tk' = acc_frame tk.
Proof.
  intros L X N W T. unfold apply_leap. cbv zeta.
  set (tk0 := tk <| xtime_sec := u64 (xtime_sec tk + l) |>).
  change (wall_to_monotonic tk0) with (wall_to_monotonic tk).
  destruct (timespec64_sub_spec (wall_to_monotonic tk) (Timespec l 0)) as [Nv Ev];
    [done | unfold ts_norm; cbn; nanos; lia | lia | cbn; lia |].
  revert Nv Ev. generalize (timespec64_sub (wall_to_monotonic tk) (Timespec l 0)) as wtm.
  intros wtm Nv Ev. unfold ts_ns in Ev at 3; cbn in Ev.
  assert (Ws : tv_sec wtm = tv_sec (wall_to_monotonic tk) - l)
    by (unfold ts_norm, ts_ns in *; nanos; lia).
  destruct (tk_set_wall_to_mono_spec tk0 wtm Nv) as (O & F & Wt); [lia |].
  revert O F Wt. generalize (tk_set_wall_to_mono tk0 wtm) as tk1. intros tk1 O F Wt.
  assert (E1 : tkr_mono tk1 = tkr_mono tk) by (rewrite F; reflexivity).
  assert (E2 : xtime_sec tk1 = xtime_sec tk + l)
    by (rewrite F; cbn; apply u64_id; unfold is_u64; lia).
  assert (E3 : tai_offset tk1 = tai_offset tk) by (rewrite F; reflexivity).
  assert (E4 : acc_frame tk1 = acc_frame tk) by (rewrite F; reflexivity).
  unfold __timekeeping_set_tai_offset. rewrite E3, s32_id by (unfold is_s32; lia).
  destruct O as (O1 & O2 & _).
  split_and!; cbn; rewrite ?Wt; try done; try (nanos; lia).
Qed.

Lemma accumulate_second_eq n tk : accumulate_second n tk =
  let tk1 := count_second tk in
  if nonzero (skip_second_overflow tk) then (n, tk1 <| skip_second_overflow := 0 |>, 0)
  else let '(n', l) := second_overflow n (s64 (xtime_sec tk1)) in
       if nonzero l then (n', apply_leap tk1 l, TK_CLOCK_WAS_SET) else (n', tk1, 0).
Proof. reflexivity. Qed.

Lemma accumulate_second_spec n tk : shift_ok tk -> sps tk <= xtime_nsec (tkr_mono tk) < 2 ^ 64 ->
  sec_room 1 tk -> offs_ok tk ->
  let '(n', tk', c) := accumulate_second n tk in
  accumulated tk tk' 1 /\ (c = 0 \/ c = TK_CLOCK_WAS_SET) /\ (ntp_inv n -> ntp_inv n').
Proof.
  intros S N (R1 & R2 & R3 & R4 & R5) O. rewrite accumulate_second_eq. cbv zeta.
  destruct (count_second_spec tk S N ltac:(lia)) as (C1 & C2 & C3).
  set (tk1 := count_second tk) in *.
  assert (Ef : forall x, acc_frame (tk1 <| skip_second_overflow := x |>) = acc_frame tk) by reflexivity.
  assert (Plain : forall x, accumulated tk (tk1 <| skip_second_overflow := x |>) 1).
  { intros x. split; try reflexivity; [exact C1 | exact C3 | | done |].
    2: { change (xtime_sec (tk1 <| skip_second_overflow := x |>)) with (xtime_sec tk1). lia. }
    intros k Hk (K1 & K2 & K3 & K4 & K5). unfold sec_room.
    change (xtime_sec (tk1 <| skip_second_overflow := x |>)) with (xtime_sec tk1).
    change (mono_sns (tk1 <| skip_second_overflow := x |>)) with (mono_sns tk1).
    rewrite C2, C3. cbn. lia. }
  destruct (nonzero _).
  { split_and!; [apply Plain | by left | done]. }
  pose proof (leap_range n (s64 (xtime_sec tk1))) as L.
  pose proof (second_overflow_inv n (s64 (xtime_sec tk1))) as NI.
  destruct (second_overflow n (s64 (xtime_sec tk1))) as [n' l]. cbn in L, NI.
  destruct (nonzero l).
  2: { split_and!; [exact (Plain (skip_second_overflow tk)) | by left | done]. }
  destruct (apply_leap_spec tk1 l) as (A1 & A2 & A3 & A4 & A5 & A6 & A7);
    [lia | lia | apply O | change (wall_to_monotonic tk1) with (wall_to_monotonic tk); lia
    | change (tai_offset tk1) with (tai_offset tk); lia |].
  change (wall_to_monotonic tk1) with (wall_to_monotonic tk) in A3, A4.
  change (tai_offset tk1) with (tai_offset tk) in A5. change (acc_frame tk1) with (acc_frame tk) in A7.
  revert A1 A2 A3 A4 A5 A6 A7. generalize (apply_leap tk1 l) as tk2. intros tk2 A1 A2 A3 A4 A5 A6 A7.
  assert (Ms : mono_sns tk2 = mono_sns tk).
  { rewrite <- C3. unfold mono_sns. rewrite A1, A2, A3, C2.
    change (wall_to_monotonic tk1) with (wall_to_monotonic tk). nanos. ring. }
  split_and!; [| by right | done].
  split; [by rewrite A1 | exact Ms | | done | lia | unfold tai_off; rewrite A3, A5; lia | exact A7].
  intros k Hk (K1 & K2 & K3 & K4 & K5). unfold sec_room. rewrite Ms, A2, C2, A4, A5. lia.
Qed.

(** ** All the seconds *)

Definition was_set (c : Z) : Prop := c = 0 \/ c = TK_CLOCK_WAS_SET.

Lemma accumulate_loop_spec f n tk c : shift_ok tk ->
  0 <= xtime_nsec (tkr_mono tk) < 2 ^ 64 ->
  xtime_nsec (tkr_mono tk) / sps tk = Z.of_nat f ->
  sec_room (Z.of_nat f) tk -> offs_ok tk -> was_set c ->
  let '(n', tk', c') := accumulate_loop f n tk c in
  accumulated tk tk' (Z.of_nat f) /\ was_set c' /\ (ntp_inv n -> ntp_inv n').
Proof.
  revert n tk c. induction f as [|f IH]; intros n tk c S N Q R O C;
    destruct (sps_pos tk S) as (P & E & B);
    pose proof (Z.div_mod (xtime_nsec (tkr_mono tk)) (sps tk) ltac:(lia)) as DM;
    pose proof (Z.mod_pos_bound (xtime_nsec (tkr_mono tk)) (sps tk) ltac:(lia)) as MB;
    rewrite Q in DM; cbn [accumulate_loop]; rewrite nsecps_sps by done;
    destruct (Z.leb_spec (sps tk) (xtime_nsec (tkr_mono tk))) as [L|L];
    try (exfalso; nia).
  { split_and!; [apply accumulated_refl | done | done]. }
  assert (R1 : sec_room 1 tk) by (unfold sec_room in *; lia).
  pose proof (accumulate_second_spec n tk S ltac:(lia) R1 O) as A.
  destruct (accumulate_second n tk) as [[n1 tk1] c1]. destruct A as (A & C1 & NI).
  assert (S1 : shift_ok tk1) by (unfold shift_ok; rewrite (ac_mono _ _ _ A); exact S).
  assert (Es : sps tk1 = sps tk) by (unfold sps; rewrite (ac_mono _ _ _ A); reflexivity).
  assert (En : xtime_nsec (tkr_mono tk1) = xtime_nsec (tkr_mono tk) - 1 * sps tk)
    by (rewrite (ac_mono _ _ _ A); reflexivity).
  pose proof (IH n1 tk1 (if nonzero c1 then c1 else c) S1) as IH1.
  rewrite En, Es in IH1. specialize (IH1 ltac:(lia)).
  assert (Q1 : (xtime_nsec (tkr_mono tk) - 1 * sps tk) / sps tk = Z.of_nat f).
  { replace (xtime_nsec (tkr_mono tk) - 1 * sps tk) with
      (xtime_nsec (tkr_mono tk) + -1 * sps tk) by lia. rewrite Z.div_add by lia. lia. }
  assert (Rf : sec_room (Z.of_nat f) tk1).
  { replace (Z.of_nat f) with (Z.of_nat (Datatypes.S f) - 1) by lia. apply (ac_room _ _ _ A); [lia | done]. }
  specialize (IH1 Q1 Rf (ac_offs _ _ _ A O)).
  assert (C2 : was_set (if nonzero c1 then c1 else c)) by (destruct (nonzero c1); done).
  specialize (IH1 C2). destruct (accumulate_loop f n1 tk1 _) as [[n2 tk2] c2].
  destruct IH1 as (A2 & Cs & NI2). split_and!; [| done | auto].
  replace (Z.of_nat (Datatypes.S f)) with (1 + Z.of_nat f) by lia.
  by apply (accumulated_trans tk tk1 tk2); [lia | lia | |].
Qed.

Lemma accumulate_nsecs_spec n tk : shift_ok tk -> 0 <= xtime_nsec (tkr_mono tk) < 2 ^ 64 ->
  sec_room (xtime_nsec (tkr_mono tk) / sps tk) tk -> offs_ok tk ->
  let '(n', tk', c) := accumulate_nsecs_to_secs n tk in
  accumulated tk tk' (xtime_nsec (tkr_mono tk) / sps tk) /\ was_set c /\ (ntp_inv n -> ntp_inv n')
  /\ 0 <= xtime_nsec (tkr_mono tk') < sps tk'.
Proof.
  intros S N R O. destruct (sps_pos tk S) as (P & E & B).
  assert (Q : 0 <= xtime_nsec (tkr_mono tk) / sps tk) by (apply Z.div_pos; lia).
  pose proof (accumulate_loop_spec (Z.to_nat (xtime_nsec (tkr_mono tk) / sps tk)) n tk 0 S N) as A.
  rewrite Z2Nat.id in A by done. specialize (A eq_refl R O (or_introl eq_refl)).
  unfold accumulate_nsecs_to_secs. rewrite nsecps_sps by done.
  destruct (accumulate_loop _ n tk 0) as [[n' tk'] c]. destruct A as (A & C & NI).
  destruct (accumulated_nsec _ _ _ A) as [En Es]. rewrite En, Es.
  pose proof (Z.div_mod (xtime_nsec (tkr_mono tk)) (sps tk) ltac:(lia)) as DM.
  pose proof (Z.mod_pos_bound (xtime_nsec (tkr_mono tk)) (sps tk) ltac:(lia)) as MB.
  split_and!; [done | done | done | lia | lia].
Qed.
