(* ===== verification/TkAdvance.v ===== *)
(** * The timekeeper: the tick

    [timekeeping_advance] takes the cycles since the last update into the
    timekeeper, interval by interval, then lets NTP change the multiplier.  At
    every point the time at the present counter value stays the same: what an
    interval adds to the time it takes from the pending cycles, and a new
    multiplier is compensated for the cycles still pending. *)
From S2P Require Import Prelude Timespec Ntp NtpThms Timekeeping TkEntry TkInv TkRead TkTick.

(** The parts of the timekeeper that the accumulation does not change. *)
Definition rd_frame (r : tk_read_base) := (clock r, mask r, mult r, shift r).
Definition adv_frame (tk : timekeeper) :=
  (cycle_interval tk, xtime_interval tk, xtime_remainder tk, ntp_tick tk, ntp_error_shift tk,
   ntp_err_mult tk, offs_boot tk).

(** [i] cycles taken into the time. *)
Record stepped (tk tk' : timekeeper) (i : Z) : Prop := {
  st_rd : rd_frame (tkr_mono tk') = rd_frame (tkr_mono tk);
  st_last : u64 (cycle_last (tkr_mono tk')) = u64 (cycle_last (tkr_mono tk) + i);
  st_sns : mono_sns tk' = mono_sns tk + i * mult (tkr_mono tk);
  st_sec : xtime_sec tk <= xtime_sec tk';
  st_tai : tai_off tk' = tai_off tk;
  st_frame : adv_frame tk' = adv_frame tk }.

Lemma stepped_facts tk tk' i : stepped tk tk' i ->
  mult (tkr_mono tk') = mult (tkr_mono tk) /\ mask (tkr_mono tk') = mask (tkr_mono tk)
  /\ shift (tkr_mono tk') = shift (tkr_mono tk) /\ sps tk' = sps tk
  /\ cycle_interval tk' = cycle_interval tk /\ xtime_interval tk' = xtime_interval tk
  /\ (shift_ok tk -> shift_ok tk') /\ offs_boot tk' = offs_boot tk.
Proof.
  intros [E1 _ _ _ _ E2]. unfold rd_frame, adv_frame in *. simplify_eq.
  unfold sps, shift_ok. split_and!; congruence.
Qed.

Lemma stepped_refl tk : stepped tk tk 0.
Proof. split; try done; [by rewrite Z.add_0_r | lia]. Qed.

Lemma stepped_trans tk tk1 tk2 i j : stepped tk tk1 i -> stepped tk1 tk2 j ->
  stepped tk tk2 (i + j).
Proof.
  intros H H'. pose proof (stepped_facts _ _ _ H) as (Em & _).
  destruct H as [A1 A2 A3 A4 A5 A6], H' as [B1 B2 B3 B4 B5 B6].
  split; try congruence; try lia.
  rewrite B2, <- u64_add_l, A2, u64_add_l. f_equal. lia.
Qed.

(** The timekeeper while [offset] cycles are pending; [k] more seconds fit. *)
Record adv_inv (tk : timekeeper) (offset k : Z) : Prop := {
  ai_shift : shift_ok tk;
  ai_nsec : 0 <= xtime_nsec (tkr_mono tk) < sps tk;
  ai_offs : offs_ok tk;
  ai_ci : 0 < cycle_interval tk;
  ai_mult : 0 <= mult (tkr_mono tk);
  ai_xi : xtime_interval tk = cycle_interval tk * mult (tkr_mono tk);
  ai_offset : 0 <= offset < 2 ^ 63;
  ai_fits : xtime_nsec (tkr_mono tk) + offset * mult (tkr_mono tk) < 2 ^ 63;
  ai_room : sec_room (k + (xtime_nsec (tkr_mono tk) + offset * mult (tkr_mono tk)) / sps tk) tk }.

Lemma sec_room_weaken k k' tk : k' <= k -> sec_room k tk -> sec_room k' tk.
Proof. unfold sec_room. lia. Qed.

(** The timekeeper with one interval of [i] cycles put into its nanoseconds. *)
Definition take (i ns : Z) (tk : timekeeper) : timekeeper :=
  let step := fun r : tk_read_base => r <| cycle_last := u64 (cycle_last r + i) |> in
  mono (fun r => r <| xtime_nsec := u64 (xtime_nsec r + ns) |>) (raw step (mono step tk)).

(** The raw clock and the NTP error after the interval. *)
Definition raw_and_error (sh : Z) (tk : timekeeper) : timekeeper :=
  let tk := raw (fun r => r <| xtime_nsec :=
              u64 (xtime_nsec r + u64 (Z.shiftl (raw_interval tk) sh)) |>) tk in
  let tk := carry_raw tk in
  let tk := tk <| ntp_error := s64 (ntp_error tk + u64 (Z.shiftl (ntp_tick tk) sh)) |> in
  tk <| ntp_error := s64 (ntp_error tk -
          u64 (Z.shiftl (u64 (xtime_interval tk + xtime_remainder tk))
                 (ntp_error_shift tk + sh))) |>.

Lemma logarithmic_accumulation_eq n tk offset sh cs :
  logarithmic_accumulation n tk offset sh cs =
  let i := u64 (Z.shiftl (cycle_interval tk) sh) in
  if offset <? i then (n, tk, offset, cs)
  else let '(n', tk', c) :=
         accumulate_nsecs_to_secs n (take i (u64 (Z.shiftl (xtime_interval tk) sh)) tk) in
       (n', raw_and_error sh tk', u64 (offset - i), Z.lor cs c).
Proof.
  unfold logarithmic_accumulation. cbv zeta. destruct (_ <? _); [done |].
  unfold take. destruct (accumulate_nsecs_to_secs _ _) as [[n' tk'] c]. reflexivity.
Qed.

Lemma raw_and_error_spec sh tk : let tk' := raw_and_error sh tk in
  tkr_mono tk' = tkr_mono tk /\ mono_sns tk' = mono_sns tk /\ (forall k, sec_room k tk -> sec_room k tk')
  /\ (offs_ok tk -> offs_ok tk') /\ tai_off tk' = tai_off tk /\ adv_frame tk' = adv_frame tk
  /\ xtime_sec tk' = xtime_sec tk.
Proof.
  cbn zeta. unfold raw_and_error, carry_raw. destruct (carry _ _ _) as [a b].
  split_and!; try reflexivity; try exact (fun H => H). intros k H. exact H.
Qed.

Lemma take_spec i ns tk : shift_ok tk -> 0 <= xtime_nsec (tkr_mono tk) + ns < 2 ^ 64 ->
  let tk' := take i ns tk in
  rd_frame (tkr_mono tk') = rd_frame (tkr_mono tk)
  /\ cycle_last (tkr_mono tk') = u64 (cycle_last (tkr_mono tk) + i)
  /\ xtime_nsec (tkr_mono tk') = xtime_nsec (tkr_mono tk) + ns
  /\ mono_sns tk' = mono_sns tk + ns
  /\ sps tk' = sps tk /\ (forall k, 0 <= ns -> sec_room k tk -> sec_room k tk')
  /\ (offs_ok tk -> offs_ok tk') /\ tai_off tk' = tai_off tk /\ adv_frame tk' = adv_frame tk
  /\ xtime_sec tk' = xtime_sec tk.
Proof.
  intros S N. cbn zeta.
  assert (Ex : xtime_nsec (tkr_mono (take i ns tk)) = xtime_nsec (tkr_mono tk) + ns)
    by (cbn; apply u64_id; unfold is_u64; lia).
  assert (Em : mono_sns (take i ns tk) = mono_sns tk + ns).
  { unfold mono_sns at 1. rewrite Ex. unfold mono_sns. cbn. lia. }
  split_and!; try reflexivity; [done | done | | exact (fun H => H)].
  intros k Hn (R1 & R2 & R3 & R4 & R5). unfold sec_room. rewrite Em. cbn. lia.
Qed.

Lemma was_set_lor c c' : was_set c -> was_set c' -> was_set (Z.lor c c').
Proof. intros [-> | ->] [-> | ->]; vm_compute; auto. Qed.

(** What an interval of [i = cycle_interval * 2 ^ sh] cycles is worth. *)
Lemma interval_worth tk offset k sh i : adv_inv tk offset k -> 0 <= sh ->
  i = cycle_interval tk * 2 ^ sh -> i <= offset ->
  0 < i /\ 0 <= i * mult (tkr_mono tk) <= offset * mult (tkr_mono tk)
  /\ u64 (Z.shiftl (xtime_interval tk) sh) = i * mult (tkr_mono tk).
Proof.
  intros [S N O Ci Mu Xi Of Fi Ro] Hs Ei Hi.
  assert (Hi0 : 0 < i) by (rewrite Ei; apply Z.mul_pos_pos; [done | apply Z.pow_pos_nonneg; lia]).
  assert (Him : 0 <= i * mult (tkr_mono tk) <= offset * mult (tkr_mono tk))
    by (split; [apply Z.mul_nonneg_nonneg | apply Z.mul_le_mono_nonneg_r]; lia).
  split_and!; [done | lia | lia |].
  rewrite Z.shiftl_mul_pow2, Xi by lia.
  replace (cycle_interval tk * mult (tkr_mono tk) * 2 ^ sh) with (i * mult (tkr_mono tk)) by (rewrite Ei; ring).
  apply u64_id. unfold is_u64. lia.
Qed.

(** The invariant after [i] of the pending cycles were taken, of which [q]
    seconds were carried. *)
Lemma adv_inv_stepped tk tk' offset k i q : adv_inv tk offset k -> stepped tk tk' i -> 0 < i <= offset ->
  xtime_nsec (tkr_mono tk') = xtime_nsec (tkr_mono tk) + i * mult (tkr_mono tk) - q * sps tk ->
  0 <= q -> 0 <= xtime_nsec (tkr_mono tk') < sps tk -> offs_ok tk' ->
  sec_room (k + (xtime_nsec (tkr_mono tk) + offset * mult (tkr_mono tk)) / sps tk - q) tk' ->
  adv_inv tk' (offset - i) k.
Proof.
  intros [S N O Ci Mu Xi Of Fi Ro] St Hi Ex Hq Nn O' R'.
  destruct (stepped_facts _ _ _ St) as (Em & _ & _ & Esp & Eci & Exi & Sok & _).
  destruct (sps_pos tk S) as (P & _ & B).
  set (m := mult (tkr_mono tk)) in *. set (x := xtime_nsec (tkr_mono tk)) in *.
  assert (Tot : (x + i * m - q * sps tk + (offset - i) * m) / sps tk = (x + offset * m) / sps tk - q).
  { replace (x + i * m - q * sps tk + (offset - i) * m) with (x + offset * m + - q * sps tk) by ring.
    rewrite Z.div_add by lia. lia. }
  split; rewrite ?Em, ?Esp, ?Eci, ?Exi; fold m; auto; try lia.
  rewrite Ex, Tot.
  by replace (k + ((x + offset * m) / sps tk - q)) with (k + (x + offset * m) / sps tk - q) by lia.
Qed.

(** One interval of [i = cycle_interval * 2 ^ sh] cycles, taken. *)
Lemma take_interval_spec n tk offset k sh i : adv_inv tk offset k -> 0 <= k -> 0 <= sh ->
  i = cycle_interval tk * 2 ^ sh -> i <= offset ->
  let '(n', tk1, c) := accumulate_nsecs_to_secs n (take i (u64 (Z.shiftl (xtime_interval tk) sh)) tk) in
  let tk' := raw_and_error sh tk1 in
  stepped tk tk' i /\ adv_inv tk' (offset - i) k /\ was_set c /\ (ntp_inv n -> ntp_inv n').
Proof.
  intros AI Hk Hs Ei Hi. destruct (interval_worth _ _ _ _ _ AI Hs Ei Hi) as (Hi0 & Him & ->).
  pose proof AI as [S N O Ci Mu Xi Of Fi Ro]. destruct (sps_pos tk S) as (P & E & B).
  set (m := mult (tkr_mono tk)) in *. set (x := xtime_nsec (tkr_mono tk)) in *.
  destruct (take_spec i (i * m) tk S) as (T1 & T2 & T3 & T4 & T5 & T6 & T7 & T8 & T9 & T10);
    [fold x; lia |].
  revert T1 T2 T3 T4 T5 T6 T7 T8 T9 T10. generalize (take i (i * m) tk) as tk0.
  intros tk0 T1 T2 T3 T4 T5 T6 T7 T8 T9 T10. fold x in T3.
  assert (S0 : shift_ok tk0) by (unfold shift_ok, rd_frame in *; simplify_eq; congruence).
  set (q := (x + i * m) / sps tk).
  assert (Q0 : 0 <= q) by (apply Z.div_pos; lia).
  assert (Qk : q <= (x + offset * m) / sps tk) by (apply Z.div_le_mono; lia).
  pose proof (accumulate_nsecs_spec n tk0 S0) as A. rewrite T3, T5 in A. fold q in A.
  assert (R0 : sec_room (k + (x + offset * m) / sps tk) tk0) by (apply T6; [lia | done]).
  specialize (A ltac:(lia) (sec_room_weaken (k + (x + offset * m) / sps tk) q tk0 ltac:(lia) R0) (T7 O)).
  destruct (accumulate_nsecs_to_secs n tk0) as [[n' tk1] c].
  destruct A as (A & C & NI & A4). cbn zeta.
  destruct (accumulated_nsec _ _ _ A) as [En Es]. rewrite T3, T5 in En. rewrite T5 in Es.
  destruct (raw_and_error_spec sh tk1) as (U1 & U2 & U3 & U4 & U5 & U6 & U7).
  revert U1 U2 U3 U4 U5 U6 U7. generalize (raw_and_error sh tk1) as tk2.
  intros tk2 U1 U2 U3 U4 U5 U6 U7.
  assert (St : stepped tk tk2 i).
  { split.
    - rewrite U1, (ac_mono _ _ _ A), <- T1. reflexivity.
    - rewrite U1, (ac_mono _ _ _ A). cbn. rewrite T2. apply u64_u64.
    - rewrite U2, (ac_sns _ _ _ A), T4. done.
    - rewrite U7. pose proof (ac_sec _ _ _ A). lia.
    - rewrite U5, (ac_tai _ _ _ A), T8. done.
    - rewrite U6, <- T9. pose proof (ac_frame _ _ _ A) as F. unfold acc_frame, adv_frame in *.
      clear -F. simplify_eq. congruence. }
  split_and!; [done | | done | done]. rewrite Es in A4.
  apply (adv_inv_stepped tk _ _ _ _ q AI St); rewrite ?U1; [lia | exact En | done | done | |].
  - apply U4, (ac_offs _ _ _ A), T7, O.
  - apply U3, (ac_room _ _ _ A); fold m x; [lia | done].
Qed.

(** ** The loop over the intervals *)

(** The shift of the next turn: it goes down when the interval no longer fits. *)
Lemma next_shift ci offset sh : 0 < ci <= offset -> 0 <= sh < 64 -> ci * 2 ^ sh < 2 ^ 64 ->
  let i := ci * 2 ^ sh in
  let o := if offset <? i then offset else offset - i in
  let sh' := if o <? i then sh - 1 else sh in
  (ci <= o -> 0 <= sh') /\ sh' < 64 /\ (0 <= sh' -> ci * 2 ^ sh' < 2 ^ 64)
  /\ o / ci + Z.max 0 sh' < offset / ci + Z.max 0 sh.
Proof.
  intros Ci Hs Hci i o sh'.
  assert (Half : 2 ^ (sh - 1) <= 2 ^ sh) by (apply Z.pow_le_mono_r; lia).
  assert (Pw : 0 < 2 ^ sh) by (apply Z.pow_pos_nonneg; lia).
  assert (Zero : sh = 0 -> i = ci) by (intros ->; unfold i; change (2 ^ 0) with 1; lia).
  split_and!.
  - intros H. unfold sh'. destruct (Z.ltb_spec o i); [| lia].
    destruct (decide (sh = 0)) as [E|]; [| lia]. specialize (Zero E). lia.
  - unfold sh'. case_match; lia.
  - intros H. unfold sh' in *. destruct (Z.ltb_spec o i); [| done]. nia.
  - unfold sh', o. destruct (Z.ltb_spec offset i) as [L|L].
    + rewrite (proj2 (Z.ltb_lt _ _)) by done. assert (sh <> 0) by (intros E; specialize (Zero E); lia). lia.
    + assert ((offset - i) / ci <= offset / ci - 1); [| case_match; lia].
      replace (offset / ci - 1) with ((offset + -1 * ci) / ci) by (rewrite Z.div_add by lia; lia).
      apply Z.div_le_mono; [lia |]. unfold i. nia.
Qed.

Lemma advance_loop_spec f n tk offset sh cs k : adv_inv tk offset k -> 0 <= k ->
  (cycle_interval tk <= offset -> 0 <= sh) -> sh < 64 ->
  (0 <= sh -> cycle_interval tk * 2 ^ sh < 2 ^ 64) ->
  offset / cycle_interval tk + Z.max 0 sh < Z.of_nat f -> was_set cs ->
  let '(n', tk', offset', cs') := advance_loop f n tk offset sh cs in
  stepped tk tk' (offset - offset') /\ adv_inv tk' offset' k /\ offset' < cycle_interval tk /\ offset' <= offset
  /\ was_set cs' /\ (ntp_inv n -> ntp_inv n').
Proof.
  revert n tk offset sh cs. induction f as [|f IH]; intros n tk offset sh cs A Hk Hsh Hs64 Hci Hf C;
    (assert (D : 0 <= offset / cycle_interval tk)
      by (apply Z.div_pos; [apply A | apply A])); cbn [advance_loop];
    (destruct (Z.leb_spec (cycle_interval tk) offset) as [L|L];
     [| split_and!; [rewrite Z.sub_diag; apply stepped_refl | done | done | done | done | done]]); [lia |].
  specialize (Hsh L). specialize (Hci Hsh). pose proof (ai_ci _ _ _ A) as Ci.
  pose proof (ai_offset _ _ _ A) as Ob.
  destruct (next_shift (cycle_interval tk) offset sh ltac:(lia) ltac:(lia) Hci) as (Hsh' & Bs & Hb & Dec).
  assert (Pw : 0 < 2 ^ sh) by (apply Z.pow_pos_nonneg; lia).
  assert (Eu : u64 (Z.shiftl (cycle_interval tk) sh) = cycle_interval tk * 2 ^ sh)
    by (rewrite Z.shiftl_mul_pow2 by lia; apply u64_id; unfold is_u64; nia).
  rewrite logarithmic_accumulation_eq. cbv zeta. rewrite Eu.
  set (i := cycle_interval tk * 2 ^ sh) in *. cbv zeta in Hsh', Bs, Hb, Dec.
  destruct (Z.ltb_spec offset i) as [Li|Li].
  - rewrite Eu. fold i. apply IH; try done; lia.
  - pose proof (take_interval_spec n tk offset k sh i A Hk Hsh eq_refl Li) as T.
    destruct (accumulate_nsecs_to_secs n _) as [[n' tk1] c]. cbn zeta in T.
    revert T. generalize (raw_and_error sh tk1) as tk2. intros tk2 (St & A' & C' & NI).
    destruct (stepped_facts _ _ _ St) as (_ & _ & _ & _ & Eci & _). rewrite Eci, Eu. fold i.
    rewrite (u64_id (offset - i)) by (unfold is_u64, i in *; nia).
    set (sh' := if offset - i <? i then sh - 1 else sh) in *.
    pose proof (IH n' tk2 (offset - i) sh' (Z.lor cs c) A' Hk) as H. rewrite Eci in H.
    specialize (H Hsh' ltac:(lia) Hb ltac:(lia) (was_set_lor _ _ C C')).
    destruct (advance_loop f n' tk2 (offset - i) sh' (Z.lor cs c)) as [[[n3 tk3] o3] c3].
    destruct H as (St3 & A3 & L3 & Lo3 & C3 & NI3).
    split_and!; [| done | done | unfold i in *; nia | done | auto].
    replace (offset - o3) with (i + (offset - i - o3)) by lia. by apply (stepped_trans tk tk2).
Qed.
