(* ===== verification/TkAdjust.v ===== *)
(** * The timekeeper: following NTP

    [timekeeping_adjust] changes the multiplier to the NTP tick length.  The
    cycles still pending are compensated, so that the time does not jump; an
    underflow of the nanoseconds borrows a second. *)
From S2P Require Import Prelude Timespec Ntp NtpThms Timekeeping TkEntry TkInv TkRead TkTick TkAdvance.

Definition scale (tk : timekeeper) : Z := 2 ^ shift (tkr_mono tk).

(** The clock of the timekeeper: an interval is about a tick, its cycles are
    enough for the multiplier to fit, and the multiplier without the correction
    of one is within the NTP range. *)
Record clk_ok (tk : timekeeper) : Prop := {
  ck_ci : 0 < cycle_interval tk <= 2 ^ 20 * scale tk;
  ck_fit : 2 ^ 22 * scale tk < 2 ^ 31 * cycle_interval tk;
  ck_xi : xtime_interval tk = cycle_interval tk * mult (tkr_mono tk);
  ck_rem : - (2 ^ 18 * scale tk) <= xtime_remainder tk <= 2 ^ 18 * scale tk;
  ck_es : ntp_error_shift tk = NTP_SCALE_SHIFT - shift (tkr_mono tk);
  ck_err : 0 <= ntp_err_mult tk <= 1 /\ ntp_err_mult tk <= mult (tkr_mono tk);
  ck_mult : (mult (tkr_mono tk) - ntp_err_mult tk) * cycle_interval tk
    <= (2 ^ 21 + 2 ^ 18) * scale tk }.

(** A multiplier that clocks an interval in range fits. *)
Lemma mult_fits ci K m e : 0 < ci <= 2 ^ 20 * K -> 2 ^ 22 * K < 2 ^ 31 * ci -> 0 <= m -> 0 <= e <= 1 ->
  m * ci <= (2 ^ 21 + 2 ^ 18) * K -> m + e < 2 ^ 31 /\ 0 <= (m + e) * ci <= 2 ^ 22 * K.
Proof.
  intros H1 H2 Hm He H3.
  assert (B : (m + e) * ci <= 2 ^ 22 * K) by nia.
  assert (0 <= (m + e) * ci) by (apply Z.mul_nonneg_nonneg; lia).
  split; [| lia]. apply (Z.mul_lt_mono_pos_r ci); lia.
Qed.

Lemma clk_mult tk : clk_ok tk ->
  0 <= mult (tkr_mono tk) < 2 ^ 31 /\ 0 <= mult (tkr_mono tk) * cycle_interval tk <= 2 ^ 22 * scale tk.
Proof.
  intros [C1 C2 _ _ _ [C3 C4] C5].
  destruct (mult_fits (cycle_interval tk) (scale tk) (mult (tkr_mono tk) - ntp_err_mult tk)
    (ntp_err_mult tk) C1 C2) as [H1 H2]; [lia | lia | done |].
  replace (mult (tkr_mono tk) - ntp_err_mult tk + ntp_err_mult tk) with (mult (tkr_mono tk)) in * by lia.
  lia.
Qed.

Lemma scale_pos tk : shift_ok tk -> 0 < scale tk <= 2 ^ 32 /\ sps tk = NSEC_PER_SEC * scale tk.
Proof. intros S. destruct (sps_pos tk S) as (P & E & _). done. Qed.

(** The multiplier for the NTP tick length. *)
Lemma tick_mult_spec n tk : shift_ok tk -> clk_ok tk -> tick_ok n ->
  let '(tk', m) := tick_mult n tk in
  0 <= m /\ m * cycle_interval tk <= (2 ^ 21 + 2 ^ 18) * scale tk /\ m < 2 ^ 31
  /\ exists t, tk' = tk <| ntp_tick := t |>.
Proof.
  intros S C [T1 T2]. destruct (scale_pos tk S) as [K _]. pose proof (clk_mult tk C) as [M1 M2].
  destruct C as [C1 C2 _ Cr Ce [C3 C4] C5]. unfold tick_mult.
  destruct (Z.eqb_spec (ntp_tick tk) (ntp_tick_length n)) as [E|E].
  - rewrite u32_id by (unfold is_u32; lia). split_and!; [lia | lia | lia |].
    exists (ntp_tick tk). destruct tk. reflexivity.
  - cbv zeta. cbn. unfold ntp_tick_length. rewrite Ce. unfold NTP_SCALE_SHIFT.
    set (s := shift (tkr_mono tk)) in *.
    assert (Sh : 2 ^ 19 * scale tk <= Z.shiftr (tick_length n) (32 - s) < 2 ^ 21 * scale tk).
    { unfold shift_ok in S. fold s in S. rewrite Z.shiftr_div_pow2 by lia. unfold scale. fold s.
      assert (P : 2 ^ 32 = 2 ^ (32 - s) * 2 ^ s) by (rewrite <- Z.pow_add_r by lia; f_equal; lia).
      assert (0 < 2 ^ (32 - s)) by (apply Z.pow_pos_nonneg; lia).
      split; [apply Z.div_le_lower_bound | apply Z.div_lt_upper_bound]; lia. }
    set (v := Z.shiftr (tick_length n) (32 - s) - xtime_remainder tk).
    assert (V : 0 <= v <= (2 ^ 21 + 2 ^ 18) * scale tk) by (unfold v; lia).
    rewrite (u64_id v) by (unfold is_u64; lia).
    assert (Dv : 0 <= v / cycle_interval tk) by (apply Z.div_pos; lia).
    assert (Dm : v / cycle_interval tk * cycle_interval tk <= v)
      by (rewrite Z.mul_comm; apply Z.mul_div_le; lia).
    destruct (mult_fits (cycle_interval tk) (scale tk) (v / cycle_interval tk) 0 C1 C2) as [F _];
      [lia | lia | lia |].
    rewrite u32_id by (unfold is_u32; lia).
    split_and!; [lia | lia | lia |]. eexists; reflexivity.
Qed.

(** The multiplier moved by [a], compensated for [offset] pending cycles. *)
Definition adjust_by (tk : timekeeper) (offset a : Z) : timekeeper :=
  (mono (fun r => r <| mult := mult r + a |> <| xtime_nsec := u64 (xtime_nsec r - offset * a) |>) tk)
    <| xtime_interval := cycle_interval tk * (mult (tkr_mono tk) + a) |>.

Lemma apply_adjustment_eq tk offset a : shift_ok tk -> clk_ok tk ->
  0 <= offset <= cycle_interval tk -> 0 <= xtime_nsec (tkr_mono tk) < 2 ^ 64 ->
  0 <= mult (tkr_mono tk) + a < 2 ^ 31 ->
  (mult (tkr_mono tk) + a) * cycle_interval tk <= 2 ^ 22 * scale tk ->
  timekeeping_apply_adjustment tk offset a = adjust_by tk offset a.
Proof.
  intros S C Of N Ma Mc. destruct (scale_pos tk S) as [K _]. pose proof (clk_mult tk C) as [M1 M2].
  pose proof (ck_ci _ C) as Ci. pose proof (ck_xi _ C) as Xi.
  set (m := mult (tkr_mono tk)) in *. set (ci := cycle_interval tk) in *.
  assert (A0 : 0 <= (m + a) * ci) by (apply Z.mul_nonneg_nonneg; lia).
  assert (A1 : - 2 ^ 55 <= ci * a <= 2 ^ 55) by lia.
  assert (A2 : - 2 ^ 55 <= offset * a <= 2 ^ 55) by nia.
  unfold timekeeping_apply_adjustment, adjust_by. fold m ci.
  rewrite (s64_id ci) by (unfold is_s64; lia).
  destruct (Z.eqb_spec a 0) as [->|Na].
  - rewrite Z.mul_0_r, Z.add_0_r, <- Xi. unfold mono, upd, set_tkr_mono, set_xtime_interval,
      set_mult, set_xtime_nsec; cbn. fold m. rewrite Z.sub_0_r, Z.add_0_r, u64_id by done.
    unfold m. destruct tk as [r]. destruct r. reflexivity.
  - assert (P : (if a =? -1 then (s64 (- ci), s64 (- offset))
      else if negb (a =? 1) then (s64 (ci * a), s64 (offset * a)) else (ci, offset))
      = (ci * a, offset * a)).
    { destruct (Z.eqb_spec a (-1)) as [->|]; [rewrite !s64_id by (unfold is_s64; lia); f_equal; lia |].
      destruct (Z.eqb_spec a 1) as [->|]; cbn [negb]; [f_equal; lia |].
      rewrite !s64_id by (unfold is_s64; lia). done. }
    rewrite P. destruct (_ && _) eqn:Ov.
    { exfalso. rewrite u32_id in Ov by (unfold is_u32; lia). lia. }
    unfold mono, upd, set_tkr_mono, set_xtime_interval, set_mult, set_xtime_nsec; cbn.
    fold m ci. rewrite (u32_id (m + a)) by (unfold is_u32; lia). rewrite Xi.
    rewrite (u64_id (ci * m + ci * a)) by (unfold is_u64; lia).
    f_equal. lia.
Qed.

(** The effect of the adjustment while [offset] cycles are pending. *)
Record adjusted (tk tk' : timekeeper) (offset : Z) : Prop := {
  ad_sns : mono_sns tk' + offset * mult (tkr_mono tk') = mono_sns tk + offset * mult (tkr_mono tk);
  ad_nsec : 0 <= xtime_nsec (tkr_mono tk') < 2 * sps tk;
  ad_clk : clk_ok tk';
  ad_rd : mask (tkr_mono tk') = mask (tkr_mono tk)
    /\ cycle_last (tkr_mono tk') = cycle_last (tkr_mono tk)
    /\ shift (tkr_mono tk') = shift (tkr_mono tk) /\ cycle_interval tk' = cycle_interval tk;
  ad_room : forall k, sec_room k tk -> sec_room k tk';
  ad_offs : offs_ok tk -> offs_ok tk';
  ad_tai : tai_off tk' = tai_off tk /\ offs_boot tk' = offs_boot tk }.

(** Borrowing a second keeps the time. *)
Lemma borrow_second_spec tk y : shift_ok tk -> xtime_nsec (tkr_mono tk) = u64 y ->
  - sps tk <= y < 2 * sps tk -> 1 <= xtime_sec tk <= 9000000000 ->
  let tk' := borrow_second tk in
  xtime_nsec (tkr_mono tk') = (if y <? 0 then y + sps tk else y)
  /\ xtime_sec tk' = (if y <? 0 then xtime_sec tk - 1 else xtime_sec tk)
  /\ rd_frame (tkr_mono tk') = rd_frame (tkr_mono tk)
  /\ cycle_last (tkr_mono tk') = cycle_last (tkr_mono tk)
  /\ wall_to_monotonic tk' = wall_to_monotonic tk /\ tai_offset tk' = tai_offset tk
  /\ offs_real tk' = offs_real tk /\ offs_tai tk' = offs_tai tk /\ adv_frame tk' = adv_frame tk.
Proof.
  intros S En Y X. destruct (sps_pos tk S) as (_ & _ & B). cbn zeta. unfold borrow_second.
  rewrite En. autorewrite with cint. rewrite s64_id by (unfold is_s64; lia).
  destruct (Z.ltb_spec y 0).
  - split_and!; try reflexivity; cbn.
    + rewrite nsecps_sps, En, u64_add_l, u64_id by (done || (unfold is_u64; lia)). done.
    + apply u64_id. unfold is_u64. lia.
  - split_and!; try reflexivity. rewrite En. apply u64_id. unfold is_u64. lia.
Qed.

Lemma adjust_by_spec tk offset a e : shift_ok tk -> clk_ok tk ->
  0 <= offset < cycle_interval tk -> 0 <= xtime_nsec (tkr_mono tk) < sps tk ->
  1 <= xtime_sec tk <= 9000000000 -> 0 <= xtime_sec tk + tv_sec (wall_to_monotonic tk) ->
  sps tk <= mono_sns tk -> 0 <= e <= 1 -> 0 <= mult (tkr_mono tk) + a - e ->
  (mult (tkr_mono tk) + a - e) * cycle_interval tk <= (2 ^ 21 + 2 ^ 18) * scale tk ->
  adjusted tk (borrow_second ((adjust_by tk offset a) <| ntp_err_mult := e |>)) offset.
Proof.
  intros S C Of N X Xm Um He Hb Hm. destruct (scale_pos tk S) as [K Ek].
  pose proof (clk_mult tk C) as [M1 M2].
  destruct (mult_fits (cycle_interval tk) (scale tk) (mult (tkr_mono tk) + a - e) e
    (ck_ci _ C) (ck_fit _ C) Hb He Hm) as [F1 F2].
  replace (mult (tkr_mono tk) + a - e + e) with (mult (tkr_mono tk) + a) in * by lia.
  set (m := mult (tkr_mono tk)) in *. set (ci := cycle_interval tk) in *.
  assert (A2 : - (2 ^ 22 * scale tk) <= offset * a <= 2 ^ 22 * scale tk) by nia.
  set (y := xtime_nsec (tkr_mono tk) - offset * a).
  set (tk1 := (adjust_by tk offset a) <| ntp_err_mult := e |>).
  assert (Es : sps tk1 = sps tk) by reflexivity.
  destruct (borrow_second_spec tk1 y) as (B1 & B2 & B3 & B4 & B5 & B6 & B7 & B8 & B9);
    [exact S | reflexivity | rewrite Es; unfold y; nanos; lia | exact X |].
  revert B1 B2 B3 B4 B5 B6 B7 B8 B9. generalize (borrow_second tk1) as tk2.
  intros tk2 B1 B2 B3 B4 B5 B6 B7 B8 B9.
  change (xtime_sec tk1) with (xtime_sec tk) in B2.
  change (wall_to_monotonic tk1) with (wall_to_monotonic tk) in B5.
  change (tai_offset tk1) with (tai_offset tk) in B6.
  assert (Em : mult (tkr_mono tk2) = m + a) by (unfold rd_frame in B3; simplify_eq; done).
  assert (Eh : shift (tkr_mono tk2) = shift (tkr_mono tk)) by (unfold rd_frame in B3; simplify_eq; done).
  assert (Eci : cycle_interval tk2 = ci /\ xtime_interval tk2 = ci * (m + a)
    /\ xtime_remainder tk2 = xtime_remainder tk /\ ntp_error_shift tk2 = ntp_error_shift tk
    /\ ntp_err_mult tk2 = e /\ offs_boot tk2 = offs_boot tk)
    by (unfold adv_frame in B9; simplify_eq; done).
  destruct Eci as (Eci & Exi & Erm & Ees & Eer & Ebo).
  assert (Esc : scale tk2 = scale tk) by (unfold scale; by rewrite Eh).
  assert (Ms : mono_sns tk2 = mono_sns tk - offset * a).
  { unfold mono_sns. rewrite B1, B2, B5, Eh, Es. fold (scale tk). rewrite Ek. unfold y.
    destruct (Z.ltb_spec (xtime_nsec (tkr_mono tk) - offset * a) 0); nanos; lia. }
  split.
  - rewrite Ms, Em. lia.
  - rewrite B1, Es. unfold y. nanos. destruct (Z.ltb_spec (xtime_nsec (tkr_mono tk) - offset * a) 0); lia.
  - destruct C as [C1 C2 _ C4 C5 _ _].
    split; rewrite ?Eci, ?Esc, ?Exi, ?Em, ?Erm, ?Ees, ?Eer, ?Eh; try done; lia.
  - rewrite B4, Eh, Eci. split_and!; [unfold rd_frame in B3; simplify_eq; done | done..].
  - intros k (R1 & R2 & R3 & R4 & R5). unfold sec_room. rewrite Ms, B2, B5, B6. nanos.
    destruct (y <? 0); lia.
  - unfold offs_ok. rewrite B5, B6, B7, B8. exact (fun H => H).
  - unfold tai_off. by rewrite B5, B6.
Qed.

(** The error correction is stored before the multiplier is adjusted. *)
Lemma apply_adjustment_err tk offset a e :
  timekeeping_apply_adjustment (tk <| ntp_err_mult := e |>) offset a
  = (timekeeping_apply_adjustment tk offset a) <| ntp_err_mult := e |>.
Proof.
  unfold timekeeping_apply_adjustment. destruct (a =? 0); [done |]. cbv zeta.
  change (cycle_interval (tk <| ntp_err_mult := e |>)) with (cycle_interval tk).
  change (tkr_mono (tk <| ntp_err_mult := e |>)) with (tkr_mono tk).
  destruct (if a =? -1 then _ else _) as [i o]. destruct (_ && _); reflexivity.
Qed.

Lemma clk_ok_tick tk t : clk_ok tk -> clk_ok (tk <| ntp_tick := t |>).
Proof. intros [C1 C2 C3 C4 C5 C6 C7]. split; assumption. Qed.

Lemma adjusted_tick tk tk' t offset : adjusted (tk <| ntp_tick := t |>) tk' offset ->
  adjusted tk tk' offset.
Proof. intros [A1 A2 A3 A4 A5 A6 A7]. split; assumption. Qed.

Lemma timekeeping_adjust_spec n tk offset : shift_ok tk -> clk_ok tk -> tick_ok n ->
  0 <= offset < cycle_interval tk -> 0 <= xtime_nsec (tkr_mono tk) < sps tk ->
  1 <= xtime_sec tk <= 9000000000 -> 0 <= xtime_sec tk + tv_sec (wall_to_monotonic tk) ->
  sps tk <= mono_sns tk ->
  adjusted tk (timekeeping_adjust n tk offset) offset.
Proof.
  intros S C T Of N X Xm Um. unfold timekeeping_adjust.
  pose proof (tick_mult_spec n tk S C T) as TM. destruct (tick_mult n tk) as [tk0 m].
  destruct TM as (M0 & M1 & M2 & t & ->). apply (adjusted_tick tk _ t).
  apply (clk_ok_tick tk t) in C. revert S C Of N X Xm Um M1.
  change (cycle_interval tk) with (cycle_interval (tk <| ntp_tick := t |>)).
  change (scale tk) with (scale (tk <| ntp_tick := t |>)).
  change (tkr_mono tk) with (tkr_mono (tk <| ntp_tick := t |>)).
  change (xtime_sec tk) with (xtime_sec (tk <| ntp_tick := t |>)).
  change (mono_sns tk) with (mono_sns (tk <| ntp_tick := t |>)).
  change (sps tk) with (sps (tk <| ntp_tick := t |>)).
  change (wall_to_monotonic tk) with (wall_to_monotonic (tk <| ntp_tick := t |>)).
  change (shift_ok tk) with (shift_ok (tk <| ntp_tick := t |>)).
  generalize (tk <| ntp_tick := t |>) as tk1. clear tk t. intros tk S C Of N X Xm Um M1.
  cbv zeta. set (e := if 0 <? ntp_error tk then 1 else 0).
  assert (He : 0 <= e <= 1) by (unfold e; case_match; lia).
  change (ntp_err_mult (tk <| ntp_err_mult := e |>)) with e.
  change (tkr_mono (tk <| ntp_err_mult := e |>)) with (tkr_mono tk).
  destruct (scale_pos tk S) as [K _]. pose proof (clk_mult tk C) as [Q1 Q2].
  destruct (mult_fits (cycle_interval tk) (scale tk) m e (ck_ci _ C) (ck_fit _ C) M0 He M1) as [F1 F2].
  rewrite (u32_id (m + e)), s32_id by (unfold is_u32, is_s32; lia).
  destruct (sps_pos tk S) as (_ & _ & B).
  rewrite apply_adjustment_err, apply_adjustment_eq;
    [| done | done | lia | lia | lia
     | replace (mult (tkr_mono tk) + (m + e - mult (tkr_mono tk))) with (m + e) by lia; lia].
  apply adjust_by_spec; try done; lia.
Qed.

(** ** The whole tick *)

Record advanced (tk tk' : timekeeper) (offset rest : Z) : Prop := {
  av_sns : mono_sns tk' + rest * mult (tkr_mono tk') = mono_sns tk + offset * mult (tkr_mono tk);
  av_last : u64 (cycle_last (tkr_mono tk')) = u64 (cycle_last (tkr_mono tk) + (offset - rest));
  av_rest : 0 <= rest <= offset /\ rest < cycle_interval tk';
  av_clk : clk_ok tk';
  av_rd : mask (tkr_mono tk') = mask (tkr_mono tk) /\ shift (tkr_mono tk') = shift (tkr_mono tk);
  av_nsec : 0 <= xtime_nsec (tkr_mono tk') < sps tk';
  av_room : sec_room 1 tk';
  av_offs : offs_ok tk';
  av_tai : tai_off tk' = tai_off tk /\ offs_boot tk' = offs_boot tk }.

Lemma clk_ok_ext tk tk' : clk_ok tk -> rd_frame (tkr_mono tk') = rd_frame (tkr_mono tk) ->
  adv_frame tk' = adv_frame tk -> clk_ok tk'.
Proof.
  intros [C1 C2 C3 C4 C5 C6 C7] R F. unfold rd_frame, adv_frame in *. simplify_eq.
  split; unfold scale in *; congruence || (rewrite ?H, ?H0, ?H1, ?H2, ?H3, ?H4, ?H5, ?H6, ?H7, ?H8; done).
Qed.

(** An uptime of two seconds is two seconds of time of day and offset. *)
Lemma uptime_seconds tk : shift_ok tk -> ts_norm (wall_to_monotonic tk) ->
  xtime_nsec (tkr_mono tk) < sps tk -> 2 * sps tk <= mono_sns tk ->
  0 <= xtime_sec tk + tv_sec (wall_to_monotonic tk).
Proof.
  intros S N X U. destruct (scale_pos tk S) as [K Ek]. unfold mono_sns, ts_ns, ts_norm in *.
  fold (scale tk) in *.
  assert (tv_nsec (wall_to_monotonic tk) * scale tk < sps tk)
    by (rewrite Ek; apply Z.mul_lt_mono_pos_r; lia).
  enough (- 1 < xtime_sec tk + tv_sec (wall_to_monotonic tk)) by lia.
  apply (Z.mul_lt_mono_pos_r (sps tk)); [nanos; lia |]. rewrite Ek in *. nanos. lia.
Qed.

Lemma start_shift_spec n tk offset : tick_ok n -> 0 <= start_shift n tk offset <= 11.
Proof.
  intros [T1 T2]. unfold start_shift, ntp_tick_length. cbv zeta.
  assert (E : ilog2 (tick_length n) = Z.log2 (tick_length n))
    by (unfold ilog2; destruct (Z.eqb_spec (tick_length n) 0); [lia | done]).
  rewrite E.
  assert (51 <= Z.log2 (tick_length n)) by (change 51 with (Z.log2 (2 ^ 51)); apply Z.log2_le_mono; lia).
  assert (Z.log2 (tick_length n) < 53) by (apply Z.log2_lt_pow2; lia). lia.
Qed.

(** The loop over the intervals, from the shift [advance_tk] starts with. *)
Lemma advance_loop_start n tk offset : clk_ok tk -> ntp_inv n -> adv_inv tk offset 3 ->
  let sh := start_shift n tk offset in
  let '(n', tk', rest, c) := advance_loop (advance_fuel tk offset sh) n tk offset sh 0 in
  stepped tk tk' (offset - rest) /\ adv_inv tk' rest 3 /\ rest < cycle_interval tk /\ rest <= offset
  /\ was_set c /\ ntp_inv n' /\ clk_ok tk'.
Proof.
  intros C NI A. cbv zeta. pose proof (ai_shift _ _ _ A) as S.
  destruct (scale_pos tk S) as [K _]. pose proof (ck_ci _ C) as Ci.
  pose proof (start_shift_spec n tk offset ltac:(apply NI)) as Hs. pose proof (ai_offset _ _ _ A) as Ob.
  assert (Hd : 0 <= offset / cycle_interval tk) by (apply Z.div_pos; lia).
  pose proof (advance_loop_spec (advance_fuel tk offset (start_shift n tk offset)) n tk offset
    (start_shift n tk offset) 0 3 A ltac:(lia) ltac:(lia) ltac:(lia)) as L.
  assert (Hp : cycle_interval tk * 2 ^ start_shift n tk offset < 2 ^ 64).
  { assert (2 ^ start_shift n tk offset <= 2 ^ 11) by (apply Z.pow_le_mono_r; lia).
    apply (Z.le_lt_trans _ (2 ^ 52 * 2 ^ 11)); [| lia].
    apply Z.mul_le_mono_nonneg; [lia | lia | apply Z.pow_nonneg; lia | lia]. }
  specialize (L (fun _ => Hp) ltac:(unfold advance_fuel; rewrite Z2Nat.id; lia) (or_introl eq_refl)).
  destruct (advance_loop _ n tk offset _ 0) as [[[n1 tk1] o1] c1].
  destruct L as (St & A1 & O1 & Oo & C1 & N1).
  split_and!; try done; [by apply N1 | apply (clk_ok_ext tk); [done | apply St | apply St]].
Qed.

(** The adjustment while [rest] cycles are pending, with the seconds it makes. *)
Lemma adjust_and_carry n tk rest : clk_ok tk -> ntp_inv n -> adv_inv tk rest 3 ->
  1 <= xtime_sec tk -> 2 * sps tk <= mono_sns tk -> rest < cycle_interval tk ->
  let '(n', tk', c) := accumulate_nsecs_to_secs n (timekeeping_adjust n tk rest) in
  advanced tk tk' rest rest /\ was_set c /\ ntp_inv n'.
Proof.
  intros C NI A X U Hr. pose proof A as [S N O _ Mu _ Of _ Ro].
  destruct (sps_pos tk S) as (_ & _ & Bs).
  assert (Im : 0 <= rest * mult (tkr_mono tk)) by (apply Z.mul_nonneg_nonneg; lia).
  apply (sec_room_weaken _ 3) in Ro;
    [| enough (0 <= (xtime_nsec (tkr_mono tk) + rest * mult (tkr_mono tk)) / sps tk) by lia;
       apply Z.div_pos; lia].
  pose proof (uptime_seconds tk S ltac:(apply A) ltac:(lia) U) as Us. pose proof Ro as (Rx & _).
  pose proof (timekeeping_adjust_spec n tk rest S C ltac:(apply NI) ltac:(lia) N
    ltac:(lia) Us ltac:(lia)) as [D1 D2 D3 (D41 & D42 & D43 & D44) D5 D6 D7].
  revert D1 D2 D3 D41 D42 D43 D44 D5 D6 D7. generalize (timekeeping_adjust n tk rest) as tk2.
  intros tk2 D1 D2 D3 D41 D42 D43 D44 D5 D6 D7.
  assert (Es2 : sps tk2 = sps tk) by (unfold sps; by rewrite D43).
  set (q := xtime_nsec (tkr_mono tk2) / sps tk2).
  assert (Q : 0 <= q <= 1).
  { unfold q. rewrite Es2. split; [apply Z.div_pos; lia |].
    enough (xtime_nsec (tkr_mono tk2) / sps tk < 2) by lia. apply Z.div_lt_upper_bound; lia. }
  pose proof (accumulate_nsecs_spec n tk2 ltac:(unfold shift_ok; by rewrite D43) ltac:(lia)
    (sec_room_weaken 3 q tk2 ltac:(lia) (D5 3 Ro)) (D6 O)) as Ac.
  destruct (accumulate_nsecs_to_secs n tk2) as [[n3 tk3] c3]. fold q in Ac.
  destruct Ac as (Ac & C3 & N3 & Ns3). split_and!; [| done | auto].
  pose proof (ac_frame _ _ _ Ac) as Fr. pose proof (ac_mono _ _ _ Ac) as Mo.
  assert (Fa : adv_frame tk3 = adv_frame tk2)
    by (unfold acc_frame, adv_frame in *; clear -Fr; simplify_eq; congruence).
  assert (Fb : cycle_interval tk3 = cycle_interval tk2 /\ offs_boot tk3 = offs_boot tk2)
    by (unfold adv_frame in Fa; clear -Fa; simplify_eq; done).
  destruct Fb as [Fc Fb].
  split; rewrite ?Mo; cbn.
  - rewrite (ac_sns _ _ _ Ac). exact D1.
  - by rewrite D42, Z.sub_diag, Z.add_0_r.
  - split; [lia | congruence].
  - apply (clk_ok_ext tk2); [done | rewrite Mo; reflexivity | done].
  - done.
  - rewrite Mo in Ns3. exact Ns3.
  - apply (sec_room_weaken (3 - q) 1); [lia |]. apply (ac_room _ _ _ Ac); [lia | by apply D5].
  - apply (ac_offs _ _ _ Ac), D6, O.
  - rewrite (ac_tai _ _ _ Ac). destruct D7. split; congruence.
Qed.

Lemma stepped_advanced tk tk1 tk2 offset rest : stepped tk tk1 (offset - rest) ->
  advanced tk1 tk2 rest rest -> rest <= offset -> advanced tk tk2 offset rest.
Proof.
  intros St [A1 A2 A3 A4 A5 A6 A7 A8 A9] Ho.
  destruct (stepped_facts _ _ _ St) as (Em & Ek & Eh & _ & _ & _ & _ & Eb).
  split; try done; try congruence.
  - rewrite A1, (st_sns _ _ _ St), Em. lia.
  - rewrite A2, Z.sub_diag, Z.add_0_r. apply St.
  - lia.
  - rewrite (proj1 A9), (proj2 A9), Eb. split; [apply St | done].
Qed.

Lemma advance_tk_spec n tk offset : clk_ok tk -> ntp_inv n -> adv_inv tk offset 3 ->
  1 <= xtime_sec tk -> 2 * sps tk <= mono_sns tk ->
  let '(n', tk', c) := advance_tk n tk offset in
  (exists rest, advanced tk tk' offset rest) /\ was_set c /\ ntp_inv n'.
Proof.
  intros C NI A X U. unfold advance_tk. pose proof (advance_loop_start n tk offset C NI A) as L.
  cbv zeta in L. destruct (advance_loop _ n tk offset _ 0) as [[[n1 tk1] o1] c1].
  destruct L as (St & A1 & O1 & Oo & C1 & N1 & Ck1).
  destruct (stepped_facts _ _ _ St) as (Em & _ & _ & Es & Eci & _).
  pose proof (ai_offset _ _ _ A1) as Ob1. pose proof (st_sns _ _ _ St) as Sn1.
  pose proof (st_sec _ _ _ St) as Xs. pose proof (ai_mult _ _ _ A) as Mu.
  assert (Im : 0 <= (offset - o1) * mult (tkr_mono tk)) by (apply Z.mul_nonneg_nonneg; lia).
  rewrite (s64_id o1) by (unfold is_s64; lia).
  pose proof (adjust_and_carry n1 tk1 o1 Ck1 N1 A1 ltac:(lia) ltac:(lia) ltac:(lia)) as Ad.
  destruct (accumulate_nsecs_to_secs n1 _) as [[n3 tk3] c3]. destruct Ad as (Ad & C3 & N3).
  split_and!; [| by apply was_set_lor | done]. exists o1. by apply (stepped_advanced tk tk1).
Qed.
