(* ===== verification/TkWorld.v ===== *)
(** * The timekeeper: the tick as the readers see it

    The world-level statement about [timekeeping_advance]: with the counter at
    the same value, no clock that is derived from the monotonic time reads
    differently before and after a tick. *)
From S2P Require Import Prelude Timespec Ntp NtpThms Timekeeping TkEntry TkInv TkRead TkTick TkAdvance TkAdjust.

(** A world whose tick at the counter value [c] stays within bounds: up for two
    seconds, the time of day after 1970, and the pending cycles in range. *)
Record tick_ready (w : world) (c : Z) : Prop := {
  tr_inv : tk_inv (tk_core w);
  tr_read : readable (tk_core w) c;
  tr_shadow : same_time (tk_core w) (shadow_timekeeper w);
  tr_clk : clk_ok (tk_core w);
  tr_ntp : ntp_inv (w_ntp w);
  tr_sec : 1 <= xtime_sec (tk_core w);
  tr_up : 2 * sps (tk_core w) <= mono_sns (tk_core w);
  tr_fits : xtime_nsec (tkr_mono (tk_core w)) + pending (tk_core w) c < 2 ^ 63;
  tr_room : sec_room (3 + (xtime_nsec (tkr_mono (tk_core w)) + pending (tk_core w) c)
                          / sps (tk_core w)) (tk_core w) }.

Lemma clk_ok_same tk tk' : same_time tk tk' -> clk_ok tk -> clk_ok tk'.
Proof.
  intros H C. destruct (same_time_facts _ _ H) as (_ & _ & _ & _ & _ & _ & _ & _ & E & _).
  apply (clk_ok_ext tk); [done | rewrite E; reflexivity |]. unfold same_time in H.
  view_field H cycle_interval. view_field H xtime_interval. view_field H xtime_remainder.
  view_field H ntp_tick. view_field H ntp_error_shift. view_field H ntp_err_mult. view_field H offs_boot.
  unfold adv_frame. congruence.
Qed.

Lemma clocksource_delta_cong now last last' m : u64 last = u64 last' ->
  clocksource_delta now last m = clocksource_delta now last' m.
Proof.
  intros E. unfold clocksource_delta.
  replace (u64 (now - last)) with (u64 (now - last')); [done |].
  clear -E. cint.
Qed.

(** The offset of the atomic time is the one of the invariant. *)
Lemma offs_tai_eq tk : offs_ok tk -> - 2 ^ 31 <= tai_offset tk < 2 ^ 31 ->
  offs_tai tk = s64 (tai_off tk).
Proof.
  intros (_ & E & ->) T. unfold tai_off, ktime_add, ktime_set. rewrite E. nanos.
  destruct (Z.leb_spec 9223372036 (tai_offset tk)); [lia |].
  generalize (ts_ns (wall_to_monotonic tk)). intros; cint.
Qed.

(** The readers after the tick. *)
Record tick_keeps (w w' : world) (c : Z) : Prop := {
  tp_inv : tk_inv (tk_core w');
  tp_read : readable (tk_core w') c;
  tp_clk : clk_ok (tk_core w');
  tp_ntp : ntp_inv (w_ntp w');
  tp_shadow : same_time (tk_core w') (shadow_timekeeper w');
  tp_mono : ktime_get w' c = ktime_get w c;
  tp_boot : ktime_get_with_offset w' TK_OFFS_BOOT c = ktime_get_with_offset w TK_OFFS_BOOT c;
  tp_tai : ktime_get_with_offset w' TK_OFFS_TAI c = ktime_get_with_offset w TK_OFFS_TAI c }.

Lemma advance_eq w mode c : timekeeping_suspended w = false ->
  timekeeping_advance w mode c =
  let tk := shadow_timekeeper w in
  let offset := clocksource_delta c (cycle_last (tkr_mono tk)) (mask (tkr_mono tk)) in
  if (offset <? cycle_interval (tk_core w)) && is_tick mode then (w, false)
  else let '(n, tk', cs) := advance_tk (w_ntp w) tk offset in
       let w1 := timekeeping_update (put_tk (w <| w_ntp := n |>) TkShadow tk') TkShadow cs in
       (w1 <| tk_core := shadow_timekeeper w1 |>, nonzero cs).
Proof. intros E. unfold timekeeping_advance. rewrite E. reflexivity. Qed.

Lemma update_shadow_ntp w cs : was_set cs -> w_ntp (timekeeping_update w TkShadow cs) = w_ntp w.
Proof. intros [-> | ->]; reflexivity. Qed.

(** After a tick the pending cycles are the rest. *)
Lemma advanced_pending tk tk' c rest :
  let offset := clocksource_delta c (cycle_last (tkr_mono tk)) (mask (tkr_mono tk)) in
  mask_ok (mask (tkr_mono tk)) -> advanced tk tk' offset rest ->
  pending tk' c = rest * mult (tkr_mono tk') /\ mono_at tk' c = mono_at tk c.
Proof.
  cbn zeta. intros M A. destruct (av_rest _ _ _ _ A) as [[Ra Rb] _].
  assert (P : pending tk' c = rest * mult (tkr_mono tk')).
  { unfold pending. destruct (av_rd _ _ _ _ A) as [-> _]. f_equal.
    rewrite (clocksource_delta_cong c (cycle_last (tkr_mono tk'))
      (u64 (cycle_last (tkr_mono tk) +
        (clocksource_delta c (cycle_last (tkr_mono tk)) (mask (tkr_mono tk)) - rest))))
      by (rewrite u64_u64; apply A).
    rewrite clocksource_delta_move by (done || lia). lia. }
  split; [done |]. unfold mono_at. rewrite P, (av_sns _ _ _ _ A). reflexivity.
Qed.

Lemma advanced_readable tk tk' c rest :
  let offset := clocksource_delta c (cycle_last (tkr_mono tk)) (mask (tkr_mono tk)) in
  shift_ok tk -> mask_ok (mask (tkr_mono tk)) -> mono_at tk c < 9000000000 * sps tk ->
  advanced tk tk' offset rest -> readable tk' c.
Proof.
  cbn zeta. intros S M B A. destruct (advanced_pending _ _ _ _ M A) as [P Ma].
  pose proof (av_clk _ _ _ _ A) as C. destruct (clk_mult _ C) as [M1 M2].
  destruct (av_rd _ _ _ _ A) as [Em Eh]. pose proof (av_nsec _ _ _ _ A) as N.
  assert (S' : shift_ok tk') by (unfold shift_ok; by rewrite Eh).
  destruct (scale_pos tk' S') as [K Ek]. destruct (av_rest _ _ _ _ A) as [[Ra _] Rb].
  assert (Q : 0 <= rest * mult (tkr_mono tk') <= 2 ^ 22 * scale tk').
  { split; [apply Z.mul_nonneg_nonneg; lia |].
    apply (Z.le_trans _ (cycle_interval tk' * mult (tkr_mono tk'))); [| lia].
    apply Z.mul_le_mono_nonneg_r; lia. }
  destruct (av_room _ _ _ _ A) as (X & _).
  split; rewrite ?Em, ?Ma, ?P; try done; try (nanos; lia).
  - unfold sps in *. by rewrite Eh.
  - unfold wall_at, wall_sns. rewrite P.
    assert (xtime_sec tk' * sps tk' <= 8999999998 * sps tk') by (apply Z.mul_le_mono_nonneg_r; lia).
    nanos. lia.
Qed.

(** The shadow timekeeper is ready for the tick. *)
Lemma tick_ready_shadow w c : tick_ready w c ->
  let tk := shadow_timekeeper w in
  let offset := clocksource_delta c (cycle_last (tkr_mono tk)) (mask (tkr_mono tk)) in
  clk_ok tk /\ mask_ok (mask (tkr_mono tk)) /\ adv_inv tk offset 3
  /\ 1 <= xtime_sec tk /\ 2 * sps tk <= mono_sns tk
  /\ mono_at tk c = mono_at (tk_core w) c /\ sps tk = sps (tk_core w).
Proof.
  intros [I R Sh Ck NI X U Fi Ro]. cbv zeta.
  destruct (same_time_facts _ _ Sh) as (E1 & _ & E3 & E4 & ES & ER & EO & E5 & E6 & _).
  set (tk := shadow_timekeeper w) in *.
  set (offset := clocksource_delta c (cycle_last (tkr_mono tk)) (mask (tkr_mono tk))).
  assert (Ep : offset * mult (tkr_mono tk) = pending (tk_core w) c) by (rewrite <- (E4 c); reflexivity).
  pose proof (clk_ok_same _ _ Sh Ck) as Ck'. destruct (clk_mult _ Ck') as [M1 _].
  assert (Mk : mask_ok (mask (tkr_mono tk))) by (rewrite E6; apply R).
  pose proof (clocksource_delta_range c (cycle_last (tkr_mono tk)) _ Mk) as Or. fold offset in Or.
  assert (Xs : xtime_sec tk = xtime_sec (tk_core w)) by (view_field Sh xtime_sec; done).
  split_and!; [done | done | | lia | lia | unfold mono_at; by rewrite E1, (E4 c) | done].
  split; rewrite ?Ep, ?E5, ?E3; try apply I; try apply Ck'; auto; try lia.
  - apply ES, I.
  - apply EO, I.
Qed.

(** What the readers find once the advanced timekeeper [tk'] is published. *)
Lemma advanced_keeps w w' tk' c rest : tick_ready w c -> ntp_inv (w_ntp w') ->
  let tk := shadow_timekeeper w in
  advanced tk tk' (clocksource_delta c (cycle_last (tkr_mono tk)) (mask (tkr_mono tk))) rest ->
  same_time tk' (tk_core w') -> tk_inv (tk_core w') -> shadow_timekeeper w' = tk_core w' ->
  tick_keeps w w' c.
Proof.
  intros Rd NI' tk AV T I' Sw. destruct (tick_ready_shadow w c Rd) as (Ck & Mk & A & _ & _ & Mc & E3).
  fold tk in Ck, Mk, A, Mc, E3. destruct Rd as [I R Sh _ _ _ _ _ _].
  destruct (same_time_facts _ _ Sh) as (_ & _ & _ & _ & _ & ER & _ & _ & E6 & E7 & E8 & _). fold tk in ER, E6, E7, E8.
  destruct (advanced_pending tk tk' c rest Mk AV) as [_ Ma].
  pose proof (advanced_readable tk tk' c rest ltac:(apply A) Mk ltac:(rewrite Mc, E3; apply R) AV) as R'.
  pose proof (readable_same _ _ c T R') as Rt.
  destruct (same_time_facts _ _ T) as (T1 & _ & T3 & T4 & _ & TR & _ & _ & T6 & T7 & T8 & _).
  assert (Kg : ktime_get w' c = ktime_get w c).
  { rewrite !ktime_get_spec by done.
    replace (mono_at (tk_core w') c) with (mono_at (tk_core w) c)
      by (rewrite <- Mc, <- Ma; unfold mono_at; by rewrite T1, (T4 c)).
    rewrite T6. cbn. destruct (av_rd _ _ _ _ AV) as [_ ->]. rewrite E6. reflexivity. }
  split; [exact I' | exact Rt | | done | by rewrite Sw | exact Kg | |].
  - apply (clk_ok_same tk'); [exact T | apply AV].
  - rewrite !ktime_get_with_offset_spec, Kg by done. cbn.
    destruct (av_tai _ _ _ _ AV) as [_ Eb]. by rewrite T7, Eb, E7.
  - rewrite !ktime_get_with_offset_spec, Kg by done. cbn.
    destruct (av_tai _ _ _ _ AV) as [Et _]. rewrite T8, <- E8.
    pose proof (ER 0 (inv_room _ I)) as (_ & _ & _ & Ta & _).
    pose proof (av_room _ _ _ _ AV) as (_ & _ & _ & Tb & _).
    rewrite (offs_tai_eq tk'), (offs_tai_eq tk); [by rewrite Et | apply A | lia | apply AV | lia].
Qed.

Lemma advance_world_spec w mode c : timekeeping_suspended w = false -> tick_ready w c ->
  tick_keeps w (timekeeping_advance w mode c).1 c.
Proof.
  intros Su Rd. rewrite advance_eq by done. cbv zeta.
  destruct (tick_ready_shadow w c Rd) as (Ck & Mk & A & X & U & _).
  destruct (_ && _); [by destruct Rd; split|].
  pose proof (advance_tk_spec (w_ntp w) _ _ Ck ltac:(apply Rd) A X U) as AD.
  set (tk := shadow_timekeeper w) in *. set (offset := clocksource_delta c _ _) in *.
  destruct (advance_tk (w_ntp w) tk offset) as [[n' tk'] cs]. destruct AD as ([rest AV] & C & NI').
  set (w0 := put_tk (w <| w_ntp := n' |>) TkShadow tk').
  assert (MR : flag cs TK_MIRROR = false) by (destruct C as [-> | ->]; reflexivity).
  assert (S' : shift_ok tk') by (unfold shift_ok; destruct AV as [_ _ _ _ [_ ->] _ _ _ _]; apply A).
  pose proof (updated_same w0 TkShadow cs) as T. change (get_tk w0 TkShadow) with tk' in T.
  pose proof (updated_inv w0 TkShadow cs S' (av_nsec _ _ _ _ AV)
    (sec_room_weaken 1 0 tk' ltac:(lia) (av_room _ _ _ _ AV)) (av_offs _ _ _ _ AV)) as I'.
  pose proof (timekeeping_update_shadow w0 cs MR) as Us. pose proof (update_shadow_ntp w0 cs C) as Un.
  rewrite <- Us in T, I'. change (w_ntp w0) with n' in Un.
  revert T I' Un. generalize (timekeeping_update w0 TkShadow cs) as w1. intros w1 T I' Un.
  apply (advanced_keeps w _ tk' c rest Rd); [cbn; by rewrite Un | exact AV | exact T | exact I' | reflexivity].
Qed.
