(* ===== verification/TkLatch.v ===== *)
(** * The NMI-safe clocks: readers, and the latch they share with the tick

    [kernel/time/timekeeping.c] keeps two copies of a readout base in
    [struct tk_fast].  [update_fast_timekeeper] writes one copy while the parity
    of the sequence count ([include/linux/seqlock.h]) sends readers to the
    other.  The readers run at any moment, also in an interrupt that stops the
    writer halfway: here are the readers as functions of the latch, and a
    machine in which writer and reader take turns field by field. *)
From S2P Require Import Prelude Timespec Ntp Timekeeping.

(** ** The readers *)

(** The copy that the sequence count [seq] selects. *)
Definition latched (f : tk_fast) (seq : Z) : tk_read_base :=
  if Z.land seq 1 =? 0 then fast_base0 f else fast_base1 f.

(** [cycles] is the value of the clock of [tkr]. *)
Definition fast_tk_get_delta_ns (tkr : tk_read_base) (cycles : Z) : Z :=
  timekeeping_delta_to_ns tkr (clocksource_delta cycles (cycle_last tkr) (mask tkr)).

(** What one pass of the loop computes from the copy it uses. *)
Definition fast_mono_ns (tkr : tk_read_base) (cycles : Z) : Z :=
  u64 (u64 (base tkr) + fast_tk_get_delta_ns tkr cycles).
Definition fast_real_ns (tkr : tk_read_base) (cycles : Z) : Z :=
  u64 (u64 (base_real tkr) + fast_tk_get_delta_ns tkr cycles).

(** A call that no update overlaps. *)
Definition __ktime_get_fast_ns (tkf : tk_fast) (cycles : Z) : Z :=
  fast_mono_ns (latched tkf (fast_seq tkf)) cycles.
Definition __ktime_get_real_fast (tkf : tk_fast) (cycles : Z) : Z * Z :=
  let tkr := latched tkf (fast_seq tkf) in (fast_real_ns tkr cycles, fast_mono_ns tkr cycles).

Definition ktime_get_mono_fast_ns (w : world) (cycles : Z) : Z :=
  __ktime_get_fast_ns (tk_fast_mono w) cycles.
Definition ktime_get_raw_fast_ns (w : world) (cycles : Z) : Z :=
  __ktime_get_fast_ns (tk_fast_raw w) cycles.
Definition ktime_get_boot_fast_ns (w : world) (cycles : Z) : Z :=
  u64 (ktime_get_mono_fast_ns w cycles + u64 (offs_boot (tk_core w))).
Definition ktime_get_tai_fast_ns (w : world) (cycles : Z) : Z :=
  u64 (ktime_get_mono_fast_ns w cycles + u64 (offs_tai (tk_core w))).
Definition ktime_get_real_fast_ns (w : world) (cycles : Z) : Z :=
  (__ktime_get_real_fast (tk_fast_mono w) cycles).1.

(** [struct ktime_timestamps] *)
Record ktime_timestamps := KtimeTimestamps { ts_mono : Z; ts_boot : Z; ts_real : Z }.

Definition ktime_get_fast_timestamps (w : world) (cycles : Z) : ktime_timestamps :=
  let '(real, mono) := __ktime_get_real_fast (tk_fast_mono w) cycles in
  KtimeTimestamps mono (u64 (mono + u64 (offs_boot (tk_core w)))) real.

(** ** Fields of a readout base, stored and loaded one by one *)

Inductive field :=
| FClock | FMask | FCycleLast | FMult | FShift | FXtimeNsec | FBase | FBaseReal.

#[global] Instance field_eq_dec : EqDecision field.
Proof. solve_decision. Defined.

Definition all_fields : list field :=
  [FClock; FMask; FCycleLast; FMult; FShift; FXtimeNsec; FBase; FBaseReal].

Definition get_field (f : field) (r : tk_read_base) : option clocksource + Z :=
  match f with
  | FClock => inl (clock r) | FMask => inr (mask r) | FCycleLast => inr (cycle_last r)
  | FMult => inr (mult r) | FShift => inr (shift r) | FXtimeNsec => inr (xtime_nsec r)
  | FBase => inr (base r) | FBaseReal => inr (base_real r)
  end.

(** One word of a [memcpy]. *)
Definition copy_field (f : field) (src dst : tk_read_base) : tk_read_base :=
  match f with
  | FClock => dst <| clock := clock src |> | FMask => dst <| mask := mask src |>
  | FCycleLast => dst <| cycle_last := cycle_last src |> | FMult => dst <| mult := mult src |>
  | FShift => dst <| shift := shift src |>
  | FXtimeNsec => dst <| xtime_nsec := xtime_nsec src |>
  | FBase => dst <| base := base src |> | FBaseReal => dst <| base_real := base_real src |>
  end.

Definition drop_field (f : field) (todo : list field) : list field :=
  filter (fun g => g <> f) todo.

(** ** Writer and reader as a machine *)

(** [update_fast_timekeeper] between two stores: the fields that the current
    [memcpy] still has to copy.  The order of its stores is open. *)
Inductive writer :=
| WIdle
| WCopy0 (tkr : tk_read_base) (todo : list field)
| WCopy1 (todo : list field).

(** [__ktime_get_fast_ns] and [__ktime_get_real_fast] *)
Inductive request := ReadMono | ReadReal.

Definition reads (req : request) : list field :=
  match req with
  | ReadMono => [FBase; FClock; FCycleLast; FMask; FMult; FXtimeNsec; FShift]
  | ReadReal => [FBase; FBaseReal; FClock; FCycleLast; FMask; FMult; FXtimeNsec; FShift]
  end.

Definition answer (req : request) (tkr : tk_read_base) (counter : option clocksource -> Z)
    : Z * option Z :=
  let cycles := counter (clock tkr) in
  match req with
  | ReadMono => (fast_mono_ns tkr cycles, None)
  | ReadReal => (fast_mono_ns tkr cycles, Some (fast_real_ns tkr cycles))
  end.

(** A reader before it reads the sequence count, between two loads from the
    copy that the count [seq] selected, and after its return. *)
Inductive reader :=
| RStart (req : request)
| RLoad (req : request) (seq : Z) (got : tk_read_base) (todo : list field)
| RDone (req : request) (ns : Z * option Z).

Record latch_sys := LatchSys { l_mem : tk_fast; l_wr : writer; l_rd : reader }.

#[export] Instance eta_latch_sys : Eta latch_sys := fun s => LatchSys (l_mem s) (l_wr s) (l_rd s).
#[export] Instance set_l_mem : Setter l_mem := ltac:(mk_setter).
#[export] Instance set_l_wr : Setter l_wr := ltac:(mk_setter).
#[export] Instance set_l_rd : Setter l_rd := ltac:(mk_setter).

(** The atomic actions: the first [raw_write_seqcount_latch] of an update with
    [tkr], a store, the second one, the return; the reader's
    [raw_read_seqcount_latch], a load, and [raw_read_seqcount_latch_retry] at the
    end of a pass; [counter] is what a clock returns when it is read in that pass. *)
Inductive latch_label :=
| LUpdate (tkr : tk_read_base) | LStore (f : field) | LFlip | LReturn
| LSeq | LLoad (f : field) | LRetry (counter : option clocksource -> Z).

Definition raw_write_seqcount_latch (f : tk_fast) : tk_fast :=
  f <| fast_seq := u32 (fast_seq f + 1) |>.

Definition no_base : tk_read_base := TkReadBase None 0 0 0 0 0 0 0.

Definition latch_step (l : latch_label) (s : latch_sys) : option latch_sys :=
  match l, l_wr s, l_rd s with
  | LUpdate tkr, WIdle, _ =>
      Some (s <| l_mem := raw_write_seqcount_latch (l_mem s) |> <| l_wr := WCopy0 tkr all_fields |>)
  | LStore f, WCopy0 tkr todo, _ =>
      if bool_decide (f ∈ todo) then
        Some (s <| l_mem := (l_mem s) <| fast_base0 := copy_field f tkr (fast_base0 (l_mem s)) |> |>
                <| l_wr := WCopy0 tkr (drop_field f todo) |>)
      else None
  | LFlip, WCopy0 tkr [], _ =>
      Some (s <| l_mem := raw_write_seqcount_latch (l_mem s) |> <| l_wr := WCopy1 all_fields |>)
  | LStore f, WCopy1 todo, _ =>
      if bool_decide (f ∈ todo) then
        Some (s <| l_mem := (l_mem s)
                  <| fast_base1 := copy_field f (fast_base0 (l_mem s)) (fast_base1 (l_mem s)) |> |>
                <| l_wr := WCopy1 (drop_field f todo) |>)
      else None
  | LReturn, WCopy1 [], _ => Some (s <| l_wr := WIdle |>)
  | LSeq, _, RStart req =>
      Some (s <| l_rd := RLoad req (fast_seq (l_mem s)) no_base (reads req) |>)
  | LLoad f, _, RLoad req seq got todo =>
      if bool_decide (f ∈ todo) then
        Some (s <| l_rd := RLoad req seq (copy_field f (latched (l_mem s) seq) got)
                             (drop_field f todo) |>)
      else None
  | LRetry counter, _, RLoad req seq got [] =>
      Some (s <| l_rd := if fast_seq (l_mem s) =? seq then RDone req (answer req got counter)
                         else RStart req |>)
  | _, _, _ => None
  end.

Fixpoint latch_run (ls : list latch_label) (s : latch_sys) : option latch_sys :=
  match ls with
  | [] => Some s
  | l :: ls => s' ← latch_step l s; latch_run ls s'
  end.

(** ** What the latch stands for: a register that an update sets at its second
    flip *)

Definition register_step (p : tk_read_base * tk_read_base) (l : latch_label)
    : tk_read_base * tk_read_base :=
  match l with
  | LUpdate tkr => (p.1, tkr)
  | LFlip => (p.2, p.2)
  | _ => p
  end.

Definition register (r0 : tk_read_base) (ls : list latch_label) : tk_read_base * tk_read_base :=
  foldl register_step (r0, r0) ls.

Definition is_flip (l : latch_label) : bool :=
  match l with LUpdate _ | LFlip => true | _ => false end.

(** Increments of the sequence count. *)
Definition flips (ls : list latch_label) : Z := Z.of_nat (length (List.filter is_flip ls)).

(** The updates of a schedule, in order. *)
Definition updates (ls : list latch_label) : list tk_read_base :=
  omap (fun l => match l with LUpdate tkr => Some tkr | _ => None end) ls.
