(* ===== verification/TkLatchThms.v ===== *)
(** * The NMI-safe clocks: a read is atomic

    The invariant of the latch machine.  The copy that the sequence count
    selects is never written; it is the value of the register.  What a reader
    has loaded since it read the count comes from that copy, as long as the
    count has not moved. *)
From S2P Require Import Prelude Timespec Ntp Timekeeping TkLatch.

(** ** Fields *)

Lemma get_copy f src dst : get_field f (copy_field f src dst) = get_field f src.
Proof. by destruct f. Qed.

Lemma get_copy_ne f g src dst : g <> f -> get_field g (copy_field f src dst) = get_field g dst.
Proof. intros H. by destruct f, g. Qed.

Lemma all_fields_in f : f ∈ all_fields.
Proof. destruct f; set_solver. Qed.

Lemma fields_ext r r' : (forall f, get_field f r = get_field f r') -> r = r'.
Proof.
  intros H. destruct r, r'.
  pose proof (H FClock); pose proof (H FMask); pose proof (H FCycleLast); pose proof (H FMult);
  pose proof (H FShift); pose proof (H FXtimeNsec); pose proof (H FBase); pose proof (H FBaseReal).
  simpl in *. by simplify_eq.
Qed.

(** The fields outside [todo] have been copied from [src] to [dst]. *)
Definition copied (fs todo : list field) (src dst : tk_read_base) : Prop :=
  forall f, f ∈ fs -> f ∉ todo -> get_field f dst = get_field f src.

Lemma copied_start fs src dst : copied fs fs src dst.
Proof. intros f H1 H2. done. Qed.

Lemma copied_step fs f todo src dst : copied fs todo src dst ->
  copied fs (drop_field f todo) src (copy_field f src dst).
Proof.
  intros H g Hg Hd. destruct (decide (g = f)) as [-> | N]; [apply get_copy |].
  rewrite get_copy_ne by done. apply H; [done |]. intros Ht. apply Hd.
  unfold drop_field. by apply list_elem_of_filter.
Qed.

Lemma copied_all src dst : copied all_fields [] src dst -> dst = src.
Proof. intros H. apply fields_ext. intros f. apply H; [apply all_fields_in | set_solver]. Qed.

(** The answer depends on the fields that are read. *)
Lemma answer_copied req src dst counter : copied (reads req) [] src dst ->
  answer req dst counter = answer req src counter.
Proof.
  intros H.
  assert (G : forall f, f ∈ reads req -> get_field f dst = get_field f src)
    by (intros f Hf; apply H; [done | set_solver]). clear H.
  assert (GM : forall f, f ∈ reads ReadMono -> get_field f dst = get_field f src)
    by (intros f Hf; apply G; destruct req; set_solver).
  injection (GM FClock ltac:(set_solver)) as E1. injection (GM FMask ltac:(set_solver)) as E2.
  injection (GM FCycleLast ltac:(set_solver)) as E3. injection (GM FMult ltac:(set_solver)) as E4.
  injection (GM FShift ltac:(set_solver)) as E5. injection (GM FXtimeNsec ltac:(set_solver)) as E6.
  injection (GM FBase ltac:(set_solver)) as E7.
  unfold answer, fast_mono_ns, fast_real_ns, fast_tk_get_delta_ns, timekeeping_delta_to_ns.
  rewrite E1, E2, E3, E4, E5, E6, E7. destruct req; [done |].
  injection (G FBaseReal ltac:(set_solver)) as E8. by rewrite E8.
Qed.

(** ** Schedules *)

Lemma latch_run_snoc ls l s : latch_run (ls ++ [l]) s = s' ← latch_run ls s; latch_step l s'.
Proof.
  revert s. induction ls as [| l' ls IH]; intros s; simpl.
  - by destruct (latch_step l s).
  - destruct (latch_step l' s); simpl; [apply IH | done].
Qed.

Lemma register_snoc r0 ls l : register r0 (ls ++ [l]) = register_step (register r0 ls) l.
Proof. unfold register. by rewrite foldl_app. Qed.

Lemma flips_app ls ls' : flips (ls ++ ls') = flips ls + flips ls'.
Proof. unfold flips. rewrite List.filter_app, length_app. lia. Qed.

Lemma flips_cons l ls : flips (l :: ls) = Z.b2z (is_flip l) + flips ls.
Proof. unfold flips. simpl. destruct (is_flip l); simpl; lia. Qed.

Lemma flips_nonneg ls : 0 <= flips ls.
Proof. unfold flips. lia. Qed.

Lemma updates_snoc ls l : updates (ls ++ [l]) =
  updates ls ++ match l with LUpdate tkr => [tkr] | _ => [] end.
Proof. unfold updates. rewrite omap_app. simpl. by destruct l. Qed.

(** The reader's actions. *)
Definition is_reader (l : latch_label) : bool :=
  match l with LSeq | LLoad _ | LRetry _ => true | _ => false end.

(** Reader and writer only touch their own state; the reader does not write. *)
Lemma reader_step_keeps l s s' : is_reader l = true -> latch_step l s = Some s' ->
  l_mem s' = l_mem s /\ l_wr s' = l_wr s.
Proof.
  intros H St. destruct s as [f w r], l; try done; simpl in St;
    destruct w, r as [| ? ? ? [|] |]; simplify_eq/=; try case_bool_decide; simplify_eq/=; done.
Qed.

Lemma writer_step_keeps l s s' : is_reader l = false -> latch_step l s = Some s' -> l_rd s' = l_rd s.
Proof.
  intros H St. destruct s as [f w r], l; try done; simpl in St;
    destruct w as [| ? [|] | [|]]; simplify_eq/=; try case_bool_decide; simplify_eq/=; done.
Qed.

(** Without a flip the register stays. *)
Lemma register_no_flip r0 ls ls' : flips ls' = 0 -> register r0 (ls ++ ls') = register r0 ls.
Proof.
  induction ls' as [| l ls' IH] using rev_ind; [by rewrite app_nil_r |].
  rewrite flips_app, flips_cons. pose proof (flips_nonneg ls'). intros H0.
  rewrite app_assoc, register_snoc, IH by (destruct (is_flip l); simpl in *; unfold flips in *; simpl in *; lia).
  by destruct l; simpl in *; unfold flips in *; simpl in *; try lia.
Qed.

Lemma latched_even f s : s mod 2 = 0 -> latched f s = fast_base0 f.
Proof. intros H. unfold latched. change 1 with (Z.ones 1). rewrite Z.land_ones by lia.
  change (2 ^ 1) with 2. by rewrite H. Qed.

Lemma latched_odd f s : s mod 2 = 1 -> latched f s = fast_base1 f.
Proof. intros H. unfold latched. change 1 with (Z.ones 1). rewrite Z.land_ones by lia.
  change (2 ^ 1) with 2. by rewrite H. Qed.

Section latch.
(** A latch at rest: both copies are [r0], the count is even. *)
Context (seq0 : Z) (r0 : tk_read_base) (req : request).
Context (Hseq0 : is_u32 seq0) (Heven : seq0 mod 2 = 0).

Definition at_rest : tk_fast := TkFast seq0 r0 r0.
Definition start : latch_sys := LatchSys at_rest WIdle (RStart req).

(** The latch after complete updates. *)
Definition settled (ls : list latch_label) : tk_fast :=
  foldl (fun f tkr => update_fast_timekeeper tkr f) at_rest (updates ls).

(** The writer's side. *)
Definition writer_inv (ls : list latch_label) (f : tk_fast) (w : writer) : Prop :=
  fast_seq f = u32 (seq0 + flips ls) /\
  match w with
  | WIdle => fast_seq f mod 2 = 0 /\ fast_base0 f = (register r0 ls).1
      /\ fast_base1 f = (register r0 ls).1 /\ f = settled ls
  | WCopy0 tkr todo => fast_seq f mod 2 = 1 /\ fast_base1 f = (register r0 ls).1
      /\ (register r0 ls).2 = tkr /\ copied all_fields todo tkr (fast_base0 f)
      /\ settled ls = TkFast (u32 (fast_seq f + 1)) tkr tkr
  | WCopy1 todo => fast_seq f mod 2 = 0 /\ fast_base0 f = (register r0 ls).1
      /\ copied all_fields todo (register r0 ls).1 (fast_base1 f)
      /\ settled ls = TkFast (fast_seq f) (register r0 ls).1 (register r0 ls).1
  end.

(** The copy in use is the register. *)
Lemma writer_latched ls f w : writer_inv ls f w -> latched f (fast_seq f) = (register r0 ls).1.
Proof.
  intros [_ H]. destruct w; destruct H as (P & H).
  - by rewrite latched_even; [apply H |].
  - by rewrite latched_odd; [apply H |].
  - by rewrite latched_even; [apply H |].
Qed.

(** The reader's side. *)
Definition reader_inv (ls : list latch_label) (r : reader) : Prop :=
  match r with
  | RStart req' => req' = req
  | RLoad req' seq got todo => req' = req /\ exists ls1 ls2, ls = ls1 ++ LSeq :: ls2
      /\ (LSeq ∉ ls2) /\ seq = u32 (seq0 + flips ls1)
      /\ (flips ls2 = 0 -> copied (reads req) todo (register r0 ls1).1 got)
  | RDone req' ns => req' = req /\ exists ls1 ls2 ls3 counter,
      ls = ls1 ++ LSeq :: ls2 ++ LRetry counter :: ls3 /\ (LSeq ∉ ls2)
      /\ ns = answer req (register r0 ls1).1 counter
  end.

Lemma u32_succ_parity x : u32 (u32 x + 1) mod 2 = (u32 x + 1) mod 2.
Proof. unfold u32. Z.to_euclidean_division_equations. lia. Qed.

Lemma settled_snoc ls l : settled (ls ++ [l]) =
  match l with LUpdate tkr => update_fast_timekeeper tkr (settled ls) | _ => settled ls end.
Proof. unfold settled. rewrite updates_snoc, foldl_app. by destruct l. Qed.

(** An action that does not flip changes neither count nor register. *)
Lemma quiet_snoc ls l : is_flip l = false ->
  flips (ls ++ [l]) = flips ls /\ register r0 (ls ++ [l]) = register r0 ls
  /\ settled (ls ++ [l]) = settled ls.
Proof.
  intros H. rewrite flips_app, flips_cons, H, register_snoc, settled_snoc.
  destruct l; try done; split_and!; try done; unfold flips; simpl; lia.
Qed.

Lemma flip_seq ls l f : is_flip l = true -> fast_seq f = u32 (seq0 + flips ls) ->
  fast_seq (raw_write_seqcount_latch f) = u32 (seq0 + flips (ls ++ [l])).
Proof.
  intros H E. cbn. rewrite E, flips_app, flips_cons, H. change (flips []) with 0. clear.
  generalize (flips ls). intros x. cbn [Z.b2z]. cint.
Qed.

Lemma flip_parity f : is_u32 (fast_seq f) ->
  fast_seq (raw_write_seqcount_latch f) mod 2 = (fast_seq f + 1) mod 2.
Proof. intros H. cbn. rewrite <- (u32_id (fast_seq f)) by done. apply u32_succ_parity. Qed.

Lemma writer_inv_u32 ls f w : writer_inv ls f w -> is_u32 (fast_seq f).
Proof. intros [-> _]. unfold is_u32, u32. apply Z.mod_pos_bound. lia. Qed.

Lemma writer_inv_store ls l s s' : is_reader l = false -> latch_step l s = Some s' ->
  writer_inv ls (l_mem s) (l_wr s) -> writer_inv (ls ++ [l]) (l_mem s') (l_wr s').
Proof.
  intros Rd St I. pose proof (writer_inv_u32 _ _ _ I) as U. pose proof (flip_parity _ U) as Pf.
  destruct I as [Es I], s as [f w r]; simpl in *.
  destruct l as [tkr | g | | | | |]; try discriminate Rd; simpl in St.
  - destruct w; simplify_eq/=. destruct I as (P & E0 & E1 & Em).
    split; [by apply flip_seq |]. rewrite register_snoc, settled_snoc, <- Em. cbn.
    split_and!; [cbn in Pf; rewrite Pf, Z.add_mod, P; done | done | done | apply copied_start | done].
  - destruct (quiet_snoc ls (LStore g) eq_refl) as (Q1 & Q2 & Q3).
    destruct w as [| tkr todo | todo]; simplify_eq/=; case_bool_decide; simplify_eq/=;
      (split; [by rewrite Q1 |]); rewrite Q2, Q3; destruct I as (P & E0 & E1 & Em).
    + destruct Em as [Ec Em]. split_and!; try done. by apply copied_step.
    + split_and!; try done. cbn. rewrite E0. by apply copied_step.
  - destruct w as [| tkr [|] |]; simplify_eq/=. destruct I as (P & E0 & E1 & Ec & Em).
    split; [by apply flip_seq |]. rewrite register_snoc, settled_snoc, Em. cbn.
    rewrite E1. split_and!; [cbn in Pf; rewrite Pf, Z.add_mod, P; done | by apply copied_all
      | apply copied_start | done].
  - destruct (quiet_snoc ls LReturn eq_refl) as (Q1 & Q2 & Q3).
    destruct w as [| | [|]]; simplify_eq/=. split; [by rewrite Q1 |]. rewrite Q2, Q3.
    destruct I as (P & E0 & Ec & Em). apply copied_all in Ec.
    split_and!; [done | done | done |]. rewrite Em, <- Ec at 1. destruct f; cbn in *; congruence.
Qed.

Lemma writer_inv_step ls l s s' : latch_step l s = Some s' ->
  writer_inv ls (l_mem s) (l_wr s) -> writer_inv (ls ++ [l]) (l_mem s') (l_wr s').
Proof.
  intros St I. destruct (is_reader l) eqn:Rd; [| by eapply writer_inv_store].
  destruct (reader_step_keeps l s s' Rd St) as [-> ->].
  destruct (quiet_snoc ls l) as (Q1 & Q2 & Q3); [by destruct l |].
  destruct I as [Es I]. split; [by rewrite Q1 |]. by rewrite Q2, Q3.
Qed.

Lemma not_seq_snoc ls l : LSeq ∉ ls -> l <> LSeq -> LSeq ∉ ls ++ [l].
Proof. set_solver. Qed.

(** The count has not moved since the reader read it, if it is the same. *)
Lemma count_same ls1 ls2 : flips ls2 < 2 ^ 32 ->
  u32 (seq0 + flips (ls1 ++ LSeq :: ls2)) = u32 (seq0 + flips ls1) <-> flips ls2 = 0.
Proof.
  intros B. rewrite flips_app, flips_cons. cbn [is_flip Z.b2z]. pose proof (flips_nonneg ls2).
  generalize dependent (flips ls2). generalize (flips ls1). intros. cint.
Qed.

Lemma reader_inv_step ls l s s' : latch_step l s = Some s' ->
  writer_inv ls (l_mem s) (l_wr s) -> reader_inv ls (l_rd s) -> flips ls < 2 ^ 32 ->
  reader_inv (ls ++ [l]) (l_rd s').
Proof.
  intros St I R B. destruct (is_reader l) eqn:Rd.
  2:{ rewrite (writer_step_keeps l s s' Rd St).
      destruct (l_rd s) as [req' | req' seq got todo | req' ns]; [done | |].
      - destruct R as (-> & ls1 & ls2 & -> & Nq & -> & C). split; [done |]. exists ls1, (ls2 ++ [l]).
        split_and!; [by rewrite <- app_assoc | apply not_seq_snoc; [done | by intros ->] | done |]. rewrite flips_app.
        pose proof (flips_nonneg ls2). pose proof (flips_nonneg [l]). intros F. apply C. lia.
      - destruct R as (-> & ls1 & ls2 & ls3 & counter & -> & Nq & ->). split; [done |].
        exists ls1, ls2, (ls3 ++ [l]), counter. split; [by rewrite <- !app_assoc, <- !app_comm_cons, <- app_assoc | done]. }
  pose proof (writer_latched _ _ _ I) as L. destruct I as [Es _], s as [f w r].
  destruct l as [| | | | | g | counter]; try done; simpl in *;
    destruct r as [req' | req' seq got todo | req' ns]; simpl in St; simplify_eq/=.
  - split; [done |]. exists ls, []. split_and!; [done | set_solver | done |]. intros _. apply copied_start.
  - case_bool_decide; simplify_eq/=. destruct R as (-> & ls1 & ls2 & -> & Nq & -> & C).
    split; [done |]. exists ls1, (ls2 ++ [LLoad g]).
    split_and!; [by rewrite <- app_assoc | by apply not_seq_snoc | done |]. rewrite flips_app. intros F.
    assert (F2 : flips ls2 = 0)
      by (pose proof (flips_nonneg ls2); pose proof (flips_nonneg [LLoad g]); lia).
    rewrite Es, (proj2 (count_same ls1 ls2 ltac:(lia)) F2), register_no_flip in L
      by (rewrite flips_cons, F2; done).
    rewrite L. apply copied_step, C, F2.
  - destruct todo as [|]; simplify_eq/=. destruct R as (-> & ls1 & ls2 & -> & Nq & -> & C).
    rewrite Es. destruct (Z.eqb_spec (u32 (seq0 + flips (ls1 ++ LSeq :: ls2)))
      (u32 (seq0 + flips ls1))) as [E |]; [| done].
    assert (F2 : flips ls2 = 0).
    { apply (count_same ls1 ls2); [| done]. revert B. rewrite flips_app, flips_cons.
      pose proof (flips_nonneg ls1). cbn. lia. }
    split; [done |]. exists ls1, ls2, [], counter.
    split_and!; [by rewrite <- app_assoc | done |]. apply answer_copied, C, F2.
Qed.

Lemma latch_invariant ls s : latch_run ls start = Some s -> flips ls < 2 ^ 32 ->
  writer_inv ls (l_mem s) (l_wr s) /\ reader_inv ls (l_rd s).
Proof.
  revert s. induction ls as [| l ls IH] using rev_ind; intros s Run B.
  - injection Run as <-. split; [| done]. split; [| done].
    change (flips []) with 0. rewrite Z.add_0_r, u32_id by done. done.
  - rewrite latch_run_snoc in Run. destruct (latch_run ls start) as [s1 |] eqn:E1; [| done].
    rewrite flips_app in B. pose proof (flips_nonneg [l]).
    destruct (IH s1 eq_refl ltac:(lia)) as [I R]. split.
    + by eapply writer_inv_step.
    + eapply reader_inv_step; [done | done | done | lia].
Qed.

End latch.

(** ** A reader on its own, as in an interrupt of the writer *)

Definition alone (req : request) (counter : option clocksource -> Z) : list latch_label :=
  LSeq :: map LLoad (reads req) ++ [LRetry counter].

Lemma alone_returns f w req counter :
  latch_run (alone req counter) (LatchSys f w (RStart req))
  = Some (LatchSys f w (RDone req (answer req (latched f (fast_seq f)) counter))).
Proof.
  destruct req; unfold alone, reads; simpl; rewrite Z.eqb_refl; done.
Qed.
