(* ===== verification/TkSuspend.v ===== *)
(** * Suspend and resume of the timekeeper

    [timekeeping_suspend], [timekeeping_resume] and [halt_fast_timekeeper] of
    [kernel/time/timekeeping.c], with the suspend timing of
    [kernel/time/clocksource.c].  What the hardware returns (the persistent
    clock, the counters, whether a clock could be enabled) is an argument.  The
    suspension of clock events and of the other clocksources' drivers does not
    touch this state. *)
From S2P Require Import Prelude Timespec Ntp Timekeeping TkEntry TkLatch.

(** [dummy_clock], told from a real clock by its address. *)
Definition dummy_clock : clocksource := Clocksource 0 0 0 0 0.

(** The static variables of both files that only suspend and resume use. *)
Record pm := Pm {
  pm_world : world;
  persistent_clock_exists : bool;
  timekeeping_suspend_time : timespec64;
  old_delta : timespec64;
  cycles_at_suspend : Z;
  suspend_clocksource : option clocksource;
  suspend_start : Z }.

#[export] Instance eta_pm : Eta pm := fun p =>
  Pm (pm_world p) (persistent_clock_exists p) (timekeeping_suspend_time p) (old_delta p)
    (cycles_at_suspend p) (suspend_clocksource p) (suspend_start p).
#[export] Instance set_pm_world : Setter pm_world := ltac:(mk_setter).
#[export] Instance set_persistent_clock_exists : Setter persistent_clock_exists := ltac:(mk_setter).
#[export] Instance set_timekeeping_suspend_time : Setter timekeeping_suspend_time := ltac:(mk_setter).
#[export] Instance set_old_delta : Setter old_delta := ltac:(mk_setter).
#[export] Instance set_cycles_at_suspend : Setter cycles_at_suspend := ltac:(mk_setter).
#[export] Instance set_suspend_start : Setter suspend_start := ltac:(mk_setter).

(** The value that the clock of [tkr] returns: [hw] is the counter of a real
    clock, [local] is [local_clock()]. *)
Definition dummy_clock_read (p : pm) (local : Z) : Z :=
  if timekeeping_suspended (pm_world p) then cycles_at_suspend p else u64 local.

Definition tk_clock_read (p : pm) (tkr : tk_read_base) (hw local : Z) : Z :=
  match clock tkr with
  | Some cs => if cs_id cs =? cs_id dummy_clock then dummy_clock_read p local else hw
  | None => hw
  end.

(** The monotonic clock for interrupts, through the clock that its base names. *)
Definition fast_mono_now (p : pm) (hw local : Z) : Z :=
  let f := tk_fast_mono (pm_world p) in
  ktime_get_mono_fast_ns (pm_world p) (tk_clock_read p (latched f (fast_seq f)) hw local).

(** ** Suspend timing *)

Definition clocksource_is_suspend (p : pm) (cs : option clocksource) : bool :=
  match suspend_clocksource p, cs with
  | Some s, Some c => cs_id c =? cs_id s
  | _, _ => false
  end.

(** [enabled] tells whether the suspend clock needs no enabling or could be
    enabled, [read] is its counter. *)
Definition clocksource_start_suspend_timing (p : pm) (cs : option clocksource)
    (start_cycles : Z) (enabled : bool) (read : Z) : pm :=
  match suspend_clocksource p with
  | None => p
  | Some _ =>
      if clocksource_is_suspend p cs then p <| suspend_start := start_cycles |>
      else if negb enabled then p
      else p <| suspend_start := read |>
  end.

(** [mul_u64_u32_shr]: the product has 128 bits. *)
Definition mul_u64_u32_shr (a mul sh : Z) : Z := u64 (Z.shiftr (a * mul) sh).

Definition clocksource_stop_suspend_timing (p : pm) (cs : option clocksource)
    (cycle_now read : Z) : Z :=
  match suspend_clocksource p with
  | None => 0
  | Some s =>
      let now := if clocksource_is_suspend p cs then cycle_now else read in
      if suspend_start p <? now
      then mul_u64_u32_shr (clocksource_delta now (suspend_start p) (cs_mask s)) (cs_mult s) (cs_shift s)
      else 0
  end.

(** ** Suspend *)

(** [cycles] is what the clock of the timekeeper returns. *)
Definition halt_fast_timekeeper (p : pm) (cycles : Z) : pm :=
  let tk := tk_core (pm_world p) in
  let p := p <| cycles_at_suspend := cycles |> in
  let tkr := tkr_mono tk in
  let tkr_dummy := tkr <| clock := Some dummy_clock |>
                       <| base_real := u64 (base tkr + offs_real tk) |> in
  let w := (pm_world p)
    <| tk_fast_mono := update_fast_timekeeper tkr_dummy (tk_fast_mono (pm_world p)) |> in
  let tkr_dummy := (tkr_raw tk) <| clock := Some dummy_clock |> in
  p <| pm_world := w <| tk_fast_raw := update_fast_timekeeper tkr_dummy (tk_fast_raw w) |> |>.

(** The correction of the suspend time by the persistent clock: what is saved
    as [timekeeping_suspend_time] and as [old_delta]. *)
Definition compensate (tk : timekeeper) (suspend_time old : timespec64) : timespec64 * timespec64 :=
  let delta := timespec64_sub (tk_xtime tk) suspend_time in
  let delta_delta := timespec64_sub delta old in
  if 2 <=? s64 (Z.abs (tv_sec delta_delta)) then (suspend_time, delta)
  else (timespec64_add suspend_time delta_delta, old).

(** [now] is the persistent clock, [cycles] the counter that is taken into the
    time, [halt_cycles] the counter at the end; [enabled] and [read] are for the
    suspend clock. *)
Definition timekeeping_suspend (p : pm) (now : timespec64) (cycles : Z) (enabled : bool)
    (read halt_cycles : Z) : pm :=
  let p := p <| timekeeping_suspend_time := now |> in
  let p := if nonzero (tv_sec now) || nonzero (tv_nsec now)
           then p <| persistent_clock_exists := true |> else p in
  let w := (pm_world p) <| suspend_timing_needed := true |> in
  let tk := timekeeping_forward_now (tk_core w) cycles in
  let w := (set_core w tk) <| timekeeping_suspended := true |> in
  let p := clocksource_start_suspend_timing (p <| pm_world := w |>) (clock (tkr_mono tk))
             (cycle_last (tkr_mono tk)) enabled read in
  let p := if persistent_clock_exists p
           then let '(st, od) := compensate tk (timekeeping_suspend_time p) (old_delta p) in
                p <| timekeeping_suspend_time := st |> <| old_delta := od |>
           else p in
  halt_fast_timekeeper (p <| pm_world := timekeeping_update (pm_world p) TkCore TK_MIRROR |>)
    halt_cycles.

(** ** Resume *)

(** The time slept, by the clock that did not stop or by the persistent clock. *)
Definition sleep_delta (p : pm) (ts_new : timespec64) (cycle_now read : Z) : option timespec64 :=
  let nsec := clocksource_stop_suspend_timing p (clock (tkr_mono (tk_core (pm_world p))))
                cycle_now read in
  if 0 <? nsec then Some (ns_to_timespec64 (s64 nsec))
  else if 0 <? timespec64_compare ts_new (timekeeping_suspend_time p)
  then Some (timespec64_sub ts_new (timekeeping_suspend_time p))
  else None.

Definition timekeeping_resume (p : pm) (ts_new : timespec64) (cycle_now read : Z) : pm :=
  let w := pm_world p in
  let '(w, tk) :=
    match sleep_delta p ts_new cycle_now read with
    | Some ts_delta => (w <| suspend_timing_needed := false |>,
                        __timekeeping_inject_sleeptime (tk_core w) ts_delta)
    | None => (w, tk_core w)
    end in
  let rebase := fun r : tk_read_base => r <| cycle_last := cycle_now |> in
  let tk := (raw rebase (mono rebase tk)) <| ntp_error := 0 |> in
  let w := (set_core w tk) <| timekeeping_suspended := false |> in
  p <| pm_world := timekeeping_update w TkCore (Z.lor TK_MIRROR TK_CLOCK_WAS_SET) |>.

(** Who has to inject the sleep time. *)
Definition timekeeping_rtc_skipresume (p : pm) : bool := negb (suspend_timing_needed (pm_world p)).
Definition timekeeping_rtc_skipsuspend (p : pm) : bool := persistent_clock_exists p.
