(* ===== verification/TkSuspendThms.v ===== *)
(** * Suspend and resume of the timekeeper: where the time goes

    Suspending takes the pending cycles into the time and stops the clocks;
    resuming adds the time slept to the time of day and to the boot clock and
    starts the clocks again from the new counter value. *)
From S2P Require Import Prelude Timespec Ntp Timekeeping TkEntry TkInv TkRead TkSet TkLatch TkSuspend.

(** ** Suspend *)

(** After an update both copies are the new one. *)
Lemma latched_update r f : let f' := update_fast_timekeeper r f in latched f' (fast_seq f') = r.
Proof. cbn zeta. unfold latched. by destruct (_ =? _). Qed.

(** Starting the suspend timing only sets [suspend_start]. *)
Lemma start_timing_spec p cs start en rd :
  exists s, clocksource_start_suspend_timing p cs start en rd = p <| suspend_start := s |>.
Proof.
  unfold clocksource_start_suspend_timing.
  destruct (suspend_clocksource p); [| exists (suspend_start p); by destruct p].
  destruct (clocksource_is_suspend p cs); [eauto |].
  destruct en; [eauto |]. exists (suspend_start p). by destruct p.
Qed.

Definition persistent_now (p : pm) (now : timespec64) : bool :=
  persistent_clock_exists p || nonzero (tv_sec now) || nonzero (tv_nsec now).

(** What [timekeeping_suspend] leaves: [tk1] is the timekeeper at [c]. *)
Record suspended_as (p p' : pm) (now : timespec64) (c hc : Z) (tk1 : timekeeper) : Prop := {
  sp_time : same_time tk1 (tk_core (pm_world p'));
  sp_inv : tk_inv (tk_core (pm_world p'));
  sp_stop : timekeeping_suspended (pm_world p') = true;
  sp_need : suspend_timing_needed (pm_world p') = true;
  sp_source : suspend_clocksource p' = suspend_clocksource p;
  sp_cycles : cycles_at_suspend p' = hc;
  sp_fast : latched (tk_fast_mono (pm_world p')) (fast_seq (tk_fast_mono (pm_world p')))
    = (tkr_mono (tk_core (pm_world p'))) <| clock := Some dummy_clock |>
        <| base_real := u64 (base (tkr_mono (tk_core (pm_world p')))
                             + offs_real (tk_core (pm_world p'))) |>;
  sp_saved : (timekeeping_suspend_time p', old_delta p')
    = if persistent_now p now then compensate tk1 now (old_delta p) else (now, old_delta p) }.

Lemma update_flags w ptr action : let w' := timekeeping_update w ptr action in
  timekeeping_suspended w' = timekeeping_suspended w
  /\ suspend_timing_needed w' = suspend_timing_needed w.
Proof.
  cbn zeta. unfold timekeeping_update.
  destruct (flag action TK_CLEAR_NTP), (flag action TK_CLOCK_WAS_SET), (flag action TK_MIRROR), ptr;
    split; reflexivity.
Qed.

(** The saved values after the compensation of the persistent clock. *)
Lemma compensated q tk1 : exists st od,
  (st, od) = (if persistent_clock_exists q then compensate tk1 (timekeeping_suspend_time q) (old_delta q)
              else (timekeeping_suspend_time q, old_delta q))
  /\ (if persistent_clock_exists q
      then let '(st, od) := compensate tk1 (timekeeping_suspend_time q) (old_delta q) in
           q <| timekeeping_suspend_time := st |> <| old_delta := od |>
      else q) = q <| timekeeping_suspend_time := st |> <| old_delta := od |>.
Proof.
  destruct (persistent_clock_exists q).
  - destruct (compensate tk1 _ _) as [st od]. by exists st, od.
  - exists (timekeeping_suspend_time q), (old_delta q). by destruct q.
Qed.

(** What reading the persistent clock stores. *)
Lemma persistent_read p now :
  (if nonzero (tv_sec now) || nonzero (tv_nsec now)
   then p <| timekeeping_suspend_time := now |> <| persistent_clock_exists := true |>
   else p <| timekeeping_suspend_time := now |>)
  = p <| timekeeping_suspend_time := now |> <| persistent_clock_exists := persistent_now p now |>.
Proof.
  unfold persistent_now. rewrite <- orb_assoc. destruct (_ || _); [by rewrite orb_true_r |].
  rewrite orb_false_r. by destruct p.
Qed.

Lemma suspend_spec p now c en rd hc : tk_inv (tk_core (pm_world p)) ->
  readable (tk_core (pm_world p)) c ->
  exists tk1, forwarded (tk_core (pm_world p)) tk1 c
  /\ suspended_as p (timekeeping_suspend p now c en rd hc) now c hc tk1.
Proof.
  intros I R. pose proof (forward_spec _ _ I R) as F.
  exists (timekeeping_forward_now (tk_core (pm_world p)) c). split; [exact F |].
  unfold timekeeping_suspend. cbv zeta. rewrite persistent_read. cbn [pm_world].
  change (tk_core ((pm_world (p <| timekeeping_suspend_time := now |>
    <| persistent_clock_exists := persistent_now p now |>)) <| suspend_timing_needed := true |>))
    with (tk_core (pm_world p)).
  revert F. generalize (timekeeping_forward_now (tk_core (pm_world p)) c) as tk1. intros tk1 F.
  edestruct start_timing_spec as [s ->].
  set (w0 := (pm_world p) <| suspend_timing_needed := true |> <| timekeeping_suspended := true |>).
  destruct (update_core_spec w0 tk1 TK_MIRROR eq_refl (fw_shift_ok _ _ _ I F)
      (fw_nsec _ _ _ F) (fw_room _ _ _ F) (fw_offs_ok _ _ _ I F)) as (T & I' & _).
  destruct (update_flags (set_core w0 tk1) TkCore TK_MIRROR) as [Fs Fn].
  change (timekeeping_suspended (set_core _ tk1)) with true in Fs.
  change (suspend_timing_needed (set_core _ tk1)) with true in Fn.
  revert T I' Fs Fn.
  set (q := p <| timekeeping_suspend_time := now |>
              <| persistent_clock_exists := persistent_now p now |> <| pm_world := _ |>
              <| suspend_start := s |>).
  destruct (compensated q tk1) as (st & od & Es & ->).
  change (pm_world (q <| timekeeping_suspend_time := st |> <| old_delta := od |>)) with (set_core w0 tk1).
  generalize (timekeeping_update (set_core w0 tk1) TkCore TK_MIRROR) as w1.
  intros w1 T I' Fs Fn. split; [exact T | exact I' | exact Fs | exact Fn | done | done | | exact Es].
  exact (latched_update _ _).
Qed.

(** The clock for interrupts computes what [ktime_get] computes. *)
Lemma fast_mono_ktime w c : tk_inv (tk_core w) -> readable (tk_core w) c ->
  fast_mono_ns (tkr_mono (tk_core w)) c = ktime_get w c.
Proof.
  intros I R. pose proof (mono_range _ _ I R) as B. rewrite <- ktime_get_spec in B by done. revert B.
  unfold fast_mono_ns, ktime_get, ktime_add_ns.
  change (fast_tk_get_delta_ns (tkr_mono (tk_core w)) c) with
    (timekeeping_get_ns (tkr_mono (tk_core w)) c).
  generalize (timekeeping_get_ns (tkr_mono (tk_core w)) c).
  generalize (base (tkr_mono (tk_core w))). intros. cint.
Qed.

(** While suspended the interrupt-safe clock stands still. *)
Lemma suspended_fast_clock p p' now c hc tk1 hw local : suspended_as p p' now c hc tk1 ->
  readable (tk_core (pm_world p')) hc ->
  fast_mono_now p' hw local = ktime_get (pm_world p') hc.
Proof.
  intros [_ I St _ _ Cy Fa _] R. rewrite <- fast_mono_ktime by done.
  unfold fast_mono_now, ktime_get_mono_fast_ns, __ktime_get_fast_ns. rewrite Fa.
  unfold tk_clock_read, dummy_clock_read. rewrite St, Cy. reflexivity.
Qed.

(** ** Resume *)

(** The last steps of [timekeeping_resume], for the timekeeper with the sleep. *)
Definition rebased (tk : timekeeper) (c : Z) : timekeeper :=
  (raw (fun r => r <| cycle_last := c |>) (mono (fun r => r <| cycle_last := c |>) tk))
    <| ntp_error := 0 |>.

Lemma rebase_spec w tk c : shift_ok tk -> 0 <= xtime_nsec (tkr_mono tk) < sps tk ->
  sec_room 0 tk -> offs_ok tk -> mask_ok (mask (tkr_mono tk)) ->
  0 <= mult (tkr_mono tk) < 2 ^ 32 -> mono_sns tk < 9000000000 * sps tk ->
  wall_sns tk < 9000000000 * sps tk ->
  let w' := timekeeping_update (set_core w (rebased tk c)) TkCore (Z.lor TK_MIRROR TK_CLOCK_WAS_SET) in
  tk_inv (tk_core w') /\ readable (tk_core w') c
  /\ ktime_get w' c = Z.shiftr (mono_sns tk) (shift (tkr_mono tk))
  /\ wall_at (tk_core w') c = wall_sns tk /\ offs_boot (tk_core w') = offs_boot tk
  /\ Z.shiftr (wall_sns tk) (shift (tkr_mono tk)) = ts_ns (tk_xtime (tk_core w'))
  /\ shadow_timekeeper w' = tk_core w'.
Proof.
  intros S N Rm O M Mu Bm Bw. cbn zeta.
  destruct (update_core_spec w (rebased tk c) (Z.lor TK_MIRROR TK_CLOCK_WAS_SET) eq_refl S N Rm O)
    as (T & I & Sh). revert T I Sh.
  generalize (timekeeping_update (set_core w (rebased tk c)) TkCore (Z.lor TK_MIRROR TK_CLOCK_WAS_SET)).
  intros w' T I Sh.
  assert (P : pending (rebased tk c) c = 0) by (apply pending_at_last; done).
  assert (Em : mono_sns (rebased tk c) = mono_sns tk) by reflexivity.
  assert (Ew : wall_sns (rebased tk c) = wall_sns tk) by reflexivity.
  assert (R : readable (rebased tk c) c).
  { destruct (sps_pos tk S) as (_ & _ & Bk).
    split; unfold mono_at, wall_at; rewrite ?P, ?Z.add_0_r; [done | done | cbn; lia | done | done]. }
  pose proof (readable_same _ _ c T R) as R'.
  destruct (same_time_facts _ _ T) as (E1 & E2 & _ & E4 & _ & _ & _ & _ & E6 & E7 & _).
  assert (Es : shift (tkr_mono (tk_core w')) = shift (tkr_mono tk)) by (rewrite E6; reflexivity).
  destruct (tk_xtime_spec _ (inv_shift _ I) (inv_nsec _ I)) as (_ & _ & X & _);
    [destruct (inv_room _ I) as (? & _); lia |].
  split_and!; [done | done | | | done | | done].
  - rewrite ktime_get_spec by done. unfold mono_at. by rewrite E1, E4, P, Z.add_0_r, Es, Em.
  - unfold wall_at. by rewrite E2, E4, P, Z.add_0_r.
  - by rewrite <- X, E2, Es.
Qed.

(** The timekeeper that [timekeeping_resume] starts the clocks with. *)
Definition slept (tk : timekeeper) (d : option timespec64) : timekeeper :=
  match d with Some d => __timekeeping_inject_sleeptime tk d | None => tk end.

Lemma resume_world p ts_new cn rd : let d := sleep_delta p ts_new cn rd in
  exists w0, pm_world (timekeeping_resume p ts_new cn rd)
      = timekeeping_update (set_core w0 (rebased (slept (tk_core (pm_world p)) d) cn)) TkCore
          (Z.lor TK_MIRROR TK_CLOCK_WAS_SET)
    /\ timekeeping_suspended w0 = false
    /\ suspend_timing_needed w0
       = match d with Some _ => false | None => suspend_timing_needed (pm_world p) end.
Proof.
  cbn zeta. unfold timekeeping_resume. destruct (sleep_delta p ts_new cn rd) as [d |].
  - exists ((pm_world p) <| suspend_timing_needed := false |> <| timekeeping_suspended := false |>).
    split; [reflexivity | done].
  - exists ((pm_world p) <| timekeeping_suspended := false |>). split; [reflexivity | done].
Qed.

(** The time that a measured sleep adds. *)
Definition credited (d : option timespec64) : Z :=
  match d with Some d => if timespec64_valid_strict d then ts_ns d else 0 | None => 0 end.

(** The new timekeeper, whatever was measured. *)
Lemma slept_spec tk d : tk_inv tk -> (forall x, d = Some x -> ts_machine x) ->
  wall_sns tk + credited d * 2 ^ shift (tkr_mono tk) < 8999999998 * sps tk ->
  mono_sns tk < 8999999998 * sps tk ->
  let tk' := slept tk d in
  tkr_mono tk' = (tkr_mono tk) <| xtime_nsec := xtime_nsec (tkr_mono tk') |>
  /\ 0 <= xtime_nsec (tkr_mono tk') < sps tk'
  /\ mono_sns tk' = mono_sns tk
  /\ wall_sns tk' = wall_sns tk + credited d * 2 ^ shift (tkr_mono tk)
  /\ sec_room 0 tk' /\ offs_ok tk'
  /\ offs_boot tk' = match d with
       | Some x => if timespec64_valid_strict x then s64 (offs_boot tk + ts_ns x) else offs_boot tk
       | None => offs_boot tk end.
Proof.
  intros [S N Rm O _] M Bw Bm. cbn zeta. unfold slept, credited in *.
  assert (Eta : tkr_mono tk = (tkr_mono tk) <| xtime_nsec := xtime_nsec (tkr_mono tk) |>)
    by (by destruct (tkr_mono tk)).
  destruct d as [d |]; [| by rewrite Z.mul_0_l, Z.add_0_r].
  destruct (timespec64_valid_strict d) eqn:V.
  - exact (inject_tk_spec tk d S N Rm O (M d eq_refl) V Bw Bm).
  - unfold __timekeeping_inject_sleeptime. rewrite V. cbn [negb].
    by rewrite Z.mul_0_l, Z.add_0_r.
Qed.

(** A measured sleep fits the fields of the structure. *)
Lemma norm_down_s64 n s ns : is_s64 s -> is_s64 ns ->
  is_s64 (norm_down n s ns).1 /\ is_s64 (norm_down n s ns).2.
Proof.
  revert s ns. induction n as [| n IH]; intros s ns Hs Hn; simpl; destruct (_ <=? _); try done.
  apply IH; apply s64_range.
Qed.

Lemma norm_up_s64 n s ns : is_s64 s -> is_s64 ns ->
  is_s64 (norm_up n s ns).1 /\ is_s64 (norm_up n s ns).2.
Proof.
  revert s ns. induction n as [| n IH]; intros s ns Hs Hn; simpl; destruct (_ <? _); try done.
  apply IH; apply s64_range.
Qed.

Lemma timespec64_sub_machine a b : ts_machine (timespec64_sub a b).
Proof.
  unfold timespec64_sub, set_normalized_timespec64.
  generalize (norm_fuel (s64 (tv_nsec a - tv_nsec b))). intros n.
  pose proof (norm_down_s64 n _ _ (s64_range (tv_sec a - tv_sec b)) (s64_range (tv_nsec a - tv_nsec b)))
    as [D1 D2].
  destruct (norm_down n _ _) as [s ns]; simpl in *.
  pose proof (norm_up_s64 (norm_fuel ns) s ns D1 D2) as [U1 U2].
  destruct (norm_up (norm_fuel ns) s ns) as [s' ns']. exact (conj U1 U2).
Qed.

Lemma ns_to_timespec64_machine n : ts_machine (ns_to_timespec64 (s64 n)).
Proof.
  pose proof (s64_range n) as H. generalize dependent (s64 n). clear n. intros n H.
  unfold ns_to_timespec64, ts_machine. nanos.
  destruct (Z.ltb_spec 0 n); [simpl; cint |].
  destruct (Z.ltb_spec n 0); [simpl; cint | simpl; lia].
Qed.

Lemma sleep_delta_machine p ts_new cn rd x : sleep_delta p ts_new cn rd = Some x -> ts_machine x.
Proof.
  unfold sleep_delta. generalize (clocksource_stop_suspend_timing p
    (clock (tkr_mono (tk_core (pm_world p)))) cn rd). intros n.
  destruct (0 <? n); [intros [= <-]; apply ns_to_timespec64_machine |].
  destruct (0 <? _); [intros [= <-]; apply timespec64_sub_machine | done].
Qed.

(** ** A whole suspension *)

Section suspension.
Context (p : pm) (now : timespec64) (c : Z) (en : bool) (rd hc : Z).
Context (ts_new : timespec64) (cn rd' : Z).

Abbreviation tk := (tk_core (pm_world p)).
Abbreviation p1 := (timekeeping_suspend p now c en rd hc).
Abbreviation d := (sleep_delta p1 ts_new cn rd').
Abbreviation p2 := (timekeeping_resume p1 ts_new cn rd').

Context (I : tk_inv tk) (R : readable tk c).
Context (Bw : wall_at tk c + credited d * 2 ^ shift (tkr_mono tk) < 8999999998 * sps tk).
Context (Bm : mono_at tk c < 8999999998 * sps tk).

Lemma suspended_facts tk1 : forwarded tk tk1 c -> same_time tk1 (tk_core (pm_world p1)) ->
  let tk' := tk_core (pm_world p1) in
  mono_sns tk' = mono_at tk c /\ wall_sns tk' = wall_at tk c /\ sps tk' = sps tk
  /\ shift (tkr_mono tk') = shift (tkr_mono tk) /\ offs_boot tk' = offs_boot tk
  /\ mask (tkr_mono tk') = mask (tkr_mono tk) /\ mult (tkr_mono tk') = mult (tkr_mono tk).
Proof.
  intros F T. cbn zeta. revert T. generalize (tk_core (pm_world p1)). intros tk' T.
  destruct (same_time_facts _ _ T) as (E1 & E2 & E3 & _ & _ & _ & _ & _ & E6 & E7 & _).
  rewrite E1, E2, E3, E7, (fw_sec _ _ _ F), (fw_wall _ _ _ F), (fw_sps _ _ _ F), E6.
  split_and!; [done.. | | | |].
  - exact (fw_shift _ _ _ F).
  - apply (fw_offs _ _ _ F).
  - by rewrite (fw_mono _ _ _ F).
  - by rewrite (fw_mono _ _ _ F).
Qed.

Lemma suspend_resume_spec :
  tk_inv (tk_core (pm_world p2)) /\ readable (tk_core (pm_world p2)) cn
  /\ ktime_get (pm_world p2) cn = ktime_get (pm_world p) c
  /\ wall_at (tk_core (pm_world p2)) cn = wall_at tk c + credited d * 2 ^ shift (tkr_mono tk)
  /\ offs_boot (tk_core (pm_world p2)) = match d with
       | Some x => if timespec64_valid_strict x then s64 (offs_boot tk + ts_ns x) else offs_boot tk
       | None => offs_boot tk end
  /\ Z.shiftr (wall_at tk c + credited d * 2 ^ shift (tkr_mono tk)) (shift (tkr_mono tk))
     = ts_ns (tk_xtime (tk_core (pm_world p2)))
  /\ timekeeping_suspended (pm_world p2) = false
  /\ timekeeping_rtc_skipresume p2 = match d with Some _ => true | None => false end.
Proof.
  destruct (suspend_spec p now c en rd hc I R) as (tk1 & F & [T I1 _ Need _ _ _ _]).
  pose proof (suspended_facts tk1 F T) as (E1 & E2 & E3 & E4 & E5 & E6 & E7).
  destruct (resume_world p1 ts_new cn rd') as (w0 & Ew & F1 & F2). rewrite Need in F2.
  unfold timekeeping_rtc_skipresume. rewrite Ew.
  destruct (slept_spec (tk_core (pm_world p1)) d I1) as (G1 & G2 & G3 & G4 & G5 & G6 & G7);
    [intros x; apply sleep_delta_machine | by rewrite E2, E3, E4 | by rewrite E1, E3 |].
  rewrite E1 in G3. rewrite E2, E4 in G4. rewrite E5 in G7.
  clear T I1 Need. revert E1 E2 E3 E4 E5 E6 E7 G1 G2 G3 G4 G5 G6 G7 Bw F2.
  generalize (slept (tk_core (pm_world p1)) d) as tk3. generalize (tk_core (pm_world p1)) as tkS.
  generalize d as dd. intros dd tkS tk3 E1 E2 E3 E4 E5 E6 E7 G1 G2 G3 G4 G5 G6 G7 Bw' F2.
  assert (Es : shift (tkr_mono tk3) = shift (tkr_mono tk)) by (rewrite G1, <- E4; reflexivity).
  assert (Ep : sps tk3 = sps tk) by (unfold sps; by rewrite Es).
  destruct (sps_pos _ (inv_shift _ I)) as (_ & _ & Bk).
  destruct (rebase_spec w0 tk3 cn) as (H1 & H2 & H3 & H4 & H5 & H6 & _).
  { unfold shift_ok. rewrite Es. apply I. } { done. } { done. } { done. }
  { rewrite G1. cbn. rewrite E6. apply R. } { rewrite G1. cbn. rewrite E7. apply R. }
  { rewrite G3, Ep. lia. } { rewrite G4, Ep. lia. }
  destruct (update_flags (set_core w0 (rebased tk3 cn)) TkCore (Z.lor TK_MIRROR TK_CLOCK_WAS_SET))
    as [K1 K2]. revert H1 H2 H3 H4 H5 H6 K1 K2.
  generalize (timekeeping_update (set_core w0 (rebased tk3 cn)) TkCore
    (Z.lor TK_MIRROR TK_CLOCK_WAS_SET)). intros w' H1 H2 H3 H4 H5 H6 K1 K2.
  rewrite G4, Es in H6.
  refine (conj H1 (conj H2 (conj _ (conj (eq_trans H4 G4) (conj (eq_trans H5 G7) (conj H6
    (conj (eq_trans K1 F1) _))))))).
  - rewrite H3, Es, G3. symmetry. exact (ktime_get_spec _ _ I R).
  - rewrite K2. change (suspend_timing_needed (set_core w0 (rebased tk3 cn))) with
      (suspend_timing_needed w0). rewrite F2. by destruct dd.
Qed.

End suspension.

(** ** The persistent clock *)

(** Seconds of a normal timespec, from a bound of its value. *)
Lemma norm_secs t b : ts_norm t -> - b <= ts_ns t <= b ->
  - b - NSEC_PER_SEC <= tv_sec t * NSEC_PER_SEC <= b.
Proof. unfold ts_norm, ts_ns. nanos. lia. Qed.

(** A plausible value of the persistent clock or of its difference to the time
    of day. *)
Definition clock_like (t : timespec64) : Prop := ts_norm t /\ - 10 ^ 19 <= ts_ns t <= 10 ^ 19.

Lemma clock_like_secs t : clock_like t -> ts_norm t /\ - 2 ^ 58 <= tv_sec t < 2 ^ 58.
Proof. intros [N B]. split; [done |]. pose proof (norm_secs t _ N B) as H. nanos. lia. Qed.

(** The saved suspend time and difference belong together: what the time of day
    was at suspend is their sum. *)
Lemma compensate_spec tk suspend_time old : shift_ok tk ->
  0 <= xtime_nsec (tkr_mono tk) < sps tk -> 0 <= xtime_sec tk <= 9000000000 ->
  clock_like suspend_time -> clock_like old ->
  let '(st, od) := compensate tk suspend_time old in
  ts_norm st /\ - 2 ^ 59 <= tv_sec st < 2 ^ 59
  /\ ts_ns st + ts_ns od = Z.shiftr (wall_sns tk) (shift (tkr_mono tk)).
Proof.
  intros S N X Cs Co. destruct (tk_xtime_spec tk S N X) as (Nx & Sx & -> & _).
  pose proof (clock_like_secs _ Cs) as [Ns Bs]. pose proof (clock_like_secs _ Co) as [No Bo].
  destruct Cs as [_ Vs], Co as [_ Vo].
  unfold compensate. revert Nx Sx. generalize (tk_xtime tk). intros x Nx Sx.
  assert (Vx : 0 <= ts_ns x <= 10 ^ 19) by (unfold ts_ns; unfold ts_norm in Nx; nanos; lia).
  destruct (timespec64_sub_spec x suspend_time) as [Nd Ed]; [done | done | lia | lia |].
  revert Nd Ed. generalize (timespec64_sub x suspend_time). intros delta Nd Ed.
  pose proof (norm_secs delta (3 * 10 ^ 19) Nd ltac:(lia)) as Bd. nanos.
  destruct (timespec64_sub_spec delta old) as [Ndd Edd]; [done | done | lia | lia |].
  revert Ndd Edd. generalize (timespec64_sub delta old). intros dd Ndd Edd.
  pose proof (norm_secs dd (4 * 10 ^ 19) Ndd ltac:(lia)) as Bdd. nanos.
  destruct (2 <=? _); [split_and!; [done | lia | lia | lia] |].
  destruct (timespec64_add_spec suspend_time dd) as [Nst Est]; [done | done | lia | lia |].
  pose proof (norm_secs _ (6 * 10 ^ 19) Nst ltac:(lia)) as Bst. nanos.
  split_and!; [done | lia | lia | lia].
Qed.

Section persistent.
Context (p : pm) (now : timespec64) (c : Z) (en : bool) (rd hc : Z).
Context (ts_new : timespec64) (cn rd' : Z) (x : timespec64).

Abbreviation tk := (tk_core (pm_world p)).
Abbreviation p1 := (timekeeping_suspend p now c en rd hc).
Abbreviation p2 := (timekeeping_resume p1 ts_new cn rd').

(** Sleep measured by the persistent clock: after it, the time of day differs
    from the persistent clock by the difference saved at suspend. *)
Lemma persistent_drift : tk_inv tk -> readable tk c -> mono_at tk c < 8999999998 * sps tk ->
  suspend_clocksource p = None -> persistent_now p now = true ->
  clock_like now -> clock_like (old_delta p) -> clock_like ts_new ->
  sleep_delta p1 ts_new cn rd' = Some x -> timespec64_valid_strict x = true ->
  wall_at tk c + ts_ns x * 2 ^ shift (tkr_mono tk) < 8999999998 * sps tk ->
  ts_ns (tk_xtime (tk_core (pm_world p2))) = ts_ns ts_new + ts_ns (old_delta p1).
Proof.
  intros I R Bm Ns Pn Cn Co Cw Ed V Bw.
  assert (Cr : credited (Some x) = ts_ns x) by (unfold credited; by rewrite V).
  destruct (suspend_resume_spec p now c en rd hc ts_new cn rd' I R) as (_ & _ & _ & _ & _ & E & _);
    [rewrite Ed, Cr; exact Bw | exact Bm |].
  rewrite <- E, Ed, Cr. clear E.
  destruct (suspend_spec p now c en rd hc I R) as (tk1 & F & [_ _ _ _ Sc _ _ Sv]).
  rewrite Pn in Sv. rewrite Ns in Sc.
  pose proof (compensate_spec tk1 now (old_delta p) (fw_shift_ok _ _ _ I F) (fw_nsec _ _ _ F)) as C.
  destruct (fw_room _ _ _ F) as (X1 & _). specialize (C ltac:(lia) Cn Co). rewrite <- Sv in C.
  rewrite (fw_wall _ _ _ F), (fw_shift _ _ _ F) in C. destruct C as (Nst & Bst & C).
  unfold sleep_delta, clocksource_stop_suspend_timing in Ed. rewrite Sc in Ed.
  revert Nst Bst C Ed. generalize (timekeeping_suspend_time p1). generalize (old_delta p1).
  intros od st Nst Bst C Ed. change (0 <? 0) with false in Ed. cbv iota in Ed.
  destruct (0 <? timespec64_compare ts_new st); [injection Ed as <- | discriminate Ed].
  pose proof (clock_like_secs _ Cw) as [Nw Bww].
  destruct (timespec64_sub_spec ts_new st) as [_ Ex]; [done | done | lia | lia |].
  rewrite Z.add_comm, shiftr_sec by apply I. rewrite <- C, Ex. lia.
Qed.

End persistent.
