(* ===== verification/TimeClaims.v ===== *)
(** * Time: the properties

    Calendar conversions, the NTP state, the timekeeper and the two system
    calls that read it.  The witnesses run on a machine that has booted: a
    clock of 1 GHz, 14 November 2023, three seconds of uptime. *)
From S2P Require Import Prelude Timespec TimeConv TimeConvThms Ntp NtpThms Timekeeping TkEntry TkInv TkRead TkSet TkTick TkAdvance TkAdjust TkWorld TkLatch TkLatchThms TkSuspend TkSuspendThms.

(** ** Calendar *)

(** Dates that count the same seconds. *)
Lemma mktime64_after t off r : is_s64 t -> is_s32 off -> time64_to_tm t off = Some r -> mk_year (tm_year r + 1900) ->
  mktime64 (tm_year r + 1900) (tm_mon r + 1) (tm_mday r) (tm_hour r) (tm_min r) (tm_sec r) = t + off.
Proof.
  intros Ht Ho E Y. destruct (time64_to_tm_spec t off Ht Ho) as (r' & E' & T).
  rewrite E in E'. injection E' as <-. destruct T as ((Vm & Vd) & H1 & H2 & H3 & H4 & _).
  cbn [tm_date d_mon d_day d_year] in Vm, Vd.
  assert (tm_mday r <= 31) by (unfold month_days in Vd; destruct (leap _); simpl in Vd; repeat case_match; lia).
  rewrite mktime64_spec by (done || (unfold is_u32; lia) || lia). exact H4.
Qed.

Lemma mktime64_before d h m s : valid_date d -> mk_year (d_year d) -> 0 <= h < 24 -> 0 <= m < 60 -> 0 <= s < 60 ->
  exists r, time64_to_tm (mktime64 (d_year d) (d_mon d + 1) (d_day d) h m s) 0 = Some r
  /\ tm_date r = d /\ tm_hour r = h /\ tm_min r = m /\ tm_sec r = s.
Proof.
  intros V Y Hh Hm Hs. destruct V as [Vm Vd].
  assert (d_day d <= 31) by (unfold month_days in Vd; destruct (leap _); simpl in Vd; repeat case_match; lia).
  rewrite mktime64_spec by (done || (unfold is_u32; lia) || lia).
  set (t := _ + _). pose proof (year_bounds d (conj Vm Vd)) as B. unfold mk_year in Y.
  pose proof (days_before_year_mono 1 (d_year d) ltac:(lia)) as B1.
  pose proof (days_before_year_mono (d_year d + 1) 11767034 ltac:(lia)) as B2.
  change (days_before_year 1) with (-719162) in B1.
  change (days_before_year 11767034) with 4297101388 in B2.
  assert (Ed : Date (d_year d) (d_mon d) (d_day d) = d) by (by destruct d).
  destruct (time64_to_tm_spec t 0) as (r & E & T).
  { unfold t. rewrite Ed. change SECS_PER_DAY with 86400. unfold is_s64. lia. }
  { unfold is_s32. lia. }
  exists r. split; [done |]. destruct T as (V' & H1 & H2 & H3 & H4 & _).
  unfold t in H4. rewrite Ed in H4. unfold tm_clock in H4. change SECS_PER_DAY with 86400 in H4.
  split; [apply day_number_inj; [done | done | lia] | lia].
Qed.

(** C32. [time64_to_tm] always terminates and, for every 64-bit count of
    seconds and every 32-bit offset, gives a valid Gregorian date and time of
    day that count exactly that many seconds, with the right day of the week
    and of the year; one day later it gives the next date of the calendar.
    [mktime64] undoes [time64_to_tm] and the other way round, for every date of
    the years 1 to 11767033 (the years whose 365-fold fits 32 bits). *)
Theorem calendar_round_trip :
  (forall t off, is_s64 t -> is_s64 (t + SECS_PER_DAY) -> is_s32 off ->
     exists r r', time64_to_tm t off = Some r /\ tm_of r (t + off)
     /\ time64_to_tm (t + SECS_PER_DAY) off = Some r' /\ tm_clock r' = tm_clock r
     /\ tm_date r' = next_day (tm_date r))
  /\ (forall t off r, is_s64 t -> is_s32 off -> time64_to_tm t off = Some r ->
     mk_year (tm_year r + 1900) ->
     mktime64 (tm_year r + 1900) (tm_mon r + 1) (tm_mday r) (tm_hour r) (tm_min r) (tm_sec r)
       = t + off)
  /\ (forall d h m s, valid_date d -> mk_year (d_year d) -> 0 <= h < 24 -> 0 <= m < 60 -> 0 <= s < 60 ->
      exists r, time64_to_tm (mktime64 (d_year d) (d_mon d + 1) (d_day d) h m s) 0 = Some r
      /\ tm_date r = d /\ tm_hour r = h /\ tm_min r = m /\ tm_sec r = s).
Proof.
  split_and!; [| exact mktime64_after | exact mktime64_before].
  intros t off Ht Ht' Ho. destruct (time64_to_tm_spec t off Ht Ho) as (r & E & T).
  destruct (time64_to_tm_spec (t + SECS_PER_DAY) off Ht' Ho) as (r' & E' & T').
  exists r, r'. split_and!; try done; destruct T as (V & H1 & H2 & H3 & H4 & _),
    T' as (V' & H1' & H2' & H3' & H4' & _); unfold tm_clock in *;
    change SECS_PER_DAY with 86400 in *; [lia |].
  destruct (next_day_spec _ V) as [Vn En]. apply day_number_inj; [done | done |]. lia.
Qed.

Lemma calendar_round_trip_witness :
  (exists r r', time64_to_tm 951782400 0 = Some r
   /\ time64_to_tm (951782400 + SECS_PER_DAY) 0 = Some r' /\ tm_date r = Date 2000 1 29
   /\ tm_date r' = Date 2000 2 1)
  /\ mktime64 2023 11 14 22 13 20 = 1700000000
  /\ exists r, time64_to_tm (mktime64 2024 2 29 12 0 0) 0 = Some r /\ tm_date r = Date 2024 1 29.
Proof.
  destruct calendar_round_trip as (C & A & B). split_and!.
  - destruct (C 951782400 0) as (r & r' & E & _ & E' & _ & N); [vm_compute; split; congruence.. |].
    exists r, r'. split_and!; [exact E | exact E' | |].
    + vm_compute in E. injection E as <-. reflexivity.
    + vm_compute in E'. injection E' as <-. reflexivity.
  - apply (A 1700000000 0 (Tm 20 13 22 14 10 123 2 317));
      [vm_compute; split; congruence | vm_compute; split; congruence | reflexivity
      | vm_compute; split; congruence].
  - destruct (B (Date 2024 1 29) 12 0 0) as (r & E & D & _);
      [vm_compute; repeat split; congruence | vm_compute; split; congruence | lia | lia | lia |].
    exists r. split; [exact E | exact D].
Defined.

(** ** NTP *)

(** C33. Whatever sequence of seconds, [adjtimex] requests and clears has run
    since boot, the NTP variables stay in their ranges: the frequency within
    500 ppm, the time constant within 0 and 10, the phase offset within half a
    second. *)
Theorem ntp_variables_in_range n : ntp_reach n -> ntp_ok n.
Proof. apply ntp_reach_ok. Qed.

(** A request that asks for more than every limit. *)
Definition wild_timex : timex :=
  Timex 0x7fff (2 ^ 62) (2 ^ 60) 0 0 1 (2 ^ 62) 0 0 0 0 10000 0 0 0 0 0 0 0 0 0.

Lemma ntp_variables_in_range_witness :
  ntp_ok (__do_adjtimex (ntp_init 0) 1700000000 wild_timex (Timespec 1700000000 0) 0).1.1.1.
Proof. apply ntp_variables_in_range, reach_adjtimex, reach_init. Defined.

(** C34. A requested leap second happens once, at the end of the day.  From a
    clock in state [TIME_OK] with [STA_INS] set, the seconds shown after [k]
    ticks are [s + k] before midnight and [s + k - 1] from then on: 23:59:59 is
    shown twice.  With [STA_DEL] set, 23:59:59 is left out and the clock is one
    second ahead from then on. *)
Theorem leap_second_once n s k : time_state n = TIME_OK -> 0 <= s < 2 ^ 60 -> Z.of_nat k < 2 ^ 60 ->
  (flag (time_status n) STA_INS = true ->
     insert_at s mod 86400 = 0 /\ s + 1 < insert_at s <= s + 1 + 86400
     /\ (clock_after k (n, s)).2 = s + Z.of_nat k - passed k (insert_at s - s))
  /\ (flag (time_status n) STA_INS = false -> flag (time_status n) STA_DEL = true ->
     (delete_at s + 1) mod 86400 = 0 /\ s + 1 < delete_at s <= s + 1 + 86400
     /\ (clock_after k (n, s)).2 = s + Z.of_nat k + passed k (delete_at s - s)).
Proof.
  intros Ok Hs Hk. split.
  - intros Hi. split_and!; [unfold insert_at; cint.. |].
    apply (insert_course_inv n s Ok Hs k Hi Hk).
  - intros Hi Hd. split_and!; [unfold delete_at; cint.. |].
    apply (delete_course_inv n s Ok Hs k Hi Hd Hk).
Qed.

(** Ten seconds before the end of 30 June 2015, with an insertion pending. *)
Definition leap_ntp : ntp := (ntp_init 0) <| time_status := STA_INS |>.

Lemma leap_second_once_witness :
  (clock_after 9 (leap_ntp, 1435708790)).2 = 1435708799
  /\ (clock_after 10 (leap_ntp, 1435708790)).2 = 1435708799
  /\ (clock_after 11 (leap_ntp, 1435708790)).2 = 1435708800.
Proof.
  split_and!.
  - apply (leap_second_once leap_ntp 1435708790 9); [reflexivity | lia | lia | reflexivity].
  - apply (leap_second_once leap_ntp 1435708790 10); [reflexivity | lia | lia | reflexivity].
  - apply (leap_second_once leap_ntp 1435708790 11); [reflexivity | lia | lia | reflexivity].
Defined.

(** Reading the offset with [adjtimex] in microseconds never reports a
    negative value: the cast to an unsigned integer turns every pending offset
    below zero into a large positive one. *)
Lemma adjtimex_offset_not_negative n now txc ts tai : tx_modes txc = 0 ->
  flag (time_status n) STA_NANO = false ->
  let ns := shift_right (s64 (time_offset n * NTP_INTERVAL_FREQ)) NTP_SCALE_SHIFT in
  let reported := tx_offset (__do_adjtimex n now txc ts tai).1.1.2 in
  0 <= reported /\ (- 2 ^ 32 + 1000 <= ns < 0 -> reported = (2 ^ 32 + ns) / 1000).
Proof.
  intros M F. cbn zeta. rewrite adjtimex_read_offset by done. unfold NSEC_PER_USEC.
  generalize (shift_right (s64 (time_offset n * NTP_INTERVAL_FREQ)) NTP_SCALE_SHIFT).
  intros x. split; [cint |]. intros Hx. f_equal. cint.
Qed.

(** A clock that is a millisecond ahead: the offset is -1000 microseconds. *)
Definition ahead_ntp : ntp := (ntp_init 0) <| time_offset := - Z.shiftl 1000 32 |>.
Definition read_timex : timex := wild_timex <| tx_modes := 0 |>.

Example adjtimex_offset_example :
  shift_right (s64 (time_offset ahead_ntp * NTP_INTERVAL_FREQ)) NTP_SCALE_SHIFT = - 1000000
  /\ tx_offset (__do_adjtimex ahead_ntp 0 read_timex (Timespec 0 0) 0).1.1.2 = 4293967.
Proof.
  split; [reflexivity |].
  apply (adjtimex_offset_not_negative ahead_ntp 0 read_timex (Timespec 0 0) 0);
    [reflexivity | reflexivity | vm_compute; split; congruence].
Qed.

(** ** The timekeeper *)

(** The machine of the witnesses. *)
Definition ghz : clocksource := Clocksource 1 (Z.ones 64) 4194304 22 461373.
Definition no_read : tk_read_base := TkReadBase None 0 0 0 0 0 0 0.
Definition no_tk : timekeeper :=
  Timekeeper no_read no_read 0 0 (Timespec 0 0) 0 0 0 0 0 0 0 0 (Timespec 0 0) 0 0 0 0 0 0 0 0 0.
Definition no_world : world :=
  World no_tk no_tk (ntp_static 0) false (TkFast 0 no_read no_read) (TkFast 0 no_read no_read) true.
Definition booted : world :=
  Eval vm_compute in (timekeeping_init no_world (Timespec 1700000000 5) (Timespec 3 0) 0 ghz 1000).1.

(** Evaluates a closed bound. *)
Ltac bound := vm_compute; repeat split; congruence.

Lemma booted_inv : tk_inv (tk_core booted).
Proof. split; bound. Qed.

Lemma booted_readable c : 1000 <= c < 1000 + 2 ^ 30 -> readable (tk_core booted) c.
Proof.
  intros H.
  assert (E : pending (tk_core booted) c = (c - 1000) * 4194304).
  { unfold pending. change (mask (tkr_mono (tk_core booted))) with (Z.ones 64).
    change (cycle_last (tkr_mono (tk_core booted))) with 1000.
    change (mult (tkr_mono (tk_core booted))) with 4194304. f_equal.
    rewrite clocksource_delta_spec by lia. cbn zeta. rewrite Z.mod_small by lia.
    destruct (Z.ltb_spec (c - 1000) (2 ^ (64 - 1))); lia. }
  assert (Em : mono_sns (tk_core booted) = 12582912000000000) by reflexivity.
  assert (Ew : wall_sns (tk_core booted) = 7130316800000000020971520) by reflexivity.
  assert (Es : sps (tk_core booted) = 4194304000000000) by reflexivity.
  split; unfold mono_at, wall_at; rewrite ?E, ?Em, ?Ew, ?Es; try lia.
  - exists 64. split; [lia | reflexivity].
  - bound.
  - change (xtime_nsec (tkr_mono (tk_core booted))) with 20971520. lia.
Qed.

(** The two system calls.  After the time of day has been set to [ts],
    [get_current_time] returns the seconds of [ts] and [get_system_uptime]
    returns the seconds of the boot clock at that moment, which do not depend
    on [ts]. *)
Lemma syscalls_after_settimeofday w c ts : tk_inv (tk_core w) -> readable (tk_core w) c ->
  ts_machine ts -> timespec64_valid_settod ts = true -> ktime_get w c <= ts_ns ts ->
  ktime_get w c < 8999999999 * NSEC_PER_SEC ->
  0 <= offs_boot (tk_core w) -> ktime_get w c + offs_boot (tk_core w) < 2 ^ 63 ->
  let w' := (do_settimeofday64 w c ts).1 in
  sys_get_current_time w' = tv_sec ts
  /\ sys_get_system_uptime w' = (ktime_get w c + offs_boot (tk_core w)) / NSEC_PER_SEC.
Proof.
  intros I R M V L B Ob Bb. destruct (do_settimeofday64_spec w c ts I R M V B) as (w' & E & K & P).
  rewrite E. cbn [fst]. destruct (Z.leb_spec (ktime_get w c) (ts_ns ts)); [| lia].
  pose proof (km_inv _ _ _ K) as I'. destruct (inv_room _ I') as (X & _).
  split.
  - unfold sys_get_current_time, ktime_get_real_seconds. autorewrite with cint.
    rewrite (s64_id (s64 _)) by apply s64_range. rewrite <- (real_seconds_now w' c I' (km_read _ _ _ K) (km_now _ _ _ K)), P. done.
  - pose proof (ktime_get_spec w' c I' (km_read _ _ _ K)) as G. unfold mono_at in G.
    rewrite (km_now _ _ _ K), Z.add_0_r, (km_mono _ _ _ K) in G.
    unfold sys_get_system_uptime. rewrite boottime_seconds_spec;
      [| done | by rewrite (km_boot _ _ _ K) | by rewrite <- G, (km_boot _ _ _ K)].
    rewrite <- G, (km_boot _ _ _ K). autorewrite with cint. apply s64_id.
    pose proof (mono_range _ _ I R) as MR. rewrite <- ktime_get_spec in MR by done.
    unfold is_s64. nanos. Z.to_euclidean_division_equations; lia.
Qed.

(** C35. Setting the time of day.  A time that is in range and not less than
    the monotonic clock (the time the machine has been up, which is what keeps
    [wall_to_monotonic] from becoming positive) is accepted; the clock then
    reads exactly that time.  Any other time is refused with [EINVAL] and the time of day is unchanged.
    Either way the monotonic clock goes on from the same nanosecond and the
    invariant of the timekeeper holds.  After a time that was accepted,
    [get_current_time] returns its seconds and [get_system_uptime] the seconds of
    the boot clock, which do not depend on it. *)
Theorem settimeofday_sets_the_time w c ts : tk_inv (tk_core w) -> readable (tk_core w) c ->
  ts_machine ts -> ktime_get w c < 8999999999 * NSEC_PER_SEC ->
  let ok := timespec64_valid_settod ts && (ktime_get w c <=? ts_ns ts) in
  exists w', do_settimeofday64 w c ts = (w', if ok then 0 else - EINVAL)
  /\ tk_inv (tk_core w') /\ ktime_get w' c = ktime_get w c
  /\ (if ok then ktime_get_real_ts64 w' c = ts
      else wall_at (tk_core w') c = wall_at (tk_core w) c)
  /\ (ok = true -> 0 <= offs_boot (tk_core w) -> ktime_get w c + offs_boot (tk_core w) < 2 ^ 63 ->
      sys_get_current_time w' = tv_sec ts
      /\ sys_get_system_uptime w' = (ktime_get w c + offs_boot (tk_core w)) / NSEC_PER_SEC).
Proof.
  intros I R M B. cbn zeta. destruct (timespec64_valid_settod ts) eqn:V; cbn [andb].
  - destruct (do_settimeofday64_spec w c ts I R M V B) as (w' & E & K & P).
    exists w'. split_and!; [exact E | apply K | apply K | exact P |]. intros L Ob Bb. apply Z.leb_le in L.
    pose proof (syscalls_after_settimeofday w c ts I R M V L B Ob Bb) as S. by rewrite E in S.
  - exists w. unfold do_settimeofday64. rewrite V. done.
Qed.

Lemma settimeofday_sets_the_time_witness : exists w',
  do_settimeofday64 booted 2000 (Timespec 1800000000 7) = (w', 0)
  /\ ktime_get_real_ts64 w' 2000 = Timespec 1800000000 7 /\ ktime_get w' 2000 = 3000001000
  /\ sys_get_current_time w' = 1800000000 /\ sys_get_system_uptime w' = 3.
Proof.
  destruct (settimeofday_sets_the_time booted 2000 (Timespec 1800000000 7)) as (w' & E & _ & K & T & S);
    [exact booted_inv | apply booted_readable; lia | bound | bound |].
  destruct S as [S1 S2]; [reflexivity | bound | bound |].
  exists w'. split_and!; [exact E | exact T | exact K | exact S1 | exact S2].
Defined.

(** C36. Injecting an offset moves the time of day by exactly that offset, or
    leaves it and reports [EINVAL]; sleep time moves the time of day and the
    boot clock together.  The monotonic clock notices neither. *)
Theorem offsets_move_the_wall_clock_only w c d : tk_inv (tk_core w) -> readable (tk_core w) c ->
  ts_machine d -> - 2 ^ 59 <= tv_sec d < 2 ^ 59 -> 0 <= tv_nsec d < NSEC_PER_SEC ->
  mono_at (tk_core w) c < 8999999998 * sps (tk_core w) ->
  (exists w' (ok : bool), timekeeping_inject_offset w c d = (w', if ok then 0 else - EINVAL)
   /\ tk_inv (tk_core w') /\ ktime_get w' c = ktime_get w c
   /\ offs_boot (tk_core w') = offs_boot (tk_core w)
   /\ wall_at (tk_core w') c = wall_at (tk_core w) c
        + (if ok then ts_ns d * 2 ^ shift (tkr_mono (tk_core w)) else 0))
  /\ (timespec64_valid_strict d = true ->
      wall_at (tk_core w) c + ts_ns d * 2 ^ shift (tkr_mono (tk_core w)) < 8999999998 * sps (tk_core w) ->
      let w' := timekeeping_inject_sleeptime64 w c d in
      tk_inv (tk_core w') /\ ktime_get w' c = ktime_get w c
      /\ offs_boot (tk_core w') = s64 (offs_boot (tk_core w) + ts_ns d)
      /\ wall_at (tk_core w') c = wall_at (tk_core w) c + ts_ns d * 2 ^ shift (tkr_mono (tk_core w))).
Proof.
  intros I R M Bd Nd Bm. split.
  - destruct (timekeeping_inject_offset_spec w c d I R M Bd Nd Bm) as (w' & E & K & W).
    exists w', (offset_ok (timekeeping_forward_now (tk_core w) c) d).
    split_and!; [exact E | apply K | apply K | apply K | exact W].
  - intros V Bw. destruct (inject_sleeptime_spec w c d I R M V Bw Bm) as (I' & _ & K & W & O & _).
    cbn zeta. split_and!; [exact I' | exact K | exact O | exact W].
Qed.

Lemma offsets_move_the_wall_clock_only_witness :
  ktime_get (timekeeping_inject_sleeptime64 booted 2000 (Timespec 3600 0)) 2000 = 3000001000
  /\ offs_boot (tk_core (timekeeping_inject_sleeptime64 booted 2000 (Timespec 3600 0)))
     = 3600000000000.
Proof.
  destruct (offsets_move_the_wall_clock_only booted 2000 (Timespec 3600 0)) as [_ S];
    [exact booted_inv | apply booted_readable; lia | bound | bound | bound | bound |].
  destruct S as (_ & K & O & _); [reflexivity | bound |]. split; [exact K | exact O].
Defined.

(** C37. The tick never makes a clock jump.  Read at the same counter value,
    [CLOCK_MONOTONIC], [CLOCK_BOOTTIME] and [CLOCK_TAI] are the same to the
    nanosecond before and after [timekeeping_advance], whatever the number of
    intervals that it accumulates, a leap second on the way, the change of the
    multiplier that NTP asks for or a second borrowed by it; and the invariants
    of timekeeper, clock and NTP hold again. *)
Theorem tick_does_not_jump w mode c : timekeeping_suspended w = false -> tick_ready w c ->
  let w' := (timekeeping_advance w mode c).1 in
  ktime_get w' c = ktime_get w c
  /\ ktime_get_with_offset w' TK_OFFS_BOOT c = ktime_get_with_offset w TK_OFFS_BOOT c
  /\ ktime_get_with_offset w' TK_OFFS_TAI c = ktime_get_with_offset w TK_OFFS_TAI c
  /\ tk_inv (tk_core w') /\ clk_ok (tk_core w') /\ ntp_inv (w_ntp w').
Proof.
  intros S T. destruct (advance_world_spec w mode c S T) as [A1 A2 A3 A4 A5 A6 A7 A8].
  cbn zeta. split_and!; assumption.
Qed.

(** Seven and a half intervals, with an NTP tick that is 0.1 per mille long. *)
Definition fast_ntp : world :=
  booted <| w_ntp := (w_ntp booted) <| tick_length := 4295396792729600 |>
                                    <| tick_length_base := 4295396792729600 |> |>.

Lemma fast_ntp_ready : tick_ready fast_ntp 7501000.
Proof.
  split; [exact booted_inv | apply booted_readable; lia | reflexivity | split; bound
    | split; [bound |]; split; bound | bound | bound | bound | bound].
Qed.

Lemma tick_does_not_jump_witness :
  let w' := update_wall_time fast_ntp 7501000 in
  ktime_get w' 7501000 = 3007500000 /\ mult (tkr_mono (tk_core w')) = 4194723.
Proof.
  cbn zeta. split; [| vm_compute; reflexivity].
  etrans; [exact (proj1 (tick_does_not_jump fast_ntp TK_ADV_TICK 7501000 eq_refl fast_ntp_ready)) |].
  reflexivity.
Defined.

(** ** Clocks for interrupts *)

(** C38. A read of the NMI-safe clocks is atomic.  Whatever the interleaving of a
    reader with updates whose stores come in any order (fewer than [2 ^ 31]
    updates during the call), the time it returns is computed from the readout
    base that was the published one when it read the sequence count in its last
    pass, never from a mixture of two.  Updates that ran to their end have the
    effect of [update_fast_timekeeper]; and a reader that interrupts the writer
    at any store returns in one pass, without waiting for the writer. *)
Theorem fast_read_is_atomic seq0 r0 req ls s : is_u32 seq0 -> seq0 mod 2 = 0 ->
  flips ls < 2 ^ 32 -> latch_run ls (start seq0 r0 req) = Some s ->
  (forall ns, l_rd s = RDone req ns ->
     exists ls1 ls2 ls3 counter, ls = ls1 ++ LSeq :: ls2 ++ LRetry counter :: ls3
     /\ (LSeq ∉ ls2) /\ ns = answer req (register r0 ls1).1 counter)
  /\ (l_wr s = WIdle ->
      l_mem s = foldl (fun f tkr => update_fast_timekeeper tkr f) (TkFast seq0 r0 r0) (updates ls))
  /\ (l_rd s = RStart req -> forall counter,
      latch_run (alone req counter) s
      = Some (s <| l_rd := RDone req (answer req (register r0 ls).1 counter) |>)).
Proof.
  intros H1 H2 B Run. destruct (latch_invariant seq0 r0 req H1 H2 ls s Run B) as [I R].
  split_and!.
  - intros ns E. rewrite E in R. apply R.
  - intros E. rewrite E in I. apply I.
  - intros E counter. rewrite <- (writer_latched _ _ _ _ _ I).
    destruct s as [f w r]; cbn in E |- *. subst r. apply alone_returns.
Qed.

(** An update stopped after two stores. *)
Definition half_update : list latch_label :=
  [LUpdate (no_base <| base := 7 |> <| mult := 9 |>); LStore FBase; LStore FMult].

Lemma fast_read_is_atomic_witness : exists s,
  latch_run half_update (start 0 (no_base <| base := 1000 |>) ReadMono) = Some s
  /\ exists s', latch_run (alone ReadMono (fun _ => 5)) s = Some s'
     /\ l_rd s' = RDone ReadMono (1000, None).
Proof.
  eexists. split; [reflexivity |]. eexists. split.
  - apply (fast_read_is_atomic 0 (no_base <| base := 1000 |>) ReadMono half_update);
      [bound | reflexivity | reflexivity | reflexivity | reflexivity].
  - vm_compute. reflexivity.
Defined.

(** ** Suspend and resume *)

(** C39. A suspension.  While the machine is suspended ticks change nothing and
    the interrupt-safe clock stands still.  After it the monotonic clock goes on
    from the nanosecond at which it stopped, whatever the counter did; the sleep
    that was measured is added to the time of day and to the boot clock, and
    when no clock measured it the RTC is asked to.  Sleep measured by the
    persistent clock leaves the time of day exactly as far from the persistent
    clock as was saved at suspend, so that rounding does not add up over
    suspensions. *)
Theorem suspension_accounts_for_sleep p now c en rd hc ts_new cn rd' :
  let tk := tk_core (pm_world p) in
  let p1 := timekeeping_suspend p now c en rd hc in
  let p2 := timekeeping_resume p1 ts_new cn rd' in
  let d := sleep_delta p1 ts_new cn rd' in
  tk_inv tk -> readable tk c ->
  wall_at tk c + credited d * 2 ^ shift (tkr_mono tk) < 8999999998 * sps tk ->
  mono_at tk c < 8999999998 * sps tk ->
  ((forall mode x, timekeeping_advance (pm_world p1) mode x = (pm_world p1, false))
   /\ (readable (tk_core (pm_world p1)) hc -> forall hw local,
       fast_mono_now p1 hw local = ktime_get (pm_world p1) hc))
  /\ (tk_inv (tk_core (pm_world p2)) /\ timekeeping_suspended (pm_world p2) = false
      /\ ktime_get (pm_world p2) cn = ktime_get (pm_world p) c
      /\ wall_at (tk_core (pm_world p2)) cn = wall_at tk c + credited d * 2 ^ shift (tkr_mono tk)
      /\ offs_boot (tk_core (pm_world p2)) = match d with
           | Some x => if timespec64_valid_strict x then s64 (offs_boot tk + ts_ns x) else offs_boot tk
           | None => offs_boot tk end
      /\ timekeeping_rtc_skipresume p2 = match d with Some _ => true | None => false end)
  /\ (suspend_clocksource p = None -> persistent_now p now = true ->
      clock_like now -> clock_like (old_delta p) -> clock_like ts_new ->
      (exists x, d = Some x /\ timespec64_valid_strict x = true) ->
      ts_ns (tk_xtime (tk_core (pm_world p2))) = ts_ns ts_new + ts_ns (old_delta p1)).
Proof.
  cbv zeta. intros I R Bw Bm.
  destruct (suspend_spec p now c en rd hc I R) as (tk1 & _ & S).
  destruct (suspend_resume_spec p now c en rd hc ts_new cn rd' I R Bw Bm)
    as (J1 & _ & J3 & J4 & J5 & _ & J7 & J8).
  refine (conj (conj _ _) (conj (conj J1 (conj J7 (conj J3 (conj J4 (conj J5 J8))))) _)).
  - intros mode x. unfold timekeeping_advance. by rewrite (sp_stop _ _ _ _ _ _ S).
  - intros Rh hw local. exact (suspended_fast_clock _ _ _ _ _ _ hw local S Rh).
  - intros Ns Pn Cn Co Cw (x & Ed & V). rewrite Ed in Bw. unfold credited in Bw. rewrite V in Bw.
    exact (persistent_drift p now c en rd hc ts_new cn rd' x I R Bm Ns Pn Cn Co Cw Ed V Bw).
Qed.

(** The machine of the examples, with a persistent clock in whole seconds that
    goes with the time of day, before it sleeps for an hour. *)
Definition before_sleep : pm := Pm booted true (Timespec 0 0) (Timespec 0 0) 0 None 0.

Lemma suspension_accounts_for_sleep_witness :
  let p1 := timekeeping_suspend before_sleep (Timespec 1700000000 0) 2000 true 0 2000 in
  let p2 := timekeeping_resume p1 (Timespec 1700003600 0) 77 0 in
  ktime_get (pm_world p2) 77 = 3000001000 /\ timekeeping_rtc_skipresume p2 = true
  /\ ts_ns (tk_xtime (tk_core (pm_world p2))) = 1700003600000000000.
Proof.
  cbv zeta.
  destruct (suspension_accounts_for_sleep before_sleep (Timespec 1700000000 0) 2000 true 0 2000
    (Timespec 1700003600 0) 77 0) as (_ & (_ & _ & K & _ & _ & Sk) & P);
    [exact booted_inv | apply booted_readable; lia | bound | bound |].
  split_and!; [exact K | exact Sk |].
  etrans; [apply P; [reflexivity | reflexivity | bound | bound | bound |] | vm_compute; reflexivity].
  exists (Timespec 3599 999998995). split; vm_compute; reflexivity.
Defined.
